(** * Astro-Log-Sentiment: a shallow embedding of the pipeline core

    The development follows the repository's modules:
    - [Chunker]    : [chunk_text] of [src/analysis/runner.py];
    - [Aggregator] : [aggregate_sentiment], [aggregate_emotions] and the
                     analyzers' [analyze_text];
    - [Binary64]   : the two aggregates in the arithmetic of Python floats;
    - [Segmenter]  : [split_segments] of [src/scraping/oral_history_scraper.py];
    - [Db]         : the row store of [src/data/db.py];
    - [Runner]     : [_analyze_rows] and [run_analysis];
    - [Json]       : the text [json.dump(obj, f, indent=2)] writes and
                     [json.load] reads back;
    - [Checkpoint] : [_load_checkpoint] and [_save_checkpoint] of
                     [src/scraping/iss_blog_scraper.py];
    - [Reassembly] : the token windows of [chunk_text], put back together;
    - [Scores]     : what [analyze_text] reads from the items of a pipeline;
    - [Words]      : [str.split] and the text of a segment;
    - [Store]      : the keys of the schema, [insert_expeditions],
                     [map_date_to_expedition] and [get_unanalyzed];
    - [Pipeline]   : [run_analysis] as a whole;
    - [Rerun]      : [run_analysis], run a second time;
    - [Linguistic] : [LinguisticAnalyzer.analyze] of
                     [src/analysis/linguistic.py];
    - [Transcript] : [process_transcript] and [run] of the oral-history
                     scraper;
    - [BlogScraper]: [scrape_full_post] and [run] of the blog scraper.

    Python [int] is [Z], [str] is [string] (ASCII text), [list] is [list],
    a [dict] is an association list in insertion order, and a raised
    exception is the [Raise] branch of [result].  A [float] score is a
    rational of [Q]; [Binary64] rounds the sums and quotients of the
    aggregates as binary64 does, the other modules, which only compare
    and store scores, leave rounding out.  Tokenizers,
    scoring pipelines, linguistic measures and the clock are parameters,
    and so is what the scrapers download and parse. *)

From Stdlib Require Import ZArith QArith Qround Qabs Qpower Lia Lqa.
From Stdlib Require Import String Ascii SpecFloat.
From Stdlib Require DecimalPos.
From stdpp Require Import base tactics option list strings gmap.

Local Open Scope Z_scope.

(** ** Python exceptions and the error monad *)

Inductive exn : Type :=
| ValueError
| ZeroDivisionError
| ValidationError
| IndexError
| KeyError
| AttributeError
| TypeError
| IntegrityError
| OperationalError
| JSONDecodeError
| OracleError.

Inductive result (A : Type) : Type :=
| Ok (a : A)
| Raise (e : exn).
Arguments Ok {A} a.
Arguments Raise {A} e.

Definition rbind {A B : Type} (m : result A) (k : A → result B) : result B :=
  match m with
  | Ok a => k a
  | Raise e => Raise e
  end.

Notation "x ←? m ; k" := (rbind m (λ x, k))
  (at level 20, m at level 100, k at level 200, right associativity,
   format "x  ←?  m ;  '/' k").

Fixpoint rmapM {A B : Type} (f : A → result B) (l : list A) : result (list B) :=
  match l with
  | [] => Ok []
  | a :: l' => b ←? f a; bs ←? rmapM f l'; Ok (b :: bs)
  end.

Definition is_Ok {A : Type} (m : result A) : Prop := ∃ a, m = Ok a.

(** [len(l)] as a Python [int]. *)
Definition len {A : Type} (l : list A) : Z := Z.of_nat (length l).

(** Python slicing [l[start:stop]]: a negative index counts from the end,
    and both indices are clamped to the list. *)
Definition slice_index (n i : Z) : Z :=
  if i <? 0 then Z.max 0 (i + n) else Z.min i n.

Definition py_slice {A : Type} (l : list A) (start stop : Z) : list A :=
  let s := slice_index (len l) start in
  let e := slice_index (len l) stop in
  take (Z.to_nat (e - s)) (drop (Z.to_nat s) l).

(** [len(range(start, stop, step))] and [range(start, stop, step)];
    a zero step raises [ValueError]. *)
Definition range_len (start stop step : Z) : Z :=
  if 0 <? step then Z.max 0 ((stop - start + step - 1) / step)
  else Z.max 0 ((start - stop - step - 1) / (- step)).

Definition py_range (start stop step : Z) : result (list Z) :=
  if step =? 0 then Raise ValueError
  else Ok (map (λ i : nat, start + Z.of_nat i * step)
               (seq 0 (Z.to_nat (range_len start stop step)))).

(** ** The chunker: [chunk_text] *)

Module Chunker.

Section chunk_text.

(** The tokenizer oracle: [tokenizer.encode(text, add_special_tokens=False)]
    and [tokenizer.decode(ids, skip_special_tokens=True)]. *)
Context {token : Type}.
Variable encode : string → list token.
Variable decode : list token → string.

(** The body of [for start in range(0, len(token_ids), step)], with its
    [break] when a window reaches the end of the sequence. *)
Fixpoint chunk_loop (token_ids : list token) (max_tokens : Z)
    (starts : list Z) (chunks : list string) : list string :=
  match starts with
  | [] => chunks
  | start :: rest =>
      let end_ := Z.min (start + max_tokens) (len token_ids) in
      let chunk_ids := py_slice token_ids start end_ in
      let chunk_str := decode chunk_ids in
      let chunks := chunks ++ [chunk_str] in
      if end_ =? len token_ids then chunks
      else chunk_loop token_ids max_tokens rest chunks
  end.

Definition chunk_text (text : string) (max_tokens overlap : Z)
    : result (list string) :=
  let token_ids := encode text in
  if len token_ids <=? max_tokens then Ok [text]
  else
    let step := max_tokens - overlap in
    starts ←? py_range 0 (len token_ids) step;
    Ok (chunk_loop token_ids max_tokens starts []).

(** The call of [_analyze_rows]: the defaults [max_tokens=400],
    [overlap=100]. *)
Definition chunk_text_default (text : string) : result (list string) :=
  chunk_text text 400 100.

(** The same loop, recording the token range [(start, end)] of each window
    instead of its decoded text. *)
Fixpoint window_loop (n max_tokens : Z) (starts : list Z)
    (windows : list (Z * Z)) : list (Z * Z) :=
  match starts with
  | [] => windows
  | start :: rest =>
      let end_ := Z.min (start + max_tokens) n in
      let windows := windows ++ [(start, end_)] in
      if end_ =? n then windows
      else window_loop n max_tokens rest windows
  end.

Definition chunk_windows (n max_tokens overlap : Z) : result (list (Z * Z)) :=
  starts ←? py_range 0 n (max_tokens - overlap);
  Ok (window_loop n max_tokens starts []).

End chunk_text.

(** The properties of the windows the specification names. *)

Definition ceil_div (a b : Z) : Z := (a + b - 1) / b.

(** Every token position of [[0, n)] lies in some window. *)
Definition covers (ws : list (Z * Z)) (n : Z) : Prop :=
  ∀ i, 0 ≤ i < n → ∃ w, w ∈ ws ∧ w.1 ≤ i < w.2.

(** The number of token positions two windows have in common. *)
Definition shared (w w' : Z * Z) : Z :=
  Z.max 0 (Z.min w.2 w'.2 - Z.max w.1 w'.1).

Definition adjacent_share (ws : list (Z * Z)) (o : Z) : Prop :=
  ∀ (k : nat) w w', ws !! k = Some w → ws !! S k = Some w' → shared w w' = o.

(** No window is empty, every window but the last stops short of the end,
    each window reaches further than the one before it, and the last
    window ends at [n]. *)
Definition no_trailing (ws : list (Z * Z)) (n : Z) : Prop :=
  Forall (λ w, 0 ≤ w.1 < w.2 ∧ w.2 ≤ n) ws ∧
  (∀ (k : nat) w w', ws !! k = Some w → ws !! S k = Some w' →
     w.2 < n ∧ w.1 < w'.1 ∧ w.2 < w'.2) ∧
  (∃ w, last ws = Some w ∧ w.2 = n).

(** *** Arithmetic of the window grid *)

Lemma ceil_div_spec (a b : Z) :
  0 < b → b * (ceil_div a b - 1) < a ∧ a ≤ b * ceil_div a b.
Proof.
  intros Hb. unfold ceil_div.
  pose proof (Z.div_mod (a + b - 1) b ltac:(lia)) as Hdm.
  pose proof (Z.mod_pos_bound (a + b - 1) b Hb) as Hr.
  lia.
Qed.

Lemma ceil_div_pos (a b : Z) : 0 < a → 0 < b → 0 < ceil_div a b.
Proof.
  intros Ha Hb. destruct (ceil_div_spec a b Hb) as [_ H]. nia.
Qed.

Lemma range_len_ceil (n step : Z) :
  0 < step → 0 ≤ n → range_len 0 n step = ceil_div n step.
Proof.
  intros Hs Hn. unfold range_len, ceil_div.
  destruct (Z.ltb_spec 0 step); [|lia].
  rewrite Z.sub_0_r. apply Z.max_r.
  apply Z.div_pos; lia.
Qed.

(** The [k]-th window of the grid: it starts at [k * step] and is clipped
    to the sequence end. *)
Definition window (n max_tokens step : Z) (k : nat) : Z * Z :=
  (Z.of_nat k * step, Z.min (Z.of_nat k * step + max_tokens) n).

(** The index of the last window. *)
Definition last_index (n max_tokens overlap : Z) : nat :=
  Z.to_nat (ceil_div (n - max_tokens) (max_tokens - overlap)).

Section windows.

Variables n max_tokens overlap : Z.
Hypothesis Hoverlap : 0 ≤ overlap < max_tokens.
Hypothesis Hlong : max_tokens < n.

Let step := max_tokens - overlap.
Let m := last_index n max_tokens overlap.

Lemma last_index_spec :
  step * (Z.of_nat m - 1) < n - max_tokens ∧ n - max_tokens ≤ step * Z.of_nat m.
Proof using Hoverlap Hlong.
  unfold m, last_index.
  pose proof (ceil_div_pos (n - max_tokens) step ltac:(lia) ltac:(unfold step; lia)).
  pose proof (ceil_div_spec (n - max_tokens) step ltac:(unfold step; lia)).
  fold step. rewrite Z2Nat.id by lia. done.
Qed.

Lemma last_index_in_range : (m < Z.to_nat (range_len 0 n step))%nat.
Proof using Hoverlap Hlong.
  pose proof last_index_spec as [Hlo Hhi].
  rewrite range_len_ceil by (unfold step; lia).
  pose proof (ceil_div_spec n step ltac:(unfold step; lia)) as [_ Hn].
  assert (step * Z.of_nat m < n) by (unfold step in *; nia).
  assert (Z.of_nat m < ceil_div n step) by (unfold step in *; nia).
  lia.
Qed.

Lemma window_end (k : nat) :
  (window n max_tokens step k).2 = n ↔ (m ≤ k)%nat.
Proof using Hoverlap Hlong.
  pose proof last_index_spec as [Hlo Hhi]. cbn [window snd].
  assert (0 < step) by (unfold step; lia).
  split.
  - intros He. destruct (decide (m ≤ k)%nat) as [|Hn]; [done|].
    assert (Z.of_nat k ≤ Z.of_nat m - 1) by lia. nia.
  - intros Hk. assert (Z.of_nat m ≤ Z.of_nat k) by lia. nia.
Qed.

Lemma window_loop_grid (cnt k : nat) (acc : list (Z * Z)) :
  (k ≤ m)%nat → (m < k + cnt)%nat →
  window_loop n max_tokens
    (map (λ i : nat, 0 + Z.of_nat i * step) (seq k cnt)) acc
  = acc ++ map (window n max_tokens step) (seq k (S m - k)).
Proof using Hoverlap Hlong.
  revert k acc. induction cnt as [|cnt IH]; intros k acc Hk Hm; [lia|].
  cbn [seq map window_loop]. rewrite Z.add_0_l.
  change (Z.of_nat k * step, Z.min (Z.of_nat k * step + max_tokens) n)
    with (window n max_tokens step k).
  change (Z.min (Z.of_nat k * step + max_tokens) n)
    with (window n max_tokens step k).2.
  destruct (Z.eqb_spec (window n max_tokens step k).2 n) as [He|Hne].
  - apply window_end in He. replace (S m - k)%nat with 1%nat by lia. done.
  - assert (k < m)%nat as Hlt.
    { destruct (decide (m ≤ k)%nat) as [Hle|]; [|lia].
      apply window_end in Hle. done. }
    rewrite IH by lia. rewrite <- app_assoc.
    replace (S m - k)%nat with (S (m - k)) by lia.
    replace (S m - S k)%nat with (m - k)%nat by lia. done.
Qed.

(** The windows of the loop are exactly the first [m + 1] windows of the
    grid. *)
Lemma chunk_windows_grid :
  chunk_windows n max_tokens overlap
  = Ok (map (window n max_tokens step) (seq 0 (S m))).
Proof using Hoverlap Hlong.
  unfold chunk_windows, py_range. fold step.
  destruct (Z.eqb_spec step 0) as [H0|_]; [unfold step in H0; lia|].
  cbn [rbind]. f_equal.
  rewrite window_loop_grid; [|lia|pose proof last_index_in_range; lia].
  rewrite Nat.sub_0_r. done.
Qed.

Lemma grid_lookup (k : nat) w :
  map (window n max_tokens step) (seq 0 (S m)) !! k = Some w →
  (k ≤ m)%nat ∧ w = window n max_tokens step k.
Proof.
  rewrite list_lookup_fmap. intros Hk.
  destruct (seq 0 (S m) !! k) as [j|] eqn:Hj; [|done].
  apply lookup_seq in Hj as [-> Hj]. simplify_eq/=. split; [lia|done].
Qed.

Lemma grid_covers : covers (map (window n max_tokens step) (seq 0 (S m))) n.
Proof using Hoverlap Hlong.
  pose proof last_index_spec as [Hlo Hhi].
  assert (0 < step) as Hs by (unfold step; lia).
  intros i Hi.
  (* the window that starts at or just before [i], capped at the last one *)
  set (k := Nat.min (Z.to_nat (i / step)) m).
  exists (window n max_tokens step k). split.
  - apply list_elem_of_fmap. exists k. split; [done|].
    apply elem_of_seq. lia.
  - cbn [window fst snd].
    pose proof (Z.div_mod i step ltac:(lia)) as Hdm.
    pose proof (Z.mod_pos_bound i step Hs) as Hr.
    assert (0 ≤ i / step) by (apply Z.div_pos; lia).
    destruct (decide (Z.to_nat (i / step) ≤ m)%nat) as [Hle|Hgt].
    + replace k with (Z.to_nat (i / step)) by lia.
      rewrite Z2Nat.id by lia. unfold step in *. nia.
    + replace k with m by lia.
      assert (Z.of_nat m < i / step) by lia. unfold step in *. nia.
Qed.

Lemma grid_adjacent_share :
  adjacent_share (map (window n max_tokens step) (seq 0 (S m))) overlap.
Proof using Hoverlap Hlong.
  pose proof last_index_spec as [Hlo Hhi].
  intros k w w' Hw Hw'.
  apply grid_lookup in Hw as [Hk ->]. apply grid_lookup in Hw' as [Hk' ->].
  unfold shared. cbn [window fst snd].
  assert (Z.of_nat k ≤ Z.of_nat m - 1) by lia.
  rewrite Nat2Z.inj_succ. unfold step in *. nia.
Qed.

Lemma grid_no_trailing :
  no_trailing (map (window n max_tokens step) (seq 0 (S m))) n.
Proof using Hoverlap Hlong.
  pose proof last_index_spec as [Hlo Hhi].
  assert (0 < step) as Hs by (unfold step; lia).
  split; [|split].
  - apply Forall_forall. intros w Hw.
    apply list_elem_of_fmap in Hw as (k & -> & Hk).
    apply elem_of_seq in Hk. cbn [window fst snd].
    assert (Z.of_nat k ≤ Z.of_nat m) by lia. unfold step in *. nia.
  - intros k w w' Hw Hw'.
    apply grid_lookup in Hw as [Hk ->]. apply grid_lookup in Hw' as [Hk' ->].
    cbn [window fst snd]. rewrite Nat2Z.inj_succ.
    assert (Z.of_nat k ≤ Z.of_nat m - 1) by lia. unfold step in *. nia.
  - exists (window n max_tokens step m). split.
    + rewrite seq_S, map_app. cbn [map]. rewrite last_snoc. done.
    + apply window_end. done.
Qed.

End windows.

(** *** The decoded chunks are the windows of the token sequence *)

Lemma py_slice_in_range {A : Type} (l : list A) (s e : Z) :
  0 ≤ s ≤ e → e ≤ len l →
  py_slice l s e = take (Z.to_nat (e - s)) (drop (Z.to_nat s) l) ∧
  len (py_slice l s e) = e - s ∧
  ∀ j : nat, (j < Z.to_nat (e - s))%nat →
    py_slice l s e !! j = l !! (Z.to_nat s + j)%nat.
Proof.
  intros Hs He. unfold py_slice, slice_index.
  destruct (Z.ltb_spec s 0); [lia|]. destruct (Z.ltb_spec e 0); [lia|].
  rewrite !Z.min_l by lia. split; [done|]. split.
  - unfold len in *. rewrite length_take, length_drop. lia.
  - intros j Hj. rewrite lookup_take_lt by done. apply lookup_drop.
Qed.

Section chunks.

Context {token : Type}.
Variable encode : string → list token.
Variable decode : list token → string.

(** The text of a window: the decoded slice of the token sequence. *)
Definition window_text (token_ids : list token) (w : Z * Z) : string :=
  decode (py_slice token_ids w.1 w.2).

Lemma chunk_loop_windows (token_ids : list token) (max_tokens : Z)
    (starts : list Z) (ws : list (Z * Z)) :
  chunk_loop decode token_ids max_tokens starts (map (window_text token_ids) ws)
  = map (window_text token_ids)
        (window_loop (len token_ids) max_tokens starts ws).
Proof.
  revert ws. induction starts as [|start rest IH]; intros ws; [done|].
  cbn [chunk_loop window_loop].
  change (decode (py_slice token_ids start
            (Z.min (start + max_tokens) (len token_ids))))
    with (window_text token_ids
            (start, Z.min (start + max_tokens) (len token_ids))).
  change (?l ++ [window_text token_ids ?w])
    with (l ++ map (window_text token_ids) [w]).
  rewrite <- map_app.
  destruct (_ =? _); [done|]. apply IH.
Qed.

Lemma chunk_text_windows (text : string) (max_tokens overlap : Z) :
  max_tokens < len (encode text) →
  chunk_text encode decode text max_tokens overlap
  = ws ←? chunk_windows (len (encode text)) max_tokens overlap;
    Ok (map (window_text (encode text)) ws).
Proof.
  intros Hlong. unfold chunk_text, chunk_windows.
  destruct (Z.leb_spec (len (encode text)) max_tokens); [lia|].
  destruct (py_range _ _ _) as [starts|e]; [|done].
  cbn [rbind]. f_equal. apply (chunk_loop_windows _ _ _ []).
Qed.

(** The chunks of a long text, for Python integers [max_tokens] and
    [overlap] with [0 <= overlap < max_tokens]. *)
Lemma chunk_text_long (text : string) (max_tokens overlap : Z) :
  0 ≤ overlap < max_tokens →
  max_tokens < len (encode text) →
  ∃ ws : list (Z * Z),
    chunk_windows (len (encode text)) max_tokens overlap = Ok ws ∧
    chunk_text encode decode text max_tokens overlap
      = Ok (map (window_text (encode text)) ws) ∧
    len ws
      = ceil_div (len (encode text) - max_tokens) (max_tokens - overlap) + 1 ∧
    (∀ (k : nat) w, ws !! k = Some w →
       w = window (len (encode text)) max_tokens (max_tokens - overlap) k) ∧
    covers ws (len (encode text)) ∧
    adjacent_share ws overlap ∧
    no_trailing ws (len (encode text)).
Proof.
  intros Hov Hlong.
  set (n := len (encode text)) in *.
  set (m := last_index n max_tokens overlap).
  pose proof (ceil_div_pos (n - max_tokens) (max_tokens - overlap)
                ltac:(lia) ltac:(lia)) as Hpos.
  exists (map (window n max_tokens (max_tokens - overlap)) (seq 0 (S m))).
  split; [by apply chunk_windows_grid|].
  split; [|split; [|split; [|split; [|split]]]].
  - rewrite chunk_text_windows by done. fold n.
    by rewrite chunk_windows_grid.
  - unfold len. rewrite length_map, length_seq.
    unfold m, last_index. lia.
  - intros k w Hw. by apply grid_lookup in Hw as [_ ->].
  - by apply grid_covers.
  - by apply grid_adjacent_share.
  - by apply grid_no_trailing.
Qed.

(** C3. For a text of [N] tokens, a window of [W] tokens and an overlap of
    [O] tokens with [O < W]: when [N > W] the chunks are the decoded
    windows of the token sequence, the windows cover every position of
    [[0, N)], two adjacent windows share exactly [O] positions, no window
    is empty, each reaches further than the one before, and only the last
    one ends at [N]; when [N <= W] the text comes back unchanged as the
    only chunk. *)
Theorem chunk_text_coverage (text : string) (max_tokens overlap : nat) :
  (overlap < max_tokens)%nat →
  (Z.of_nat max_tokens < len (encode text) →
     ∃ ws : list (Z * Z),
       chunk_windows (len (encode text)) (Z.of_nat max_tokens)
         (Z.of_nat overlap) = Ok ws ∧
       chunk_text encode decode text (Z.of_nat max_tokens) (Z.of_nat overlap)
         = Ok (map (window_text (encode text)) ws) ∧
       covers ws (len (encode text)) ∧
       adjacent_share ws (Z.of_nat overlap) ∧
       no_trailing ws (len (encode text))) ∧
  (len (encode text) ≤ Z.of_nat max_tokens →
     chunk_text encode decode text (Z.of_nat max_tokens) (Z.of_nat overlap)
       = Ok [text]).
Proof.
  intros Hov. split.
  - intros Hlong.
    destruct (chunk_text_long text (Z.of_nat max_tokens) (Z.of_nat overlap)
                ltac:(lia) Hlong)
      as (ws & Hws & Htext & _ & _ & Hcov & Hshare & Htrail).
    by exists ws.
  - intros Hshort. unfold chunk_text.
    destruct (Z.leb_spec (len (encode text)) (Z.of_nat max_tokens));
      [done|lia].
Qed.

(** C4. For [N > W] tokens and an overlap [O < W], [chunk_text] returns
    exactly [ceil((N - W) / (W - O)) + 1] chunks; the window of index [k]
    starts at [k * (W - O)], every window before the last is a full window
    that ends short of [N], and the last one is clipped to end exactly at
    [N], where the loop stops. *)
Theorem chunk_text_count (text : string) (max_tokens overlap : nat) :
  (overlap < max_tokens)%nat →
  Z.of_nat max_tokens < len (encode text) →
  ∃ (chunks : list string) (ws : list (Z * Z)),
    chunk_text encode decode text (Z.of_nat max_tokens) (Z.of_nat overlap)
      = Ok chunks ∧
    chunk_windows (len (encode text)) (Z.of_nat max_tokens)
      (Z.of_nat overlap) = Ok ws ∧
    chunks = map (window_text (encode text)) ws ∧
    len chunks
      = ceil_div (len (encode text) - Z.of_nat max_tokens)
          (Z.of_nat max_tokens - Z.of_nat overlap) + 1 ∧
    ∀ (k : nat) w, ws !! k = Some w →
      w.1 = Z.of_nat k * (Z.of_nat max_tokens - Z.of_nat overlap) ∧
      (len chunks = Z.of_nat k + 1 → w.2 = len (encode text)) ∧
      (len chunks ≠ Z.of_nat k + 1 →
         w.2 = w.1 + Z.of_nat max_tokens ∧ w.2 < len (encode text)).
Proof.
  intros Hov Hlong.
  assert (0 ≤ Z.of_nat overlap < Z.of_nat max_tokens) as Hov' by lia.
  destruct (chunk_text_long text (Z.of_nat max_tokens) (Z.of_nat overlap)
              Hov' Hlong)
    as (ws & Hws & Htext & Hlen & Hgrid & _ & _ & _).
  exists (map (window_text (encode text)) ws), ws.
  split; [done|]. split; [done|]. split; [done|].
  assert (len (map (window_text (encode text)) ws) = len ws) as ->
    by (unfold len; by rewrite length_map).
  split; [done|].
  intros k w Hw. rewrite (Hgrid k w Hw). cbn [window fst snd].
  assert (Z.of_nat k < len ws) as Hklt
    by (apply lookup_lt_Some in Hw; unfold len; lia).
  pose proof (window_end _ _ _ Hov' Hlong k) as Hend.
  cbn [window snd] in Hend. unfold last_index in Hend.
  pose proof (ceil_div_pos (len (encode text) - Z.of_nat max_tokens)
                (Z.of_nat max_tokens - Z.of_nat overlap)
                ltac:(lia) ltac:(lia)) as Hpos.
  set (c := ceil_div _ _) in *.
  split; [done|]. split.
  - intros Hk. apply Hend. lia.
  - intros Hk.
    assert (¬ (Z.to_nat c ≤ k)%nat) as Hnk by lia.
    rewrite <- Hend in Hnk. lia.
Qed.

End chunks.

(** A tokenizer that makes every character a token, to run the chunker. *)
Definition char_encode (text : string) : list ascii := list_ascii_of_string text.
Definition char_decode (ids : list ascii) : string := string_of_list_ascii ids.

Example chunk_text_run :
  chunk_text char_encode char_decode "abcdefghij" 4 1
  = Ok ["abcd"; "defg"; "ghij"]%string.
Proof. reflexivity. Qed.

Example chunk_text_boundary :
  chunk_text char_encode char_decode "abcdefghijk" 4 1
  = Ok ["abcd"; "defg"; "ghij"; "jk"]%string.
Proof. reflexivity. Qed.

Lemma chunk_text_coverage_witness :
  ∃ ws : list (Z * Z),
    chunk_windows (len (char_encode "abcdefghijk")) 4 1 = Ok ws ∧
    chunk_text char_encode char_decode "abcdefghijk" 4 1
      = Ok (map (window_text char_decode (char_encode "abcdefghijk")) ws) ∧
    covers ws (len (char_encode "abcdefghijk")) ∧
    adjacent_share ws 1 ∧
    no_trailing ws (len (char_encode "abcdefghijk")).
Proof.
  apply (chunk_text_coverage char_encode char_decode "abcdefghijk" 4 1).
  - lia.
  - vm_compute. reflexivity.
Defined.

Lemma chunk_text_count_witness :
  ∃ (chunks : list string) (ws : list (Z * Z)),
    chunk_text char_encode char_decode "abcdefghijk" 4 1 = Ok chunks ∧
    chunk_windows (len (char_encode "abcdefghijk")) 4 1 = Ok ws ∧
    chunks = map (window_text char_decode (char_encode "abcdefghijk")) ws ∧
    len chunks = ceil_div (len (char_encode "abcdefghijk") - 4) (4 - 1) + 1 ∧
    ∀ (k : nat) w, ws !! k = Some w →
      w.1 = Z.of_nat k * (4 - 1) ∧
      (len chunks = Z.of_nat k + 1 → w.2 = len (char_encode "abcdefghijk")) ∧
      (len chunks ≠ Z.of_nat k + 1 →
         w.2 = w.1 + 4 ∧ w.2 < len (char_encode "abcdefghijk")).
Proof.
  apply (chunk_text_count char_encode char_decode "abcdefghijk" 4 1).
  - lia.
  - vm_compute. reflexivity.
Defined.

End Chunker.

(** ** ASCII case mapping: [str.upper()] and [str.lower()] *)

Definition is_upper (c : ascii) : bool :=
  (65 <=? nat_of_ascii c)%nat && (nat_of_ascii c <=? 90)%nat.
Definition is_lower (c : ascii) : bool :=
  (97 <=? nat_of_ascii c)%nat && (nat_of_ascii c <=? 122)%nat.
Definition ascii_upper (c : ascii) : ascii :=
  if is_lower c then ascii_of_nat (nat_of_ascii c - 32) else c.
Definition ascii_lower (c : ascii) : ascii :=
  if is_upper c then ascii_of_nat (nat_of_ascii c + 32) else c.

Fixpoint str_map (f : ascii → ascii) (s : string) : string :=
  match s with
  | EmptyString => EmptyString
  | String c s' => String (f c) (str_map f s')
  end.
Definition str_upper : string → string := str_map ascii_upper.
Definition str_lower : string → string := str_map ascii_lower.

(** ** Python dictionaries with string keys, in insertion order *)

Definition dict (V : Type) : Type := list (string * V).

Fixpoint dict_get {V : Type} (d : dict V) (k : string) : option V :=
  match d with
  | [] => None
  | (k', v) :: d' => if String.eqb k' k then Some v else dict_get d' k
  end.

(** [d[k] = v]: an existing key keeps its place, a new key goes last. *)
Fixpoint dict_set {V : Type} (d : dict V) (k : string) (v : V) : dict V :=
  match d with
  | [] => [(k, v)]
  | (k', v') :: d' =>
      if String.eqb k' k then (k', v) :: d' else (k', v') :: dict_set d' k v
  end.

Definition dict_keys {V : Type} (d : dict V) : list string := map fst d.

(** ** The aggregator and the analyzers *)

Module Aggregator.

Local Open Scope Q_scope.

(** Scores are Python floats, idealised here as exact rationals: sums,
    quotients and comparisons are those of [Q], without rounding.  The
    module [Binary64] below has the sums and quotients of the aggregates
    with their rounding. *)
Abbreviation score := Q (only parsing).

Definition Qgtb (x y : Q) : bool := negb (Qle_bool x y).

(** [Field(ge=0.0, le=1.0)]. *)
Definition valid_score (s : score) : bool := Qle_bool 0 s && Qle_bool s 1.

(** [Field(pattern=r"^(blog|oral_history)$")]. *)
Definition valid_source_type (s : string) : bool :=
  String.eqb s "blog" || String.eqb s "oral_history".

(** [Field(pattern=r"^(positive|negative|neutral)$")]. *)
Definition valid_label (s : string) : bool :=
  String.eqb s "positive" || String.eqb s "negative" || String.eqb s "neutral".

Module SentimentResult.
Record t : Type := Build {
  source_type : string;
  source_id : Z;
  label : string;
  positive_score : score;
  negative_score : score;
  neutral_score : score;
  model_name : string;
  analyzed_at : string
}.

Definition valid (r : t) : bool :=
  valid_source_type (source_type r) && valid_label (label r) &&
  valid_score (positive_score r) && valid_score (negative_score r) &&
  valid_score (neutral_score r).

(** The constructor call [SentimentResult(...)]: pydantic validates the
    fields and raises [ValidationError] when one is out of its range. *)
Definition make (source_type : string) (source_id : Z) (label : string)
    (positive_score negative_score neutral_score : score)
    (model_name analyzed_at : string) : result t :=
  let r := Build source_type source_id label positive_score negative_score
             neutral_score model_name analyzed_at in
  if valid r then Ok r else Raise ValidationError.
End SentimentResult.

Module EmotionResult.
Record t : Type := Build {
  source_type : string;
  source_id : Z;
  anger_score : score;
  disgust_score : score;
  fear_score : score;
  joy_score : score;
  neutral_score : score;
  sadness_score : score;
  surprise_score : score;
  dominant_emotion : string;
  model_name : string;
  analyzed_at : string
}.

Definition valid (r : t) : bool :=
  valid_source_type (source_type r) &&
  valid_score (anger_score r) && valid_score (disgust_score r) &&
  valid_score (fear_score r) && valid_score (joy_score r) &&
  valid_score (neutral_score r) && valid_score (sadness_score r) &&
  valid_score (surprise_score r).

Definition make (source_type : string) (source_id : Z)
    (anger_score disgust_score fear_score joy_score neutral_score
     sadness_score surprise_score : score)
    (dominant_emotion model_name analyzed_at : string) : result t :=
  let r := Build source_type source_id anger_score disgust_score fear_score
             joy_score neutral_score sadness_score surprise_score
             dominant_emotion model_name analyzed_at in
  if valid r then Ok r else Raise ValidationError.

(** [getattr(r, f"{e}_score")]. *)
Definition getattr_score (r : t) (e : string) : result score :=
  if String.eqb e "anger" then Ok (anger_score r)
  else if String.eqb e "disgust" then Ok (disgust_score r)
  else if String.eqb e "fear" then Ok (fear_score r)
  else if String.eqb e "joy" then Ok (joy_score r)
  else if String.eqb e "neutral" then Ok (neutral_score r)
  else if String.eqb e "sadness" then Ok (sadness_score r)
  else if String.eqb e "surprise" then Ok (surprise_score r)
  else Raise AttributeError.
End EmotionResult.

(** [sum(xs)]: the running total starts from [0]. *)
Definition py_sum (xs : list score) : score := fold_left Qplus xs 0.

(** [total / n] for an [int] [n]. *)
Definition py_div (total : score) (n : Z) : result score :=
  if (n =? 0)%Z then Raise ZeroDivisionError else Ok (total / inject_Z n).

(** [max(d, key=d.get)]: the keys are visited in insertion order and the
    running maximum is replaced only by a strictly greater value. *)
Definition py_max_key (d : dict score) : result string :=
  match d with
  | [] => Raise ValueError
  | kv :: d' =>
      Ok (fold_left (λ best kv', if Qgtb kv'.2 best.2 then kv' else best)
                    d' kv).1
  end.

(** [d[k]] *)
Definition dict_item (d : dict score) (k : string) : result score :=
  match dict_get d k with
  | Some v => Ok v
  | None => Raise KeyError
  end.

Definition aggregate_sentiment (results : list SentimentResult.t)
    (source_type : string) (source_id : Z) (model_name : string)
    (utcnow : string) : result SentimentResult.t :=
  let n := len results in
  pos ←? py_div (py_sum (map SentimentResult.positive_score results)) n;
  neg ←? py_div (py_sum (map SentimentResult.negative_score results)) n;
  neu ←? py_div (py_sum (map SentimentResult.neutral_score results)) n;
  let scores := [("positive", pos); ("negative", neg); ("neutral", neu)]%string in
  label ←? py_max_key scores;
  SentimentResult.make source_type source_id label pos neg neu
    model_name utcnow.

Definition EMOTION_LABELS : list string :=
  ["anger"; "disgust"; "fear"; "joy"; "neutral"; "sadness"; "surprise"]%string.

Definition aggregate_emotions (results : list EmotionResult.t)
    (source_type : string) (source_id : Z) (model_name : string)
    (utcnow : string) : result EmotionResult.t :=
  let n := len results in
  let emotions := EMOTION_LABELS in
  means ←? rmapM (λ e,
             xs ←? rmapM (λ r, EmotionResult.getattr_score r e) results;
             mean ←? py_div (py_sum xs) n;
             Ok (e, mean)) emotions;
  dominant ←? py_max_key means;
  anger ←? dict_item means "anger";
  disgust ←? dict_item means "disgust";
  fear ←? dict_item means "fear";
  joy ←? dict_item means "joy";
  neutral ←? dict_item means "neutral";
  sadness ←? dict_item means "sadness";
  surprise ←? dict_item means "surprise";
  EmotionResult.make source_type source_id anger disgust fear joy neutral
    sadness surprise dominant model_name utcnow.

(** *** The analyzers: [analyze_text] of [sentiment.py] and [emotion.py]

    The scoring pipeline is an oracle: [pipe text] is the list of
    [{"label", "score"}] items the model returns, or an exception. *)

Definition dict_mem {V : Type} (d : dict V) (k : string) : bool :=
  match dict_get d k with Some _ => true | None => false end.

Module SentimentAnalyzer.

Definition LABEL_MAP : dict string :=
  [("negative", "negative"); ("neutral", "neutral"); ("positive", "positive");
   ("LABEL_0", "negative"); ("LABEL_1", "neutral"); ("LABEL_2", "positive")]%string.

(** The loop [for item in results] over the score dictionary. *)
Definition collect_scores (results : list (string * score)) : dict score :=
  fold_left
    (λ scores item,
       let mapped_label :=
         default (str_lower item.1) (dict_get LABEL_MAP item.1) in
       if dict_mem scores mapped_label
       then dict_set scores mapped_label item.2
       else scores)
    results
    [("positive", 0); ("negative", 0); ("neutral", 0)]%string.

Definition analyze_text (pipe : string → result (list (string * score)))
    (self_model_name : string) (text source_type : string) (source_id : Z)
    (utcnow : string) : result SentimentResult.t :=
  results ←? pipe text;
  let scores := collect_scores results in
  label ←? py_max_key scores;
  pos ←? dict_item scores "positive";
  neg ←? dict_item scores "negative";
  neu ←? dict_item scores "neutral";
  SentimentResult.make source_type source_id label pos neg neu
    self_model_name utcnow.

End SentimentAnalyzer.

Module EmotionAnalyzer.

Definition collect_scores (results : list (string * score)) : dict score :=
  fold_left
    (λ scores item,
       let label := str_lower item.1 in
       if dict_mem scores label then dict_set scores label item.2 else scores)
    results
    (map (λ e, (e, 0)) EMOTION_LABELS).

Definition analyze_text (pipe : string → result (list (string * score)))
    (self_model_name : string) (text source_type : string) (source_id : Z)
    (utcnow : string) : result EmotionResult.t :=
  results ←? pipe text;
  let scores := collect_scores results in
  dominant ←? py_max_key scores;
  anger ←? dict_item scores "anger";
  disgust ←? dict_item scores "disgust";
  fear ←? dict_item scores "fear";
  joy ←? dict_item scores "joy";
  neutral ←? dict_item scores "neutral";
  sadness ←? dict_item scores "sadness";
  surprise ←? dict_item scores "surprise";
  EmotionResult.make source_type source_id anger disgust fear joy neutral
    sadness surprise dominant self_model_name utcnow.

End EmotionAnalyzer.

(** *** What the specification says of the aggregate *)

(** The unweighted arithmetic mean of a list of scores. *)
Definition arith_mean (xs : list score) : score :=
  fold_right Qplus 0 xs / inject_Z (len xs).

(** The label set in its declared order, with a result's score for each. *)
Definition sentiment_scores (r : SentimentResult.t) : dict score :=
  [("positive", SentimentResult.positive_score r);
   ("negative", SentimentResult.negative_score r);
   ("neutral", SentimentResult.neutral_score r)]%string.

Definition emotion_scores (r : EmotionResult.t) : dict score :=
  [("anger", EmotionResult.anger_score r);
   ("disgust", EmotionResult.disgust_score r);
   ("fear", EmotionResult.fear_score r);
   ("joy", EmotionResult.joy_score r);
   ("neutral", EmotionResult.neutral_score r);
   ("sadness", EmotionResult.sadness_score r);
   ("surprise", EmotionResult.surprise_score r)]%string.

(** [k] is the dominant label of [d]: no label scores higher, and every
    label declared before [k] scores strictly lower (a tie goes to the
    label declared first). *)
Definition dominant_in (d : dict score) (k : string) : Prop :=
  ∃ (i : nat) (v : score),
    d !! i = Some (k, v) ∧
    (∀ (j : nat) kv, d !! j = Some kv → kv.2 <= v) ∧
    (∀ (j : nat) kv, (j < i)%nat → d !! j = Some kv → kv.2 < v).

(** *** Sums, means and their bounds *)

Lemma Qgtb_spec (x y : Q) : Qgtb x y = true ↔ y < x.
Proof.
  unfold Qgtb. rewrite negb_true_iff.
  destruct (Qle_bool x y) eqn:Hle.
  - apply Qle_bool_iff in Hle. split; [done|]. intros Hlt.
    exfalso. apply (Qlt_not_le _ _ Hlt). done.
  - split; [|done]. intros _. apply Qnot_le_lt. intros Hxy.
    apply Qle_bool_iff in Hxy. congruence.
Qed.

Lemma valid_score_spec (s : score) : valid_score s = true ↔ 0 <= s ∧ s <= 1.
Proof.
  unfold valid_score. rewrite andb_true_iff, !Qle_bool_iff. done.
Qed.

Lemma fold_left_Qplus (xs : list score) (a : score) :
  fold_left Qplus xs a == a + fold_right Qplus 0 xs.
Proof.
  revert a. induction xs as [|x xs IH]; intros a; cbn [fold_left fold_right].
  - ring.
  - rewrite IH. ring.
Qed.

Lemma py_sum_spec (xs : list score) : py_sum xs == fold_right Qplus 0 xs.
Proof. unfold py_sum. rewrite fold_left_Qplus. ring. Qed.

Lemma sum_bounds (xs : list score) :
  Forall (λ x, valid_score x = true) xs →
  0 <= fold_right Qplus 0 xs ∧ fold_right Qplus 0 xs <= inject_Z (len xs).
Proof.
  induction 1 as [|x xs Hx _ [IHlo IHhi]]; cbn [fold_right].
  - split; apply Qle_refl.
  - apply valid_score_spec in Hx as [Hx0 Hx1].
    unfold len in *. cbn [length]. rewrite Nat2Z.inj_succ, <- Z.add_1_r.
    rewrite inject_Z_plus. change (inject_Z 1) with 1. split; lra.
Qed.

Lemma py_div_nonzero (total : score) (n : Z) :
  n ≠ 0%Z → py_div total n = Ok (total / inject_Z n).
Proof. intros Hn. unfold py_div. destruct (Z.eqb_spec n 0); done. Qed.

Lemma len_nonempty {A : Type} (l : list A) : l ≠ [] → (0 < len l)%Z.
Proof. destruct l; [done|]. intros _. unfold len. cbn [length]. lia. Qed.

(** The mean of valid scores is a valid score. *)
Lemma mean_valid (xs : list score) :
  xs ≠ [] → Forall (λ x, valid_score x = true) xs →
  valid_score (py_sum xs / inject_Z (len xs)) = true.
Proof.
  intros Hne Hxs. apply valid_score_spec.
  pose proof (len_nonempty xs Hne) as Hlen.
  destruct (sum_bounds xs Hxs) as [Hlo Hhi].
  assert (0 < inject_Z (len xs)) as Hpos.
  { change 0 with (inject_Z 0). rewrite <- Zlt_Qlt. done. }
  rewrite py_sum_spec. split.
  - apply Qle_shift_div_l; [done|]. lra.
  - apply Qle_shift_div_r; [done|]. lra.
Qed.

(** *** [max(d, key=d.get)] picks the dominant label *)

Lemma fold_max_dominant (d' : dict score) (kv0 : string * score) :
  let best :=
    fold_left (λ best kv', if Qgtb kv'.2 best.2 then kv' else best) d' kv0 in
  ∃ i : nat,
    (kv0 :: d') !! i = Some best ∧
    (∀ (j : nat) kv, (kv0 :: d') !! j = Some kv → kv.2 <= best.2) ∧
    (∀ (j : nat) kv, (j < i)%nat → (kv0 :: d') !! j = Some kv → kv.2 < best.2).
Proof.
  induction d' as [|x d' IH] using rev_ind; cbn zeta.
  - cbn [fold_left]. exists 0%nat. split; [done|]. split.
    + intros [|j] kv Hj; simplify_eq/=. apply Qle_refl.
    + intros j kv Hj. lia.
  - rewrite fold_left_app. cbn [fold_left].
    cbn zeta in IH. destruct IH as (i & Hi & Hmax & Hfirst).
    set (best := fold_left _ d' kv0) in *.
    rewrite app_comm_cons.
    destruct (Qgtb x.2 best.2) eqn:Hgt.
    + apply Qgtb_spec in Hgt.
      exists (length (kv0 :: d')). split; [|split].
      * rewrite lookup_app_r by done. by rewrite Nat.sub_diag.
      * intros j kv Hj. apply lookup_app_Some in Hj as [Hj|[_ Hj]].
        -- apply Qlt_le_weak. eapply Qle_lt_trans; [by eapply Hmax|done].
        -- apply list_lookup_singleton_Some in Hj as [_ ->]. apply Qle_refl.
      * intros j kv Hlt Hj. rewrite lookup_app_l in Hj by done.
        eapply Qle_lt_trans; [by eapply Hmax|done].
    + assert (x.2 <= best.2) as Hle.
      { apply Qnot_lt_le. intros Hlt. apply Qgtb_spec in Hlt. congruence. }
      exists i. split; [|split].
      * apply lookup_app_l_Some. done.
      * intros j kv Hj. apply lookup_app_Some in Hj as [Hj|[_ Hj]].
        -- by eapply Hmax.
        -- apply list_lookup_singleton_Some in Hj as [_ ->]. done.
      * intros j kv Hlt Hj.
        apply lookup_lt_Some in Hi.
        rewrite lookup_app_l in Hj by lia. by eapply Hfirst.
Qed.

Lemma py_max_key_dominant (d : dict score) :
  d ≠ [] → ∃ k, py_max_key d = Ok k ∧ dominant_in d k.
Proof.
  destruct d as [|kv0 d']; [done|]. intros _. cbn [py_max_key].
  eexists. split; [done|].
  destruct (fold_max_dominant d' kv0) as (i & Hi & Hmax & Hfirst).
  exists i, (fold_left (λ best kv', if Qgtb kv'.2 best.2 then kv' else best)
               d' kv0).2.
  split; [|done]. by rewrite <- surjective_pairing.
Qed.

Lemma dominant_in_key (d : dict score) (k : string) :
  dominant_in d k → k ∈ dict_keys d.
Proof.
  intros (i & v & Hi & _). unfold dict_keys.
  apply list_elem_of_fmap. exists (k, v). split; [done|].
  by eapply list_elem_of_lookup_2.
Qed.

(** The dominant label is unique. *)
Lemma dominant_in_unique (d : dict score) (k k' : string) :
  dominant_in d k → dominant_in d k' → k = k'.
Proof.
  intros (i & v & Hi & Hmax & Hfirst) (i' & v' & Hi' & Hmax' & Hfirst').
  destruct (Nat.lt_trichotomy i i') as [Hlt|[->|Hlt]].
  - pose proof (Hfirst' _ _ Hlt Hi) as H1. pose proof (Hmax _ _ Hi') as H2.
    cbn in *. exfalso. apply (Qlt_not_le _ _ H1). done.
  - congruence.
  - pose proof (Hfirst _ _ Hlt Hi') as H1. pose proof (Hmax' _ _ Hi) as H2.
    cbn in *. exfalso. apply (Qlt_not_le _ _ H1). done.
Qed.

Lemma rmapM_total {A B : Type} (f : A → result B) (g : A → B) (l : list A) :
  (∀ a, f a = Ok (g a)) → rmapM f l = Ok (map g l).
Proof.
  intros Hf. induction l as [|a l IH]; [done|].
  cbn [rmapM map]. rewrite Hf, IH. done.
Qed.

(** *** The aggregates of a non-empty list *)

Section aggregates.

Variables (source_type : string) (source_id : Z) (model_name utcnow : string).

(** The mean the code computes for one score field. *)
Definition py_mean {R : Type} (f : R → score) (results : list R) : score :=
  py_sum (map f results) / inject_Z (len results).

Lemma aggregate_sentiment_nonempty (results : list SentimentResult.t) :
  results ≠ [] →
  let pos := py_mean SentimentResult.positive_score results in
  let neg := py_mean SentimentResult.negative_score results in
  let neu := py_mean SentimentResult.neutral_score results in
  ∃ label,
    dominant_in [("positive", pos); ("negative", neg); ("neutral", neu)]%string
      label ∧
    aggregate_sentiment results source_type source_id model_name utcnow
    = SentimentResult.make source_type source_id label pos neg neu
        model_name utcnow.
Proof.
  intros Hne pos neg neu.
  pose proof (len_nonempty results Hne) as Hlen.
  destruct (py_max_key_dominant
    [("positive", pos); ("negative", neg); ("neutral", neu)]%string
    ltac:(done)) as (label & Hkey & Hdom).
  exists label. split; [done|].
  unfold aggregate_sentiment. rewrite !py_div_nonzero by lia.
  cbn [rbind].
  repeat change (py_sum (map ?f results) / inject_Z (len results))
    with (py_mean f results).
  fold pos neg neu. rewrite Hkey. done.
Qed.

Lemma aggregate_emotions_nonempty (results : list EmotionResult.t) :
  results ≠ [] →
  let anger := py_mean EmotionResult.anger_score results in
  let disgust := py_mean EmotionResult.disgust_score results in
  let fear := py_mean EmotionResult.fear_score results in
  let joy := py_mean EmotionResult.joy_score results in
  let neutral := py_mean EmotionResult.neutral_score results in
  let sadness := py_mean EmotionResult.sadness_score results in
  let surprise := py_mean EmotionResult.surprise_score results in
  ∃ dominant,
    dominant_in
      [("anger", anger); ("disgust", disgust); ("fear", fear); ("joy", joy);
       ("neutral", neutral); ("sadness", sadness);
       ("surprise", surprise)]%string dominant ∧
    aggregate_emotions results source_type source_id model_name utcnow
    = EmotionResult.make source_type source_id anger disgust fear joy
        neutral sadness surprise dominant model_name utcnow.
Proof.
  intros Hne anger disgust fear joy neutral sadness surprise.
  pose proof (len_nonempty results Hne) as Hlen.
  destruct (py_max_key_dominant
    [("anger", anger); ("disgust", disgust); ("fear", fear); ("joy", joy);
     ("neutral", neutral); ("sadness", sadness); ("surprise", surprise)]%string
    ltac:(done)) as (dominant & Hkey & Hdom).
  exists dominant. split; [done|].
  unfold aggregate_emotions. cbn [EMOTION_LABELS rmapM].
  rewrite (rmapM_total _ EmotionResult.anger_score) by done.
  rewrite (rmapM_total _ EmotionResult.disgust_score) by done.
  rewrite (rmapM_total _ EmotionResult.fear_score) by done.
  rewrite (rmapM_total _ EmotionResult.joy_score) by done.
  rewrite (rmapM_total _ EmotionResult.neutral_score) by done.
  rewrite (rmapM_total _ EmotionResult.sadness_score) by done.
  rewrite (rmapM_total _ EmotionResult.surprise_score) by done.
  cbn [rbind]. rewrite !py_div_nonzero by lia. cbn [rbind].
  repeat change (py_sum (map ?f results) / inject_Z (len results))
    with (py_mean f results).
  fold anger disgust fear joy neutral sadness surprise.
  rewrite Hkey. done.
Qed.

Lemma aggregate_sentiment_empty :
  aggregate_sentiment [] source_type source_id model_name utcnow
  = Raise ZeroDivisionError.
Proof. reflexivity. Qed.

Lemma aggregate_emotions_empty :
  aggregate_emotions [] source_type source_id model_name utcnow
  = Raise ZeroDivisionError.
Proof. reflexivity. Qed.

End aggregates.

(** *** Validation of the aggregate *)

Lemma py_mean_valid {R : Type} (f : R → score) (results : list R) :
  results ≠ [] → Forall (λ r, valid_score (f r) = true) results →
  valid_score (py_mean f results) = true.
Proof.
  intros Hne Hall. unfold py_mean.
  replace (len results) with (len (map f results))
    by (unfold len; by rewrite length_map).
  apply mean_valid.
  - by destruct results.
  - by apply Forall_fmap.
Qed.

Lemma sentiment_valid_scores (results : list SentimentResult.t) :
  Forall (λ r, SentimentResult.valid r = true) results →
  Forall (λ r, valid_score (SentimentResult.positive_score r) = true) results ∧
  Forall (λ r, valid_score (SentimentResult.negative_score r) = true) results ∧
  Forall (λ r, valid_score (SentimentResult.neutral_score r) = true) results.
Proof.
  intros Hall. repeat split; eapply Forall_impl; try exact Hall;
    intros r Hr; unfold SentimentResult.valid in Hr;
    repeat (apply andb_true_iff in Hr as [Hr ?]); done.
Qed.

Lemma emotion_valid_scores (results : list EmotionResult.t) :
  Forall (λ r, EmotionResult.valid r = true) results →
  Forall (λ r, valid_score (EmotionResult.anger_score r) = true) results ∧
  Forall (λ r, valid_score (EmotionResult.disgust_score r) = true) results ∧
  Forall (λ r, valid_score (EmotionResult.fear_score r) = true) results ∧
  Forall (λ r, valid_score (EmotionResult.joy_score r) = true) results ∧
  Forall (λ r, valid_score (EmotionResult.neutral_score r) = true) results ∧
  Forall (λ r, valid_score (EmotionResult.sadness_score r) = true) results ∧
  Forall (λ r, valid_score (EmotionResult.surprise_score r) = true) results.
Proof.
  intros Hall. repeat split; eapply Forall_impl; try exact Hall;
    intros r Hr; unfold EmotionResult.valid in Hr;
    repeat (apply andb_true_iff in Hr as [Hr ?]); done.
Qed.

Lemma sentiment_label_valid (d : dict score) (label : string) :
  dict_keys d = ["positive"; "negative"; "neutral"]%string →
  dominant_in d label → valid_label label = true.
Proof.
  intros Hkeys Hdom. apply dominant_in_key in Hdom. rewrite Hkeys in Hdom.
  repeat (apply elem_of_cons in Hdom as [->|Hdom]; [done|]).
  by apply elem_of_nil in Hdom.
Qed.

Lemma aggregate_sentiment_valid (results : list SentimentResult.t)
    (source_type : string) (source_id : Z) (model_name utcnow : string) :
  results ≠ [] →
  Forall (λ r, SentimentResult.valid r = true) results →
  valid_source_type source_type = true →
  ∃ label,
    let agg :=
      SentimentResult.Build source_type source_id label
        (py_mean SentimentResult.positive_score results)
        (py_mean SentimentResult.negative_score results)
        (py_mean SentimentResult.neutral_score results)
        model_name utcnow in
    aggregate_sentiment results source_type source_id model_name utcnow
      = Ok agg ∧
    dominant_in (sentiment_scores agg) label.
Proof.
  intros Hne Hall Hst.
  destruct (aggregate_sentiment_nonempty source_type source_id model_name
              utcnow results Hne) as (label & Hdom & Hagg).
  destruct (sentiment_valid_scores results Hall) as (Hp & Hn & Hu).
  exists label. cbn zeta. split; [|done].
  rewrite Hagg. unfold SentimentResult.make, SentimentResult.valid.
  cbn [SentimentResult.source_type SentimentResult.label
       SentimentResult.positive_score SentimentResult.negative_score
       SentimentResult.neutral_score].
  rewrite Hst, (sentiment_label_valid _ label (reflexivity _) Hdom).
  rewrite !py_mean_valid by done. done.
Qed.

Lemma aggregate_emotions_valid (results : list EmotionResult.t)
    (source_type : string) (source_id : Z) (model_name utcnow : string) :
  results ≠ [] →
  Forall (λ r, EmotionResult.valid r = true) results →
  valid_source_type source_type = true →
  ∃ dominant,
    let agg :=
      EmotionResult.Build source_type source_id
        (py_mean EmotionResult.anger_score results)
        (py_mean EmotionResult.disgust_score results)
        (py_mean EmotionResult.fear_score results)
        (py_mean EmotionResult.joy_score results)
        (py_mean EmotionResult.neutral_score results)
        (py_mean EmotionResult.sadness_score results)
        (py_mean EmotionResult.surprise_score results)
        dominant model_name utcnow in
    aggregate_emotions results source_type source_id model_name utcnow
      = Ok agg ∧
    dominant_in (emotion_scores agg) dominant.
Proof.
  intros Hne Hall Hst.
  destruct (aggregate_emotions_nonempty source_type source_id model_name
              utcnow results Hne) as (dominant & Hdom & Hagg).
  destruct (emotion_valid_scores results Hall)
    as (H1 & H2 & H3 & H4 & H5 & H6 & H7).
  exists dominant. cbn zeta. split; [|done].
  rewrite Hagg. unfold EmotionResult.make, EmotionResult.valid.
  cbn [EmotionResult.source_type EmotionResult.anger_score
       EmotionResult.disgust_score EmotionResult.fear_score
       EmotionResult.joy_score EmotionResult.neutral_score
       EmotionResult.sadness_score EmotionResult.surprise_score].
  rewrite Hst. rewrite !py_mean_valid by done. done.
Qed.

(** Chunk results with the given scores. *)
Definition emotion_chunk (joy neutral : score) (dominant : string)
    : EmotionResult.t :=
  EmotionResult.Build "blog" 1 0 0 0 joy neutral 0 0 dominant "m" "t0".

Definition sentiment_chunk (pos neg : score) (label : string)
    : SentimentResult.t :=
  SentimentResult.Build "blog" 1 label pos neg 0 "m" "t0".

(** C9. Both aggregates divide by [len(results)] unguarded: on the empty
    list the first division raises [ZeroDivisionError]; on a non-empty
    list every division is defined, the call never raises
    [ZeroDivisionError], and for validated inputs it returns a result. *)
Theorem aggregate_needs_nonempty
    (sresults : list SentimentResult.t) (eresults : list EmotionResult.t)
    (source_type : string) (source_id : Z) (model_name utcnow : string) :
  sresults ≠ [] → eresults ≠ [] →
  (aggregate_sentiment [] source_type source_id model_name utcnow
     = Raise ZeroDivisionError ∧
   aggregate_emotions [] source_type source_id model_name utcnow
     = Raise ZeroDivisionError ∧
   ∀ total, py_div total (len (@nil SentimentResult.t))
              = Raise ZeroDivisionError) ∧
  ((∀ total, py_div total (len sresults)
               = Ok (total / inject_Z (len sresults))) ∧
   aggregate_sentiment sresults source_type source_id model_name utcnow
     ≠ Raise ZeroDivisionError ∧
   (Forall (λ r, SentimentResult.valid r = true) sresults →
    valid_source_type source_type = true →
    is_Ok (aggregate_sentiment sresults source_type source_id model_name
             utcnow))) ∧
  ((∀ total, py_div total (len eresults)
               = Ok (total / inject_Z (len eresults))) ∧
   aggregate_emotions eresults source_type source_id model_name utcnow
     ≠ Raise ZeroDivisionError ∧
   (Forall (λ r, EmotionResult.valid r = true) eresults →
    valid_source_type source_type = true →
    is_Ok (aggregate_emotions eresults source_type source_id model_name
             utcnow))).
Proof.
  intros Hs He. split; [|split].
  - split; [reflexivity|]. split; reflexivity.
  - pose proof (len_nonempty sresults Hs) as Hlen. split; [|split].
    + intros total. apply py_div_nonzero. lia.
    + destruct (aggregate_sentiment_nonempty source_type source_id model_name
                  utcnow sresults Hs) as (label & _ & ->).
      unfold SentimentResult.make. destruct (SentimentResult.valid _); done.
    + intros Hv Hst.
      destruct (aggregate_sentiment_valid sresults source_type source_id
                  model_name utcnow Hs Hv Hst) as (label & Hagg & _).
      eexists. exact Hagg.
  - pose proof (len_nonempty eresults He) as Hlen. split; [|split].
    + intros total. apply py_div_nonzero. lia.
    + destruct (aggregate_emotions_nonempty source_type source_id model_name
                  utcnow eresults He) as (dominant & _ & ->).
      unfold EmotionResult.make. destruct (EmotionResult.valid _); done.
    + intros Hv Hst.
      destruct (aggregate_emotions_valid eresults source_type source_id
                  model_name utcnow He Hv Hst) as (dominant & Hagg & _).
      eexists. exact Hagg.
Qed.

Lemma aggregate_needs_nonempty_witness :
  aggregate_sentiment
    [sentiment_chunk (8#10) (2#10) "positive"] "blog" 1 "m" "t1"
    ≠ Raise ZeroDivisionError ∧
  aggregate_emotions
    [emotion_chunk (8#10) (2#10) "joy"] "blog" 1 "m" "t1"
    ≠ Raise ZeroDivisionError.
Proof.
  pose proof (aggregate_needs_nonempty
    [sentiment_chunk (8#10) (2#10) "positive"]
    [emotion_chunk (8#10) (2#10) "joy"] "blog" 1 "m" "t1"
    ltac:(discriminate) ltac:(discriminate)) as (_ & (_ & Hs & _) & (_ & He & _)).
  exact (conj Hs He).
Defined.

(** *** Aggregating a single chunk *)

Lemma py_mean_single {R : Type} (f : R → score) (r : R) :
  py_mean f [r] = f r.
Proof.
  unfold py_mean, py_sum. cbn [map fold_left len length].
  destruct (f r) as [n d]. cbv [Qplus Qdiv Qmult Qinv inject_Z Qnum Qden Z.of_nat
    Pos.of_succ_nat].
  cbn [Z.mul Z.add Pos.mul]. rewrite !Z.mul_1_r, Pos.mul_1_r. done.
Qed.

(** The aggregate of a one-element list keeps the element's scores; its
    label is computed anew as the dominant label of those scores. *)
Lemma aggregate_sentiment_single (r : SentimentResult.t)
    (source_type : string) (source_id : Z) (model_name utcnow : string) :
  SentimentResult.valid r = true → valid_source_type source_type = true →
  ∃ label,
    aggregate_sentiment [r] source_type source_id model_name utcnow
    = Ok (SentimentResult.Build source_type source_id label
            (SentimentResult.positive_score r)
            (SentimentResult.negative_score r)
            (SentimentResult.neutral_score r) model_name utcnow) ∧
    dominant_in (sentiment_scores r) label.
Proof.
  intros Hv Hst.
  destruct (aggregate_sentiment_valid [r] source_type source_id model_name
              utcnow ltac:(done) ltac:(by repeat constructor) Hst)
    as (label & Hagg & Hdom).
  cbn zeta in *. rewrite !py_mean_single in Hagg.
  unfold sentiment_scores in Hdom.
  cbn [SentimentResult.positive_score SentimentResult.negative_score
       SentimentResult.neutral_score] in Hdom.
  rewrite !py_mean_single in Hdom. by exists label.
Qed.

Lemma aggregate_emotions_single (r : EmotionResult.t)
    (source_type : string) (source_id : Z) (model_name utcnow : string) :
  EmotionResult.valid r = true → valid_source_type source_type = true →
  ∃ dominant,
    aggregate_emotions [r] source_type source_id model_name utcnow
    = Ok (EmotionResult.Build source_type source_id
            (EmotionResult.anger_score r) (EmotionResult.disgust_score r)
            (EmotionResult.fear_score r) (EmotionResult.joy_score r)
            (EmotionResult.neutral_score r) (EmotionResult.sadness_score r)
            (EmotionResult.surprise_score r) dominant model_name utcnow) ∧
    dominant_in (emotion_scores r) dominant.
Proof.
  intros Hv Hst.
  destruct (aggregate_emotions_valid [r] source_type source_id model_name
              utcnow ltac:(done) ltac:(by repeat constructor) Hst)
    as (dominant & Hagg & Hdom).
  cbn zeta in *. rewrite !py_mean_single in Hagg.
  unfold emotion_scores in Hdom.
  cbn [EmotionResult.anger_score EmotionResult.disgust_score
       EmotionResult.fear_score EmotionResult.joy_score
       EmotionResult.neutral_score EmotionResult.sadness_score
       EmotionResult.surprise_score] in Hdom.
  rewrite !py_mean_single in Hdom. by exists dominant.
Qed.

(** *** The analyzers label a chunk with its dominant label *)

Lemma dict_set_keys {V : Type} (d : dict V) (k : string) (v : V) :
  dict_mem d k = true → dict_keys (dict_set d k v) = dict_keys d.
Proof.
  unfold dict_mem. induction d as [|[k' v'] d IH]; [done|].
  cbn [dict_get dict_set]. destruct (String.eqb k' k); [done|].
  intros Hmem. cbn [dict_keys map fst] in *. f_equal. by apply IH.
Qed.

Lemma collect_keys (key : string * score → string)
    (results : list (string * score)) (d0 : dict score) :
  dict_keys
    (fold_left
       (λ scores item,
          if dict_mem scores (key item)
          then dict_set scores (key item) item.2 else scores)
       results d0)
  = dict_keys d0.
Proof.
  revert d0. induction results as [|item results IH]; intros d0; [done|].
  cbn [fold_left]. rewrite IH.
  destruct (dict_mem d0 (key item)) eqn:Hmem; [|done].
  by apply dict_set_keys.
Qed.

Lemma sentiment_collect_scores (results : list (string * score)) :
  ∃ pos neg neu,
    SentimentAnalyzer.collect_scores results
    = [("positive", pos); ("negative", neg); ("neutral", neu)]%string.
Proof.
  pose proof (collect_keys
    (λ item, default (str_lower item.1)
               (dict_get SentimentAnalyzer.LABEL_MAP item.1))
    results [("positive", 0); ("negative", 0); ("neutral", 0)]%string) as Hk.
  change (dict_keys (SentimentAnalyzer.collect_scores results)
          = ["positive"; "negative"; "neutral"]%string) in Hk.
  destruct (SentimentAnalyzer.collect_scores results)
    as [|[k1 v1] [|[k2 v2] [|[k3 v3] [|]]]]; try discriminate Hk.
  cbn [dict_keys map fst] in Hk. injection Hk as -> -> ->.
  by eexists _, _, _.
Qed.

Lemma emotion_collect_scores (results : list (string * score)) :
  ∃ v1 v2 v3 v4 v5 v6 v7,
    EmotionAnalyzer.collect_scores results
    = [("anger", v1); ("disgust", v2); ("fear", v3); ("joy", v4);
       ("neutral", v5); ("sadness", v6); ("surprise", v7)]%string.
Proof.
  pose proof (collect_keys (λ item, str_lower item.1)
    results (map (λ e, (e, 0)) EMOTION_LABELS)) as Hk.
  change (dict_keys (EmotionAnalyzer.collect_scores results)
          = EMOTION_LABELS) in Hk.
  destruct (EmotionAnalyzer.collect_scores results)
    as [|[k1 v1] [|[k2 v2] [|[k3 v3] [|[k4 v4] [|[k5 v5] [|[k6 v6]
         [|[k7 v7] [|]]]]]]]]; try discriminate Hk.
  cbn [dict_keys map fst] in Hk. injection Hk as -> -> -> -> -> -> ->.
  by eexists _, _, _, _, _, _, _.
Qed.

(** A result built by [SentimentAnalyzer.analyze_text] is valid, carries
    the source it was asked for, and its label is the dominant label of
    its scores. *)
Lemma sentiment_analyze_text_ok
    (pipe : string → result (list (string * score)))
    (self_model_name text source_type : string) (source_id : Z)
    (utcnow : string) (r : SentimentResult.t) :
  SentimentAnalyzer.analyze_text pipe self_model_name text source_type
    source_id utcnow = Ok r →
  SentimentResult.valid r = true ∧
  SentimentResult.source_type r = source_type ∧
  SentimentResult.source_id r = source_id ∧
  SentimentResult.model_name r = self_model_name ∧
  dominant_in (sentiment_scores r) (SentimentResult.label r).
Proof.
  unfold SentimentAnalyzer.analyze_text.
  destruct (pipe text) as [results|]; [|done]. cbn [rbind].
  destruct (sentiment_collect_scores results) as (pos & neg & neu & ->).
  destruct (py_max_key_dominant
    [("positive", pos); ("negative", neg); ("neutral", neu)]%string
    ltac:(done)) as (label & -> & Hdom).
  cbn [rbind dict_item dict_get String.eqb Ascii.eqb Bool.eqb].
  unfold SentimentResult.make.
  destruct (SentimentResult.valid _) eqn:Hv; [|done].
  intros [= <-]. done.
Qed.

Lemma emotion_analyze_text_ok
    (pipe : string → result (list (string * score)))
    (self_model_name text source_type : string) (source_id : Z)
    (utcnow : string) (r : EmotionResult.t) :
  EmotionAnalyzer.analyze_text pipe self_model_name text source_type
    source_id utcnow = Ok r →
  EmotionResult.valid r = true ∧
  EmotionResult.source_type r = source_type ∧
  EmotionResult.source_id r = source_id ∧
  EmotionResult.model_name r = self_model_name ∧
  dominant_in (emotion_scores r) (EmotionResult.dominant_emotion r).
Proof.
  unfold EmotionAnalyzer.analyze_text.
  destruct (pipe text) as [results|]; [|done]. cbn [rbind].
  destruct (emotion_collect_scores results)
    as (v1 & v2 & v3 & v4 & v5 & v6 & v7 & ->).
  destruct (py_max_key_dominant
    [("anger", v1); ("disgust", v2); ("fear", v3); ("joy", v4);
     ("neutral", v5); ("sadness", v6); ("surprise", v7)]%string
    ltac:(done)) as (dominant & -> & Hdom).
  cbn [rbind dict_item dict_get String.eqb Ascii.eqb Bool.eqb].
  unfold EmotionResult.make.
  destruct (EmotionResult.valid _) eqn:Hv; [|done].
  intros [= <-]. done.
Qed.

End Aggregator.

(** ** The aggregates in the arithmetic of Python floats

    A Python [float] is a binary64 number: a sum or a quotient is the
    exact result rounded to the nearest number of 53 significant bits, a
    tie going to the even one, with the spacing [2^-1074] below the normal
    range.  Finite binary64 numbers are rationals, so the scores stay in
    [Q] and the operations round.  Numbers of [2^1024] and more, which
    binary64 replaces by an infinity, are outside the model: no sum of
    scores reaches them.  [sum] adds from left to right with one rounding
    for each addition, as CPython does before version 3.12. *)

Module Binary64.

Import Aggregator.

Local Open Scope Q_scope.

(** [2^e] *)
Definition pow2 (e : Z) : Q := 2 ^ e.

(** The integer nearest to [x], the even one of two that are as near. *)
Definition round_half_even (x : Q) : Z :=
  let f := Qfloor x in
  match Qcompare (x - inject_Z f) (1 # 2) with
  | Lt => f
  | Gt => (f + 1)%Z
  | Eq => if Z.even f then f else (f + 1)%Z
  end.

(** The binary exponent of a positive [x]: [2^k <= x < 2^(k+1)]. *)
Definition floor_log2 (x : Q) : Z :=
  let k := (Z.log2 (Qnum x) - Z.log2 (Zpos (Qden x)))%Z in
  if Qle_bool (pow2 k) x then k else (k - 1)%Z.

(** The exponent of the unit in the last place of the binary64 numbers
    around [x]. *)
Definition ulp_exponent (x : Q) : Z :=
  Z.max (floor_log2 (Qabs x) - 52) (-1074).

(** The binary64 number nearest to [x]. *)
Definition round (x : Q) : Q :=
  if Qeq_bool x 0 then 0
  else inject_Z (round_half_even (x / pow2 (ulp_exponent x)))
       * pow2 (ulp_exponent x).

(** [x + y] and [x / y] on floats, and [float(n)] of an [int]: the exact
    result, rounded. *)
Definition float_add (x y : score) : score := round (x + y).
Definition float_div (x y : score) : score := round (x / y).
Definition float_of_int (n : Z) : score := round (inject_Z n).

(** [sum(xs)]: the running total starts from [0] and every addition is
    rounded. *)
Definition py_sum (xs : list score) : score := fold_left float_add xs 0.

(** [total / n] for an [int] [n]. *)
Definition py_div (total : score) (n : Z) : result score :=
  if (n =? 0)%Z then Raise ZeroDivisionError
  else Ok (float_div total (float_of_int n)).

Definition aggregate_sentiment (results : list SentimentResult.t)
    (source_type : string) (source_id : Z) (model_name : string)
    (utcnow : string) : result SentimentResult.t :=
  let n := len results in
  pos ←? py_div (py_sum (map SentimentResult.positive_score results)) n;
  neg ←? py_div (py_sum (map SentimentResult.negative_score results)) n;
  neu ←? py_div (py_sum (map SentimentResult.neutral_score results)) n;
  let scores := [("positive", pos); ("negative", neg); ("neutral", neu)]%string in
  label ←? py_max_key scores;
  SentimentResult.make source_type source_id label pos neg neu
    model_name utcnow.

Definition aggregate_emotions (results : list EmotionResult.t)
    (source_type : string) (source_id : Z) (model_name : string)
    (utcnow : string) : result EmotionResult.t :=
  let n := len results in
  let emotions := EMOTION_LABELS in
  means ←? rmapM (λ e,
             xs ←? rmapM (λ r, EmotionResult.getattr_score r e) results;
             mean ←? py_div (py_sum xs) n;
             Ok (e, mean)) emotions;
  dominant ←? py_max_key means;
  anger ←? dict_item means "anger";
  disgust ←? dict_item means "disgust";
  fear ←? dict_item means "fear";
  joy ←? dict_item means "joy";
  neutral ←? dict_item means "neutral";
  sadness ←? dict_item means "sadness";
  surprise ←? dict_item means "surprise";
  EmotionResult.make source_type source_id anger disgust fear joy neutral
    sadness surprise dominant model_name utcnow.

(** The mean the code computes for one score field. *)
Definition py_mean {R : Type} (f : R → score) (results : list R) : score :=
  float_div (py_sum (map f results)) (float_of_int (len results)).

(** The float a decimal literal [n/d] denotes. *)
Definition literal (n d : Z) : score := round (inject_Z n / inject_Z d).

(** [v] is the arithmetic mean of [xs] up to the rounding of a sum of
    [len xs] terms and of one division. *)
Definition within_rounding (v : score) (xs : list score) : Prop :=
  Qabs (v - arith_mean xs) <= inject_Z (len xs + 1) * pow2 (-53).

(** *** Powers of two *)

Lemma pow2_pos (e : Z) : 0 < pow2 e.
Proof. by apply Qpower_0_lt. Qed.

Lemma pow2_add (a b : Z) : pow2 (a + b) == pow2 a * pow2 b.
Proof. apply Qpower_plus. discriminate. Qed.

Lemma pow2_le (a b : Z) : (a ≤ b)%Z → pow2 a <= pow2 b.
Proof. intros Hab. apply Qpower_le_compat_l; [done|discriminate]. Qed.

Lemma pow2_lt_inv (a b : Z) : pow2 a < pow2 b → (a < b)%Z.
Proof. intros Hab. by apply (Qpower_lt_compat_l_inv 2). Qed.

Lemma pow2_Z (e : Z) : (0 ≤ e)%Z → pow2 e == inject_Z (2 ^ e).
Proof. intros He. unfold pow2. by rewrite Zpower_Qpower. Qed.

Lemma pow2_opp (e : Z) : pow2 (- e) * pow2 e == 1.
Proof. rewrite <- pow2_add. by replace (- e + e)%Z with 0%Z by lia. Qed.

(** *** Rounding to the nearest integer, ties to even *)

Lemma round_half_even_cases (x : Q) :
  round_half_even x = Qfloor x ∧ x - inject_Z (Qfloor x) <= 1 # 2 ∨
  round_half_even x = (Qfloor x + 1)%Z ∧ 1 # 2 <= x - inject_Z (Qfloor x).
Proof.
  unfold round_half_even. cbv zeta.
  destruct (Qcompare (x - inject_Z (Qfloor x)) (1 # 2)) eqn:Hc.
  - apply Qeq_alt in Hc. destruct (Z.even (Qfloor x)).
    + left. split; [done|]. rewrite Hc. apply Qle_refl.
    + right. split; [done|]. rewrite Hc. apply Qle_refl.
  - apply Qlt_alt in Hc. left. split; [done|]. by apply Qlt_le_weak.
  - apply Qgt_alt in Hc. right. split; [done|]. by apply Qlt_le_weak.
Qed.

(** The nearest integer is within one half. *)
Lemma round_half_even_near (x : Q) :
  - (1 # 2) <= inject_Z (round_half_even x) - x ∧
  inject_Z (round_half_even x) - x <= 1 # 2.
Proof.
  pose proof (Qfloor_le x) as Hlo. pose proof (Qlt_floor x) as Hhi.
  rewrite inject_Z_plus in Hhi. change (inject_Z 1) with 1 in Hhi.
  destruct (round_half_even_cases x) as [[-> H]|[-> H]].
  - split; lra.
  - rewrite inject_Z_plus. change (inject_Z 1) with 1. split; lra.
Qed.

Lemma round_half_even_Z (x : Q) (z : Z) :
  x == inject_Z z → round_half_even x = z.
Proof.
  intros Hx. assert (Qfloor x = z) as Hf.
  { rewrite <- (Qfloor_Z z). by apply Qfloor_comp. }
  destruct (round_half_even_cases x) as [[-> H]|[-> H]]; [done|].
  rewrite Hf, Hx in H. exfalso. lra.
Qed.

Lemma round_half_even_nonneg (x : Q) : 0 <= x → (0 ≤ round_half_even x)%Z.
Proof.
  intros Hx. assert (0 ≤ Qfloor x)%Z as Hf.
  { change 0%Z with (Qfloor 0). by apply Qfloor_resp_le. }
  destruct (round_half_even_cases x) as [[-> _]|[-> _]]; lia.
Qed.

Lemma round_half_even_le (x : Q) (m : Z) :
  x <= inject_Z m → (round_half_even x ≤ m)%Z.
Proof.
  intros Hx. assert (Qfloor x ≤ m)%Z as Hf.
  { rewrite <- (Qfloor_Z m). by apply Qfloor_resp_le. }
  destruct (round_half_even_cases x) as [[-> _]|[-> H]]; [done|].
  destruct (Z.eq_dec (Qfloor x) m) as [Heq|Hne]; [|lia].
  rewrite Heq in H. exfalso. lra.
Qed.

(** *** The binary exponent of a positive rational *)

Lemma floor_log2_spec (x : Q) :
  0 < x → pow2 (floor_log2 x) <= x ∧ x < pow2 (floor_log2 x + 1).
Proof.
  intros Hx. destruct x as [n d]. unfold floor_log2. cbn [Qnum Qden].
  assert (0 < n)%Z as Hn by (unfold Qlt in Hx; cbn in Hx; lia).
  set (a := Z.log2 n). set (b := Z.log2 (Z.pos d)).
  destruct (Z.log2_spec n Hn) as [Ha1 Ha2]. fold a in Ha1, Ha2.
  destruct (Z.log2_spec (Z.pos d) ltac:(lia)) as [Hb1 Hb2].
  fold b in Hb1, Hb2.
  assert (0 ≤ a)%Z as Ha0 by apply Z.log2_nonneg.
  assert (0 ≤ b)%Z as Hb0 by apply Z.log2_nonneg.
  assert (n # d == inject_Z n / inject_Z (Z.pos d)) as Hq by apply Qmake_Qdiv.
  assert (0 < inject_Z (Z.pos d)) as Hd by (unfold Qlt; cbn; lia).
  assert (∀ k, pow2 (a - b + k) * inject_Z (2 ^ b) == pow2 (a + k)) as Hpow.
  { intros k. rewrite <- (pow2_Z b) by done. rewrite <- pow2_add.
    by replace (a - b + k + b)%Z with (a + k)%Z by lia. }
  (* n/d lies strictly between 2^(a-b-1) and 2^(a-b+1) *)
  assert (pow2 (a - b + -1) < n # d) as Hlow.
  { rewrite Hq. apply Qlt_shift_div_l; [done|].
    apply Qlt_le_trans with (pow2 (a - b + -1) * inject_Z (2 ^ (b + 1))).
    - apply Qmult_lt_l; [apply pow2_pos|]. rewrite <- Zlt_Qlt.
      replace (Z.succ b) with (b + 1)%Z in Hb2 by lia. done.
    - rewrite Z.pow_add_r, Z.pow_1_r by lia. rewrite inject_Z_mult.
      rewrite Qmult_assoc, Hpow.
      replace (a + -1)%Z with (a - 1)%Z by lia.
      assert (pow2 (a - 1) * inject_Z 2 == pow2 a) as ->.
      { change (inject_Z 2) with (pow2 1). rewrite <- pow2_add.
        by replace (a - 1 + 1)%Z with a by lia. }
      rewrite pow2_Z by done. by rewrite <- Zle_Qle. }
  assert (n # d < pow2 (a - b + 1)) as Hhigh.
  { rewrite Hq. apply Qlt_shift_div_r; [done|].
    apply Qlt_le_trans with (pow2 (a - b + 1) * inject_Z (2 ^ b)).
    - rewrite Hpow. rewrite pow2_Z by lia. rewrite <- Zlt_Qlt.
      replace (Z.succ a) with (a + 1)%Z in Ha2 by lia. done.
    - apply Qmult_le_l; [apply pow2_pos|]. by rewrite <- Zle_Qle. }
  destruct (Qle_bool (pow2 (a - b)) (n # d)) eqn:Hle.
  - apply Qle_bool_iff in Hle. done.
  - assert (n # d < pow2 (a - b)) as Hlt.
    { apply Qnot_le_lt. intros H. apply Qle_bool_iff in H. congruence. }
    replace (a - b - 1 + 1)%Z with (a - b)%Z by lia.
    replace (a - b - 1)%Z with (a - b + -1)%Z by lia.
    split; [by apply Qlt_le_weak|done].
Qed.

(** The exponent is that of the binade, however the rational is written. *)
Lemma floor_log2_unique (x : Q) (k : Z) :
  pow2 k <= x → x < pow2 (k + 1) → floor_log2 x = k.
Proof.
  intros Hlo Hhi.
  assert (0 < x) as Hx by (eapply Qlt_le_trans; [apply pow2_pos|done]).
  destruct (floor_log2_spec x Hx) as [Hlo' Hhi'].
  assert (floor_log2 x < k + 1)%Z.
  { apply pow2_lt_inv. by eapply Qle_lt_trans. }
  assert (k < floor_log2 x + 1)%Z.
  { apply pow2_lt_inv. by eapply Qle_lt_trans. }
  lia.
Qed.

Lemma floor_log2_comp (x y : Q) :
  0 < x → x == y → floor_log2 x = floor_log2 y.
Proof.
  intros Hx Hxy. destruct (floor_log2_spec x Hx) as [Hlo Hhi].
  symmetry. apply floor_log2_unique; by rewrite <- Hxy.
Qed.

(** *** Rounding to binary64 *)

Lemma div_pow2 (x : Q) (e : Z) : x / pow2 e == x * pow2 (- e).
Proof.
  pose proof (pow2_pos e) as Hpos. pose proof (pow2_opp e) as Hopp.
  apply Qmult_inj_r with (pow2 e); [lra|].
  rewrite Qmult_comm, Qmult_div_r by lra.
  rewrite <- Qmult_assoc, Hopp. ring.
Qed.

Lemma round_half_even_comp (x y : Q) :
  x == y → round_half_even x = round_half_even y.
Proof.
  intros Hxy. unfold round_half_even. cbv zeta.
  rewrite (Qfloor_comp x y Hxy).
  assert (Qcompare (x - inject_Z (Qfloor y)) (1 # 2)
          = Qcompare (y - inject_Z (Qfloor y)) (1 # 2)) as ->; [|done].
  apply Qcompare_comp; [by rewrite Hxy|done].
Qed.

Lemma round_zero (x : Q) : x == 0 → round x = 0.
Proof.
  intros Hx. unfold round.
  by rewrite (proj2 (Qeq_bool_iff x 0) Hx).
Qed.

Lemma round_nonzero (x : Q) :
  ¬ x == 0 →
  round x = inject_Z (round_half_even (x / pow2 (ulp_exponent x)))
            * pow2 (ulp_exponent x).
Proof.
  intros Hx. unfold round. destruct (Qeq_bool x 0) eqn:H0; [|done].
  by apply Qeq_bool_iff in H0.
Qed.

Lemma ulp_exponent_pos (x : Q) :
  0 < x → ulp_exponent x = Z.max (floor_log2 x - 52) (-1074).
Proof.
  intros Hx. unfold ulp_exponent. f_equal. f_equal.
  apply floor_log2_comp.
  - rewrite Qabs_pos; [done|by apply Qlt_le_weak].
  - apply Qabs_pos. by apply Qlt_le_weak.
Qed.

Lemma ulp_exponent_comp (x y : Q) :
  x == y → ¬ x == 0 → ulp_exponent x = ulp_exponent y.
Proof.
  intros Hxy Hx. unfold ulp_exponent. f_equal. f_equal.
  apply floor_log2_comp; [|by rewrite Hxy].
  pose proof (Qabs_nonneg x) as Hn. apply Qle_lteq in Hn as [Hn|Hn]; [done|].
  exfalso. apply Hx. destruct (Qlt_le_dec x 0) as [Hneg|Hpos].
  - rewrite Qabs_neg in Hn by lra. lra.
  - rewrite Qabs_pos in Hn by done. by symmetry.
Qed.

Lemma round_comp (x y : Q) : x == y → round x == round y.
Proof.
  intros Hxy. destruct (Qeq_dec x 0) as [Hx|Hx].
  - rewrite (round_zero x Hx), (round_zero y); [done|by rewrite <- Hxy].
  - rewrite (round_nonzero x Hx), (round_nonzero y) by (by rewrite <- Hxy).
    rewrite <- (ulp_exponent_comp x y Hxy Hx).
    rewrite (round_half_even_comp (x / _) (y / pow2 (ulp_exponent x)));
      [done|].
    apply Qdiv_comp; [exact Hxy|reflexivity].
Qed.

Lemma round_nonneg (x : Q) : 0 <= x → 0 <= round x.
Proof.
  intros Hx. destruct (Qeq_dec x 0) as [H0|H0].
  - rewrite (round_zero x H0). apply Qle_refl.
  - rewrite (round_nonzero x H0).
    pose proof (pow2_pos (ulp_exponent x)) as Hpos.
    apply Qmult_le_0_compat; [|by apply Qlt_le_weak].
    change 0 with (inject_Z 0). rewrite <- Zle_Qle.
    apply round_half_even_nonneg. apply Qle_shift_div_l; [done|]. lra.
Qed.

(** Below [2^53] the unit in the last place is at most one. *)
Lemma ulp_exponent_small (x : Q) :
  0 < x → x < pow2 53 → (ulp_exponent x ≤ 0)%Z.
Proof.
  intros Hx Hlt. rewrite (ulp_exponent_pos x Hx).
  destruct (floor_log2_spec x Hx) as [Hlo _].
  assert (floor_log2 x < 53)%Z.
  { apply pow2_lt_inv. by eapply Qle_lt_trans. }
  lia.
Qed.

Lemma inject_Z_lt_pow2_53 (k : Z) : (k < 2 ^ 53)%Z → inject_Z k < pow2 53.
Proof. intros Hk. rewrite pow2_Z by lia. by rewrite <- Zlt_Qlt. Qed.

(** Rounding does not overshoot an integer below [2^53]. *)
Lemma round_le_Z (x : Q) (k : Z) :
  0 <= x → x <= inject_Z k → (k < 2 ^ 53)%Z → round x <= inject_Z k.
Proof.
  intros Hx Hk Hsmall. destruct (Qeq_dec x 0) as [H0|H0].
  - rewrite (round_zero x H0). lra.
  - assert (0 < x) as Hpos by (apply Qle_lteq in Hx as [?|Hx]; [done|];
                               by symmetry in Hx).
    rewrite (round_nonzero x H0). set (e := ulp_exponent x).
    assert (e ≤ 0)%Z as He.
    { apply ulp_exponent_small; [done|].
      eapply Qle_lt_trans; [exact Hk|]. by apply inject_Z_lt_pow2_53. }
    pose proof (pow2_pos e) as Hpe. pose proof (pow2_opp e) as Hopp.
    assert (x / pow2 e <= inject_Z (k * 2 ^ (- e))) as Hm.
    { rewrite div_pow2, inject_Z_mult, <- pow2_Z by lia.
      apply Qmult_le_compat_r; [done|]. apply Qlt_le_weak, pow2_pos. }
    apply round_half_even_le in Hm.
    apply Qle_trans with (inject_Z (k * 2 ^ (- e)) * pow2 e).
    + apply Qmult_le_compat_r; [by rewrite <- Zle_Qle|by apply Qlt_le_weak].
    + rewrite inject_Z_mult, <- pow2_Z by lia.
      rewrite <- Qmult_assoc, Hopp. lra.
Qed.

(** An integer below [2^53] is a binary64 number. *)
Lemma round_Z (k : Z) :
  (0 ≤ k)%Z → (k < 2 ^ 53)%Z → round (inject_Z k) == inject_Z k.
Proof.
  intros Hk Hsmall. destruct (Z.eq_dec k 0%Z) as [->|Hk0]; [done|].
  assert (0 < inject_Z k) as Hpos.
  { change 0 with (inject_Z 0). rewrite <- Zlt_Qlt. lia. }
  rewrite round_nonzero by lra. set (e := ulp_exponent (inject_Z k)).
  assert (e ≤ 0)%Z as He.
  { apply ulp_exponent_small; [done|]. by apply inject_Z_lt_pow2_53. }
  pose proof (pow2_opp e) as Hopp.
  rewrite (round_half_even_Z _ (k * 2 ^ (- e))).
  - rewrite inject_Z_mult, <- pow2_Z by lia.
    rewrite <- Qmult_assoc, Hopp. ring.
  - rewrite div_pow2, inject_Z_mult, <- pow2_Z by lia. done.
Qed.

(** The rounding error is at most half a unit in the last place. *)
Lemma round_error (x : Q) :
  - (pow2 (ulp_exponent x) * (1 # 2)) <= round x - x ∧
  round x - x <= pow2 (ulp_exponent x) * (1 # 2).
Proof.
  pose proof (pow2_pos (ulp_exponent x)) as Hpe.
  destruct (Qeq_dec x 0) as [H0|H0].
  - rewrite (round_zero x H0). split; lra.
  - rewrite (round_nonzero x H0). set (e := ulp_exponent x) in *.
    destruct (round_half_even_near (x / pow2 e)) as [Hlo Hhi].
    set (m := inject_Z (round_half_even (x / pow2 e))) in *.
    assert (m * pow2 e - x == (m - x / pow2 e) * pow2 e) as ->.
    { field. lra. }
    split.
    + assert (- (pow2 e * (1 # 2)) == - (1 # 2) * pow2 e) as -> by ring.
      apply Qmult_le_compat_r; [done|by apply Qlt_le_weak].
    + rewrite (Qmult_comm (pow2 e)).
      apply Qmult_le_compat_r; [done|by apply Qlt_le_weak].
Qed.

(** The unit in the last place of a number of at most [k]. *)
Lemma ulp_le (x : Q) (k : Z) :
  0 < x → x <= inject_Z k → (1 ≤ k)%Z →
  pow2 (ulp_exponent x) <= inject_Z k * pow2 (-52).
Proof.
  intros Hx Hk H1. rewrite (ulp_exponent_pos x Hx).
  destruct (floor_log2_spec x Hx) as [Hlo _].
  pose proof (pow2_pos (-52)) as Hp.
  assert (1 <= inject_Z k) as Hk1.
  { change 1 with (inject_Z 1). by rewrite <- Zle_Qle. }
  destruct (Z.max_spec (floor_log2 x - 52) (-1074)) as [[_ ->]|[_ ->]].
  - apply Qle_trans with (1 * pow2 (-52)).
    + rewrite Qmult_1_l. apply pow2_le. lia.
    + apply Qmult_le_compat_r; [done|by apply Qlt_le_weak].
  - replace (floor_log2 x - 52)%Z with (floor_log2 x + -52)%Z by lia.
    rewrite pow2_add. apply Qmult_le_compat_r; [lra|by apply Qlt_le_weak].
Qed.

(** Rounding a number between [0] and [k] moves it by at most
    [k * 2^-53]. *)
Lemma round_error_le (x : Q) (k : Z) :
  0 <= x → x <= inject_Z k → (1 ≤ k)%Z →
  - (inject_Z k * pow2 (-53)) <= round x - x ∧
  round x - x <= inject_Z k * pow2 (-53).
Proof.
  intros Hx Hk H1. destruct (Qeq_dec x 0) as [H0|H0].
  - rewrite (round_zero x H0).
    pose proof (pow2_pos (-53)) as Hp.
    assert (0 <= inject_Z k * pow2 (-53)).
    { apply Qmult_le_0_compat; [|lra].
      change 0 with (inject_Z 0). rewrite <- Zle_Qle. lia. }
    split; lra.
  - assert (0 < x) as Hpos by (apply Qle_lteq in Hx as [?|Hx]; [done|];
                               by symmetry in Hx).
    destruct (round_error x) as [Hlo Hhi].
    pose proof (ulp_le x k Hpos Hk H1) as Hulp.
    assert (pow2 (-52) * (1 # 2) == pow2 (-53)) as Hhalf by reflexivity.
    assert (inject_Z k * pow2 (-53) == inject_Z k * pow2 (-52) * (1 # 2))
      as -> by (rewrite <- Hhalf; ring).
    split; lra.
Qed.

(** *** Sums and means of scores *)

Lemma fold_add_bounds (xs : list score) (a : score) (k : Z) :
  Forall (λ x, valid_score x = true) xs →
  0 <= a → a <= inject_Z k → (k + len xs < 2 ^ 53)%Z →
  0 <= fold_left float_add xs a ∧
  fold_left float_add xs a <= inject_Z (k + len xs).
Proof.
  intros Hxs. revert a k.
  induction Hxs as [|x xs Hx _ IH]; intros a k Ha0 Hak Hsmall.
  - cbn [fold_left]. unfold len. cbn [length]. rewrite Z.add_0_r. done.
  - cbn [fold_left]. apply valid_score_spec in Hx as [Hx0 Hx1].
    unfold len in *. cbn [length] in *.
    replace (k + Z.of_nat (S (length xs)))%Z
      with (k + 1 + Z.of_nat (length xs))%Z in * by lia.
    assert (a + x <= inject_Z (k + 1)) as Hsum.
    { rewrite inject_Z_plus. change (inject_Z 1) with 1. lra. }
    apply IH; [|apply round_le_Z|done]; try done.
    + apply round_nonneg. lra.
    + lra.
    + lia.
Qed.

Lemma py_sum_bounds (xs : list score) :
  Forall (λ x, valid_score x = true) xs → (len xs < 2 ^ 53)%Z →
  0 <= py_sum xs ∧ py_sum xs <= inject_Z (len xs).
Proof.
  intros Hxs Hlen. apply (fold_add_bounds xs 0 0 Hxs); [lra|done|lia].
Qed.

(** The running total stays within [k * n * 2^-53] of the exact one after
    [k] additions, in a sum of at most [n] terms. *)
Lemma fold_add_error (n : Z) (xs : list score) (a exact : score) (k : Z) :
  Forall (λ x, valid_score x = true) xs →
  (0 ≤ k)%Z → (k + len xs ≤ n)%Z → (n < 2 ^ 53)%Z →
  0 <= a → a <= inject_Z k →
  Qabs (a - exact) <= inject_Z k * (inject_Z n * pow2 (-53)) →
  Qabs (fold_left float_add xs a - (exact + fold_right Qplus 0 xs))
  <= inject_Z (k + len xs) * (inject_Z n * pow2 (-53)).
Proof.
  intros Hxs. revert a exact k.
  induction Hxs as [|x xs Hx _ IH]; intros a exact k Hk Hn Hsmall Ha0 Hak Herr.
  - cbn [fold_left fold_right]. unfold len. cbn [length].
    rewrite Z.add_0_r. by rewrite Qplus_0_r.
  - cbn [fold_left fold_right].
    apply valid_score_spec in Hx as [Hx0 Hx1].
    unfold len in *. cbn [length] in *.
    replace (k + Z.of_nat (S (length xs)))%Z
      with (k + 1 + Z.of_nat (length xs))%Z in * by lia.
    assert (a + x <= inject_Z (k + 1)) as Hsum.
    { rewrite inject_Z_plus. change (inject_Z 1) with 1. lra. }
    assert (a + x <= inject_Z n) as Hsumn.
    { eapply Qle_trans; [exact Hsum|]. rewrite <- Zle_Qle. lia. }
    destruct (round_error_le (a + x) n ltac:(lra) Hsumn ltac:(lia))
      as [Hlo Hhi].
    assert (exact + (x + fold_right Qplus 0 xs)
            == exact + x + fold_right Qplus 0 xs) as -> by ring.
    apply IH; try done; try lia.
    + apply round_nonneg. lra.
    + apply round_le_Z; [lra|done|lia].
    + apply Qabs_Qle_condition in Herr as [Hel Heh].
      apply Qabs_Qle_condition. unfold float_add.
      rewrite inject_Z_plus. change (inject_Z 1) with 1.
      set (δ := inject_Z n * pow2 (-53)) in *. split; lra.
Qed.

Lemma py_sum_error (xs : list score) :
  Forall (λ x, valid_score x = true) xs → (len xs < 2 ^ 53)%Z →
  Qabs (py_sum xs - fold_right Qplus 0 xs)
  <= inject_Z (len xs) * (inject_Z (len xs) * pow2 (-53)).
Proof.
  intros Hxs Hlen.
  pose proof (fold_add_error (len xs) xs 0 0 0 Hxs ltac:(done) ltac:(lia)
                Hlen ltac:(lra) ltac:(done)) as H.
  rewrite Qplus_0_l in H. apply H. by rewrite Qmult_0_l.
Qed.

Lemma len_pos_Q {A : Type} (l : list A) : l ≠ [] → 1 <= inject_Z (len l).
Proof.
  intros Hne. pose proof (len_nonempty l Hne).
  change 1 with (inject_Z 1). rewrite <- Zle_Qle. lia.
Qed.

(** The mean the code computes, through the exact quotient. *)
Lemma py_mean_round {R : Type} (f : R → score) (results : list R) :
  (len results < 2 ^ 53)%Z →
  py_mean f results
  == round (py_sum (map f results) / inject_Z (len results)).
Proof.
  intros Hlen. unfold py_mean, float_div, float_of_int.
  apply round_comp. apply Qdiv_comp; [done|].
  apply round_Z; [unfold len; lia|done].
Qed.

(** The computed mean of valid scores is a valid score. *)
Lemma py_mean_rounded_valid {R : Type} (f : R → score) (results : list R) :
  results ≠ [] → (len results < 2 ^ 53)%Z →
  Forall (λ r, valid_score (f r) = true) results →
  valid_score (py_mean f results) = true.
Proof.
  intros Hne Hlen Hall.
  assert (valid_score
            (round (py_sum (map f results) / inject_Z (len results))) = true)
    as Hv.
  { pose proof (len_pos_Q results Hne) as Hn.
    assert (len (map f results) = len results) as Hmap
      by (unfold len; by rewrite length_map).
    destruct (py_sum_bounds (map f results)) as [Hlo Hhi];
      [by apply Forall_fmap|by rewrite Hmap|].
    rewrite Hmap in Hhi.
    assert (0 <= py_sum (map f results) / inject_Z (len results)) as Hq0.
    { apply Qle_shift_div_l; lra. }
    assert (py_sum (map f results) / inject_Z (len results) <= 1) as Hq1.
    { apply Qle_shift_div_r; lra. }
    apply valid_score_spec. split; [by apply round_nonneg|].
    by apply (round_le_Z _ 1). }
  apply valid_score_spec in Hv. apply valid_score_spec.
  by rewrite py_mean_round.
Qed.

(** The computed mean is the arithmetic mean up to rounding. *)
Lemma py_mean_near {R : Type} (f : R → score) (results : list R) :
  results ≠ [] → (len results < 2 ^ 53)%Z →
  Forall (λ r, valid_score (f r) = true) results →
  within_rounding (py_mean f results) (map f results).
Proof.
  intros Hne Hlen Hall. unfold within_rounding, arith_mean.
  assert (len (map f results) = len results) as Hmap
    by (unfold len; by rewrite length_map).
  rewrite Hmap. pose proof (len_pos_Q results Hne) as Hn.
  set (n := inject_Z (len results)) in *.
  set (total := py_sum (map f results)).
  set (exact := fold_right Qplus 0 (map f results)).
  destruct (py_sum_bounds (map f results)) as [Hlo Hhi];
    [by apply Forall_fmap|by rewrite Hmap|].
  rewrite Hmap in Hhi. fold n total in Hlo, Hhi.
  pose proof (py_sum_error (map f results) ltac:(by apply Forall_fmap)
                ltac:(by rewrite Hmap)) as Hsum.
  rewrite Hmap in Hsum. fold n total exact in Hsum.
  assert (0 <= total / n) as Hq0 by (apply Qle_shift_div_l; lra).
  assert (total / n <= inject_Z 1) as Hq1
    by (apply Qle_shift_div_r; [lra|]; change (inject_Z 1) with 1; lra).
  destruct (round_error_le (total / n) 1 Hq0 Hq1 ltac:(done)) as [Hrl Hrh].
  change (inject_Z 1) with 1 in Hrl, Hrh.
  pose proof (pow2_pos (-53)) as Hp.
  (* the error of the sum, divided by [n] *)
  apply Qabs_Qle_condition in Hsum as [Hsl Hsh].
  assert (total / n - exact / n == (total - exact) / n) as Hdiff
    by (field; lra).
  assert (- (n * pow2 (-53)) <= total / n - exact / n) as Hdl.
  { rewrite Hdiff. apply Qle_shift_div_l; [lra|].
    assert (- (n * pow2 (-53)) * n == - (n * (n * pow2 (-53)))) as -> by ring.
    done. }
  assert (total / n - exact / n <= n * pow2 (-53)) as Hdh.
  { rewrite Hdiff. apply Qle_shift_div_r; [lra|].
    assert (n * pow2 (-53) * n == n * (n * pow2 (-53))) as -> by ring.
    done. }
  rewrite py_mean_round by done. fold n total.
  rewrite inject_Z_plus. fold n. change (inject_Z 1) with 1.
  apply Qabs_Qle_condition. split; lra.
Qed.

(** *** The aggregates of a non-empty list *)

Lemma py_div_rounded (total : score) (n : Z) :
  n ≠ 0%Z → py_div total n = Ok (float_div total (float_of_int n)).
Proof. intros Hn. unfold py_div. destruct (Z.eqb_spec n 0); done. Qed.

Lemma aggregate_sentiment_rounded (results : list SentimentResult.t)
    (source_type : string) (source_id : Z) (model_name utcnow : string) :
  results ≠ [] →
  let pos := py_mean SentimentResult.positive_score results in
  let neg := py_mean SentimentResult.negative_score results in
  let neu := py_mean SentimentResult.neutral_score results in
  ∃ label,
    dominant_in [("positive", pos); ("negative", neg); ("neutral", neu)]%string
      label ∧
    aggregate_sentiment results source_type source_id model_name utcnow
    = SentimentResult.make source_type source_id label pos neg neu
        model_name utcnow.
Proof.
  intros Hne pos neg neu.
  pose proof (len_nonempty results Hne) as Hlen.
  destruct (py_max_key_dominant
    [("positive", pos); ("negative", neg); ("neutral", neu)]%string
    ltac:(done)) as (label & Hkey & Hdom).
  exists label. split; [done|].
  unfold aggregate_sentiment. rewrite !py_div_rounded by lia.
  cbn [rbind].
  repeat change (float_div (py_sum (map ?f results))
                   (float_of_int (len results)))
    with (py_mean f results).
  fold pos neg neu. rewrite Hkey. done.
Qed.

Lemma aggregate_emotions_rounded (results : list EmotionResult.t)
    (source_type : string) (source_id : Z) (model_name utcnow : string) :
  results ≠ [] →
  let anger := py_mean EmotionResult.anger_score results in
  let disgust := py_mean EmotionResult.disgust_score results in
  let fear := py_mean EmotionResult.fear_score results in
  let joy := py_mean EmotionResult.joy_score results in
  let neutral := py_mean EmotionResult.neutral_score results in
  let sadness := py_mean EmotionResult.sadness_score results in
  let surprise := py_mean EmotionResult.surprise_score results in
  ∃ dominant,
    dominant_in
      [("anger", anger); ("disgust", disgust); ("fear", fear); ("joy", joy);
       ("neutral", neutral); ("sadness", sadness);
       ("surprise", surprise)]%string dominant ∧
    aggregate_emotions results source_type source_id model_name utcnow
    = EmotionResult.make source_type source_id anger disgust fear joy
        neutral sadness surprise dominant model_name utcnow.
Proof.
  intros Hne anger disgust fear joy neutral sadness surprise.
  pose proof (len_nonempty results Hne) as Hlen.
  destruct (py_max_key_dominant
    [("anger", anger); ("disgust", disgust); ("fear", fear); ("joy", joy);
     ("neutral", neutral); ("sadness", sadness); ("surprise", surprise)]%string
    ltac:(done)) as (dominant & Hkey & Hdom).
  exists dominant. split; [done|].
  unfold aggregate_emotions. cbn [EMOTION_LABELS rmapM].
  rewrite (rmapM_total _ EmotionResult.anger_score) by done.
  rewrite (rmapM_total _ EmotionResult.disgust_score) by done.
  rewrite (rmapM_total _ EmotionResult.fear_score) by done.
  rewrite (rmapM_total _ EmotionResult.joy_score) by done.
  rewrite (rmapM_total _ EmotionResult.neutral_score) by done.
  rewrite (rmapM_total _ EmotionResult.sadness_score) by done.
  rewrite (rmapM_total _ EmotionResult.surprise_score) by done.
  cbn [rbind]. rewrite !py_div_rounded by lia. cbn [rbind].
  repeat change (float_div (py_sum (map ?f results))
                   (float_of_int (len results)))
    with (py_mean f results).
  fold anger disgust fear joy neutral sadness surprise.
  rewrite Hkey. done.
Qed.

Lemma aggregate_sentiment_rounded_valid (results : list SentimentResult.t)
    (source_type : string) (source_id : Z) (model_name utcnow : string) :
  results ≠ [] → (len results < 2 ^ 53)%Z →
  Forall (λ r, SentimentResult.valid r = true) results →
  valid_source_type source_type = true →
  ∃ label,
    let agg :=
      SentimentResult.Build source_type source_id label
        (py_mean SentimentResult.positive_score results)
        (py_mean SentimentResult.negative_score results)
        (py_mean SentimentResult.neutral_score results)
        model_name utcnow in
    aggregate_sentiment results source_type source_id model_name utcnow
      = Ok agg ∧
    dominant_in (sentiment_scores agg) label.
Proof.
  intros Hne Hlen Hall Hst.
  destruct (aggregate_sentiment_rounded results source_type source_id
              model_name utcnow Hne) as (label & Hdom & Hagg).
  destruct (sentiment_valid_scores results Hall) as (Hp & Hn & Hu).
  exists label. cbn zeta. split; [|done].
  rewrite Hagg. unfold SentimentResult.make, SentimentResult.valid.
  cbn [SentimentResult.source_type SentimentResult.label
       SentimentResult.positive_score SentimentResult.negative_score
       SentimentResult.neutral_score].
  rewrite Hst, (sentiment_label_valid _ label (reflexivity _) Hdom).
  rewrite !py_mean_rounded_valid by done. done.
Qed.

Lemma aggregate_emotions_rounded_valid (results : list EmotionResult.t)
    (source_type : string) (source_id : Z) (model_name utcnow : string) :
  results ≠ [] → (len results < 2 ^ 53)%Z →
  Forall (λ r, EmotionResult.valid r = true) results →
  valid_source_type source_type = true →
  ∃ dominant,
    let agg :=
      EmotionResult.Build source_type source_id
        (py_mean EmotionResult.anger_score results)
        (py_mean EmotionResult.disgust_score results)
        (py_mean EmotionResult.fear_score results)
        (py_mean EmotionResult.joy_score results)
        (py_mean EmotionResult.neutral_score results)
        (py_mean EmotionResult.sadness_score results)
        (py_mean EmotionResult.surprise_score results)
        dominant model_name utcnow in
    aggregate_emotions results source_type source_id model_name utcnow
      = Ok agg ∧
    dominant_in (emotion_scores agg) dominant.
Proof.
  intros Hne Hlen Hall Hst.
  destruct (aggregate_emotions_rounded results source_type source_id
              model_name utcnow Hne) as (dominant & Hdom & Hagg).
  destruct (emotion_valid_scores results Hall)
    as (H1 & H2 & H3 & H4 & H5 & H6 & H7).
  exists dominant. cbn zeta. split; [|done].
  rewrite Hagg. unfold EmotionResult.make, EmotionResult.valid.
  cbn [EmotionResult.source_type EmotionResult.anger_score
       EmotionResult.disgust_score EmotionResult.fear_score
       EmotionResult.joy_score EmotionResult.neutral_score
       EmotionResult.sadness_score EmotionResult.surprise_score].
  rewrite Hst. rewrite !py_mean_rounded_valid by done. done.
Qed.

(** C5, as the code has it.  For non-empty lists of validated per-chunk
    results, the aggregate of each label is [sum(scores) / n] as binary64
    arithmetic computes it, the running sum and the quotient rounded to
    the nearest float: a valid score within [(n + 1) * 2^-53] of the
    unweighted arithmetic mean, and not always the mean itself.  The
    selected label is the dominant one among the computed means in the
    declared order of the label set: no label has a higher computed mean,
    and every label declared before it has a strictly lower one. *)
Theorem aggregate_rounded_mean_dominant
    (sresults : list SentimentResult.t) (eresults : list EmotionResult.t)
    (source_type : string) (source_id : Z) (model_name utcnow : string) :
  sresults ≠ [] → eresults ≠ [] →
  (len sresults < 2 ^ 53)%Z → (len eresults < 2 ^ 53)%Z →
  Forall (λ r, SentimentResult.valid r = true) sresults →
  Forall (λ r, EmotionResult.valid r = true) eresults →
  valid_source_type source_type = true →
  (∃ label,
     let agg :=
       SentimentResult.Build source_type source_id label
         (py_mean SentimentResult.positive_score sresults)
         (py_mean SentimentResult.negative_score sresults)
         (py_mean SentimentResult.neutral_score sresults)
         model_name utcnow in
     aggregate_sentiment sresults source_type source_id model_name utcnow
       = Ok agg ∧
     SentimentResult.valid agg = true ∧
     within_rounding (SentimentResult.positive_score agg)
       (map SentimentResult.positive_score sresults) ∧
     within_rounding (SentimentResult.negative_score agg)
       (map SentimentResult.negative_score sresults) ∧
     within_rounding (SentimentResult.neutral_score agg)
       (map SentimentResult.neutral_score sresults) ∧
     dict_keys (sentiment_scores agg)
       = ["positive"; "negative"; "neutral"]%string ∧
     dominant_in (sentiment_scores agg) label) ∧
  (∃ dominant,
     let agg :=
       EmotionResult.Build source_type source_id
         (py_mean EmotionResult.anger_score eresults)
         (py_mean EmotionResult.disgust_score eresults)
         (py_mean EmotionResult.fear_score eresults)
         (py_mean EmotionResult.joy_score eresults)
         (py_mean EmotionResult.neutral_score eresults)
         (py_mean EmotionResult.sadness_score eresults)
         (py_mean EmotionResult.surprise_score eresults)
         dominant model_name utcnow in
     aggregate_emotions eresults source_type source_id model_name utcnow
       = Ok agg ∧
     EmotionResult.valid agg = true ∧
     within_rounding (EmotionResult.anger_score agg)
       (map EmotionResult.anger_score eresults) ∧
     within_rounding (EmotionResult.disgust_score agg)
       (map EmotionResult.disgust_score eresults) ∧
     within_rounding (EmotionResult.fear_score agg)
       (map EmotionResult.fear_score eresults) ∧
     within_rounding (EmotionResult.joy_score agg)
       (map EmotionResult.joy_score eresults) ∧
     within_rounding (EmotionResult.neutral_score agg)
       (map EmotionResult.neutral_score eresults) ∧
     within_rounding (EmotionResult.sadness_score agg)
       (map EmotionResult.sadness_score eresults) ∧
     within_rounding (EmotionResult.surprise_score agg)
       (map EmotionResult.surprise_score eresults) ∧
     dict_keys (emotion_scores agg)
       = ["anger"; "disgust"; "fear"; "joy"; "neutral"; "sadness";
          "surprise"]%string ∧
     dominant_in (emotion_scores agg) dominant).
Proof.
  intros Hs He Hsn Hen Hsv Hev Hst. split.
  - destruct (aggregate_sentiment_rounded_valid sresults source_type source_id
                model_name utcnow Hs Hsn Hsv Hst) as (label & Hagg & Hdom).
    destruct (sentiment_valid_scores sresults Hsv) as (Hp & Hn & Hu).
    exists label. cbv zeta in *. split; [exact Hagg|].
    cbn [SentimentResult.positive_score SentimentResult.negative_score
         SentimentResult.neutral_score].
    split.
    { unfold SentimentResult.valid.
      cbn [SentimentResult.source_type SentimentResult.label
           SentimentResult.positive_score SentimentResult.negative_score
           SentimentResult.neutral_score].
      rewrite Hst, (sentiment_label_valid _ label (reflexivity _) Hdom).
      by rewrite !py_mean_rounded_valid. }
    do 3 (split; [by apply py_mean_near|]). done.
  - destruct (aggregate_emotions_rounded_valid eresults source_type source_id
                model_name utcnow He Hen Hev Hst) as (dominant & Hagg & Hdom).
    destruct (emotion_valid_scores eresults Hev)
      as (H1 & H2 & H3 & H4 & H5 & H6 & H7).
    exists dominant. cbv zeta in *. split; [exact Hagg|].
    cbn [EmotionResult.anger_score EmotionResult.disgust_score
         EmotionResult.fear_score EmotionResult.joy_score
         EmotionResult.neutral_score EmotionResult.sadness_score
         EmotionResult.surprise_score].
    split.
    { unfold EmotionResult.valid.
      cbn [EmotionResult.source_type EmotionResult.anger_score
           EmotionResult.disgust_score EmotionResult.fear_score
           EmotionResult.joy_score EmotionResult.neutral_score
           EmotionResult.sadness_score EmotionResult.surprise_score].
      rewrite Hst. by rewrite !py_mean_rounded_valid. }
    do 7 (split; [by apply py_mean_near|]). done.
Qed.

(** The example of the specification: two chunks scoring [0.8, 0.2] and
    [0.4, 0.6] on two labels, as floats. *)
Definition sentiment_example : list SentimentResult.t :=
  [sentiment_chunk (literal 8 10) (literal 2 10) "positive";
   sentiment_chunk (literal 4 10) (literal 6 10) "negative"].

Definition emotion_example : list EmotionResult.t :=
  [emotion_chunk (literal 8 10) (literal 2 10) "joy";
   emotion_chunk (literal 4 10) (literal 6 10) "neutral"].

(** Two chunks whose negative scores have a sum that binary64 cannot
    hold: [1.0 + 2^-54] is rounded to [1.0]. *)
Definition sentiment_tie : list SentimentResult.t :=
  [sentiment_chunk (1 # 2) 1 "negative";
   sentiment_chunk (1 # 2) (pow2 (-54)) "positive"].

(** The aggregate is not the arithmetic mean, and the selected label is
    not always the label of the highest arithmetic mean.  On the example
    of the specification the code returns [0.6000000000000001], the float
    after [0.6], for the first label; on [sentiment_tie] the arithmetic
    mean of the negative scores is the higher one, the computed means are
    both [0.5], and the tie goes to [positive]. *)
Lemma aggregate_not_arithmetic_mean :
  (∃ agg,
     aggregate_sentiment sentiment_example "blog" 1 "m" "t1" = Ok agg ∧
     SentimentResult.positive_score agg
       == 5404319552844596 # 9007199254740992 ∧
     literal 6 10 == 5404319552844595 # 9007199254740992 ∧
     ¬ SentimentResult.positive_score agg
         == arith_mean (map SentimentResult.positive_score
                          sentiment_example) ∧
     SentimentResult.negative_score agg == literal 4 10) ∧
  (∃ agg,
     aggregate_sentiment sentiment_tie "blog" 1 "m" "t1" = Ok agg ∧
     SentimentResult.label agg = "positive"%string ∧
     SentimentResult.positive_score agg == 1 # 2 ∧
     SentimentResult.negative_score agg == 1 # 2 ∧
     arith_mean (map SentimentResult.positive_score sentiment_tie)
     < arith_mean (map SentimentResult.negative_score sentiment_tie)).
Proof.
  split.
  - eexists. split; [vm_compute; reflexivity|]. by vm_compute.
  - eexists. split; [vm_compute; reflexivity|]. by vm_compute.
Qed.

Lemma aggregate_rounded_mean_dominant_witness :
  (∃ agg,
     aggregate_sentiment sentiment_example "blog" 1 "m" "t1" = Ok agg ∧
     SentimentResult.label agg = "positive"%string ∧
     within_rounding (SentimentResult.positive_score agg)
       (map SentimentResult.positive_score sentiment_example)) ∧
  (∃ agg,
     aggregate_emotions emotion_example "blog" 1 "m" "t1" = Ok agg ∧
     EmotionResult.dominant_emotion agg = "joy"%string ∧
     within_rounding (EmotionResult.joy_score agg)
       (map EmotionResult.joy_score emotion_example)).
Proof.
  destruct (aggregate_rounded_mean_dominant sentiment_example emotion_example
              "blog" 1 "m" "t1")
    as [(label & Hs & _ & Hpos & _) (dominant & He & _ & _ & _ & _ & Hjoy & _)].
  - discriminate.
  - discriminate.
  - reflexivity.
  - reflexivity.
  - repeat constructor.
  - repeat constructor.
  - reflexivity.
  - cbv zeta in *. split.
    + eexists. split; [exact Hs|]. split; [|exact Hpos].
      vm_compute in Hs. by injection Hs as <-.
    + eexists. split; [exact He|]. split; [|exact Hjoy].
      vm_compute in He. by injection He as <-.
Defined.

(** *** The rounding against the Standard Library's binary64

    [SpecFloat] is the specification of the IEEE 754 operations that the
    Standard Library gives for its primitive floats.  On the samples,
    which include the scores of the examples, ties, and numbers below the
    normal range, its sums and quotients are those of [float_add] and
    [float_div]. *)

Definition spec_of_Z (n : Z) : spec_float := binary_normalize 53 1024 n 0 false.

Definition spec_literal (n d : Z) : spec_float :=
  SFdiv 53 1024 (spec_of_Z n) (spec_of_Z d).

Definition spec_value (f : spec_float) : option Q :=
  match f with
  | S754_zero _ => Some 0
  | S754_finite s m e =>
      Some ((if s then - (1) else 1) * inject_Z (Z.pos m) * pow2 e)
  | _ => None
  end.

Definition agrees (x : Q) (f : spec_float) : bool :=
  match spec_value f with
  | Some y => Qeq_bool x y
  | None => false
  end.

Definition samples : list (Z * Z * (Z * Z)) :=
  [(8, 10, (4, 10)); (2, 10, (6, 10)); (1, 10, (2, 10)); (1, 3, (2, 3));
   (1, 1, (1, 2 ^ 54)); (1, 1, (3, 2 ^ 53)); (7, 10, (1, 10));
   (5, 10, (5, 10)); (12, 10, (2, 1)); (1, 7, (3, 1));
   (3, 2 ^ 1000, (2 ^ 75, 1)); (1, 2 ^ 1000, (2 ^ 100, 1));
   (-8, 10, (4, 10)); (2 ^ 53 - 1, 1, (1, 1)); (2 ^ 53, 1, (1, 1))]%Z.

Example round_agrees_with_SpecFloat :
  forallb
    (λ '(n1, d1, (n2, d2)),
       let x := literal n1 d1 in
       let y := literal n2 d2 in
       let fx := spec_literal n1 d1 in
       let fy := spec_literal n2 d2 in
       agrees x fx && agrees y fy &&
       agrees (float_add x y) (SFadd 53 1024 fx fy) &&
       agrees (float_div x y) (SFdiv 53 1024 fx fy))
    samples = true.
Proof. vm_compute. reflexivity. Qed.

End Binary64.

(** ** The transcript segmenter: [split_segments] *)

Module Segmenter.

Local Open Scope nat_scope.

(** A line of text, as the list of its characters. *)
Abbreviation chars := (list ascii) (only parsing).

(** Whitespace as [str.strip()] and the regular expression class [\s] see
    it on ASCII text: tab to carriage return, the four separators
    [0x1c]-[0x1f], and the space. *)
Definition is_space (c : ascii) : bool :=
  let n := nat_of_ascii c in
  (9 <=? n) && (n <=? 13) || (28 <=? n) && (n <=? 32).

Fixpoint lstrip (s : chars) : chars :=
  match s with
  | c :: s' => if is_space c then lstrip s' else s
  | [] => []
  end.

Definition rstrip (s : chars) : chars := rev (lstrip (rev s)).

(** [s.strip()] *)
Definition strip (s : chars) : chars := rstrip (lstrip s).

(** [text.split("\n")] *)
Fixpoint split_lines (s : chars) : list chars :=
  match s with
  | [] => [[]]
  | c :: s' =>
      if Ascii.eqb c "010" then [] :: split_lines s'
      else match split_lines s' with
           | l :: ls => (c :: l) :: ls
           | [] => [[c]]
           end
  end.

(** [" ".join(parts)] *)
Fixpoint join_space (parts : list chars) : chars :=
  match parts with
  | [] => []
  | [p] => p
  | p :: ps => p ++ " "%char :: join_space ps
  end.

(** [re.sub(r"\s+", " ", s)]: every maximal run of whitespace becomes one
    space. [in_run] tells that the previous character was whitespace. *)
Fixpoint sub_ws (in_run : bool) (s : chars) : chars :=
  match s with
  | [] => []
  | c :: s' =>
      if is_space c
      then (if in_run then sub_ws true s' else " "%char :: sub_ws true s')
      else c :: sub_ws false s'
  end.

(** The character class [[A-Za-z\s.\-']]. *)
Definition name_char (c : ascii) : bool :=
  is_upper c || is_lower c || is_space c ||
  Ascii.eqb c "." || Ascii.eqb c "-" || Ascii.eqb c "'".

Fixpoint take_while (p : ascii → bool) (s : chars) : chars :=
  match s with
  | c :: s' => if p c then c :: take_while p s' else []
  | [] => []
  end.

(** [re.match(r"^([A-Z][A-Za-z\s.\-']+?):\s*", line)]: the pair of
    [match.group(1)] and [match.end()], or [None].  The lazy group must be
    followed by a colon, which is not in its class, so it can only be the
    whole run of class characters after the capital; the trailing [\s*]
    takes all the whitespace after the colon. *)
Definition match_speaker (line : chars) : option (chars * nat) :=
  match line with
  | c0 :: rest =>
      if is_upper c0 then
        let name := take_while name_char rest in
        match name, drop (length name) rest with
        | _ :: _, colon :: after =>
            if Ascii.eqb colon ":" then
              Some (c0 :: name,
                    1 + length name + 1 + length (take_while is_space after))
            else None
        | _, _ => None
        end
      else None
  | [] => None
  end.

(** [needle in hay] on strings: [needle] occurs as a substring. *)
Fixpoint is_prefix (needle hay : chars) : bool :=
  match needle, hay with
  | [], _ => true
  | a :: needle', b :: hay' => Ascii.eqb a b && is_prefix needle' hay'
  | _ :: _, [] => false
  end.

Fixpoint py_in (needle hay : chars) : bool :=
  is_prefix needle hay ||
  match hay with
  | [] => false
  | _ :: hay' => py_in needle hay'
  end.

Definition upper (s : chars) : chars := map ascii_upper s.

(** A segment: the dictionary [{"speaker": ..., "text": ...}]. *)
Record segment : Type := Segment { speaker : string; text : string }.

(** [is_interviewer] and the role it selects. *)
Definition is_interviewer (interviewer_last_name current_speaker : chars)
    : bool :=
  py_in (upper interviewer_last_name) (upper current_speaker).

Definition role (interviewer_last_name current_speaker : chars) : string :=
  if is_interviewer interviewer_last_name current_speaker
  then "interviewer" else "astronaut".

(** The whitespace-normalised text of a turn. *)
Definition segment_text (current_text_parts : list chars) : chars :=
  sub_ws false (strip (join_space current_text_parts)).

(** Closing a turn: the block under "Save previous segment", which the
    function repeats after the loop for the last turn. *)
Definition flush (interviewer_last_name : chars) (segments : list segment)
    (current_speaker : option chars) (current_text_parts : list chars)
    : list segment :=
  match current_speaker, current_text_parts with
  | Some current_speaker, _ :: _ =>
      let segment_text := segment_text current_text_parts in
      if 20 <? length segment_text then
        segments ++
          [Segment (role interviewer_last_name current_speaker)
                   (string_of_list_ascii segment_text)]
      else segments
  | _, _ => segments
  end.

(** The state of the loop over the lines. *)
Record state : Type := State {
  segments : list segment;
  current_speaker : option chars;
  current_text_parts : list chars
}.

Definition is_blank (s : chars) : bool :=
  match strip s with [] => true | _ => false end.

Definition step (interviewer_last_name : chars) (st : state) (line : chars)
    : state :=
  match match_speaker line with
  | Some (group1, match_end) =>
      let segments :=
        flush interviewer_last_name (segments st) (current_speaker st)
          (current_text_parts st) in
      let remainder := drop match_end line in
      State segments (Some (strip group1))
        (if is_blank remainder then [] else [remainder])
  | None =>
      if is_blank line then st
      else State (segments st) (current_speaker st)
             (current_text_parts st ++ [strip line])
  end.

Definition split_segments (text interviewer_last_name : string)
    : list segment :=
  let name := list_ascii_of_string interviewer_last_name in
  let st :=
    fold_left (step name) (split_lines (list_ascii_of_string text))
      (State [] None []) in
  flush name (segments st) (current_speaker st) (current_text_parts st).

(** *** What the specification says of a turn's role *)

(** Two characters are the same up to case: equal, or one is a capital
    letter and the other its small letter. *)
Definition same_ci (x y : ascii) : Prop :=
  x = y ∨
  (is_upper x = true ∧ nat_of_ascii y = nat_of_ascii x + 32) ∨
  (is_upper y = true ∧ nat_of_ascii x = nat_of_ascii y + 32).

(** [label] contains [name] case-insensitively: some substring of [label]
    is [name] up to the case of its letters. *)
Definition contains_ci (label name : chars) : Prop :=
  ∃ pre mid post, label = pre ++ mid ++ post ∧ Forall2 same_ci mid name.

(** The sample transcript of the specification. *)
Definition sample_transcript : string :=
  "WRIGHT: Hi there, how are you doing today?" +:+ String "010" "" +:+
  "WHITSON: I am doing well thank you for asking me.".

(** The turns of a transcript, as the specification's state machine
    reads them, before any filtering: a speaker line closes the open turn
    and opens the next with the rest of the line; any other non-blank line
    is appended, trimmed, to the open buffer; the end of the input closes
    the last turn.  A turn is its speaker label and its buffer. *)
Definition turn : Type := chars * list chars.

Record machine : Type := Machine {
  closed : list turn;
  open_label : option chars;
  buffer : list chars
}.

Definition close_turn (m : machine) : list turn :=
  match open_label m with
  | Some label => closed m ++ [(label, buffer m)]
  | None => closed m
  end.

Definition read_line (m : machine) (line : chars) : machine :=
  match match_speaker line with
  | Some (group1, match_end) =>
      Machine (close_turn m) (Some (strip group1))
        (if is_blank (drop match_end line) then [] else [drop match_end line])
  | None =>
      if is_blank line then m
      else Machine (closed m) (open_label m) (buffer m ++ [strip line])
  end.

Definition turns (text : string) : list turn :=
  close_turn
    (fold_left read_line (split_lines (list_ascii_of_string text))
       (Machine [] None [])).

(** What a closed turn contributes to the output. *)
Definition emit (interviewer_last_name : chars) (t : turn) : list segment :=
  flush interviewer_last_name [] (Some t.1) t.2.

(** *** Characters *)

Lemma nat_of_ascii_inj (x y : ascii) :
  nat_of_ascii x = nat_of_ascii y → x = y.
Proof.
  intros H. rewrite <- (ascii_nat_embedding x), <- (ascii_nat_embedding y).
  by rewrite H.
Qed.

Lemma nat_of_ascii_upper (x : ascii) :
  nat_of_ascii (ascii_upper x)
  = if is_lower x then nat_of_ascii x - 32 else nat_of_ascii x.
Proof.
  unfold ascii_upper. destruct (is_lower x); [|done].
  apply nat_ascii_embedding. pose proof (nat_ascii_bounded x). lia.
Qed.

Lemma is_upper_spec (c : ascii) :
  is_upper c = true ↔ 65 ≤ nat_of_ascii c ≤ 90.
Proof. unfold is_upper. rewrite andb_true_iff, !Nat.leb_le. done. Qed.

Lemma is_lower_spec (c : ascii) :
  is_lower c = true ↔ 97 ≤ nat_of_ascii c ≤ 122.
Proof. unfold is_lower. rewrite andb_true_iff, !Nat.leb_le. done. Qed.

Lemma upper_eq_same_ci (x y : ascii) :
  ascii_upper x = ascii_upper y ↔ same_ci x y.
Proof.
  unfold same_ci. rewrite !is_upper_spec.
  assert (ascii_upper x = ascii_upper y
          ↔ nat_of_ascii (ascii_upper x) = nat_of_ascii (ascii_upper y)) as ->.
  { split; [by intros ->|apply nat_of_ascii_inj]. }
  assert (x = y ↔ nat_of_ascii x = nat_of_ascii y) as ->.
  { split; [by intros ->|apply nat_of_ascii_inj]. }
  rewrite !nat_of_ascii_upper.
  destruct (is_lower x) eqn:Hx, (is_lower y) eqn:Hy;
    try apply is_lower_spec in Hx; try apply is_lower_spec in Hy;
    try (apply not_true_iff_false in Hx; rewrite is_lower_spec in Hx);
    try (apply not_true_iff_false in Hy; rewrite is_lower_spec in Hy);
    lia.
Qed.

(** *** Substrings *)

Lemma is_prefix_spec (needle hay : chars) :
  is_prefix needle hay = true ↔ ∃ post, hay = needle ++ post.
Proof.
  revert hay. induction needle as [|a needle IH]; intros hay.
  - cbn. split; [eauto|done].
  - destruct hay as [|b hay]; cbn [is_prefix].
    + split; [done|]. by intros [post ?].
    + rewrite andb_true_iff, Ascii.eqb_eq, IH. split.
      * intros [-> [post ->]]. eauto.
      * intros [post [= -> ->]]. eauto.
Qed.

Lemma py_in_spec (needle hay : chars) :
  py_in needle hay = true ↔ ∃ pre post, hay = pre ++ needle ++ post.
Proof.
  induction hay as [|b hay IH]; cbn [py_in]; rewrite orb_true_iff.
  - rewrite is_prefix_spec. split.
    + intros [[post ->]|?]; [|done]. by exists [], post.
    + intros (pre & post & H). left.
      destruct pre; [|done]. by exists post.
  - rewrite is_prefix_spec, IH. split.
    + intros [[post ->]|(pre & post & ->)].
      * by exists [], post.
      * by exists (b :: pre), post.
    + intros ([|c pre] & post & H).
      * left. by exists post.
      * right. injection H as -> ->. by exists pre, post.
Qed.

Lemma upper_eq_Forall2 (a b : chars) :
  upper a = upper b ↔ Forall2 same_ci a b.
Proof.
  unfold upper. revert b. induction a as [|x a IH]; intros [|y b]; cbn [map].
  - split; [constructor|done].
  - split; [done|]. intros H. inversion H.
  - split; [done|]. intros H. inversion H.
  - split.
    + intros [= Hxy Hab]. constructor; [by apply upper_eq_same_ci|by apply IH].
    + intros H. inversion H; subst. f_equal; [by apply upper_eq_same_ci|by apply IH].
Qed.

(** The test of the code is the containment the specification words. *)
Lemma is_interviewer_spec (interviewer_last_name current_speaker : chars) :
  is_interviewer interviewer_last_name current_speaker = true
  ↔ contains_ci current_speaker interviewer_last_name.
Proof.
  unfold is_interviewer, contains_ci. rewrite py_in_spec. split.
  - intros (pre' & post' & H). unfold upper in H.
    apply fmap_app_inv in H as (pre & rest & -> & H & ->).
    symmetry in H.
    apply fmap_app_inv in H as (mid & post & Hmid & -> & ->).
    exists pre, mid, post. split; [done|]. by apply upper_eq_Forall2.
  - intros (pre & mid & post & -> & H). apply upper_eq_Forall2 in H.
    exists (upper pre), (upper post). unfold upper in *.
    by rewrite !map_app, H.
Qed.

(** *** The segments of a transcript *)

Lemma length_string_of_list_ascii (s : chars) :
  String.length (string_of_list_ascii s) = length s.
Proof. induction s as [|c s IH]; [done|]. cbn. by rewrite IH. Qed.

(** What every emitted segment is: the normalised text of a turn, longer
    than 20 characters, under the role of the turn's speaker label. *)
Definition emitted (interviewer_last_name : chars) (seg : segment) : Prop :=
  ∃ (label : chars) (parts : list chars),
    seg = Segment (role interviewer_last_name label)
            (string_of_list_ascii (segment_text parts)) ∧
    20 < length (segment_text parts).

Lemma flush_cases (name : chars) (segs : list segment)
    (sp : option chars) (parts : list chars) :
  flush name segs sp parts = segs ∨
  ∃ label, sp = Some label ∧ 20 < length (segment_text parts) ∧
    flush name segs sp parts
    = segs ++ [Segment (role name label)
                 (string_of_list_ascii (segment_text parts))].
Proof.
  unfold flush. destruct sp as [label|]; [|by left].
  destruct parts as [|p parts]; [by left|].
  destruct (Nat.ltb_spec 20 (length (segment_text (p :: parts))));
    [right; eauto|by left].
Qed.

Lemma flush_short (name : chars) (segs : list segment)
    (sp : option chars) (parts : list chars) :
  length (segment_text parts) ≤ 20 → flush name segs sp parts = segs.
Proof.
  intros Hshort. destruct (flush_cases name segs sp parts)
    as [H|(label & _ & Hlong & _)]; [done|lia].
Qed.

Lemma flush_emitted (name : chars) (segs : list segment)
    (sp : option chars) (parts : list chars) :
  Forall (emitted name) segs → Forall (emitted name) (flush name segs sp parts).
Proof.
  intros Hsegs. destruct (flush_cases name segs sp parts)
    as [->|(label & _ & Hlong & ->)]; [done|].
  apply Forall_app. split; [done|]. constructor; [|done].
  by exists label, parts.
Qed.

Lemma step_emitted (name : chars) (st : state) (line : chars) :
  Forall (emitted name) (segments st) →
  Forall (emitted name) (segments (step name st line)).
Proof.
  intros Hst. unfold step.
  destruct (match_speaker line) as [[group1 match_end]|].
  - cbn [segments]. by apply flush_emitted.
  - destruct (is_blank line); done.
Qed.

Lemma split_segments_emitted (text interviewer_last_name : string) :
  Forall (emitted (list_ascii_of_string interviewer_last_name))
    (split_segments text interviewer_last_name).
Proof.
  unfold split_segments. apply flush_emitted.
  generalize (split_lines (list_ascii_of_string text)).
  assert (Forall (emitted (list_ascii_of_string interviewer_last_name))
            (segments (State [] None []))) as Hinit by constructor.
  revert Hinit. generalize (State [] None []).
  intros st Hst lines. revert st Hst.
  induction lines as [|line lines IH]; intros st Hst; [done|].
  cbn [fold_left]. apply IH. by apply step_emitted.
Qed.

(** *** The output is the turns of the transcript, filtered *)

Lemma flush_app (name : chars) (segs : list segment) (sp : option chars)
    (parts : list chars) :
  flush name segs sp parts = segs ++ flush name [] sp parts.
Proof.
  unfold flush. destruct sp as [label|]; [|by rewrite app_nil_r].
  destruct parts as [|p parts]; [by rewrite app_nil_r|].
  destruct (20 <? _); [done|by rewrite app_nil_r].
Qed.

Lemma flush_close (name : chars) (m : machine) :
  flush name (flat_map (emit name) (closed m)) (open_label m) (buffer m)
  = flat_map (emit name) (close_turn m).
Proof.
  unfold close_turn. destruct (open_label m) as [label|]; [|done].
  rewrite flat_map_app, flush_app. cbn [flat_map]. by rewrite app_nil_r.
Qed.

(** The loop state of the code against the machine of the specification. *)
Definition simulates (name : chars) (st : state) (m : machine) : Prop :=
  segments st = flat_map (emit name) (closed m) ∧
  current_speaker st = open_label m ∧
  current_text_parts st = buffer m.

Lemma step_simulates (name : chars) (st : state) (m : machine) (line : chars) :
  simulates name st m → simulates name (step name st line) (read_line m line).
Proof.
  intros (Hsegs & Hsp & Hparts). unfold step, read_line.
  destruct (match_speaker line) as [[group1 match_end]|].
  - split; [|done]. cbn [segments closed].
    rewrite Hsegs, Hsp, Hparts. apply flush_close.
  - destruct (is_blank line); [done|].
    split; [done|]. split; [done|]. cbn. by rewrite Hparts.
Qed.

Lemma split_segments_turns (text interviewer_last_name : string) :
  split_segments text interviewer_last_name
  = flat_map (emit (list_ascii_of_string interviewer_last_name)) (turns text).
Proof.
  unfold split_segments, turns.
  set (name := list_ascii_of_string interviewer_last_name).
  generalize (split_lines (list_ascii_of_string text)). intros lines.
  assert (simulates name (State [] None []) (Machine [] None [])) as Hsim
    by done.
  revert Hsim. generalize (State [] None []) (Machine [] None []).
  induction lines as [|line lines IH]; intros st m Hsim.
  - cbn [fold_left]. destruct Hsim as (-> & -> & ->). apply flush_close.
  - cbn [fold_left]. apply IH. by apply step_simulates.
Qed.

Lemma emit_cases (name : chars) (t : turn) :
  (emit name t = [] ∧ (t.2 = [] ∨ length (segment_text t.2) ≤ 20)) ∨
  (emit name t = [Segment (role name t.1)
                    (string_of_list_ascii (segment_text t.2))] ∧
   20 < length (segment_text t.2)).
Proof.
  unfold emit, flush. destruct t as [label [|p parts]]; cbn [fst snd].
  - left. split; [done|by left].
  - destruct (Nat.ltb_spec 20 (length (segment_text (p :: parts)))).
    + right. done.
    + left. split; [done|by right].
Qed.

(** C7. The sample transcript with interviewer surname "Wright" yields
    exactly two segments, an interviewer turn then an astronaut turn.  In
    general the output is the sequence of the transcript's turns, each
    contributing at most one segment, and the segment of a turn is marked
    "interviewer" exactly when the turn's speaker label contains the
    surname up to the case of its letters, and "astronaut" otherwise. *)
Theorem split_segments_roles :
  split_segments sample_transcript "Wright"
  = [Segment "interviewer" "Hi there, how are you doing today?";
     Segment "astronaut" "I am doing well thank you for asking me."] ∧
  ∀ (text interviewer_last_name : string),
    let name := list_ascii_of_string interviewer_last_name in
    split_segments text interviewer_last_name
      = flat_map (emit name) (turns text) ∧
    ∀ (t : turn) (seg : segment), seg ∈ emit name t →
      emit name t = [seg] ∧
      (speaker seg = "interviewer"%string ↔ contains_ci t.1 name) ∧
      (speaker seg = "astronaut"%string ↔ ¬ contains_ci t.1 name).
Proof.
  split; [vm_compute; reflexivity|].
  intros text interviewer_last_name name.
  split; [apply split_segments_turns|].
  intros t seg Hseg.
  destruct (emit_cases name t) as [[Hemit _]|[Hemit _]]; rewrite Hemit in Hseg.
  - by apply elem_of_nil in Hseg.
  - apply list_elem_of_singleton in Hseg as ->. split; [done|].
    cbn [speaker]. unfold role. rewrite <- is_interviewer_spec.
    destruct (is_interviewer name t.1); split; split; done.
Qed.

(** C8. The output of [split_segments] is the sequence of the transcript's
    turns with every turn dropped whose whitespace-normalised text has 20
    characters or fewer, whether a speaker line or the end of the input
    closed it: every emitted segment carries the normalised text of its
    turn and is strictly longer than 20 characters. *)
Theorem split_segments_min_length (text interviewer_last_name : string) :
  let name := list_ascii_of_string interviewer_last_name in
  split_segments text interviewer_last_name
    = flat_map (emit name) (turns text) ∧
  (∀ t : turn, length (segment_text t.2) ≤ 20 → emit name t = []) ∧
  (∀ (t : turn) (seg : segment), seg ∈ emit name t →
     Segmenter.text seg = string_of_list_ascii (segment_text t.2)) ∧
  Forall (λ seg, 20 < String.length (Segmenter.text seg))
    (split_segments text interviewer_last_name).
Proof.
  intros name. split; [apply split_segments_turns|]. split; [|split].
  - intros t Hshort.
    destruct (emit_cases name t) as [[Hemit _]|[_ Hlong]]; [done|lia].
  - intros t seg Hseg.
    destruct (emit_cases name t) as [[Hemit _]|[Hemit _]]; rewrite Hemit in Hseg.
    + by apply elem_of_nil in Hseg.
    + by apply list_elem_of_singleton in Hseg as ->.
  - eapply Forall_impl; [apply split_segments_emitted|].
    intros seg (label & parts & -> & Hlong). cbn [Segmenter.text].
    by rewrite length_string_of_list_ascii.
Qed.

(** The repository's own filtering test: both turns are too short. *)
Example split_segments_short :
  split_segments ("WRIGHT: Hi." +:+ String "010" "" +:+ "WHITSON: Hello.")
    "Wright" = [].
Proof. vm_compute. reflexivity. Qed.

Lemma split_segments_min_length_witness :
  emit (list_ascii_of_string "Wright")
    (list_ascii_of_string "WRIGHT", [list_ascii_of_string "Hi."]) = [].
Proof.
  apply (split_segments_min_length "" "Wright").
  vm_compute. lia.
Defined.

Lemma split_segments_roles_witness :
  speaker (Segment "interviewer" "Hi there, how are you doing today?")
    = "interviewer"%string
  ↔ contains_ci (list_ascii_of_string "WRIGHT") (list_ascii_of_string "Wright").
Proof.
  pose proof (proj2 split_segments_roles sample_transcript "Wright") as H.
  cbn zeta in H. destruct H as [_ H].
  refine (proj1 (proj2 (H (list_ascii_of_string "WRIGHT",
            [list_ascii_of_string "Hi there, how are you doing today?"])
          _ _))).
  vm_compute. left.
Defined.

End Segmenter.

(** ** The row store: [src/data/db.py] *)

Module Db.

Import Aggregator.

(** A stored value, by SQLite storage class. *)
Inductive value : Type :=
| VNull
| VInt (z : Z)
| VText (s : string)
| VReal (q : Q).

(** A row, as [sqlite3.Row] presents it: column name to value. *)
Abbreviation row := (dict value) (only parsing).

(** [row[k]]: a missing column raises [IndexError]. *)
Definition row_item (r : row) (k : string) : result value :=
  match dict_get r k with
  | Some v => Ok v
  | None => Raise IndexError
  end.

(** The tables of [SCHEMA_SQL], each the list of its rows in rowid order. *)
Record database : Type := Database {
  expeditions : list row;
  blog_posts : list row;
  oral_histories : list row;
  sentiment_results : list row;
  emotion_results : list row;
  linguistic_features : list row
}.

(** An open connection: the database file and the connection's
    [last_insert_rowid]. *)
Record connection : Type := Connection {
  db : database;
  last_insert_rowid : Z
}.

(** [get_connection(db_path)] followed by [init_db(conn)] on an existing
    database file: the tables are kept ([CREATE TABLE IF NOT EXISTS]), the
    connection is new. *)
Definition get_connection (file : database) : connection :=
  Connection file 0.

Definition empty_database : database := Database [] [] [] [] [] [].

(** The columns of each table. *)
Definition columns_of (table : string) : option (list string) :=
  if String.eqb table "expeditions" then
    Some ["number"; "name"; "start_date"; "end_date"; "crew"; "patch_url"]
  else if String.eqb table "blog_posts" then
    Some ["id"; "url"; "title"; "author"; "published_date"; "text";
          "word_count"; "expedition_id"; "scraped_at"]
  else if String.eqb table "oral_histories" then
    Some ["id"; "astronaut_name"; "pdf_url"; "interview_date";
          "segment_index"; "speaker"; "text"; "word_count"; "scraped_at"]
  else if String.eqb table "sentiment_results" then
    Some ["id"; "source_type"; "source_id"; "label"; "positive_score";
          "negative_score"; "neutral_score"; "model_name"; "analyzed_at"]
  else if String.eqb table "emotion_results" then
    Some ["id"; "source_type"; "source_id"; "anger_score"; "disgust_score";
          "fear_score"; "joy_score"; "neutral_score"; "sadness_score";
          "surprise_score"; "dominant_emotion"; "model_name"; "analyzed_at"]
  else if String.eqb table "linguistic_features" then
    Some ["id"; "source_type"; "source_id"; "flesch_reading_ease";
          "avg_sentence_length"; "lexical_diversity"; "first_person_ratio";
          "exclamation_count"; "question_count"; "analyzed_at"]
  else None.

Definition rows_of (d : database) (table : string) : option (list row) :=
  if String.eqb table "expeditions" then Some (expeditions d)
  else if String.eqb table "blog_posts" then Some (blog_posts d)
  else if String.eqb table "oral_histories" then Some (oral_histories d)
  else if String.eqb table "sentiment_results" then Some (sentiment_results d)
  else if String.eqb table "emotion_results" then Some (emotion_results d)
  else if String.eqb table "linguistic_features" then
    Some (linguistic_features d)
  else None.

(** SQL [x = y]: [None] is the SQL NULL (unknown). *)
Definition sql_eq (x y : value) : option bool :=
  match x, y with
  | VNull, _ | _, VNull => None
  | VInt a, VInt b => Some (a =? b)%Z
  | VText a, VText b => Some (String.eqb a b)
  | VReal a, VReal b => Some (Qeq_bool a b)
  | VInt a, VReal b => Some (Qeq_bool (inject_Z a) b)
  | VReal a, VInt b => Some (Qeq_bool a (inject_Z b))
  | _, _ => Some false
  end.

(** A condition holds when it is true, not when it is unknown. *)
Definition sql_true (b : option bool) : bool := default false b.

Definition col (r : row) (k : string) : value := default VNull (dict_get r k).

(** The next rowid of an [INTEGER PRIMARY KEY AUTOINCREMENT] table.  No
    statement of the program deletes a row, so the largest rowid ever used
    is the largest one present. *)
Definition row_id (r : row) : Z :=
  match col r "id" with VInt z => z | _ => 0 end.

Definition next_id (rows : list row) : Z :=
  1 + fold_right Z.max 0 (map row_id rows).

Definition opt_text (o : option string) : value :=
  match o with Some s => VText s | None => VNull end.

Definition opt_int (o : option Z) : value :=
  match o with Some z => VInt z | None => VNull end.

(** *** The models of [src/data/models.py] that are stored *)

Module BlogPost.
Record t : Type := Build {
  url : string;
  title : string;
  author : option string;
  published_date : string;
  text : string;
  word_count : Z;
  expedition_id : option Z;
  scraped_at : string
}.
End BlogPost.

Module OralHistorySegment.
Record t : Type := Build {
  astronaut_name : string;
  pdf_url : string;
  interview_date : option string;
  segment_index : Z;
  speaker : string;
  text : string;
  word_count : Z;
  scraped_at : string
}.
End OralHistorySegment.

Module LinguisticFeatures.
Record t : Type := Build {
  source_type : string;
  source_id : Z;
  flesch_reading_ease : Q;
  avg_sentence_length : Q;
  lexical_diversity : Q;
  first_person_ratio : Q;
  exclamation_count : Z;
  question_count : Z;
  analyzed_at : string
}.

Definition valid (r : t) : bool :=
  valid_source_type (source_type r) &&
  Qle_bool 0 (avg_sentence_length r) &&
  valid_score (lexical_diversity r) && valid_score (first_person_ratio r) &&
  (0 <=? exclamation_count r)%Z && (0 <=? question_count r)%Z.

Definition make (source_type : string) (source_id : Z)
    (flesch_reading_ease avg_sentence_length lexical_diversity
     first_person_ratio : Q) (exclamation_count question_count : Z)
    (analyzed_at : string) : result t :=
  let r := Build source_type source_id flesch_reading_ease
             avg_sentence_length lexical_diversity first_person_ratio
             exclamation_count question_count analyzed_at in
  if valid r then Ok r else Raise ValidationError.
End LinguisticFeatures.

(** *** Inserts *)

(** [CHECK(source_type IN ('blog', 'oral_history'))] *)
Definition check_source_type (source_type : string) : bool :=
  String.eqb source_type "blog" || String.eqb source_type "oral_history".

(** [insert_blog_post]: [url] is [UNIQUE] and [expedition_id] references
    [expeditions(number)]; the [IntegrityError] of either is caught and
    the function returns [-1]. *)
Definition insert_blog_post (conn : connection) (post : BlogPost.t)
    : connection * Z :=
  let d := db conn in
  let duplicate :=
    existsb (λ r, sql_true (sql_eq (col r "url") (VText (BlogPost.url post))))
      (blog_posts d) in
  let dangling :=
    match BlogPost.expedition_id post with
    | Some n =>
        negb (existsb (λ r, sql_true (sql_eq (col r "number") (VInt n)))
                (expeditions d))
    | None => false
    end in
  if duplicate || dangling then (conn, -1)
  else
    let id := next_id (blog_posts d) in
    let r : row :=
      [("id", VInt id);
       ("url", VText (BlogPost.url post));
       ("title", VText (BlogPost.title post));
       ("author", opt_text (BlogPost.author post));
       ("published_date", VText (BlogPost.published_date post));
       ("text", VText (BlogPost.text post));
       ("word_count", VInt (BlogPost.word_count post));
       ("expedition_id", opt_int (BlogPost.expedition_id post));
       ("scraped_at", VText (BlogPost.scraped_at post))] in
    (Connection
       (Database (expeditions d) (blog_posts d ++ [r]) (oral_histories d)
          (sentiment_results d) (emotion_results d) (linguistic_features d))
       id, id).

Definition insert_oral_history (conn : connection)
    (segment : OralHistorySegment.t) : connection * Z :=
  let d := db conn in
  let id := next_id (oral_histories d) in
  let r : row :=
    [("id", VInt id);
     ("astronaut_name", VText (OralHistorySegment.astronaut_name segment));
     ("pdf_url", VText (OralHistorySegment.pdf_url segment));
     ("interview_date", opt_text (OralHistorySegment.interview_date segment));
     ("segment_index", VInt (OralHistorySegment.segment_index segment));
     ("speaker", VText (OralHistorySegment.speaker segment));
     ("text", VText (OralHistorySegment.text segment));
     ("word_count", VInt (OralHistorySegment.word_count segment));
     ("scraped_at", VText (OralHistorySegment.scraped_at segment))] in
  (Connection
     (Database (expeditions d) (blog_posts d) (oral_histories d ++ [r])
        (sentiment_results d) (emotion_results d) (linguistic_features d))
     id, id).

(** The uniqueness tuple [(source_type, source_id, model_name)] of a
    result row against the values of a new one. *)
Definition same_key (source_type : string) (source_id : Z)
    (model_name : string) (a : row) : bool :=
  sql_true (sql_eq (col a "source_type") (VText source_type)) &&
  sql_true (sql_eq (col a "source_id") (VInt source_id)) &&
  sql_true (sql_eq (col a "model_name") (VText model_name)).

(** [INSERT OR IGNORE]: a row that violates the [CHECK] or the [UNIQUE]
    constraint is skipped without an error, and [lastrowid] stays what the
    connection's last successful insert made it. *)
Definition insert_sentiment (conn : connection) (result : SentimentResult.t)
    : connection * Z :=
  let d := db conn in
  let source_type := SentimentResult.source_type result in
  let source_id := SentimentResult.source_id result in
  let model_name := SentimentResult.model_name result in
  if negb (check_source_type source_type)
     || existsb (same_key source_type source_id model_name)
          (sentiment_results d)
  then (conn, last_insert_rowid conn)
  else
    let id := next_id (sentiment_results d) in
    let r : row :=
      [("id", VInt id);
       ("source_type", VText source_type);
       ("source_id", VInt source_id);
       ("label", VText (SentimentResult.label result));
       ("positive_score", VReal (SentimentResult.positive_score result));
       ("negative_score", VReal (SentimentResult.negative_score result));
       ("neutral_score", VReal (SentimentResult.neutral_score result));
       ("model_name", VText model_name);
       ("analyzed_at", VText (SentimentResult.analyzed_at result))] in
    (Connection
       (Database (expeditions d) (blog_posts d) (oral_histories d)
          (sentiment_results d ++ [r]) (emotion_results d)
          (linguistic_features d))
       id, id).

Definition insert_emotion (conn : connection) (result : EmotionResult.t)
    : connection * Z :=
  let d := db conn in
  let source_type := EmotionResult.source_type result in
  let source_id := EmotionResult.source_id result in
  let model_name := EmotionResult.model_name result in
  if negb (check_source_type source_type)
     || existsb (same_key source_type source_id model_name)
          (emotion_results d)
  then (conn, last_insert_rowid conn)
  else
    let id := next_id (emotion_results d) in
    let r : row :=
      [("id", VInt id);
       ("source_type", VText source_type);
       ("source_id", VInt source_id);
       ("anger_score", VReal (EmotionResult.anger_score result));
       ("disgust_score", VReal (EmotionResult.disgust_score result));
       ("fear_score", VReal (EmotionResult.fear_score result));
       ("joy_score", VReal (EmotionResult.joy_score result));
       ("neutral_score", VReal (EmotionResult.neutral_score result));
       ("sadness_score", VReal (EmotionResult.sadness_score result));
       ("surprise_score", VReal (EmotionResult.surprise_score result));
       ("dominant_emotion", VText (EmotionResult.dominant_emotion result));
       ("model_name", VText model_name);
       ("analyzed_at", VText (EmotionResult.analyzed_at result))] in
    (Connection
       (Database (expeditions d) (blog_posts d) (oral_histories d)
          (sentiment_results d) (emotion_results d ++ [r])
          (linguistic_features d))
       id, id).

(** [linguistic_features] is unique per [(source_type, source_id)]. *)
Definition same_source (source_type : string) (source_id : Z) (a : row)
    : bool :=
  sql_true (sql_eq (col a "source_type") (VText source_type)) &&
  sql_true (sql_eq (col a "source_id") (VInt source_id)).

Definition insert_linguistic (conn : connection)
    (features : LinguisticFeatures.t) : connection * Z :=
  let d := db conn in
  let source_type := LinguisticFeatures.source_type features in
  let source_id := LinguisticFeatures.source_id features in
  if negb (check_source_type source_type)
     || existsb (same_source source_type source_id) (linguistic_features d)
  then (conn, last_insert_rowid conn)
  else
    let id := next_id (linguistic_features d) in
    let r : row :=
      [("id", VInt id);
       ("source_type", VText source_type);
       ("source_id", VInt source_id);
       ("flesch_reading_ease",
          VReal (LinguisticFeatures.flesch_reading_ease features));
       ("avg_sentence_length",
          VReal (LinguisticFeatures.avg_sentence_length features));
       ("lexical_diversity",
          VReal (LinguisticFeatures.lexical_diversity features));
       ("first_person_ratio",
          VReal (LinguisticFeatures.first_person_ratio features));
       ("exclamation_count",
          VInt (LinguisticFeatures.exclamation_count features));
       ("question_count", VInt (LinguisticFeatures.question_count features));
       ("analyzed_at", VText (LinguisticFeatures.analyzed_at features))] in
    (Connection
       (Database (expeditions d) (blog_posts d) (oral_histories d)
          (sentiment_results d) (emotion_results d)
          (linguistic_features d ++ [r]))
       id, id).

(** *** The unprocessed-rows query *)

Definition has_columns (table : string) (cols : list string) : bool :=
  match columns_of table with
  | Some cs => forallb (λ c, existsb (String.eqb c) cs) cols
  | None => false
  end.

(** The [ON] condition of the join, for a source row [s] and a result row
    [a]; [model_name] is [None] in the query without a model. *)
Definition join_on (source_type : string) (model_name : option string)
    (s a : row) : bool :=
  sql_true (sql_eq (col a "source_type") (VText source_type)) &&
  sql_true (sql_eq (col a "source_id") (col s "id")) &&
  match model_name with
  | Some m => sql_true (sql_eq (col a "model_name") (VText m))
  | None => true
  end.

(** [SELECT s.* FROM source s LEFT JOIN analysis a ON ... WHERE a.id IS
    NULL]: a source row with matching result rows is paired with each of
    them; a source row with none is paired once with NULLs.  [a.id] is the
    primary key of the result table and never NULL in a stored row, so the
    [WHERE] keeps exactly the source rows that have no match, in the order
    of the source table. *)
Definition left_join_is_null (source analysis : list row)
    (on : row → row → bool) : list row :=
  filter (λ s, existsb (on s) analysis = false) source.

(** The truth value of [model_name] in [if model_name:]. *)
Definition truthy (model_name : option string) : option string :=
  match model_name with
  | Some EmptyString => None
  | m => m
  end.

Definition get_unanalyzed (conn : connection)
    (source_table analysis_table source_type : string)
    (model_name : option string) : result (list row) :=
  let model_name := truthy model_name in
  let needed :=
    ["id"; "source_type"; "source_id"] ++
    (match model_name with Some _ => ["model_name"] | None => [] end) in
  match rows_of (db conn) source_table, rows_of (db conn) analysis_table with
  | Some source, Some analysis =>
      if has_columns source_table ["id"] && has_columns analysis_table needed
      then Ok (left_join_is_null source analysis
                 (join_on source_type model_name))
      else Raise OperationalError
  | _, _ => Raise OperationalError
  end.

(** *** Later operations on the store *)

(** What the program does to the store after a result is in: any of the
    inserts, and a new connection after a restart of the process. *)
Inductive op : Type :=
| InsertBlogPost (post : BlogPost.t)
| InsertOralHistory (segment : OralHistorySegment.t)
| InsertSentiment (result : SentimentResult.t)
| InsertEmotion (result : EmotionResult.t)
| InsertLinguistic (features : LinguisticFeatures.t)
| Restart.

Definition run_op (conn : connection) (o : op) : connection :=
  match o with
  | InsertBlogPost post => (insert_blog_post conn post).1
  | InsertOralHistory segment => (insert_oral_history conn segment).1
  | InsertSentiment result => (insert_sentiment conn result).1
  | InsertEmotion result => (insert_emotion conn result).1
  | InsertLinguistic features => (insert_linguistic conn features).1
  | Restart => get_connection (db conn)
  end.

Definition run_ops (conn : connection) (ops : list op) : connection :=
  fold_left run_op ops conn.

(** A result is stored for [(source_type, source_id, model_name)]. *)
Definition has_result (results : list row) (source_type : string)
    (source_id : Z) (model_name : string) : Prop :=
  ∃ a, a ∈ results ∧ same_key source_type source_id model_name a = true.

(** *** Results are never lost *)

Lemma run_op_sentiment_results (conn : connection) (o : op) :
  sentiment_results (db conn) `prefix_of` sentiment_results (db (run_op conn o)).
Proof.
  destruct o as [post|segment|result|result|features|]; cbn [run_op].
  - unfold insert_blog_post. destruct (_ || _); done.
  - done.
  - unfold insert_sentiment. destruct (_ || _); [done|].
    cbn. by apply prefix_app_r.
  - unfold insert_emotion. destruct (_ || _); done.
  - unfold insert_linguistic. destruct (_ || _); done.
  - done.
Qed.

Lemma run_op_emotion_results (conn : connection) (o : op) :
  emotion_results (db conn) `prefix_of` emotion_results (db (run_op conn o)).
Proof.
  destruct o as [post|segment|result|result|features|]; cbn [run_op].
  - unfold insert_blog_post. destruct (_ || _); done.
  - done.
  - unfold insert_sentiment. destruct (_ || _); done.
  - unfold insert_emotion. destruct (_ || _); [done|].
    cbn. by apply prefix_app_r.
  - unfold insert_linguistic. destruct (_ || _); done.
  - done.
Qed.

Lemma run_ops_sentiment_results (conn : connection) (ops : list op) :
  sentiment_results (db conn)
    `prefix_of` sentiment_results (db (run_ops conn ops)).
Proof.
  unfold run_ops. revert conn.
  induction ops as [|o ops IH]; intros conn; [done|].
  cbn [fold_left]. etrans; [apply run_op_sentiment_results|apply IH].
Qed.

Lemma run_ops_emotion_results (conn : connection) (ops : list op) :
  emotion_results (db conn)
    `prefix_of` emotion_results (db (run_ops conn ops)).
Proof.
  unfold run_ops. revert conn.
  induction ops as [|o ops IH]; intros conn; [done|].
  cbn [fold_left]. etrans; [apply run_op_emotion_results|apply IH].
Qed.

Lemma has_result_prefix (rs rs' : list row) (source_type : string)
    (source_id : Z) (model_name : string) :
  rs `prefix_of` rs' →
  has_result rs source_type source_id model_name →
  has_result rs' source_type source_id model_name.
Proof.
  intros [k ->] (a & Ha & Hkey). exists a. split; [|done].
  apply elem_of_app. by left.
Qed.

Lemma existsb_has_result (rs : list row) (source_type : string)
    (source_id : Z) (model_name : string) :
  existsb (same_key source_type source_id model_name) rs = true
  ↔ has_result rs source_type source_id model_name.
Proof.
  unfold has_result. rewrite existsb_exists.
  by setoid_rewrite list_elem_of_In.
Qed.

Lemma same_key_new (source_type : string) (source_id : Z)
    (model_name : string) (r : row) :
  col r "source_type" = VText source_type →
  col r "source_id" = VInt source_id →
  col r "model_name" = VText model_name →
  same_key source_type source_id model_name r = true.
Proof.
  intros H1 H2 H3. unfold same_key. rewrite H1, H2, H3. cbn.
  by rewrite !String.eqb_refl, Z.eqb_refl.
Qed.

(** *** The query leaves out every source row that has a result *)

Lemma same_key_join_on (source_type : string) (source_id : Z)
    (model_name : string) (mn : option string) (s a : row) :
  same_key source_type source_id model_name a = true →
  col s "id" = VInt source_id →
  truthy mn = truthy (Some model_name) →
  join_on source_type (truthy mn) s a = true.
Proof.
  unfold same_key, join_on. intros Hkey Hid ->.
  apply andb_true_iff in Hkey as [Hkey Hm].
  apply andb_true_iff in Hkey as [Hst Hsid].
  rewrite Hst, Hid, Hsid. cbn [andb].
  destruct model_name; cbn [truthy]; done.
Qed.

Lemma left_join_is_null_excludes (source analysis : list row)
    (on : row → row → bool) (s : row) :
  s ∈ left_join_is_null source analysis on →
  s ∈ source ∧ ∀ a, a ∈ analysis → on s a = false.
Proof.
  unfold left_join_is_null. intros Hs.
  apply list_elem_of_filter in Hs as [Hnone Hs]. split; [done|].
  intros a Ha. destruct (on s a) eqn:Hon; [|done].
  assert (existsb (on s) analysis = true) as Hex; [|congruence].
  apply existsb_exists. exists a. split; [by apply list_elem_of_In|done].
Qed.

Lemma get_unanalyzed_excludes (conn : connection)
    (source_table analysis_table : string) (results : list row)
    (source_type : string) (source_id : Z) (model_name : string)
    (rows : list row) :
  rows_of (db conn) analysis_table = Some results →
  has_result results source_type source_id model_name →
  get_unanalyzed conn source_table analysis_table source_type
    (Some model_name) = Ok rows →
  Forall (λ s, col s "id" ≠ VInt source_id) rows.
Proof.
  intros Hresults (a & Ha & Hkey). unfold get_unanalyzed. cbv zeta.
  rewrite Hresults.
  destruct (rows_of (db conn) source_table) as [source|]; [|done].
  destruct (_ && _); [|done]. intros [= <-].
  apply Forall_forall. intros s Hs Hid.
  apply left_join_is_null_excludes in Hs as [_ Hnone].
  specialize (Hnone a Ha).
  pose proof (same_key_join_on source_type source_id model_name
                (Some model_name) s a Hkey Hid eq_refl) as Hjoin.
  cbn [truthy] in Hjoin. congruence.
Qed.

Lemma get_unanalyzed_defined (conn : connection)
    (source_table analysis_table source_type model_name : string) :
  source_table ∈ ["blog_posts"; "oral_histories"]%string →
  analysis_table ∈ ["sentiment_results"; "emotion_results"]%string →
  is_Ok (get_unanalyzed conn source_table analysis_table source_type
           (Some model_name)).
Proof.
  intros Hs Ha. unfold get_unanalyzed.
  repeat (apply elem_of_cons in Hs as [->|Hs]);
    [| |by apply elem_of_nil in Hs];
    (repeat (apply elem_of_cons in Ha as [->|Ha]);
       [| |by apply elem_of_nil in Ha]);
    destruct (truthy (Some model_name)); by eexists.
Qed.

(** *** Conflict-ignoring inserts *)

Lemma valid_sentiment_source (r : SentimentResult.t) :
  SentimentResult.valid r = true →
  check_source_type (SentimentResult.source_type r) = true.
Proof.
  unfold SentimentResult.valid. intros Hv.
  repeat (apply andb_true_iff in Hv as [Hv _]). done.
Qed.

Lemma valid_emotion_source (r : EmotionResult.t) :
  EmotionResult.valid r = true →
  check_source_type (EmotionResult.source_type r) = true.
Proof.
  unfold EmotionResult.valid. intros Hv.
  repeat (apply andb_true_iff in Hv as [Hv _]). done.
Qed.

Lemma filter_same_key_none (key : row → bool) (rs : list row) :
  existsb key rs = false → filter (λ a, key a = true) rs = [].
Proof.
  induction rs as [|a rs IH]; [done|]. cbn [existsb].
  intros [Ha Hrs]%orb_false_iff.
  rewrite filter_cons_False by congruence. by apply IH.
Qed.

Section insert_sentiment.

Variables (conn : connection) (r : SentimentResult.t).

Let source_type := SentimentResult.source_type r.
Let source_id := SentimentResult.source_id r.
Let model_name := SentimentResult.model_name r.

Lemma insert_sentiment_stores :
  check_source_type source_type = true →
  has_result (sentiment_results (db (insert_sentiment conn r).1))
    source_type source_id model_name.
Proof.
  intros Hcheck. unfold insert_sentiment.
  fold source_type source_id model_name. rewrite Hcheck. cbn [negb orb].
  destruct (existsb _ _) eqn:Hex.
  - by apply existsb_has_result.
  - cbn [fst db sentiment_results]. eexists. split.
    + apply elem_of_app. right. apply list_elem_of_singleton. done.
    + by apply same_key_new.
Qed.

Lemma insert_sentiment_again :
  insert_sentiment (insert_sentiment conn r).1 r
  = ((insert_sentiment conn r).1,
     last_insert_rowid (insert_sentiment conn r).1).
Proof.
  destruct (check_source_type source_type) eqn:Hcheck.
  - pose proof (insert_sentiment_stores Hcheck) as Hhas.
    apply existsb_has_result in Hhas.
    generalize dependent (insert_sentiment conn r).1. intros conn' Hhas.
    unfold insert_sentiment. fold source_type source_id model_name.
    by rewrite Hhas, orb_true_r.
  - unfold insert_sentiment. fold source_type source_id model_name.
    rewrite Hcheck. done.
Qed.

Lemma insert_sentiment_one_row :
  check_source_type source_type = true →
  ¬ has_result (sentiment_results (db conn)) source_type source_id model_name →
  length (filter (λ a, same_key source_type source_id model_name a = true)
            (sentiment_results (db (insert_sentiment conn r).1))) = 1%nat.
Proof.
  intros Hcheck Hnew. rewrite <- existsb_has_result in Hnew.
  apply not_true_is_false in Hnew.
  unfold insert_sentiment. fold source_type source_id model_name.
  rewrite Hcheck, Hnew. cbn [negb orb fst db sentiment_results].
  rewrite filter_app, (filter_same_key_none _ _ Hnew).
  rewrite filter_cons_True by (by apply same_key_new). done.
Qed.

End insert_sentiment.

Section insert_emotion.

Variables (conn : connection) (r : EmotionResult.t).

Let source_type := EmotionResult.source_type r.
Let source_id := EmotionResult.source_id r.
Let model_name := EmotionResult.model_name r.

Lemma insert_emotion_stores :
  check_source_type source_type = true →
  has_result (emotion_results (db (insert_emotion conn r).1))
    source_type source_id model_name.
Proof.
  intros Hcheck. unfold insert_emotion.
  fold source_type source_id model_name. rewrite Hcheck. cbn [negb orb].
  destruct (existsb _ _) eqn:Hex.
  - by apply existsb_has_result.
  - cbn [fst db emotion_results]. eexists. split.
    + apply elem_of_app. right. apply list_elem_of_singleton. done.
    + by apply same_key_new.
Qed.

Lemma insert_emotion_again :
  insert_emotion (insert_emotion conn r).1 r
  = ((insert_emotion conn r).1,
     last_insert_rowid (insert_emotion conn r).1).
Proof.
  destruct (check_source_type source_type) eqn:Hcheck.
  - pose proof (insert_emotion_stores Hcheck) as Hhas.
    apply existsb_has_result in Hhas.
    generalize dependent (insert_emotion conn r).1. intros conn' Hhas.
    unfold insert_emotion. fold source_type source_id model_name.
    by rewrite Hhas, orb_true_r.
  - unfold insert_emotion. fold source_type source_id model_name.
    rewrite Hcheck. done.
Qed.

Lemma insert_emotion_one_row :
  check_source_type source_type = true →
  ¬ has_result (emotion_results (db conn)) source_type source_id model_name →
  length (filter (λ a, same_key source_type source_id model_name a = true)
            (emotion_results (db (insert_emotion conn r).1))) = 1%nat.
Proof.
  intros Hcheck Hnew. rewrite <- existsb_has_result in Hnew.
  apply not_true_is_false in Hnew.
  unfold insert_emotion. fold source_type source_id model_name.
  rewrite Hcheck, Hnew. cbn [negb orb fst db emotion_results].
  rewrite filter_app, (filter_same_key_none _ _ Hnew).
  rewrite filter_cons_True by (by apply same_key_new). done.
Qed.

End insert_emotion.

(** C1. Once [insert_sentiment] (or [insert_emotion]) has stored a result
    for [(source_type, source_id, model_name)], then after any later
    inserts and restarts of the process [get_unanalyzed], asked for that
    source type and model name, returns no source row with that id; and
    repeating the insert leaves the store as it is, without an error:
    a first insert of the key leaves exactly one row for it. *)
Theorem unanalyzed_excludes_stored (conn : connection)
    (r : SentimentResult.t) (e : EmotionResult.t) (ops : list op)
    (source_table : string) :
  SentimentResult.valid r = true →
  EmotionResult.valid e = true →
  source_table ∈ ["blog_posts"; "oral_histories"]%string →
  let conn_s := (insert_sentiment conn r).1 in
  let conn_e := (insert_emotion conn e).1 in
  ((∃ rows,
      get_unanalyzed (run_ops conn_s ops) source_table "sentiment_results"
        (SentimentResult.source_type r)
        (Some (SentimentResult.model_name r)) = Ok rows ∧
      Forall (λ s, col s "id" ≠ VInt (SentimentResult.source_id r)) rows) ∧
   insert_sentiment conn_s r = (conn_s, last_insert_rowid conn_s) ∧
   (¬ has_result (sentiment_results (db conn))
        (SentimentResult.source_type r) (SentimentResult.source_id r)
        (SentimentResult.model_name r) →
    length (filter (λ a, same_key (SentimentResult.source_type r)
                           (SentimentResult.source_id r)
                           (SentimentResult.model_name r) a = true)
              (sentiment_results (db (insert_sentiment conn_s r).1)))
    = 1%nat)) ∧
  ((∃ rows,
      get_unanalyzed (run_ops conn_e ops) source_table "emotion_results"
        (EmotionResult.source_type e)
        (Some (EmotionResult.model_name e)) = Ok rows ∧
      Forall (λ s, col s "id" ≠ VInt (EmotionResult.source_id e)) rows) ∧
   insert_emotion conn_e e = (conn_e, last_insert_rowid conn_e) ∧
   (¬ has_result (emotion_results (db conn))
        (EmotionResult.source_type e) (EmotionResult.source_id e)
        (EmotionResult.model_name e) →
    length (filter (λ a, same_key (EmotionResult.source_type e)
                           (EmotionResult.source_id e)
                           (EmotionResult.model_name e) a = true)
              (emotion_results (db (insert_emotion conn_e e).1)))
    = 1%nat)).
Proof.
  intros Hr He Htable conn_s conn_e. subst conn_s conn_e.
  apply valid_sentiment_source in Hr. apply valid_emotion_source in He.
  split; (split; [|split]).
  - destruct (get_unanalyzed_defined
                (run_ops (insert_sentiment conn r).1 ops) source_table
                "sentiment_results" (SentimentResult.source_type r)
                (SentimentResult.model_name r) Htable ltac:(constructor))
      as [rows Hrows].
    exists rows. split; [done|].
    refine (get_unanalyzed_excludes (run_ops _ ops) source_table
              "sentiment_results" _ _ _ _ rows eq_refl _ Hrows).
    eapply has_result_prefix; [apply run_ops_sentiment_results|].
    by apply insert_sentiment_stores.
  - apply insert_sentiment_again.
  - intros Hnew. rewrite insert_sentiment_again. cbn [fst].
    by apply insert_sentiment_one_row.
  - destruct (get_unanalyzed_defined
                (run_ops (insert_emotion conn e).1 ops) source_table
                "emotion_results" (EmotionResult.source_type e)
                (EmotionResult.model_name e) Htable ltac:(do 2 constructor))
      as [rows Hrows].
    exists rows. split; [done|].
    refine (get_unanalyzed_excludes (run_ops _ ops) source_table
              "emotion_results" _ _ _ _ rows eq_refl _ Hrows).
    eapply has_result_prefix; [apply run_ops_emotion_results|].
    by apply insert_emotion_stores.
  - apply insert_emotion_again.
  - intros Hnew. rewrite insert_emotion_again. cbn [fst].
    by apply insert_emotion_one_row.
Qed.

(** The repository's own test of the query: a stored blog post is
    unprocessed until its result is inserted. *)
Definition sample_post : BlogPost.t :=
  BlogPost.Build "https://blogs.nasa.gov/spacestation/2021/06/15/science-day/"
    "Science Day" (Some "Mark Garcia") "2021-06-15"
    "The crew worked on science experiments today." 7 None "t0".

Definition sample_sentiment : SentimentResult.t :=
  SentimentResult.Build "blog" 1 "neutral" (2#10) (15#100) (65#100)
    "model-X" "t1".

Definition sample_emotion : EmotionResult.t :=
  EmotionResult.Build "blog" 1 0 0 0 (8#10) (2#10) 0 0 "joy" "model-Y" "t1".

Definition sample_conn : connection :=
  (insert_blog_post (get_connection empty_database) sample_post).1.

Example get_unanalyzed_before :
  (λ rows, map (λ s, col s "id") rows)
    <$> match get_unanalyzed sample_conn "blog_posts" "sentiment_results"
                "blog" (Some "model-X") with
        | Ok rows => Some rows
        | Raise _ => None
        end
  = Some [VInt 1].
Proof. vm_compute. reflexivity. Qed.

Example get_unanalyzed_after :
  get_unanalyzed (insert_sentiment sample_conn sample_sentiment).1
    "blog_posts" "sentiment_results" "blog" (Some "model-X") = Ok [].
Proof. vm_compute. reflexivity. Qed.

Lemma unanalyzed_excludes_stored_witness :
  ∃ rows,
    get_unanalyzed
      (run_ops (insert_sentiment sample_conn sample_sentiment).1
         [Restart; InsertSentiment sample_sentiment;
          InsertEmotion sample_emotion])
      "blog_posts" "sentiment_results"
      (SentimentResult.source_type sample_sentiment)
      (Some (SentimentResult.model_name sample_sentiment)) = Ok rows ∧
    Forall (λ s, col s "id" ≠ VInt (SentimentResult.source_id sample_sentiment))
      rows.
Proof.
  refine (proj1 (proj1 (unanalyzed_excludes_stored sample_conn
    sample_sentiment sample_emotion
    [Restart; InsertSentiment sample_sentiment; InsertEmotion sample_emotion]
    "blog_posts" _ _ _))).
  - reflexivity.
  - reflexivity.
  - constructor.
Defined.

End Db.

(** ** The runner: [_analyze_rows] and [run_analysis] *)

Module Runner.

Import Aggregator Db.

Definition MIN_WORDS_FOR_ANALYSIS : Z := 10.

(** A loaded analyzer: its model name, its tokenizer and its scoring
    pipeline, all oracles of the runner. *)
Record analyzer : Type := Analyzer {
  model_name : string;
  tokenizer_encode : string → list Z;
  tokenizer_decode : list Z → string;
  pipe : string → result (list (string * Q))
}.

(** [LinguisticAnalyzer.analyze]: the six feature values of a text are an
    oracle (text statistics), the result is built for the given source. *)
Record linguistic_analyzer : Type := LinguisticAnalyzer {
  measure : string → result (Q * Q * Q * Q * Z * Z)
}.

Definition linguistic_analyze (la : linguistic_analyzer)
    (text source_type : string) (source_id : Z) (utcnow : string)
    : result LinguisticFeatures.t :=
  m ←? measure la text;
  let '(flesch, avg_len, diversity, first_person, exclamations, questions) :=
    m in
  LinguisticFeatures.make source_type source_id flesch avg_len diversity
    first_person exclamations questions utcnow.

(** The values a row is expected to hold. *)
Definition as_text (v : value) : result string :=
  match v with VText s => Ok s | _ => Raise TypeError end.

Definition as_int (v : value) : result Z :=
  match v with VInt z => Ok z | _ => Raise ValidationError end.

(** [word_count < MIN_WORDS_FOR_ANALYSIS] *)
Definition below_min_words (v : value) : result bool :=
  match v with
  | VInt z => Ok (z <? MIN_WORDS_FOR_ANALYSIS)%Z
  | VReal q => Ok (negb (Qle_bool (inject_Z MIN_WORDS_FOR_ANALYSIS) q))
  | _ => Raise TypeError
  end.

(** [chunk_results[0]] when there is exactly one chunk result, the
    aggregate otherwise. *)
Definition sentiment_result (chunk_results : list SentimentResult.t)
    (source_type : string) (row_id : Z) (model_name utcnow : string)
    : result SentimentResult.t :=
  if (len chunk_results =? 1)%Z then
    match chunk_results with
    | r :: _ => Ok r
    | [] => Raise IndexError
    end
  else aggregate_sentiment chunk_results source_type row_id model_name utcnow.

Definition emotion_result (chunk_results : list EmotionResult.t)
    (source_type : string) (row_id : Z) (model_name utcnow : string)
    : result EmotionResult.t :=
  if (len chunk_results =? 1)%Z then
    match chunk_results with
    | r :: _ => Ok r
    | [] => Raise IndexError
    end
  else aggregate_emotions chunk_results source_type row_id model_name utcnow.

(** A [try] block whose [except Exception] only logs: the store is as the
    block left it, which is unchanged when the block raised before its
    insert. *)
Definition try_block (conn : connection) (body : result connection)
    : connection :=
  match body with
  | Ok conn' => conn'
  | Raise _ => conn
  end.

Section analyze.

Variable sentiment_analyzer : option analyzer.
Variable emotion_analyzer : option analyzer.
Variable linguistic : option linguistic_analyzer.
(** The reading of the clock, [datetime.utcnow()]. *)
Variable utcnow : string.

Definition sentiment_block (conn : connection) (sa : analyzer)
    (text row_id : value) (source_type : string) : connection :=
  try_block conn (
    text ←? as_text text;
    chunks ←? Chunker.chunk_text_default (tokenizer_encode sa)
                (tokenizer_decode sa) text;
    row_id ←? as_int row_id;
    chunk_results ←?
      rmapM (λ c, SentimentAnalyzer.analyze_text (pipe sa) (model_name sa)
                    c source_type row_id utcnow) chunks;
    result ←? sentiment_result chunk_results source_type row_id
                (model_name sa) utcnow;
    Ok (insert_sentiment conn result).1).

Definition emotion_block (conn : connection) (ea : analyzer)
    (text row_id : value) (source_type : string) : connection :=
  try_block conn (
    text ←? as_text text;
    chunks ←? Chunker.chunk_text_default (tokenizer_encode ea)
                (tokenizer_decode ea) text;
    row_id ←? as_int row_id;
    chunk_results ←?
      rmapM (λ c, EmotionAnalyzer.analyze_text (pipe ea) (model_name ea)
                    c source_type row_id utcnow) chunks;
    result ←? emotion_result chunk_results source_type row_id
                (model_name ea) utcnow;
    Ok (insert_emotion conn result).1).

Definition linguistic_block (conn : connection) (la : linguistic_analyzer)
    (text row_id : value) (source_type : string) : connection :=
  try_block conn (
    text ←? as_text text;
    row_id ←? as_int row_id;
    features ←? linguistic_analyze la text source_type row_id utcnow;
    Ok (insert_linguistic conn features).1).

(** The body of the loop of [_analyze_rows] for one row.  Reading the
    row's columns and comparing the word count stand outside the [try]
    blocks: an exception there leaves the function. *)
Definition analyze_row (source_type : string) (conn : connection) (r : row)
    : result connection :=
  row_id ←? row_item r "id";
  text ←? row_item r "text";
  word_count ←? row_item r "word_count";
  skip ←? below_min_words word_count;
  if skip then Ok conn
  else
    let conn :=
      match sentiment_analyzer with
      | Some sa => sentiment_block conn sa text row_id source_type
      | None => conn
      end in
    let conn :=
      match emotion_analyzer with
      | Some ea => emotion_block conn ea text row_id source_type
      | None => conn
      end in
    let conn :=
      match linguistic with
      | Some la => linguistic_block conn la text row_id source_type
      | None => conn
      end in
    Ok conn.

(** [_analyze_rows]: the store it leaves, and the exception that ended it
    early, if any.  Every insert is committed when it is made, so the
    store keeps what the rows before the exception added. *)
Fixpoint _analyze_rows (rows : list row) (source_type : string)
    (conn : connection) : connection * option exn :=
  match rows with
  | [] => (conn, None)
  | r :: rows' =>
      match analyze_row source_type conn r with
      | Ok conn' => _analyze_rows rows' source_type conn'
      | Raise e => (conn, Some e)
      end
  end.

(** The unprocessed rows of a source table, by the first analyzer that is
    enabled. *)
Definition find_unanalyzed (conn : connection)
    (source_table source_type : string) : result (list row) :=
  match sentiment_analyzer, emotion_analyzer, linguistic with
  | Some sa, _, _ =>
      get_unanalyzed conn source_table "sentiment_results" source_type
        (Some (model_name sa))
  | None, Some ea, _ =>
      get_unanalyzed conn source_table "emotion_results" source_type
        (Some (model_name ea))
  | None, None, Some _ =>
      get_unanalyzed conn source_table "linguistic_features" source_type None
  | None, None, None => Ok []
  end.

(** [[r for r in oh_rows if r["speaker"] == "astronaut"]] *)
Definition is_astronaut (r : row) : result bool :=
  speaker ←? row_item r "speaker";
  Ok (match speaker with
      | VText s => String.eqb s "astronaut"
      | _ => false
      end).

Fixpoint astronaut_rows (oh_rows : list row) : result (list row) :=
  match oh_rows with
  | [] => Ok []
  | r :: rows' =>
      keep ←? is_astronaut r;
      rest ←? astronaut_rows rows';
      Ok (if keep then r :: rest else rest)
  end.

(** [run_analysis] on the database file at [db_path], after the analyzers
    are loaded: the file it leaves and the exception it ended with, if
    any. *)
Definition run_analysis (file : database) : database * option exn :=
  let conn := get_connection file in
  match find_unanalyzed conn "blog_posts" "blog" with
  | Raise e => (db conn, Some e)
  | Ok blog_rows =>
      match
        (match blog_rows with
         | [] => (conn, None)
         | _ => _analyze_rows blog_rows "blog" conn
         end)
      with
      | (conn, Some e) => (db conn, Some e)
      | (conn, None) =>
          match
            (oh_rows ←? find_unanalyzed conn "oral_histories" "oral_history";
             astronaut_rows oh_rows)
          with
          | Raise e => (db conn, Some e)
          | Ok oh_rows =>
              let '(conn, e) :=
                match oh_rows with
                | [] => (conn, None)
                | _ => _analyze_rows oh_rows "oral_history" conn
                end in
              (db conn, e)
          end
      end
  end.

End analyze.

(** [run_analysis(db_path, skip_sentiment, skip_emotion, skip_linguistic)]
    with the analyzers the flags leave enabled. *)
Definition run_analysis_flags (file : database)
    (skip_sentiment skip_emotion skip_linguistic : bool)
    (sa ea : analyzer) (la : linguistic_analyzer) (utcnow : string)
    : database * option exn :=
  run_analysis
    (if skip_sentiment then None else Some sa)
    (if skip_emotion then None else Some ea)
    (if skip_linguistic then None else Some la)
    utcnow file.

(** *** What an analysis can add to the store *)

(** A result row of the source [(source_type, source_id)]. *)
Definition from_source (source_type : string) (source_id : Z) (a : row)
    : Prop :=
  col a "source_type" = VText source_type ∧ col a "source_id" = VInt source_id.

(** [d'] is [d] with result rows added, each satisfying [P]; the source
    tables are the same. *)
Definition grows_by (P : row → Prop) (d d' : database) : Prop :=
  expeditions d' = expeditions d ∧
  blog_posts d' = blog_posts d ∧
  oral_histories d' = oral_histories d ∧
  (∃ added, sentiment_results d' = sentiment_results d ++ added ∧
            Forall P added) ∧
  (∃ added, emotion_results d' = emotion_results d ++ added ∧
            Forall P added) ∧
  (∃ added, linguistic_features d' = linguistic_features d ++ added ∧
            Forall P added).

Lemma grows_by_refl (P : row → Prop) (d : database) : grows_by P d d.
Proof.
  repeat split; try done; exists []; by rewrite app_nil_r.
Qed.

Lemma grows_by_trans (P : row → Prop) (d1 d2 d3 : database) :
  grows_by P d1 d2 → grows_by P d2 d3 → grows_by P d1 d3.
Proof.
  intros (He & Hb & Ho & (s1 & Hs1 & Ps1) & (e1 & He1 & Pe1) & (l1 & Hl1 & Pl1))
         (He' & Hb' & Ho' & (s2 & Hs2 & Ps2) & (e2 & He2 & Pe2) & (l2 & Hl2 & Pl2)).
  split; [congruence|]. split; [congruence|]. split; [congruence|].
  split; [|split].
  - exists (s1 ++ s2). rewrite Hs2, Hs1, <- app_assoc. split; [done|].
    by apply Forall_app.
  - exists (e1 ++ e2). rewrite He2, He1, <- app_assoc. split; [done|].
    by apply Forall_app.
  - exists (l1 ++ l2). rewrite Hl2, Hl1, <- app_assoc. split; [done|].
    by apply Forall_app.
Qed.

Lemma insert_sentiment_grows (P : row → Prop) (conn : connection)
    (r : SentimentResult.t) :
  (∀ a, from_source (SentimentResult.source_type r)
          (SentimentResult.source_id r) a → P a) →
  grows_by P (db conn) (db (insert_sentiment conn r).1).
Proof.
  intros HP. unfold insert_sentiment.
  destruct (_ || _); [apply grows_by_refl|]. cbn [fst db].
  repeat split; cbn; try done; try (exists []; by rewrite app_nil_r).
  eexists. split; [done|]. constructor; [|done]. by apply HP.
Qed.

Lemma insert_emotion_grows (P : row → Prop) (conn : connection)
    (r : EmotionResult.t) :
  (∀ a, from_source (EmotionResult.source_type r)
          (EmotionResult.source_id r) a → P a) →
  grows_by P (db conn) (db (insert_emotion conn r).1).
Proof.
  intros HP. unfold insert_emotion.
  destruct (_ || _); [apply grows_by_refl|]. cbn [fst db].
  repeat split; cbn; try done; try (exists []; by rewrite app_nil_r).
  eexists. split; [done|]. constructor; [|done]. by apply HP.
Qed.

Lemma insert_linguistic_grows (P : row → Prop) (conn : connection)
    (r : LinguisticFeatures.t) :
  (∀ a, from_source (LinguisticFeatures.source_type r)
          (LinguisticFeatures.source_id r) a → P a) →
  grows_by P (db conn) (db (insert_linguistic conn r).1).
Proof.
  intros HP. unfold insert_linguistic.
  destruct (_ || _); [apply grows_by_refl|]. cbn [fst db].
  repeat split; cbn; try done; try (exists []; by rewrite app_nil_r).
  eexists. split; [done|]. constructor; [|done]. by apply HP.
Qed.

(** *** The result of a row carries the row's source *)

Lemma rmapM_Forall2 {A B : Type} (f : A → result B) (l : list A)
    (l' : list B) :
  rmapM f l = Ok l' → Forall2 (λ a b, f a = Ok b) l l'.
Proof.
  revert l'. induction l as [|a l IH]; intros l'; cbn [rmapM].
  - intros [= <-]. constructor.
  - destruct (f a) as [b|] eqn:Hb; [|done]. cbn [rbind].
    destruct (rmapM f l) as [bs|]; [|done]. cbn [rbind].
    intros [= <-]. constructor; [done|]. by apply IH.
Qed.

Lemma aggregate_sentiment_source (results : list SentimentResult.t)
    (source_type : string) (source_id : Z) (model_name utcnow : string)
    (r : SentimentResult.t) :
  aggregate_sentiment results source_type source_id model_name utcnow = Ok r →
  SentimentResult.source_type r = source_type ∧
  SentimentResult.source_id r = source_id.
Proof.
  destruct results as [|r0 results]; [done|].
  destruct (aggregate_sentiment_nonempty source_type source_id model_name
              utcnow (r0 :: results) ltac:(done)) as (label & _ & ->).
  unfold SentimentResult.make. destruct (SentimentResult.valid _); [|done].
  by intros [= <-].
Qed.

Lemma aggregate_emotions_source (results : list EmotionResult.t)
    (source_type : string) (source_id : Z) (model_name utcnow : string)
    (r : EmotionResult.t) :
  aggregate_emotions results source_type source_id model_name utcnow = Ok r →
  EmotionResult.source_type r = source_type ∧
  EmotionResult.source_id r = source_id.
Proof.
  destruct results as [|r0 results]; [done|].
  destruct (aggregate_emotions_nonempty source_type source_id model_name
              utcnow (r0 :: results) ltac:(done)) as (dominant & _ & ->).
  unfold EmotionResult.make. destruct (EmotionResult.valid _); [|done].
  by intros [= <-].
Qed.

Lemma sentiment_result_source (sa : analyzer) (chunks : list string)
    (chunk_results : list SentimentResult.t) (source_type : string)
    (row_id : Z) (utcnow : string) (r : SentimentResult.t) :
  rmapM (λ c, SentimentAnalyzer.analyze_text (pipe sa) (model_name sa) c
                source_type row_id utcnow) chunks = Ok chunk_results →
  sentiment_result chunk_results source_type row_id (model_name sa) utcnow
    = Ok r →
  SentimentResult.source_type r = source_type ∧
  SentimentResult.source_id r = row_id.
Proof.
  intros Hmap. unfold sentiment_result.
  destruct (len chunk_results =? 1)%Z; [|apply aggregate_sentiment_source].
  apply rmapM_Forall2 in Hmap.
  destruct Hmap as [|c r0 chunks' results' Hr0 _]; [done|].
  intros [= <-]. apply sentiment_analyze_text_ok in Hr0. tauto.
Qed.

Lemma emotion_result_source (ea : analyzer) (chunks : list string)
    (chunk_results : list EmotionResult.t) (source_type : string)
    (row_id : Z) (utcnow : string) (r : EmotionResult.t) :
  rmapM (λ c, EmotionAnalyzer.analyze_text (pipe ea) (model_name ea) c
                source_type row_id utcnow) chunks = Ok chunk_results →
  emotion_result chunk_results source_type row_id (model_name ea) utcnow
    = Ok r →
  EmotionResult.source_type r = source_type ∧
  EmotionResult.source_id r = row_id.
Proof.
  intros Hmap. unfold emotion_result.
  destruct (len chunk_results =? 1)%Z; [|apply aggregate_emotions_source].
  apply rmapM_Forall2 in Hmap.
  destruct Hmap as [|c r0 chunks' results' Hr0 _]; [done|].
  intros [= <-]. apply emotion_analyze_text_ok in Hr0. tauto.
Qed.

Section invariant.

Variable sentiment_analyzer : option analyzer.
Variable emotion_analyzer : option analyzer.
Variable linguistic : option linguistic_analyzer.
Variable utcnow : string.
Variable P : row → Prop.

(** Every result of the row value [row_id] under [source_type] is allowed
    by [P]. *)
Definition allowed (source_type : string) (row_id : value) : Prop :=
  ∀ id a, row_id = VInt id → from_source source_type id a → P a.

Lemma sentiment_block_grows (conn : connection) (sa : analyzer)
    (text row_id : value) (source_type : string) :
  allowed source_type row_id →
  grows_by P (db conn)
    (db (sentiment_block utcnow conn sa text row_id source_type)).
Proof.
  intros Hallowed. unfold sentiment_block, try_block.
  destruct (as_text text) as [t|]; [|apply grows_by_refl]. cbn [rbind].
  destruct (Chunker.chunk_text_default _ _ t) as [chunks|];
    [|apply grows_by_refl]. cbn [rbind].
  destruct row_id as [|id| |]; try apply grows_by_refl. cbn [as_int rbind].
  destruct (rmapM _ chunks) as [chunk_results|] eqn:Hmap;
    [|apply grows_by_refl]. cbn [rbind].
  destruct (sentiment_result _ _ _ _ _) as [r|] eqn:Hr;
    [|apply grows_by_refl]. cbn [rbind].
  apply insert_sentiment_grows.
  destruct (sentiment_result_source _ _ _ _ _ _ _ Hmap Hr) as [-> ->].
  intros a Ha. by eapply Hallowed.
Qed.

Lemma emotion_block_grows (conn : connection) (ea : analyzer)
    (text row_id : value) (source_type : string) :
  allowed source_type row_id →
  grows_by P (db conn)
    (db (emotion_block utcnow conn ea text row_id source_type)).
Proof.
  intros Hallowed. unfold emotion_block, try_block.
  destruct (as_text text) as [t|]; [|apply grows_by_refl]. cbn [rbind].
  destruct (Chunker.chunk_text_default _ _ t) as [chunks|];
    [|apply grows_by_refl]. cbn [rbind].
  destruct row_id as [|id| |]; try apply grows_by_refl. cbn [as_int rbind].
  destruct (rmapM _ chunks) as [chunk_results|] eqn:Hmap;
    [|apply grows_by_refl]. cbn [rbind].
  destruct (emotion_result _ _ _ _ _) as [r|] eqn:Hr;
    [|apply grows_by_refl]. cbn [rbind].
  apply insert_emotion_grows.
  destruct (emotion_result_source _ _ _ _ _ _ _ Hmap Hr) as [-> ->].
  intros a Ha. by eapply Hallowed.
Qed.

Lemma linguistic_block_grows (conn : connection) (la : linguistic_analyzer)
    (text row_id : value) (source_type : string) :
  allowed source_type row_id →
  grows_by P (db conn)
    (db (linguistic_block utcnow conn la text row_id source_type)).
Proof.
  intros Hallowed. unfold linguistic_block, try_block.
  destruct (as_text text) as [t|]; [|apply grows_by_refl]. cbn [rbind].
  destruct row_id as [|id| |]; try apply grows_by_refl. cbn [as_int rbind].
  unfold linguistic_analyze.
  destruct (measure la t) as [[[[[[f1 f2] f3] f4] f5] f6]|];
    [|apply grows_by_refl]. cbn [rbind].
  unfold LinguisticFeatures.make.
  destruct (LinguisticFeatures.valid _); [|apply grows_by_refl]. cbn [rbind].
  apply insert_linguistic_grows. cbn. intros a Ha. by eapply Hallowed.
Qed.

Lemma analyze_row_grows (source_type : string) (conn conn' : connection)
    (r : row) :
  allowed source_type (col r "id") →
  analyze_row sentiment_analyzer emotion_analyzer linguistic utcnow
    source_type conn r = Ok conn' →
  grows_by P (db conn) (db conn').
Proof.
  intros Hallowed. unfold analyze_row, row_item.
  destruct (dict_get r "id") as [row_id|] eqn:Hid; [|done].
  assert (col r "id" = row_id) as Hcol by (unfold col; by rewrite Hid).
  rewrite Hcol in Hallowed. cbn [rbind].
  destruct (dict_get r "text") as [text|]; [|done]. cbn [rbind].
  destruct (dict_get r "word_count") as [word_count|]; [|done]. cbn [rbind].
  destruct (below_min_words word_count) as [[]|]; [| |done]; cbn [rbind].
  { intros [= <-]. apply grows_by_refl. }
  cbv zeta. intros [= <-].
  set (c1 := match sentiment_analyzer with
             | Some sa => sentiment_block utcnow conn sa text row_id source_type
             | None => conn
             end).
  set (c2 := match emotion_analyzer with
             | Some ea => emotion_block utcnow c1 ea text row_id source_type
             | None => c1
             end).
  apply (grows_by_trans _ _ (db c1)); [|apply (grows_by_trans _ _ (db c2))].
  - subst c1. destruct sentiment_analyzer as [sa|];
      [by apply sentiment_block_grows|apply grows_by_refl].
  - subst c2. destruct emotion_analyzer as [ea|];
      [by apply emotion_block_grows|apply grows_by_refl].
  - destruct linguistic as [la|];
      [by apply linguistic_block_grows|apply grows_by_refl].
Qed.

Lemma _analyze_rows_grows (rows : list row) (source_type : string)
    (conn : connection) :
  Forall (λ r, allowed source_type (col r "id")) rows →
  grows_by P (db conn)
    (db (_analyze_rows sentiment_analyzer emotion_analyzer linguistic utcnow
           rows source_type conn).1).
Proof.
  intros Hrows. revert conn.
  induction Hrows as [|r rows Hr _ IH]; intros conn; cbn [_analyze_rows].
  - apply grows_by_refl.
  - destruct (analyze_row _ _ _ _ _ conn r) as [conn'|] eqn:Hrow.
    + eapply grows_by_trans; [by eapply analyze_row_grows|apply IH].
    + apply grows_by_refl.
Qed.

End invariant.

(** *** Only astronaut segments reach the analyzers *)

Lemma get_unanalyzed_subset (conn : connection)
    (source_table analysis_table source_type : string)
    (model_name : option string) (source rows : list row) :
  rows_of (db conn) source_table = Some source →
  get_unanalyzed conn source_table analysis_table source_type model_name
    = Ok rows →
  rows ⊆ source.
Proof.
  intros Hsource. unfold get_unanalyzed. cbv zeta. rewrite Hsource.
  destruct (rows_of (db conn) analysis_table) as [analysis|]; [|done].
  destruct (_ && _); [|done]. intros [= <-] s Hs.
  apply left_join_is_null_excludes in Hs. tauto.
Qed.

Lemma find_unanalyzed_subset (sa ea : option analyzer)
    (la : option linguistic_analyzer) (conn : connection)
    (source_table source_type : string) (source rows : list row) :
  rows_of (db conn) source_table = Some source →
  find_unanalyzed sa ea la conn source_table source_type = Ok rows →
  rows ⊆ source.
Proof.
  intros Hsource. unfold find_unanalyzed.
  destruct sa as [sa|]; [by apply get_unanalyzed_subset|].
  destruct ea as [ea|]; [by apply get_unanalyzed_subset|].
  destruct la as [la|]; [by apply get_unanalyzed_subset|].
  intros [= <-]. set_solver.
Qed.

Lemma astronaut_rows_spec (oh_rows rows : list row) :
  astronaut_rows oh_rows = Ok rows →
  Forall (λ r, r ∈ oh_rows ∧ col r "speaker" = VText "astronaut") rows.
Proof.
  revert rows. induction oh_rows as [|r oh_rows IH]; intros rows;
    cbn [astronaut_rows].
  - intros [= <-]. constructor.
  - unfold is_astronaut, row_item.
    destruct (dict_get r "speaker") as [speaker|] eqn:Hsp; [|done].
    cbn [rbind].
    destruct (astronaut_rows oh_rows) as [rest|]; [|done]. cbn [rbind].
    specialize (IH rest eq_refl).
    assert (Forall (λ r0, r0 ∈ r :: oh_rows ∧
                          col r0 "speaker" = VText "astronaut") rest) as Hrest.
    { eapply Forall_impl; [exact IH|]. intros r0 [Hin Hsp0].
      split; [by apply elem_of_cons; right|done]. }
    destruct speaker as [| |sp|]; try (by intros [= <-]).
    destruct (String.eqb_spec sp "astronaut") as [->|Hne];
      intros [= <-]; [|done].
    constructor; [|done]. split; [apply elem_of_cons; by left|].
    unfold col. by rewrite Hsp.
Qed.

(** What [run_analysis] may add for an oral-history source: only results
    of a stored segment whose speaker is "astronaut". *)
Definition astronaut_only (file : database) (a : row) : Prop :=
  col a "source_type" = VText "oral_history" →
  ∃ s, s ∈ oral_histories file ∧ col s "speaker" = VText "astronaut" ∧
       col a "source_id" = col s "id".

(** The result rows of [d'] that [d] does not have. *)
Definition added (d d' : database) : list row :=
  drop (length (sentiment_results d)) (sentiment_results d') ++
  drop (length (emotion_results d)) (emotion_results d') ++
  drop (length (linguistic_features d)) (linguistic_features d').

Lemma grows_by_added (P : row → Prop) (d d' : database) :
  grows_by P d d' → Forall P (added d d').
Proof.
  intros (_ & _ & _ & (s & Hs' & Hs) & (e & He' & He) & (l & Hl' & Hl)).
  unfold added. rewrite Hs', He', Hl', !drop_app_length.
  by repeat apply Forall_app_2.
Qed.

Section run_analysis.

Variable sentiment_analyzer : option analyzer.
Variable emotion_analyzer : option analyzer.
Variable linguistic : option linguistic_analyzer.
Variable utcnow : string.

Lemma run_analysis_grows (file : database) :
  grows_by (astronaut_only file) file
    (run_analysis sentiment_analyzer emotion_analyzer linguistic utcnow
       file).1.
Proof.
  unfold run_analysis. cbv zeta.
  set (conn := get_connection file).
  destruct (find_unanalyzed _ _ _ conn "blog_posts" "blog") as [blog_rows|];
    [|apply grows_by_refl].
  (* the blog pass adds results of source type "blog" only *)
  assert (grows_by (astronaut_only file) file
            (db (match blog_rows with
                 | [] => (conn, None)
                 | _ :: _ =>
                     _analyze_rows sentiment_analyzer emotion_analyzer
                       linguistic utcnow blog_rows "blog" conn
                 end).1)) as Hblog.
  { destruct blog_rows as [|r0 rows0]; [apply grows_by_refl|].
    apply (_analyze_rows_grows _ _ _ _ _ _ "blog" conn).
    apply Forall_forall. intros r _ id a _ [Hst _] Hoh. congruence. }
  destruct (match blog_rows with [] => _ | _ => _ end) as [conn1 [e|]];
    cbn [fst] in *; [done|].
  destruct (find_unanalyzed _ _ _ conn1 "oral_histories" "oral_history")
    as [oh_rows|] eqn:Hfind; cbn [rbind]; [|done].
  destruct (astronaut_rows oh_rows) as [rows|] eqn:Hastro; [|done].
  assert (grows_by (astronaut_only file) (db conn1)
            (db (match rows with
                 | [] => (conn1, None)
                 | _ :: _ =>
                     _analyze_rows sentiment_analyzer emotion_analyzer
                       linguistic utcnow rows "oral_history" conn1
                 end).1)) as Hoh.
  { assert (Forall (λ r, allowed (astronaut_only file) "oral_history"
                           (col r "id")) rows) as Hallowed.
    { apply astronaut_rows_spec in Hastro.
      eapply Forall_impl; [exact Hastro|].
      intros r [Hin Hsp] id a Hid [Hst Hsid] _. exists r.
      split; [|split; [done|congruence]].
      destruct Hblog as (_ & _ & <- & _).
      eapply find_unanalyzed_subset; [|exact Hfind|exact Hin]. done. }
    destruct rows as [|r0 rows0]; [apply grows_by_refl|].
    by apply _analyze_rows_grows. }
  destruct (match rows with [] => _ | _ => _ end) as [conn2 e].
  cbn [fst] in *. by eapply grows_by_trans.
Qed.

End run_analysis.

(** C10. [run_analysis] keeps, of the unprocessed oral-history rows, those
    whose speaker is "astronaut", and every sentiment, emotion or
    linguistic result it adds for source type "oral_history" belongs to a
    stored segment whose speaker is "astronaut"; segment ids being unique,
    it adds no result for a segment whose speaker is "interviewer",
    whether it returns or an exception ends it. *)
Theorem run_analysis_astronaut_only
    (sentiment_analyzer emotion_analyzer : option analyzer)
    (linguistic : option linguistic_analyzer) (utcnow : string)
    (file : database) :
  NoDup (map (λ s, col s "id") (oral_histories file)) →
  let file' :=
    (run_analysis sentiment_analyzer emotion_analyzer linguistic utcnow
       file).1 in
  (∀ oh_rows rows, astronaut_rows oh_rows = Ok rows →
     Forall (λ r, r ∈ oh_rows ∧ col r "speaker" = VText "astronaut") rows) ∧
  sentiment_results file `prefix_of` sentiment_results file' ∧
  emotion_results file `prefix_of` emotion_results file' ∧
  linguistic_features file `prefix_of` linguistic_features file' ∧
  Forall (astronaut_only file) (added file file') ∧
  ∀ s, s ∈ oral_histories file → col s "speaker" = VText "interviewer" →
    Forall (λ a, ¬ (col a "source_type" = VText "oral_history" ∧
                    col a "source_id" = col s "id"))
      (added file file').
Proof.
  intros Hids file'.
  pose proof (run_analysis_grows sentiment_analyzer emotion_analyzer
                linguistic utcnow file) as Hgrows.
  fold file' in Hgrows.
  split; [apply astronaut_rows_spec|].
  pose proof Hgrows as (_ & _ & _ & (sr & Hsr & _) & (er & Her & _)
                          & (lr & Hlr & _)).
  split; [rewrite Hsr; by apply prefix_app_r|].
  split; [rewrite Her; by apply prefix_app_r|].
  split; [rewrite Hlr; by apply prefix_app_r|].
  apply grows_by_added in Hgrows. split; [done|].
  intros s Hs Hinterviewer.
  eapply Forall_impl; [exact Hgrows|].
  intros a Ha [Hst Hsid]. destruct (Ha Hst) as (s' & Hs' & Hastro & Hid).
  assert (s = s') as <-; [|congruence].
  apply list_elem_of_lookup in Hs as [i Hi].
  apply list_elem_of_lookup in Hs' as [i' Hi'].
  assert (i = i') as <-; [|congruence].
  eapply NoDup_lookup; [exact Hids| |].
  - rewrite list_lookup_fmap, Hi. done.
  - rewrite list_lookup_fmap, Hi'. cbn. congruence.
Qed.

(** A run on a store of two segments, a question and an answer. *)
Definition sample_analyzer (name : string) (scores : list (string * Q))
    : analyzer :=
  Analyzer name
    (λ text, map (λ c, Z.of_nat (nat_of_ascii c)) (list_ascii_of_string text))
    (λ ids, string_of_list_ascii (map (λ z, ascii_of_nat (Z.to_nat z)) ids))
    (λ _, Ok scores).

Definition sample_question : OralHistorySegment.t :=
  OralHistorySegment.Build "Peggy A. Whitson" "whitson.pdf" None 0
    "interviewer"
    "Could you tell us how you first came to work with the station program?"
    14 "t0".

Definition sample_answer : OralHistorySegment.t :=
  OralHistorySegment.Build "Peggy A. Whitson" "whitson.pdf" None 1
    "astronaut"
    "I started as a project scientist and I loved every day of that work."
    14 "t0".

Definition sample_file : database :=
  db (insert_oral_history
        (insert_oral_history (get_connection empty_database)
           sample_question).1
        sample_answer).1.

Definition sample_run : database * option exn :=
  run_analysis
    (Some (sample_analyzer "sentiment-model"
             [("positive", 2#10); ("neutral", 65#100); ("negative", 15#100)]))
    (Some (sample_analyzer "emotion-model"
             [("joy", 7#10); ("neutral", 2#10); ("surprise", 1#10)]))
    (Some (LinguisticAnalyzer (λ _, Ok (60#1, 14#1, 9#10, 2#10, 0%Z, 0%Z))))
    "t1" sample_file.

Example run_analysis_sample :
  sample_run.2 = None ∧
  map (λ s, (col s "id", col s "speaker")) (oral_histories sample_run.1)
    = [(VInt 1, VText "interviewer"); (VInt 2, VText "astronaut")] ∧
  map (λ a, (col a "source_type", col a "source_id", col a "label"))
    (sentiment_results sample_run.1)
    = [(VText "oral_history", VInt 2, VText "neutral")] ∧
  map (λ a, (col a "source_type", col a "source_id", col a "dominant_emotion"))
    (emotion_results sample_run.1)
    = [(VText "oral_history", VInt 2, VText "joy")] ∧
  map (λ a, (col a "source_type", col a "source_id"))
    (linguistic_features sample_run.1)
    = [(VText "oral_history", VInt 2)].
Proof. vm_compute. done. Qed.

Lemma run_analysis_astronaut_only_witness :
  Forall (astronaut_only sample_file) (added sample_file sample_run.1).
Proof.
  refine (proj1 (proj2 (proj2 (proj2 (proj2
    (run_analysis_astronaut_only _ _ _ "t1" sample_file _)))))).
  vm_compute. repeat constructor.
  - intros H. apply elem_of_cons in H as [H|H]; [discriminate H|].
    by apply elem_of_nil in H.
  - intros H. by apply elem_of_nil in H.
Defined.

(** *** The single-chunk branch *)

(** The repository's own single-result test for emotions: the element is
    labelled "neutral" while its highest score is surprise. *)
Definition single_emotion : EmotionResult.t :=
  EmotionResult.Build "blog" 1 0 0 0 0 0 0 (95#100) "neutral" "m" "t0".

Lemma aggregate_single_relabels :
  ∃ agg,
    EmotionResult.valid single_emotion = true ∧
    aggregate_emotions [single_emotion] "blog" 1 "m" "t0" = Ok agg ∧
    EmotionResult.dominant_emotion single_emotion = "neutral"%string ∧
    EmotionResult.dominant_emotion agg = "surprise"%string ∧
    agg ≠ single_emotion ∧
    emotion_result [single_emotion] "blog" 1 "m" "t0" = Ok single_emotion.
Proof.
  eexists. split; [done|]. split; [vm_compute; reflexivity|].
  split; [done|]. split; [done|]. split; [|done].
  intros H. discriminate H.
Qed.

(** C6, as the code has it. When there is exactly one chunk result the
    runner stores that result itself, without calling the aggregate.  The
    aggregate of a one-element list keeps the element's scores unchanged
    and computes the label anew as the dominant label of those scores: it
    is the element's label whenever that label is the dominant one of the
    element's scores, which holds for every result [analyze_text]
    builds. *)
Theorem single_chunk_passthrough
    (r : SentimentResult.t) (e : EmotionResult.t)
    (source_type : string) (source_id : Z) (model_name utcnow : string) :
  SentimentResult.valid r = true →
  EmotionResult.valid e = true →
  valid_source_type source_type = true →
  sentiment_result [r] source_type source_id model_name utcnow = Ok r ∧
  emotion_result [e] source_type source_id model_name utcnow = Ok e ∧
  (∃ label,
     aggregate_sentiment [r] source_type source_id model_name utcnow
     = Ok (SentimentResult.Build source_type source_id label
             (SentimentResult.positive_score r)
             (SentimentResult.negative_score r)
             (SentimentResult.neutral_score r) model_name utcnow) ∧
     dominant_in (sentiment_scores r) label ∧
     (dominant_in (sentiment_scores r) (SentimentResult.label r) →
      label = SentimentResult.label r)) ∧
  (∃ dominant,
     aggregate_emotions [e] source_type source_id model_name utcnow
     = Ok (EmotionResult.Build source_type source_id
             (EmotionResult.anger_score e) (EmotionResult.disgust_score e)
             (EmotionResult.fear_score e) (EmotionResult.joy_score e)
             (EmotionResult.neutral_score e) (EmotionResult.sadness_score e)
             (EmotionResult.surprise_score e) dominant model_name utcnow) ∧
     dominant_in (emotion_scores e) dominant ∧
     (dominant_in (emotion_scores e) (EmotionResult.dominant_emotion e) →
      dominant = EmotionResult.dominant_emotion e)) ∧
  (∀ pipe self_model_name text st id now r',
     SentimentAnalyzer.analyze_text pipe self_model_name text st id now
       = Ok r' →
     dominant_in (sentiment_scores r') (SentimentResult.label r')) ∧
  (∀ pipe self_model_name text st id now e',
     EmotionAnalyzer.analyze_text pipe self_model_name text st id now
       = Ok e' →
     dominant_in (emotion_scores e') (EmotionResult.dominant_emotion e')).
Proof.
  intros Hr He Hst. split; [done|]. split; [done|]. split; [|split; [|split]].
  - destruct (aggregate_sentiment_single r source_type source_id model_name
                utcnow Hr Hst) as (label & Hagg & Hdom).
    exists label. split; [done|]. split; [done|].
    intros Hown. by eapply dominant_in_unique.
  - destruct (aggregate_emotions_single e source_type source_id model_name
                utcnow He Hst) as (dominant & Hagg & Hdom).
    exists dominant. split; [done|]. split; [done|].
    intros Hown. by eapply dominant_in_unique.
  - intros pipe self_model_name text st id now r' Hr'.
    apply sentiment_analyze_text_ok in Hr'. tauto.
  - intros pipe self_model_name text st id now e' He'.
    apply emotion_analyze_text_ok in He'. tauto.
Qed.

Lemma single_chunk_passthrough_witness :
  emotion_result [single_emotion] "blog" 1 "m" "t1" = Ok single_emotion.
Proof.
  refine (proj1 (proj2 (single_chunk_passthrough
    Db.sample_sentiment single_emotion "blog" 1 "m" "t1" _ _ _))).
  - reflexivity.
  - reflexivity.
  - reflexivity.
Defined.

End Runner.

(** ** JSON text: [json.dump(obj, f, indent=2)] and [json.load(f)]

    The values a checkpoint is made of: null, booleans, integers, strings,
    lists and dictionaries (numbers with a fraction or an exponent are
    outside the model, and so are characters beyond one byte). *)

Module Json.

Local Open Scope nat_scope.

Abbreviation chars := (list ascii) (only parsing).

#[local] Set Warnings "-register-all".

Inductive json : Type :=
| JNull
| JBool (b : bool)
| JInt (z : Z)
| JStr (s : string)
| JList (l : list json)
| JDict (d : list (string * json)).

(** *** The encoder *)

Definition quote : ascii := "034".
Definition backslash : ascii := "092".
Definition newline : ascii := "010".

Definition hex_char (n : nat) : ascii :=
  if n <? 10 then ascii_of_nat (48 + n) else ascii_of_nat (87 + n).

(** One character of a string, as [ensure_ascii] writes it: the printable
    ASCII characters stand for themselves, but for the quote and the
    backslash; the others are escaped. *)
Definition escape_char (c : ascii) : chars :=
  let n := nat_of_ascii c in
  if Ascii.eqb c quote then [backslash; quote]
  else if Ascii.eqb c backslash then [backslash; backslash]
  else if n =? 10 then [backslash; "n"%char]
  else if n =? 13 then [backslash; "r"%char]
  else if n =? 9 then [backslash; "t"%char]
  else if n =? 8 then [backslash; "b"%char]
  else if n =? 12 then [backslash; "f"%char]
  else if (32 <=? n) && (n <=? 126) then [c]
  else [backslash; "u"%char; "0"%char; "0"%char;
        hex_char (n / 16); hex_char (n mod 16)].

Definition dump_string (s : string) : chars :=
  quote :: flat_map escape_char (list_ascii_of_string s) ++ [quote].

Fixpoint uint_chars (u : Decimal.uint) : chars :=
  match u with
  | Decimal.Nil => []
  | Decimal.D0 u => "0"%char :: uint_chars u
  | Decimal.D1 u => "1"%char :: uint_chars u
  | Decimal.D2 u => "2"%char :: uint_chars u
  | Decimal.D3 u => "3"%char :: uint_chars u
  | Decimal.D4 u => "4"%char :: uint_chars u
  | Decimal.D5 u => "5"%char :: uint_chars u
  | Decimal.D6 u => "6"%char :: uint_chars u
  | Decimal.D7 u => "7"%char :: uint_chars u
  | Decimal.D8 u => "8"%char :: uint_chars u
  | Decimal.D9 u => "9"%char :: uint_chars u
  end.

Definition dump_int (z : Z) : chars :=
  match z with
  | Z0 => ["0"%char]
  | Zpos p => uint_chars (Pos.to_uint p)
  | Zneg p => "-"%char :: uint_chars (Pos.to_uint p)
  end.

(** The line break and the indentation of a nesting level. *)
Definition newline_indent (level : nat) : chars :=
  newline :: repeat " "%char (2 * level).

(** The items of a non-empty list or dictionary, one per line. *)
Fixpoint dump_items {A : Type} (dump : A → chars) (level : nat)
    (items : list A) : chars :=
  match items with
  | [] => []
  | [x] => dump x
  | x :: xs =>
      dump x ++ ","%char :: newline_indent level ++ dump_items dump level xs
  end.

Fixpoint dump (level : nat) (v : json) : chars :=
  match v with
  | JNull => list_ascii_of_string "null"
  | JBool true => list_ascii_of_string "true"
  | JBool false => list_ascii_of_string "false"
  | JInt z => dump_int z
  | JStr s => dump_string s
  | JList [] => list_ascii_of_string "[]"
  | JList l =>
      "["%char :: newline_indent (S level) ++
      dump_items (dump (S level)) (S level) l ++
      newline_indent level ++ ["]"%char]
  | JDict [] => list_ascii_of_string "{}"
  | JDict d =>
      "{"%char :: newline_indent (S level) ++
      dump_items
        (λ kv, dump_string kv.1 ++ ":"%char :: " "%char :: dump (S level) kv.2)
        (S level) d ++
      newline_indent level ++ ["}"%char]
  end.

(** [json.dumps(obj, indent=2)] *)
Definition dumps (v : json) : string := string_of_list_ascii (dump 0 v).

(** *** The decoder *)

Definition is_ws (c : ascii) : bool :=
  Ascii.eqb c " " || Ascii.eqb c "009" || Ascii.eqb c "010" || Ascii.eqb c "013".

Fixpoint skip_ws (s : chars) : chars :=
  match s with
  | c :: s' => if is_ws c then skip_ws s' else s
  | [] => []
  end.

Definition hex_value (c : ascii) : option nat :=
  let n := nat_of_ascii c in
  if (48 <=? n) && (n <=? 57) then Some (n - 48)
  else if (97 <=? n) && (n <=? 102) then Some (n - 87)
  else if (65 <=? n) && (n <=? 70) then Some (n - 55)
  else None.

(** The character an escape letter stands for. *)
Definition unescape (e : ascii) : option ascii :=
  if Ascii.eqb e quote then Some quote
  else if Ascii.eqb e backslash then Some backslash
  else if Ascii.eqb e "/" then Some "/"%char
  else if Ascii.eqb e "b" then Some "008"%char
  else if Ascii.eqb e "f" then Some "012"%char
  else if Ascii.eqb e "n" then Some "010"%char
  else if Ascii.eqb e "r" then Some "013"%char
  else if Ascii.eqb e "t" then Some "009"%char
  else None.

(** The rest of a string literal, after its opening quote: the characters
    of the string and what follows the closing quote. *)
Fixpoint scan_string (s : chars) : result (chars * chars) :=
  match s with
  | [] => Raise JSONDecodeError
  | c :: s' =>
      if Ascii.eqb c quote then Ok ([], s')
      else if Ascii.eqb c backslash then
        match s' with
        | [] => Raise JSONDecodeError
        | e :: s'' =>
            if Ascii.eqb e "u" then
              match s'' with
              | h1 :: h2 :: h3 :: h4 :: s3 =>
                  match hex_value h1, hex_value h2, hex_value h3,
                        hex_value h4 with
                  | Some 0, Some 0, Some a, Some b =>
                      r ←? scan_string s3;
                      Ok (ascii_of_nat (16 * a + b) :: r.1, r.2)
                  | _, _, _, _ => Raise JSONDecodeError
                  end
              | _ => Raise JSONDecodeError
              end
            else
              match unescape e with
              | Some ch => r ←? scan_string s''; Ok (ch :: r.1, r.2)
              | None => Raise JSONDecodeError
              end
        end
      else if nat_of_ascii c <? 32 then Raise JSONDecodeError
      else r ←? scan_string s'; Ok (c :: r.1, r.2)
  end.

Definition digit_of (c : ascii) : option (Decimal.uint → Decimal.uint) :=
  if Ascii.eqb c "0" then Some Decimal.D0
  else if Ascii.eqb c "1" then Some Decimal.D1
  else if Ascii.eqb c "2" then Some Decimal.D2
  else if Ascii.eqb c "3" then Some Decimal.D3
  else if Ascii.eqb c "4" then Some Decimal.D4
  else if Ascii.eqb c "5" then Some Decimal.D5
  else if Ascii.eqb c "6" then Some Decimal.D6
  else if Ascii.eqb c "7" then Some Decimal.D7
  else if Ascii.eqb c "8" then Some Decimal.D8
  else if Ascii.eqb c "9" then Some Decimal.D9
  else None.

(** The longest run of digits at the head of the input. *)
Fixpoint scan_uint (s : chars) : Decimal.uint * chars :=
  match s with
  | c :: s' =>
      match digit_of c with
      | Some d => let '(u, rest) := scan_uint s' in (d u, rest)
      | None => (Decimal.Nil, s)
      end
  | [] => (Decimal.Nil, [])
  end.

(** A fraction or an exponent makes the number a float. *)
Definition starts_float (s : chars) : bool :=
  match s with
  | c :: _ => Ascii.eqb c "." || Ascii.eqb c "e" || Ascii.eqb c "E"
  | [] => false
  end.

(** An integer: an optional minus sign, then a single zero or a run of
    digits that does not start with a zero. *)
Definition scan_int (s : chars) : result (Z * chars) :=
  let '(negative, s1) :=
    match s with
    | c :: s' => if Ascii.eqb c "-" then (true, s') else (false, s)
    | [] => (false, s)
    end in
  match s1 with
  | c :: s2 =>
      if Ascii.eqb c "0" then
        if starts_float s2 then Raise JSONDecodeError else Ok (0%Z, s2)
      else
        match scan_uint s1 with
        | (Decimal.Nil, _) => Raise JSONDecodeError
        | (u, rest) =>
            if starts_float rest then Raise JSONDecodeError
            else
              let n := Z.of_N (N.of_uint u) in
              Ok (if negative then (- n)%Z else n, rest)
        end
  | [] => Raise JSONDecodeError
  end.

Definition expect (word : string) (v : json) (s : chars)
    : result (json * chars) :=
  let w := list_ascii_of_string word in
  if Segmenter.is_prefix w s then Ok (v, drop (length w) s)
  else Raise JSONDecodeError.

(** A value, the elements of a list after its first, and the members of a
    dictionary after its first; [fuel] bounds the number of values read.
    A key met again replaces the value of its first occurrence. *)
Fixpoint parse_value (fuel : nat) (s : chars) : result (json * chars) :=
  match fuel with
  | 0 => Raise JSONDecodeError
  | S fuel =>
      match s with
      | [] => Raise JSONDecodeError
      | c :: s' =>
          if Ascii.eqb c quote then
            r ←? scan_string s'; Ok (JStr (string_of_list_ascii r.1), r.2)
          else if Ascii.eqb c "[" then
            match skip_ws s' with
            | c' :: s'' =>
                if Ascii.eqb c' "]" then Ok (JList [], s'')
                else parse_elements fuel (c' :: s'') []
            | [] => Raise JSONDecodeError
            end
          else if Ascii.eqb c "{" then
            match skip_ws s' with
            | c' :: s'' =>
                if Ascii.eqb c' "}" then Ok (JDict [], s'')
                else parse_members fuel (c' :: s'') []
            | [] => Raise JSONDecodeError
            end
          else if Ascii.eqb c "n" then expect "null" JNull s
          else if Ascii.eqb c "t" then expect "true" (JBool true) s
          else if Ascii.eqb c "f" then expect "false" (JBool false) s
          else
            r ←? scan_int s; Ok (JInt r.1, r.2)
      end
  end
with parse_elements (fuel : nat) (s : chars) (acc : list json)
    : result (json * chars) :=
  match fuel with
  | 0 => Raise JSONDecodeError
  | S fuel =>
      r ←? parse_value fuel s;
      let acc := acc ++ [r.1] in
      match skip_ws r.2 with
      | c :: s' =>
          if Ascii.eqb c "]" then Ok (JList acc, s')
          else if Ascii.eqb c "," then parse_elements fuel (skip_ws s') acc
          else Raise JSONDecodeError
      | [] => Raise JSONDecodeError
      end
  end
with parse_members (fuel : nat) (s : chars) (acc : list (string * json))
    : result (json * chars) :=
  match fuel with
  | 0 => Raise JSONDecodeError
  | S fuel =>
      match s with
      | c :: s' =>
          if Ascii.eqb c quote then
            k ←? scan_string s';
            match skip_ws k.2 with
            | c' :: s'' =>
                if Ascii.eqb c' ":" then
                  r ←? parse_value fuel (skip_ws s'');
                  let acc := dict_set acc (string_of_list_ascii k.1) r.1 in
                  match skip_ws r.2 with
                  | c'' :: s3 =>
                      if Ascii.eqb c'' "}" then Ok (JDict acc, s3)
                      else if Ascii.eqb c'' "," then
                        parse_members fuel (skip_ws s3) acc
                      else Raise JSONDecodeError
                  | [] => Raise JSONDecodeError
                  end
                else Raise JSONDecodeError
            | [] => Raise JSONDecodeError
            end
          else Raise JSONDecodeError
      | [] => Raise JSONDecodeError
      end
  end.

(** [json.loads(text)]: one value, with nothing but whitespace around. *)
Definition loads (text : string) : result json :=
  let s := list_ascii_of_string text in
  r ←? parse_value (S (length s)) (skip_ws s);
  match skip_ws r.2 with
  | [] => Ok r.1
  | _ :: _ => Raise JSONDecodeError
  end.

(** *** Reading back what the encoder wrote *)

Lemma scan_char (c : ascii) (tail : list ascii) :
  scan_string (escape_char c ++ tail)
  = r ←? scan_string tail; Ok (c :: r.1, r.2).
Proof.
  destruct c as [[] [] [] [] [] [] [] []]; reflexivity.
Qed.

Lemma scan_string_escaped (s rest : list ascii) :
  scan_string (flat_map escape_char s ++ quote :: rest) = Ok (s, rest).
Proof.
  induction s as [|c s IH]; [done|].
  cbn [flat_map]. rewrite <- app_assoc, scan_char, IH. done.
Qed.

Lemma parse_value_string (fuel : nat) (s : string) (rest : list ascii) :
  parse_value (S fuel) (dump_string s ++ rest) = Ok (JStr s, rest).
Proof.
  unfold dump_string. cbn [parse_value app].
  rewrite <- app_assoc. cbn [app]. rewrite scan_string_escaped. cbn [rbind fst snd].
  by rewrite string_of_list_ascii_of_string.
Qed.

(** Integers *)

Definition not_digit (rest : list ascii) : Prop :=
  match rest with
  | c :: _ => digit_of c = None
  | [] => True
  end.

Lemma scan_uint_chars (u : Decimal.uint) (rest : list ascii) :
  not_digit rest → scan_uint (uint_chars u ++ rest) = (u, rest).
Proof.
  intros Hrest. induction u; cbn [uint_chars app scan_uint];
    try (change (digit_of _) with (Some Decimal.D0) ||
         change (digit_of _) with (Some Decimal.D1) ||
         change (digit_of _) with (Some Decimal.D2) ||
         change (digit_of _) with (Some Decimal.D3) ||
         change (digit_of _) with (Some Decimal.D4) ||
         change (digit_of _) with (Some Decimal.D5) ||
         change (digit_of _) with (Some Decimal.D6) ||
         change (digit_of _) with (Some Decimal.D7) ||
         change (digit_of _) with (Some Decimal.D8) ||
         change (digit_of _) with (Some Decimal.D9));
    try (by rewrite IHu).
  destruct rest as [|c rest]; [done|]. cbn in *. by rewrite Hrest.
Qed.

Lemma nzhead_not_D0 (u v : Decimal.uint) : Decimal.nzhead u ≠ Decimal.D0 v.
Proof. induction u; cbn [Decimal.nzhead]; done. Qed.

Lemma to_uint_head (p : positive) :
  match Pos.to_uint p with
  | Decimal.Nil | Decimal.D0 _ => False
  | _ => True
  end.
Proof.
  pose proof (DecimalPos.Unsigned.to_of (Pos.to_uint p)) as Hnorm.
  rewrite DecimalPos.Unsigned.of_to in Hnorm. cbn [N.to_uint] in Hnorm.
  pose proof (DecimalPos.Unsigned.to_uint_nonnil p) as Hnil.
  pose proof (DecimalPos.Unsigned.to_uint_nonzero p) as Hzero.
  destruct (Pos.to_uint p) as [|u| | | | | | | | |]; [done| |done..].
  unfold Decimal.unorm in Hnorm. cbn [Decimal.nzhead] in Hnorm.
  pose proof (nzhead_not_D0 u u) as Hnz.
  destruct (Decimal.nzhead u); done.
Qed.

Definition ends_int (rest : list ascii) : Prop :=
  not_digit rest ∧ starts_float rest = false.

Lemma scan_int_dump (z : Z) (rest : list ascii) :
  ends_int rest → scan_int (dump_int z ++ rest) = Ok (z, rest).
Proof.
  intros [Hdigit Hfloat]. destruct z as [|p|p]; cbn [dump_int app].
  - unfold scan_int. cbn. by rewrite Hfloat.
  - pose proof (to_uint_head p) as Hhead.
    pose proof (DecimalPos.Unsigned.of_to p) as Hval.
    pose proof (scan_uint_chars (Pos.to_uint p) rest Hdigit) as Hscan.
    destruct (Pos.to_uint p) as [|u|u|u|u|u|u|u|u|u|u]; try done;
      unfold scan_int; cbn [uint_chars app] in *;
      cbn [Ascii.eqb Bool.eqb]; rewrite Hscan, Hfloat;
      unfold N.of_uint; by rewrite Hval.
  - pose proof (to_uint_head p) as Hhead.
    pose proof (DecimalPos.Unsigned.of_to p) as Hval.
    pose proof (scan_uint_chars (Pos.to_uint p) rest Hdigit) as Hscan.
    destruct (Pos.to_uint p) as [|u|u|u|u|u|u|u|u|u|u]; try done;
      unfold scan_int; cbn [uint_chars app] in *;
      cbn [Ascii.eqb Bool.eqb]; rewrite Hscan, Hfloat;
      unfold N.of_uint; by rewrite Hval.
Qed.

Lemma parse_value_int (fuel : nat) (z : Z) (rest : list ascii) :
  ends_int rest →
  parse_value (S fuel) (dump_int z ++ rest) = Ok (JInt z, rest).
Proof.
  intros Hrest. pose proof (scan_int_dump z rest Hrest) as Hscan.
  assert (∃ c s, dump_int z ++ rest = c :: s ∧
                 Ascii.eqb c quote = false ∧ Ascii.eqb c "[" = false ∧
                 Ascii.eqb c "{" = false ∧ Ascii.eqb c "n" = false ∧
                 Ascii.eqb c "t" = false ∧ Ascii.eqb c "f" = false)
    as (c & s & Heq & H1 & H2 & H3 & H4 & H5 & H6).
  { destruct z as [|p|p]; cbn [dump_int app].
    - by eexists _, _.
    - pose proof (to_uint_head p) as Hhead.
      destruct (Pos.to_uint p); try done; by eexists _, _.
    - by eexists _, _. }
  rewrite Heq in *. cbn [parse_value].
  rewrite H1, H2, H3, H4, H5, H6, Hscan. done.
Qed.

(** Whitespace *)

Lemma skip_ws_indent (level : nat) (s : list ascii) :
  skip_ws (newline_indent level ++ s) = skip_ws s.
Proof.
  unfold newline_indent. cbn [app skip_ws].
  change (is_ws newline) with true. cbn iota.
  induction (2 * level) as [|n IH]; [done|]. cbn [repeat app skip_ws].
  change (is_ws " ") with true. done.
Qed.

Lemma uint_chars_head (p : positive) :
  ∃ c s, uint_chars (Pos.to_uint p) = c :: s ∧ is_ws c = false ∧
         Ascii.eqb c quote = false ∧ Ascii.eqb c "[" = false ∧
         Ascii.eqb c "{" = false ∧ Ascii.eqb c "n" = false ∧
         Ascii.eqb c "t" = false ∧ Ascii.eqb c "f" = false.
Proof.
  pose proof (to_uint_head p) as Hhead.
  destruct (Pos.to_uint p); try done; by eexists _, _.
Qed.

(** The text of a value starts with a character that is neither
    whitespace nor a closing bracket. *)
Lemma dump_head (level : nat) (v : json) :
  ∃ c s, dump level v = c :: s ∧ is_ws c = false ∧
         Ascii.eqb c "]" = false ∧ Ascii.eqb c "}" = false.
Proof.
  destruct v as [|[]|[|p|p]|s|[|x l]|[|kv d]]; cbn [dump dump_int];
    try (by eexists _, _).
  pose proof (to_uint_head p) as Hhead.
  destruct (Pos.to_uint p); try done; by eexists _, _.
Qed.

Lemma skip_ws_dump (level : nat) (v : json) (tail : list ascii) :
  skip_ws (dump level v ++ tail) = dump level v ++ tail.
Proof.
  destruct (dump_head level v) as (c & s & -> & Hc & _).
  cbn [app skip_ws]. by rewrite Hc.
Qed.

Lemma dump_items_head {A : Type} (f : A → list ascii) (level : nat)
    (x : A) (xs : list A) :
  ∃ s, dump_items f level (x :: xs) = f x ++ s.
Proof.
  destruct xs as [|y ys]; cbn [dump_items].
  - exists []. by rewrite app_nil_r.
  - by eexists.
Qed.

Lemma dump_items_cons {A : Type} (f : A → list ascii) (level : nat)
    (x y : A) (ys : list A) :
  dump_items f level (x :: y :: ys)
  = f x ++ ","%char :: newline_indent level ++ dump_items f level (y :: ys).
Proof. done. Qed.

(** What may follow a value inside a list or a dictionary. *)
Definition ends_value (tail : list ascii) : Prop :=
  ∃ t, tail = ","%char :: t ∨ tail = newline :: t.

Lemma ends_value_int (tail : list ascii) : ends_value tail → ends_int tail.
Proof. intros [t [->| ->]]; done. Qed.

Section items.

Variables (level n0 : nat).

(** Every value of the list reads back, given [n0] units of fuel. *)
Definition reads_back (v : json) : Prop :=
  ∀ fuel tail, n0 ≤ fuel → ends_value tail →
    parse_value fuel (dump (S level) v ++ tail) = Ok (v, tail).

Lemma parse_elements_items (items : list json) (acc : list json)
    (fuel : nat) (rest : list ascii) :
  items ≠ [] →
  Forall reads_back items →
  n0 + length items ≤ fuel →
  parse_elements fuel
    (dump_items (dump (S level)) (S level) items ++
     newline_indent level ++ "]"%char :: rest) acc
  = Ok (JList (acc ++ items), rest).
Proof.
  intros Hne Hall. revert acc fuel.
  induction Hall as [|x items Hx Hall IH]; [done|]. clear Hne.
  intros acc fuel Hfuel. cbn [length] in Hfuel.
  destruct fuel as [|fuel]; [lia|]. cbn [parse_elements].
  destruct items as [|y ys].
  - cbn [dump_items]. rewrite Hx; [|lia|by eexists; right].
    cbn [rbind fst snd]. rewrite skip_ws_indent. cbn [skip_ws].
    change (is_ws "]") with false. cbn iota.
    change (Ascii.eqb "]" "]") with true. done.
  - rewrite dump_items_cons, <- app_assoc. cbn [app].
    rewrite Hx; [|lia|by eexists; left].
    cbn [rbind fst snd skip_ws]. change (is_ws ",") with false. cbn iota.
    change (Ascii.eqb "," "]") with false.
    change (Ascii.eqb "," ",") with true. cbn iota.
    rewrite <- app_assoc, skip_ws_indent.
    destruct (dump_items_head (dump (S level)) (S level) y ys) as [s Hs].
    assert (skip_ws (dump_items (dump (S level)) (S level) (y :: ys) ++
                     newline_indent level ++ "]"%char :: rest)
            = dump_items (dump (S level)) (S level) (y :: ys) ++
              newline_indent level ++ "]"%char :: rest) as ->.
    { rewrite Hs, <- app_assoc. apply skip_ws_dump. }
    rewrite IH; [|done|cbn [length] in *; lia].
    by rewrite <- app_assoc.
Qed.

(** A member of a dictionary: its key, a colon and a space, its value. *)
Definition dump_member (kv : string * json) : list ascii :=
  dump_string kv.1 ++ ":"%char :: " "%char :: dump (S level) kv.2.

Lemma parse_members_items (d acc : list (string * json)) (fuel : nat)
    (rest : list ascii) :
  d ≠ [] →
  Forall (λ kv, reads_back kv.2) d →
  n0 + length d ≤ fuel →
  parse_members fuel
    (dump_items dump_member (S level) d ++
     newline_indent level ++ "}"%char :: rest) acc
  = Ok (JDict (fold_left (λ a kv, dict_set a kv.1 kv.2) d acc), rest).
Proof.
  intros Hne Hall. revert acc fuel.
  induction Hall as [|[k v] d Hv Hall IH]; [done|]. clear Hne.
  intros acc fuel Hfuel. cbn [length fst snd] in *.
  destruct fuel as [|fuel]; [lia|].
  (* the member at the head of the text, whatever follows it *)
  assert (∀ tail, ends_value tail →
            parse_members (S fuel) (dump_member (k, v) ++ tail) acc
            = match skip_ws tail with
              | c :: s =>
                  if Ascii.eqb c "}" then Ok (JDict (dict_set acc k v), s)
                  else if Ascii.eqb c "," then
                    parse_members fuel (skip_ws s) (dict_set acc k v)
                  else Raise JSONDecodeError
              | [] => Raise JSONDecodeError
              end) as Hmember.
  { intros tail Htail. unfold dump_member, dump_string. cbn [fst snd].
    rewrite <- !app_assoc. cbn [app parse_members].
    change (Ascii.eqb quote quote) with true. cbn iota.
    rewrite <- app_assoc. cbn [app].
    rewrite scan_string_escaped. cbn [rbind fst snd skip_ws].
    change (is_ws ":") with false. cbn iota.
    change (Ascii.eqb ":" ":") with true. cbn iota.
    cbn [skip_ws]. change (is_ws " ") with true. cbn iota.
    rewrite skip_ws_dump, Hv; [|lia|done]. cbn [rbind fst snd].
    by rewrite string_of_list_ascii_of_string. }
  destruct d as [|kv' d'].
  - cbn [dump_items fold_left]. rewrite Hmember; [|by eexists; right].
    rewrite skip_ws_indent. cbn [skip_ws].
    change (is_ws "}") with false. cbn iota.
    change (Ascii.eqb "}" "}") with true. done.
  - rewrite dump_items_cons, <- app_assoc. cbn [app].
    rewrite Hmember; [|by eexists; left]. cbn [skip_ws].
    change (is_ws ",") with false. cbn iota.
    change (Ascii.eqb "," "}") with false.
    change (Ascii.eqb "," ",") with true. cbn iota.
    rewrite <- app_assoc, skip_ws_indent.
    assert (skip_ws (dump_items dump_member (S level) (kv' :: d') ++
                     newline_indent level ++ "}"%char :: rest)
            = dump_items dump_member (S level) (kv' :: d') ++
              newline_indent level ++ "}"%char :: rest) as ->.
    { destruct (dump_items_head dump_member (S level) kv' d') as [s ->].
      unfold dump_member, dump_string. rewrite <- !app_assoc. done. }
    rewrite IH; [|done|cbn [length] in *; lia]. done.
Qed.

End items.

(** A list and a dictionary read back when their values do. *)
Lemma parse_value_list (level n0 : nat) (items : list json) (fuel : nat)
    (rest : list ascii) :
  Forall (reads_back level n0) items →
  n0 + length items < fuel →
  parse_value fuel (dump level (JList items) ++ rest) = Ok (JList items, rest).
Proof.
  intros Hall Hfuel. destruct fuel as [|fuel]; [lia|].
  destruct items as [|x items]; [done|].
  change (dump level (JList (x :: items)))
    with ("["%char :: newline_indent (S level) ++
          dump_items (dump (S level)) (S level) (x :: items) ++
          newline_indent level ++ ["]"%char]).
  cbn [app]. rewrite <- !app_assoc. cbn [app parse_value].
  change (Ascii.eqb "[" quote) with false.
  change (Ascii.eqb "[" "[") with true. cbn iota.
  rewrite skip_ws_indent.
  set (text := dump_items (dump (S level)) (S level) (x :: items) ++
               newline_indent level ++ "]"%char :: rest).
  destruct (dump_items_head (dump (S level)) (S level) x items) as [s Hs].
  destruct (dump_head (S level) x) as (c & s' & Hc & Hws & Hclose & _).
  assert (text = c :: s' ++ s ++ newline_indent level ++ "]"%char :: rest)
    as Htext by (subst text; by rewrite Hs, Hc, <- app_assoc).
  rewrite Htext. cbn [skip_ws]. rewrite Hws, Hclose, <- Htext.
  apply (parse_elements_items level n0); [done|done|cbn [length] in *; lia].
Qed.

Lemma parse_value_dict (level n0 : nat) (d : list (string * json))
    (fuel : nat) (rest : list ascii) :
  Forall (λ kv, reads_back level n0 kv.2) d →
  n0 + length d < fuel →
  parse_value fuel (dump level (JDict d) ++ rest)
  = Ok (JDict (fold_left (λ a kv, dict_set a kv.1 kv.2) d []), rest).
Proof.
  intros Hall Hfuel. destruct fuel as [|fuel]; [lia|].
  destruct d as [|kv d]; [done|].
  change (dump level (JDict (kv :: d)))
    with ("{"%char :: newline_indent (S level) ++
          dump_items (dump_member level) (S level) (kv :: d) ++
          newline_indent level ++ ["}"%char]).
  cbn [app]. rewrite <- !app_assoc. cbn [app parse_value].
  change (Ascii.eqb "{" quote) with false.
  change (Ascii.eqb "{" "[") with false.
  change (Ascii.eqb "{" "{") with true. cbn iota.
  rewrite skip_ws_indent.
  set (text := dump_items (dump_member level) (S level) (kv :: d) ++
               newline_indent level ++ "}"%char :: rest).
  destruct (dump_items_head (dump_member level) (S level) kv d) as [s Hs].
  assert (∃ t, text = quote :: t) as [t Htext].
  { subst text. rewrite Hs. unfold dump_member, dump_string.
    rewrite <- !app_assoc. by eexists. }
  rewrite Htext. cbn [skip_ws].
  change (is_ws quote) with false. cbn iota.
  change (Ascii.eqb quote "}") with false. cbn iota. rewrite <- Htext.
  apply (parse_members_items level n0); [done|done|cbn [length] in *; lia].
Qed.

Lemma reads_back_string (level n0 : nat) (s : string) :
  0 < n0 → reads_back level n0 (JStr s).
Proof.
  intros Hn fuel tail Hfuel _. destruct fuel as [|fuel]; [lia|].
  apply parse_value_string.
Qed.

Lemma reads_back_int (level n0 : nat) (z : Z) :
  0 < n0 → reads_back level n0 (JInt z).
Proof.
  intros Hn fuel tail Hfuel Htail. destruct fuel as [|fuel]; [lia|].
  apply parse_value_int. by apply ends_value_int.
Qed.

Lemma reads_back_strings (level n0 : nat) (l : list string) :
  length l + 1 < n0 → reads_back level n0 (JList (JStr <$> l)).
Proof.
  intros Hn fuel tail Hfuel _.
  apply (parse_value_list (S level) 1).
  - apply Forall_fmap, Forall_true. intros s. apply reads_back_string. lia.
  - rewrite length_fmap. lia.
Qed.

Lemma length_dump_items {A : Type} (f : A → list ascii) (level : nat)
    (items : list A) :
  length items ≤ S (length (dump_items f level items)).
Proof.
  induction items as [|x [|y ys] IH]; cbn [length] in *; [lia..|].
  rewrite dump_items_cons, length_app. cbn [length]. rewrite length_app.
  lia.
Qed.

End Json.

(** ** The checkpoint store: [_load_checkpoint] and [_save_checkpoint] *)

Module Checkpoint.

Import Json.

Local Open Scope nat_scope.

(** The checkpoint file [blog_scrape_checkpoint.json]: [None] when it does
    not exist, its text otherwise. *)
Definition file : Type := option string.

(** The dictionary of a checkpoint. *)
Definition checkpoint_dict (last_listing_page : Z)
    (scraped_post_urls : list string) (started_at updated_at : string)
    : list (string * json) :=
  [("last_listing_page", JInt last_listing_page);
   ("scraped_post_urls", JList (JStr <$> scraped_post_urls));
   ("started_at", JStr started_at);
   ("updated_at", JStr updated_at)]%string.

(** [_load_checkpoint]: the parsed file when it exists, a fresh checkpoint
    otherwise; [started_at] and [updated_at] are its two readings of the
    clock. *)
Definition _load_checkpoint (f : file) (started_at updated_at : string)
    : result json :=
  match f with
  | Some text => loads text
  | None => Ok (JDict (checkpoint_dict 0 [] started_at updated_at))
  end.

(** What reaches the file during a save: [open(path, "w")] truncates it,
    then the text of [json.dump] follows in order. *)
Inductive write_op : Type :=
| Open_w
| Write (c : ascii).

Definition apply_write (f : file) (o : write_op) : file :=
  match o with
  | Open_w => Some ""%string
  | Write c => Some (default ""%string f +:+ String c "")
  end.

Definition run_writes (f : file) (ops : list write_op) : file :=
  fold_left apply_write ops f.

Definition save_ops (text : string) : list write_op :=
  Open_w :: (Write <$> list_ascii_of_string text).

(** [_save_checkpoint]: the dictionary gets its [updated_at], and its
    text replaces the file.  The result is the file and the dictionary as
    the call leaves them. *)
Definition _save_checkpoint (f : file) (checkpoint : dict json)
    (utcnow : string) : file * dict json :=
  let checkpoint := dict_set checkpoint "updated_at" (JStr utcnow) in
  (run_writes f (save_ops (dumps (JDict checkpoint))), checkpoint).

(** The file a crash leaves when it stops the save after [k] of its
    writes. *)
Definition crashed_save (f : file) (checkpoint : dict json)
    (utcnow : string) (k : nat) : file :=
  let checkpoint := dict_set checkpoint "updated_at" (JStr utcnow) in
  run_writes f (take k (save_ops (dumps (JDict checkpoint)))).

(** *** The traversal's use of the checkpoint, in [run] *)

(** [checkpoint.get(key, default)] *)
Definition dict_get_default (d : dict json) (key : string) (dflt : json)
    : json :=
  default dflt (dict_get d key).

Fixpoint strings_of (l : list json) : result (list string) :=
  match l with
  | [] => Ok []
  | JStr s :: l' => ss ←? strings_of l'; Ok (s :: ss)
  | _ :: _ => Raise TypeError
  end.

(** The start of [run]: the visited set and the page to start from.  A
    visited list that holds anything but strings is outside the model. *)
Definition resume (checkpoint : json) : result (Z * gset string) :=
  match checkpoint with
  | JDict d =>
      urls ←? match dict_get_default d "scraped_post_urls" (JList []) with
              | JList l => strings_of l
              | _ => Raise TypeError
              end;
      page ←? match dict_get_default d "last_listing_page" (JInt 0) with
              | JInt z => Ok z
              | JBool b => Ok (Z.b2z b)
              | _ => Raise TypeError
              end;
      Ok ((page + 1)%Z, list_to_set urls)
  | _ => Raise AttributeError
  end.

(** The end of a page in [run]: the cursor and the visited set go into
    the dictionary. *)
Definition record_page (checkpoint : dict json) (page_num : Z)
    (scraped_urls : gset string) : dict json :=
  dict_set (dict_set checkpoint "last_listing_page" (JInt page_num))
    "scraped_post_urls" (JList (JStr <$> elements scraped_urls)).

(** The store of the specification: [save(cursor, visited_set)] and
    [load() -> (cursor, visited_set)]. *)
Definition save (f : file) (checkpoint : dict json) (cursor : Z)
    (visited : gset string) (utcnow : string) : file :=
  (_save_checkpoint f (record_page checkpoint cursor visited) utcnow).1.

Definition load (f : file) (utcnow : string) : result (Z * gset string) :=
  checkpoint ←? _load_checkpoint f utcnow utcnow;
  r ←? resume checkpoint;
  Ok ((r.1 - 1)%Z, r.2).

(** *** The text of a checkpoint reads back *)

Lemma loads_dumps_checkpoint (last_listing_page : Z)
    (scraped_post_urls : list string) (started_at updated_at : string) :
  loads (dumps (JDict (checkpoint_dict last_listing_page scraped_post_urls
                         started_at updated_at)))
  = Ok (JDict (checkpoint_dict last_listing_page scraped_post_urls
                 started_at updated_at)).
Proof.
  set (d := checkpoint_dict _ _ _ _).
  unfold loads, dumps. rewrite list_ascii_of_string_of_list_ascii.
  destruct (dump_head 0 (JDict d)) as (c & s & Hc & Hws & _).
  assert (skip_ws (dump 0 (JDict d)) = dump 0 (JDict d)) as ->.
  { rewrite Hc. cbn [skip_ws]. by rewrite Hws. }
  pose proof (parse_value_dict 0 (length scraped_post_urls + 2) d
                (S (length (dump 0 (JDict d)))) []) as Hparse.
  rewrite app_nil_r in Hparse. rewrite Hparse; [done| |].
  - repeat constructor; cbn [snd].
    + apply reads_back_int. lia.
    + apply reads_back_strings. lia.
    + apply reads_back_string. lia.
    + apply reads_back_string. lia.
  - change (dump 0 (JDict d))
      with ("{"%char :: newline_indent 1 ++
            dump_items (dump_member 0) 1 d ++ newline_indent 0 ++ ["}"%char]).
    subst d. unfold checkpoint_dict.
    rewrite !dump_items_cons. unfold dump_member at 2. cbn [fst snd].
    cbn [length]. rewrite !length_app. cbn [length]. rewrite !length_app.
    cbn [length].
    pose proof (length_dump_items (dump 2) 2 (JStr <$> scraped_post_urls)) as Hlen.
    rewrite length_fmap in Hlen.
    destruct scraped_post_urls as [|u urls]; [cbn; lia|].
    change (dump 1 (JList (JStr <$> u :: urls)))
      with ("["%char :: newline_indent 2 ++
            dump_items (dump 2) 2 (JStr <$> u :: urls) ++
            newline_indent 1 ++ ["]"%char]).
    cbn [length]. rewrite !length_app. cbn [length] in *. lia.
Qed.

(** *** What a save leaves in the file *)

Lemma string_app_nil_r (t : string) : t +:+ "" = t.
Proof.
  induction t as [|c t IH]; [done|].
  change (String c (t +:+ "") = String c t). by rewrite IH.
Qed.

Lemma string_app_assoc (a b c : string) : (a +:+ b) +:+ c = a +:+ (b +:+ c).
Proof.
  induction a as [|x a IH]; [done|].
  change (String x ((a +:+ b) +:+ c) = String x (a +:+ (b +:+ c))).
  by rewrite IH.
Qed.

Lemma run_writes_text (t : string) (l : list ascii) :
  run_writes (Some t) (Write <$> l) = Some (t +:+ string_of_list_ascii l).
Proof.
  unfold run_writes. revert t.
  induction l as [|c l IH]; intros t;
    cbn [fmap list_fmap fold_left string_of_list_ascii apply_write].
  - by rewrite string_app_nil_r.
  - change (default ""%string (Some t)) with t.
    rewrite IH. by rewrite string_app_assoc.
Qed.

Lemma run_writes_save (f : file) (text : string) :
  run_writes f (save_ops text) = Some text.
Proof.
  unfold save_ops. cbn [run_writes fold_left apply_write].
  fold (run_writes (Some ""%string) (Write <$> list_ascii_of_string text)).
  rewrite run_writes_text. cbn. by rewrite string_of_list_ascii_of_string.
Qed.

(** The crash states: the old file before the file is opened, then the
    prefixes of the new text, from the empty one on. *)
Lemma run_writes_crash (f : file) (text : string) (k : nat) :
  run_writes f (take k (save_ops text))
  = match k with
    | 0 => f
    | S j => Some (string_of_list_ascii (take j (list_ascii_of_string text)))
    end.
Proof.
  destruct k as [|j]; [done|]. unfold save_ops.
  cbn [take run_writes fold_left apply_write]. rewrite <- fmap_take.
  fold (run_writes (Some ""%string)
          (Write <$> take j (list_ascii_of_string text))).
  by rewrite run_writes_text.
Qed.

Lemma strings_of_fmap (l : list string) : strings_of (JStr <$> l) = Ok l.
Proof. induction l as [|s l IH]; [done|]. cbn. by rewrite IH. Qed.

(** The checkpoint of the specification's example and the one before it. *)
Definition old_checkpoint : dict json :=
  checkpoint_dict 4 ["a"%string] "t0" "t1".

Definition old_file : file := Some (dumps (JDict old_checkpoint)).

(** A crash right after the file is opened leaves an empty file: neither
    the old checkpoint nor the new one, and not loadable. *)
Lemma crash_leaves_empty_file :
  crashed_save old_file (record_page old_checkpoint 5 {["a"; "b"]}%string)
    "t2" 1 = Some ""%string ∧
  old_file ≠ Some ""%string ∧
  (_save_checkpoint old_file
     (record_page old_checkpoint 5 {["a"; "b"]}%string) "t2").1
    ≠ Some ""%string ∧
  _load_checkpoint old_file "t3" "t3" = Ok (JDict old_checkpoint) ∧
  _load_checkpoint (Some ""%string) "t3" "t3" = Raise JSONDecodeError.
Proof.
  split; [done|]. split; [done|]. split; [|split].
  - unfold _save_checkpoint. cbn [fst]. rewrite run_writes_save.
    intros H. discriminate H.
  - apply loads_dumps_checkpoint.
  - done.
Qed.

(** C2, as the code has it. A completed [_save_checkpoint] followed by
    [_load_checkpoint] returns exactly the saved checkpoint: the cursor,
    the visited list (so the visited set of the traversal) and the start
    time, with [updated_at] set by the save.  The overwrite is not atomic:
    the file is truncated when it is opened and the text follows, so a
    crash during the save leaves the old file, or a prefix of the new
    text, which is empty right after the file is opened. *)
Theorem checkpoint_save_load (f : file) (last_listing_page : Z)
    (scraped_post_urls : list string) (started_at updated_at : string)
    (cursor : Z) (visited : gset string) (utcnow t1 t2 : string) :
  let checkpoint :=
    checkpoint_dict last_listing_page scraped_post_urls started_at
      updated_at in
  (_save_checkpoint f checkpoint utcnow).2
    = checkpoint_dict last_listing_page scraped_post_urls started_at utcnow ∧
  _load_checkpoint (_save_checkpoint f checkpoint utcnow).1 t1 t2
    = Ok (JDict (_save_checkpoint f checkpoint utcnow).2) ∧
  load (save f checkpoint cursor visited utcnow) t1 = Ok (cursor, visited) ∧
  ∀ k : nat,
    crashed_save f checkpoint utcnow k
    = match k with
      | 0 => f
      | S j =>
          Some (string_of_list_ascii
                  (take j (list_ascii_of_string
                             (dumps (JDict (_save_checkpoint f checkpoint
                                              utcnow).2)))))
      end.
Proof.
  intros checkpoint. split; [done|]. split; [|split].
  - unfold _save_checkpoint. cbn [fst snd]. rewrite run_writes_save.
    apply loads_dumps_checkpoint.
  - unfold load, save, _save_checkpoint. cbn [fst].
    rewrite run_writes_save. cbn [_load_checkpoint].
    change (dict_set (record_page checkpoint cursor visited) "updated_at"
              (JStr utcnow))
      with (checkpoint_dict cursor (elements visited) started_at utcnow).
    rewrite loads_dumps_checkpoint. cbn [rbind resume].
    unfold dict_get_default. cbn [checkpoint_dict dict_get].
    cbn [String.eqb Ascii.eqb Bool.eqb default]. unfold id.
    rewrite strings_of_fmap. cbn [rbind fst snd].
    rewrite list_to_set_elements_L. do 2 f_equal. lia.
  - intros k. apply run_writes_crash.
Qed.

(** The example of the specification: [save(cursor=5, visited={a, b})],
    then [load()]. *)
Lemma checkpoint_save_load_witness :
  load (save old_file old_checkpoint 5 {["a"; "b"]}%string "t2") "t3"
  = Ok (5%Z, {["a"; "b"]}%string).
Proof.
  exact (proj1 (proj2 (proj2
    (checkpoint_save_load old_file 4 ["a"%string] "t0" "t1" 5
       {["a"; "b"]}%string "t2" "t3" "t3")))).
Defined.

End Checkpoint.

(** ** The token windows of [chunk_text], put back together *)

Module Reassembly.

Import Chunker.

Section tokens.

Context {token : Type}.
Variable encode : string → list token.
Variable decode : list token → string.

(** The token lists [chunk_text] hands to [tokenizer.decode]: the slice
    [token_ids[start:end]] of each window. *)
Definition window_tokens (token_ids : list token) (ws : list (Z * Z))
    : list (list token) :=
  map (λ w, py_slice token_ids w.1 w.2) ws.

(** The first window whole, every later window without the [overlap]
    tokens it repeats from the one before. *)
Definition reassemble (overlap : nat) (pieces : list (list token))
    : list token :=
  match pieces with
  | [] => []
  | p :: rest => p ++ concat (map (drop overlap) rest)
  end.

Section grid.

Variables (token_ids : list token) (max_tokens overlap : nat).
Hypothesis Hoverlap : (overlap < max_tokens)%nat.
Hypothesis Hlong : Z.of_nat max_tokens < len token_ids.

Let n := len token_ids.
Let W := Z.of_nat max_tokens.
Let step := Z.of_nat max_tokens - Z.of_nat overlap.
Let m := last_index n W (Z.of_nat overlap).

Let piece (k : nat) : list token :=
  py_slice token_ids (window n W step k).1 (window n W step k).2.

Lemma piece_take_drop (k : nat) :
  (k ≤ m)%nat →
  piece k
  = take (Z.to_nat ((window n W step k).2) - k * (max_tokens - overlap))
         (drop (k * (max_tokens - overlap)) token_ids).
Proof using Hoverlap Hlong.
  intros Hk. unfold piece.
  pose proof (last_index_spec n W (Z.of_nat overlap) ltac:(lia) Hlong)
    as [Hlo Hhi]. fold m in Hlo, Hhi.
  assert (0 ≤ (window n W step k).1 ≤ (window n W step k).2 ∧
          (window n W step k).2 ≤ n) as [H1 H2].
  { cbn [window fst snd]. assert (Z.of_nat k ≤ Z.of_nat m) by lia.
    subst step W. nia. }
  destruct (py_slice_in_range token_ids _ _ H1 H2) as [-> _].
  cbn [window fst snd]. f_equal; [|f_equal]; subst step; nia.
Qed.

(** The first [j + 1] windows give back the tokens up to the end of
    window [j]. *)
Lemma reassemble_prefix (j : nat) :
  (j ≤ m)%nat →
  piece 0 ++ concat (map (drop overlap) (map piece (seq 1 j)))
  = take (Z.to_nat (window n W step j).2) token_ids.
Proof using Hoverlap Hlong.
  pose proof (last_index_spec n W (Z.of_nat overlap) ltac:(lia) Hlong)
    as [Hlo Hhi]. fold m in Hlo, Hhi.
  induction j as [|j IH]; intros Hj.
  - cbn [seq map concat]. rewrite app_nil_r, piece_take_drop by lia.
    cbn [drop]. f_equal. lia.
  - rewrite seq_S, !map_app, concat_app. cbn [map concat].
    rewrite app_nil_r, app_assoc, IH by lia.
    rewrite piece_take_drop by lia.
    assert ((window n W step j).2 = Z.of_nat j * step + W) as Hend.
    { cbn [window snd]. assert (Z.of_nat j ≤ Z.of_nat m - 1) by lia.
      subst step W. nia. }
    assert ((window n W step j).2 ≤ (window n W step (S j)).2) as Hle.
    { cbn [window snd]. subst step. nia. }
    rewrite Hend in *.
    rewrite skipn_firstn_comm, drop_drop.
    replace ((1 + j) * (max_tokens - overlap) + overlap)%nat
      with (Z.to_nat (Z.of_nat j * step + W)) by (subst step W; nia).
    rewrite take_take_drop. f_equal.
    change (1 + j)%nat with (S j). subst step W. nia.
Qed.

Lemma reassemble_grid :
  reassemble overlap
    (window_tokens token_ids (map (window n W step) (seq 0 (S m))))
  = token_ids.
Proof using Hoverlap Hlong.
  unfold window_tokens, reassemble. cbn [seq map]. rewrite <- seq_shift.
  rewrite !map_map.
  pose proof (reassemble_prefix m ltac:(lia)) as H.
  rewrite <- seq_shift, !map_map in H. unfold piece in H.
  etrans; [exact H|].
  assert ((window n W step m).2 = n) as He.
  { apply (window_end n W (Z.of_nat overlap)); [lia|done|]. fold m. lia. }
  rewrite He. apply take_ge. unfold n, len. lia.
Qed.

Lemma window_tokens_size :
  Forall (λ p, (0 < length p ≤ max_tokens)%nat)
    (window_tokens token_ids (map (window n W step) (seq 0 (S m)))).
Proof using Hoverlap Hlong.
  pose proof (last_index_spec n W (Z.of_nat overlap) ltac:(lia) Hlong)
    as [Hlo Hhi]. fold m in Hlo, Hhi.
  unfold window_tokens. rewrite map_map. apply Forall_forall.
  intros p Hp. apply list_elem_of_fmap in Hp as (k & -> & Hk).
  apply elem_of_seq in Hk.
  assert (0 ≤ (window n W step k).1 ≤ (window n W step k).2 ∧
          (window n W step k).2 ≤ n) as [H1 H2].
  { cbn [window fst snd]. assert (Z.of_nat k ≤ Z.of_nat m) by lia.
    subst step W. nia. }
  destruct (py_slice_in_range token_ids _ _ H1 H2) as (_ & Hlen & _).
  unfold len in Hlen. cbn [window fst snd] in *.
  assert (Z.of_nat k ≤ Z.of_nat m) by lia. subst step W. nia.
Qed.

End grid.

(** Every chunk of a long text is the decoded text of at least one and at
    most [max_tokens] tokens, and the token sequence is recovered from the
    windows: the first window, followed by every later window without its
    first [overlap] tokens. *)
Theorem chunk_text_reassembles (text : string) (max_tokens overlap : nat) :
  (overlap < max_tokens)%nat →
  Z.of_nat max_tokens < len (encode text) →
  ∃ ws : list (Z * Z),
    chunk_windows (len (encode text)) (Z.of_nat max_tokens)
      (Z.of_nat overlap) = Ok ws ∧
    chunk_text encode decode text (Z.of_nat max_tokens) (Z.of_nat overlap)
      = Ok (map decode (window_tokens (encode text) ws)) ∧
    Forall (λ p, (0 < length p ≤ max_tokens)%nat)
      (window_tokens (encode text) ws) ∧
    reassemble overlap (window_tokens (encode text) ws) = encode text.
Proof.
  intros Hov Hlong.
  assert (0 ≤ Z.of_nat overlap < Z.of_nat max_tokens) as Hov' by lia.
  exists (map (window (len (encode text)) (Z.of_nat max_tokens)
                 (Z.of_nat max_tokens - Z.of_nat overlap))
            (seq 0 (S (last_index (len (encode text)) (Z.of_nat max_tokens)
                         (Z.of_nat overlap))))).
  split; [by apply chunk_windows_grid|].
  split; [|split].
  - rewrite chunk_text_windows by done.
    rewrite (chunk_windows_grid _ _ _ Hov' Hlong). cbn [rbind]. f_equal.
    unfold window_tokens. symmetry. apply map_map.
  - by apply window_tokens_size.
  - by apply reassemble_grid.
Qed.

(** When the step [max_tokens - overlap] is not positive, a text longer
    than the window is not chunked: a zero step raises [ValueError] in
    [range], and a negative step makes the range empty, so that the
    function returns no chunk at all. *)
Theorem chunk_text_step_not_positive (text : string)
    (max_tokens overlap : Z) :
  max_tokens < len (encode text) →
  max_tokens ≤ overlap →
  chunk_text encode decode text max_tokens overlap
  = if overlap =? max_tokens then Raise ValueError else Ok [].
Proof.
  intros Hlong Hov. unfold chunk_text, py_range.
  destruct (Z.leb_spec (len (encode text)) max_tokens); [lia|].
  destruct (Z.eqb_spec overlap max_tokens) as [->|Hne].
  - by rewrite Z.sub_diag.
  - destruct (Z.eqb_spec (max_tokens - overlap) 0); [lia|].
    unfold range_len. destruct (Z.ltb_spec 0 (max_tokens - overlap)); [lia|].
    assert (0 ≤ len (encode text)) by (unfold len; lia).
    rewrite Z.max_l; [done|].
    assert ((0 - len (encode text) - (max_tokens - overlap) - 1)
              / - (max_tokens - overlap) < 1); [|lia].
    apply Z.div_lt_upper_bound; lia.
Qed.

(** With the defaults of [_analyze_rows] every text has at least one
    chunk, and a text of at most 400 tokens is its own single chunk. *)
Lemma chunk_text_default_nonempty (text : string) :
  ∃ chunk chunks,
    chunk_text_default encode decode text = Ok (chunk :: chunks) ∧
    (len (encode text) ≤ 400 → chunk = text ∧ chunks = []).
Proof.
  unfold chunk_text_default.
  destruct (Z.leb_spec (len (encode text)) 400) as [Hshort|Hlong].
  - exists text, []. split; [|done]. unfold chunk_text.
    destruct (Z.leb_spec (len (encode text)) 400); [done|lia].
  - destruct (chunk_text_long encode decode text 400 100 ltac:(lia) Hlong)
      as (ws & _ & -> & Hlen & _).
    pose proof (ceil_div_pos (len (encode text) - 400) (400 - 100)
                  ltac:(lia) ltac:(lia)).
    destruct ws as [|w ws];
      [change (len (@nil (Z * Z))) with 0 in Hlen; lia|].
    eexists _, _. split; [done|]. intros. lia.
Qed.

End tokens.

Lemma chunk_text_reassembles_witness :
  ∃ ws : list (Z * Z),
    chunk_windows (len (char_encode "abcdefghijk")) 4 1 = Ok ws ∧
    chunk_text char_encode char_decode "abcdefghijk" 4 1
      = Ok (map char_decode (window_tokens (char_encode "abcdefghijk") ws)) ∧
    Forall (λ p, (0 < length p ≤ 4)%nat)
      (window_tokens (char_encode "abcdefghijk") ws) ∧
    reassemble 1 (window_tokens (char_encode "abcdefghijk") ws)
      = char_encode "abcdefghijk".
Proof.
  apply (chunk_text_reassembles char_encode char_decode "abcdefghijk" 4 1).
  - lia.
  - vm_compute. reflexivity.
Defined.

Lemma chunk_text_step_not_positive_witness :
  chunk_text char_encode char_decode "abcdefghijk" 4 4 = Raise ValueError ∧
  chunk_text char_encode char_decode "abcdefghijk" 4 6 = Ok [].
Proof.
  split.
  - apply (chunk_text_step_not_positive char_encode char_decode
             "abcdefghijk" 4 4); [vm_compute; reflexivity|lia].
  - apply (chunk_text_step_not_positive char_encode char_decode
             "abcdefghijk" 4 6); [vm_compute; reflexivity|lia].
Defined.

End Reassembly.

(** ** What [analyze_text] reads from the pipeline's items *)

Module Scores.

Import Aggregator.

Local Open Scope Q_scope.

(** The label an item of the sentiment pipeline stands for:
    [LABEL_MAP.get(item["label"], item["label"].lower())]. *)
Definition sentiment_label (raw : string) : string :=
  default (str_lower raw) (dict_get SentimentAnalyzer.LABEL_MAP raw).

(** The score the items give [label]: that of the last item standing for
    it, [0.0] when no item does. *)
Definition last_score (key : string → string)
    (results : list (string * score)) (label : string) : score :=
  match find (λ item, String.eqb (key item.1) label) (rev results) with
  | Some item => item.2
  | None => 0
  end.

Lemma dict_get_set {V : Type} (d : dict V) (k k' : string) (v : V) :
  dict_mem d k = true →
  dict_get (dict_set d k v) k'
  = if String.eqb k k' then Some v else dict_get d k'.
Proof.
  unfold dict_mem. induction d as [|[k0 v0] d IH]; [done|].
  cbn [dict_get dict_set]. destruct (String.eqb_spec k0 k) as [->|Hk0].
  - intros _. cbn [dict_get]. by destruct (String.eqb k k').
  - intros Hmem. cbn [dict_get]. rewrite IH by done.
    destruct (String.eqb_spec k0 k') as [->|]; [|done].
    destruct (String.eqb_spec k k') as [->|]; done.
Qed.

(** The loop over the items leaves, under every label of the dictionary,
    the score of the last item that stands for it. *)
Lemma collect_last_score (key : string → string)
    (results : list (string * score)) (d0 : dict score) (label : string) :
  dict_get d0 label = Some 0 →
  dict_get
    (fold_left
       (λ scores item,
          if dict_mem scores (key item.1)
          then dict_set scores (key item.1) item.2 else scores)
       results d0) label
  = Some (last_score key results label).
Proof.
  intros H0. unfold last_score.
  induction results as [|item results IH] using rev_ind; [done|].
  rewrite fold_left_app, rev_app_distr. cbn [fold_left rev app find].
  set (d := fold_left _ results d0) in *.
  destruct (String.eqb_spec (key item.1) label) as [Hk|Hk].
  - rewrite Hk. unfold dict_mem. rewrite IH.
    rewrite dict_get_set by (unfold dict_mem; by rewrite IH).
    by rewrite String.eqb_refl.
  - destruct (dict_mem d (key item.1)) eqn:Hmem; [|done].
    rewrite dict_get_set by done.
    destruct (String.eqb_spec (key item.1) label); done.
Qed.

(** [SentimentAnalyzer.analyze_text]: each of the three scores is the one
    of the last pipeline item standing for its label, [0.0] without such an
    item; the items of any other label are ignored; the label is the
    dominant one.  The call raises exactly when the pipeline raised, or
    when the source type or one of the three scores fails the validation
    of the model. *)
Theorem sentiment_analyze_text_scores
    (pipe : string → result (list (string * score)))
    (self_model_name text source_type : string) (source_id : Z)
    (utcnow : string) (results : list (string * score)) :
  pipe text = Ok results →
  let pos := last_score sentiment_label results "positive" in
  let neg := last_score sentiment_label results "negative" in
  let neu := last_score sentiment_label results "neutral" in
  ∃ label,
    dominant_in [("positive", pos); ("negative", neg); ("neutral", neu)]%string
      label ∧
    SentimentAnalyzer.analyze_text pipe self_model_name text source_type
      source_id utcnow
    = if valid_source_type source_type && valid_score pos && valid_score neg
         && valid_score neu
      then Ok (SentimentResult.Build source_type source_id label pos neg neu
                 self_model_name utcnow)
      else Raise ValidationError.
Proof.
  intros Hpipe pos neg neu. unfold SentimentAnalyzer.analyze_text.
  rewrite Hpipe. cbn [rbind].
  destruct (sentiment_collect_scores results) as (p & n & u & Hc).
  assert (∀ l, dict_get [("positive", 0); ("negative", 0); ("neutral", 0)]%string
                 l = Some 0 →
               dict_get (SentimentAnalyzer.collect_scores results) l
               = Some (last_score sentiment_label results l)) as Hget.
  { intros l Hl. by apply (collect_last_score sentiment_label). }
  pose proof (Hget "positive"%string eq_refl) as Hp.
  pose proof (Hget "negative"%string eq_refl) as Hn.
  pose proof (Hget "neutral"%string eq_refl) as Hu.
  rewrite Hc in *. cbn in Hp, Hn, Hu.
  injection Hp as ->. injection Hn as ->. injection Hu as ->.
  fold pos neg neu.
  destruct (py_max_key_dominant
    [("positive", pos); ("negative", neg); ("neutral", neu)]%string
    ltac:(done)) as (label & Hmax & Hdom).
  exists label. split; [done|]. rewrite Hmax.
  cbn [rbind dict_item dict_get String.eqb Ascii.eqb Bool.eqb].
  unfold SentimentResult.make, SentimentResult.valid.
  cbn [SentimentResult.source_type SentimentResult.label
       SentimentResult.positive_score SentimentResult.negative_score
       SentimentResult.neutral_score].
  assert (valid_label label = true) as ->.
  { apply dominant_in_key in Hdom. cbn in Hdom.
    repeat (apply elem_of_cons in Hdom as [->|Hdom]; [done|]).
    by apply elem_of_nil in Hdom. }
  by rewrite andb_true_r.
Qed.

(** [EmotionAnalyzer.analyze_text]: the same reading of the items, for the
    seven emotions and the lower-cased label of each item. *)
Theorem emotion_analyze_text_scores
    (pipe : string → result (list (string * score)))
    (self_model_name text source_type : string) (source_id : Z)
    (utcnow : string) (results : list (string * score)) :
  pipe text = Ok results →
  let s := last_score str_lower results in
  ∃ dominant,
    dominant_in (map (λ e, (e, s e)) EMOTION_LABELS) dominant ∧
    EmotionAnalyzer.analyze_text pipe self_model_name text source_type
      source_id utcnow
    = if valid_source_type source_type &&
         forallb (λ e, valid_score (s e)) EMOTION_LABELS
      then Ok (EmotionResult.Build source_type source_id (s "anger")
                 (s "disgust") (s "fear") (s "joy") (s "neutral")
                 (s "sadness") (s "surprise") dominant self_model_name
                 utcnow)
      else Raise ValidationError.
Proof.
  intros Hpipe s. unfold EmotionAnalyzer.analyze_text.
  rewrite Hpipe. cbn [rbind].
  destruct (emotion_collect_scores results)
    as (v1 & v2 & v3 & v4 & v5 & v6 & v7 & Hc).
  assert (∀ l, dict_get (map (λ e, (e, 0)) EMOTION_LABELS) l = Some 0 →
               dict_get (EmotionAnalyzer.collect_scores results) l
               = Some (s l)) as Hget.
  { intros l Hl. by apply (collect_last_score str_lower). }
  pose proof (Hget "anger"%string eq_refl) as H1.
  pose proof (Hget "disgust"%string eq_refl) as H2.
  pose proof (Hget "fear"%string eq_refl) as H3.
  pose proof (Hget "joy"%string eq_refl) as H4.
  pose proof (Hget "neutral"%string eq_refl) as H5.
  pose proof (Hget "sadness"%string eq_refl) as H6.
  pose proof (Hget "surprise"%string eq_refl) as H7.
  rewrite Hc in *. cbn in H1, H2, H3, H4, H5, H6, H7.
  injection H1 as ->. injection H2 as ->. injection H3 as ->.
  injection H4 as ->. injection H5 as ->. injection H6 as ->.
  injection H7 as ->.
  change (map (λ e, (e, s e)) EMOTION_LABELS)
    with [("anger", s "anger"); ("disgust", s "disgust"); ("fear", s "fear");
          ("joy", s "joy"); ("neutral", s "neutral");
          ("sadness", s "sadness"); ("surprise", s "surprise")]%string.
  destruct (py_max_key_dominant
    [("anger", s "anger"); ("disgust", s "disgust"); ("fear", s "fear");
     ("joy", s "joy"); ("neutral", s "neutral");
     ("sadness", s "sadness"); ("surprise", s "surprise")]%string
    ltac:(done)) as (dominant & Hmax & Hdom).
  exists dominant. split; [done|]. rewrite Hmax.
  cbn [rbind dict_item dict_get String.eqb Ascii.eqb Bool.eqb].
  unfold EmotionResult.make, EmotionResult.valid.
  cbn [EmotionResult.source_type EmotionResult.anger_score
       EmotionResult.disgust_score EmotionResult.fear_score
       EmotionResult.joy_score EmotionResult.neutral_score
       EmotionResult.sadness_score EmotionResult.surprise_score
       forallb EMOTION_LABELS].
  rewrite andb_true_r, !andb_assoc. done.
Qed.

(** A pipeline that answers with the [LABEL_n] names and one spare item. *)
Definition sample_pipe (text : string)
    : result (list (string * score)) :=
  Ok [("LABEL_2", 7#10); ("LABEL_0", 1#10); ("LABEL_1", 2#10);
      ("other", 9#10)]%string.

Lemma sentiment_analyze_text_scores_witness :
  SentimentAnalyzer.analyze_text sample_pipe "m" "text" "blog" 1 "t"
  = Ok (SentimentResult.Build "blog" 1 "positive" (7#10) (1#10) (2#10)
          "m" "t").
Proof.
  destruct (sentiment_analyze_text_scores sample_pipe "m" "text" "blog" 1 "t"
              _ eq_refl) as (label & Hdom & ->).
  replace label with "positive"%string; [reflexivity|].
  eapply dominant_in_unique; [|exact Hdom].
  exists 0%nat, (7#10). split; [reflexivity|]. split.
  - intros [|[|[|j]]] kv [= <-]; done.
  - intros j kv Hj. lia.
Defined.

Lemma emotion_analyze_text_scores_witness :
  ∃ r,
    EmotionAnalyzer.analyze_text
      (λ _, Ok [("Joy", 6#10); ("FEAR", 3#10); ("awe", 1#10)]%string)
      "m" "text" "blog" 1 "t" = Ok r ∧
    EmotionResult.joy_score r = 6#10 ∧ EmotionResult.fear_score r = 3#10 ∧
    EmotionResult.anger_score r = 0.
Proof.
  destruct (emotion_analyze_text_scores
              (λ _, Ok [("Joy", 6#10); ("FEAR", 3#10); ("awe", 1#10)]%string)
              "m" "text" "blog" 1 "t" _ eq_refl) as (dominant & _ & ->).
  eexists. split; [reflexivity|]. done.
Defined.

End Scores.

(** ** The text of a segment, word by word *)

Module Words.

Import Segmenter.

Local Open Scope nat_scope.

(** [s.split()]: the maximal runs of characters that are not whitespace.
    A character that is not whitespace starts a word of its own when
    whitespace or the end of the text follows it, and goes to the front of
    the next word otherwise. *)
Definition cons_word (c : ascii) (ends_here : bool)
    (ws : list (list ascii)) : list (list ascii) :=
  match ws with
  | w :: ws' => if ends_here then [c] :: ws else (c :: w) :: ws'
  | [] => [[c]]
  end.

Fixpoint split_ws (s : list ascii) : list (list ascii) :=
  match s with
  | [] => []
  | c :: s' =>
      if is_space c then split_ws s'
      else cons_word c (match s' with c' :: _ => is_space c' | [] => true end)
             (split_ws s')
  end.

(** A word: at least one character, none of them whitespace. *)
Definition word (w : list ascii) : Prop :=
  w ≠ [] ∧ Forall (λ c, is_space c = false) w.

(** A text that ends with a character that is not whitespace. *)
Definition ends_solid (s : list ascii) : Prop :=
  ∃ pre c, s = pre ++ [c] ∧ is_space c = false.

(** *** [split] *)

Lemma split_ws_words (s : list ascii) : Forall word (split_ws s).
Proof.
  induction s as [|c s IH]; [constructor|].
  cbn [split_ws]. destruct (is_space c) eqn:Hc; [done|].
  unfold cons_word. destruct (split_ws s) as [|w ws].
  - repeat constructor; done.
  - apply Forall_cons in IH as [[Hw Hsp] Hws].
    destruct (match s with c' :: _ => is_space c' | [] => true end).
    + repeat constructor; done.
    + constructor; [|done]. split; [done|]. by constructor.
Qed.

Lemma split_ws_solid (s : list ascii) :
  ends_solid s → split_ws s ≠ [].
Proof.
  intros (pre & c & -> & Hc).
  induction pre as [|c0 pre IH].
  - cbn. by rewrite Hc.
  - cbn [app split_ws]. destruct (is_space c0); [done|].
    unfold cons_word. destruct (split_ws (pre ++ [c])); [done|].
    by destruct (match pre ++ [c] with c' :: _ => is_space c' | [] => true end).
Qed.

Lemma ends_solid_cons (c : ascii) (s : list ascii) :
  s ≠ [] → ends_solid (c :: s) → ends_solid s.
Proof.
  intros Hs (pre & c' & Heq & Hc'). destruct pre as [|c0 pre].
  - injection Heq as -> ->. done.
  - injection Heq as -> ->. by exists pre, c'.
Qed.

(** *** [strip] *)

Lemma lstrip_spec (s : list ascii) :
  ∃ sp, s = sp ++ lstrip s ∧ Forall (λ c, is_space c = true) sp ∧
        match lstrip s with c :: _ => is_space c = false | [] => True end.
Proof.
  induction s as [|c s (sp & Hs & Hsp & Hhead)].
  - by exists [].
  - cbn [lstrip]. destruct (is_space c) eqn:Hc.
    + exists (c :: sp). split; [by rewrite Hs at 1|]. split; [|done].
      by constructor.
    + exists []. by rewrite Hc.
Qed.

Lemma rstrip_spec (s : list ascii) :
  ∃ sp, s = rstrip s ++ sp ∧ Forall (λ c, is_space c = true) sp ∧
        (rstrip s = [] ∨ ends_solid (rstrip s)).
Proof.
  unfold rstrip. destruct (lstrip_spec (rev s)) as (sp & Hs & Hsp & Hhead).
  exists (rev sp). split; [|split].
  - rewrite <- rev_app_distr, <- Hs. by rewrite rev_involutive.
  - by apply Forall_rev.
  - destruct (lstrip (rev s)) as [|c t]; [by left|].
    right. exists (rev t), c. done.
Qed.

Lemma split_ws_lstrip (s : list ascii) : split_ws (lstrip s) = split_ws s.
Proof.
  induction s as [|c s IH]; [done|].
  cbn [lstrip]. destruct (is_space c) eqn:Hc; [|done].
  cbn [split_ws]. by rewrite Hc.
Qed.

Lemma split_ws_spaces (sp : list ascii) :
  Forall (λ c, is_space c = true) sp → split_ws sp = [].
Proof.
  induction 1 as [|c sp Hc _ IH]; [done|]. cbn [split_ws]. by rewrite Hc.
Qed.

Lemma split_ws_app_spaces (s sp : list ascii) :
  Forall (λ c, is_space c = true) sp → split_ws (s ++ sp) = split_ws s.
Proof.
  intros Hsp. induction s as [|c s IH].
  - by apply split_ws_spaces.
  - cbn [app split_ws]. rewrite IH. destruct (is_space c); [done|].
    destruct s as [|c' s']; [|done].
    cbn [app]. destruct sp as [|c' sp']; [done|].
    apply Forall_cons in Hsp as [Hc' _]. by rewrite Hc'.
Qed.

Lemma split_ws_strip (s : list ascii) : split_ws (strip s) = split_ws s.
Proof.
  unfold strip. destruct (rstrip_spec (lstrip s)) as (sp & Hs & Hsp & _).
  rewrite <- (split_ws_lstrip s). rewrite Hs at 2.
  by rewrite split_ws_app_spaces.
Qed.

Lemma strip_head (s : list ascii) :
  match strip s with c :: _ => is_space c = false | [] => True end.
Proof.
  unfold strip. destruct (lstrip_spec s) as (_ & _ & _ & Hhead).
  destruct (rstrip_spec (lstrip s)) as (sp & Hs & _ & _).
  destruct (rstrip (lstrip s)) as [|c t]; [done|].
  rewrite Hs in Hhead. done.
Qed.

Lemma strip_solid (s : list ascii) : strip s = [] ∨ ends_solid (strip s).
Proof. unfold strip. by destruct (rstrip_spec (lstrip s)) as (_ & _ & _ & H). Qed.

(** *** Collapsing the whitespace of a stripped text *)

Lemma join_space_cons (p : list ascii) (ps : list (list ascii)) :
  ps ≠ [] → join_space (p :: ps) = p ++ " "%char :: join_space ps.
Proof. by destruct ps. Qed.

Lemma sub_ws_solid (in_run : bool) (s : list ascii) :
  ends_solid s →
  sub_ws in_run s
  = match s with
    | c :: _ =>
        if is_space c && negb in_run
        then " "%char :: join_space (split_ws s)
        else join_space (split_ws s)
    | [] => []
    end.
Proof.
  revert in_run. induction s as [|c s IH]; intros in_run Hs; [done|].
  cbn [sub_ws split_ws]. destruct (is_space c) eqn:Hc.
  - assert (s ≠ []) as Hne.
    { intros ->. destruct Hs as ([|? pre] & c' & Heq & Hc').
      - injection Heq as ->. congruence.
      - by destruct pre. }
    apply ends_solid_cons in Hs; [|done].
    rewrite (IH true Hs). destruct s as [|c' s']; [done|].
    rewrite andb_false_r. by destruct in_run.
  - cbn [andb]. destruct s as [|c' s']; [done|].
    apply ends_solid_cons in Hs; [|done].
    rewrite (IH false Hs). rewrite andb_true_r.
    pose proof (split_ws_solid _ Hs) as Hne. unfold cons_word.
    destruct (split_ws (c' :: s')) as [|w ws]; [done|].
    destruct (is_space c'); [done|].
    destruct ws; done.
Qed.

(** [re.sub(r"\s+", " ", s.strip())] is [" ".join(s.split())]. *)
Lemma sub_ws_strip (s : list ascii) :
  sub_ws false (strip s) = join_space (split_ws s).
Proof.
  rewrite <- (split_ws_strip s).
  pose proof (strip_head s) as Hhead.
  destruct (strip_solid s) as [->|Hsolid]; [done|].
  rewrite sub_ws_solid by done.
  destruct (strip s) as [|c t]; [done|]. by rewrite Hhead.
Qed.

(** *** The lines before the first speaker line *)

Lemma split_lines_nonempty (s : list ascii) : split_lines s ≠ [].
Proof.
  induction s as [|c s IH]; [done|]. cbn [split_lines].
  destruct (Ascii.eqb c "010"); [done|]. by destruct (split_lines s).
Qed.

Lemma split_lines_app (a b : list ascii) :
  split_lines (a ++ "010"%char :: b) = split_lines a ++ split_lines b.
Proof.
  induction a as [|c a IH]; [done|].
  cbn [app split_lines]. rewrite IH.
  destruct (Ascii.eqb c "010"); [done|].
  pose proof (split_lines_nonempty a).
  by destruct (split_lines a).
Qed.

Lemma list_ascii_of_string_app (a b : string) :
  list_ascii_of_string (a +:+ b)
  = list_ascii_of_string a ++ list_ascii_of_string b.
Proof.
  induction a as [|c a IH]; [done|].
  change (c :: list_ascii_of_string (a +:+ b)
          = c :: list_ascii_of_string a ++ list_ascii_of_string b).
  by rewrite IH.
Qed.

Lemma fold_step_unlabelled (name : list ascii) (lines : list (list ascii))
    (parts : list (list ascii)) :
  Forall (λ line, match_speaker line = None) lines →
  ∃ parts', fold_left (step name) lines (State [] None parts)
            = State [] None parts'.
Proof.
  intros Hlines. revert parts.
  induction Hlines as [|line lines Hline _ IH]; intros parts; [by eexists|].
  cbn [fold_left]. unfold step at 2. rewrite Hline.
  destruct (is_blank line); apply IH.
Qed.

(** The segments a loop state yields when the input ends. *)
Definition finish (name : list ascii) (st : state) : list segment :=
  flush name (segments st) (current_speaker st) (current_text_parts st).

(** Text gathered before any speaker line never reaches the output. *)
Lemma fold_step_parts (name : list ascii) (lines : list (list ascii))
    (parts : list (list ascii)) :
  finish name (fold_left (step name) lines (State [] None parts))
  = finish name (fold_left (step name) lines (State [] None [])).
Proof.
  revert parts. induction lines as [|line lines IH]; intros parts; [done|].
  cbn [fold_left]. unfold step at 2 4.
  destruct (match_speaker line) as [[group1 match_end]|]; [done|].
  cbn [segments current_speaker current_text_parts app].
  destruct (is_blank line); [apply IH|].
  rewrite IH. symmetry. apply IH.
Qed.

(** The text of every emitted segment is the words of its turn, in order,
    with one space between two words: the turn's buffer is joined, and
    [" ".join(parts).strip()] with its whitespace runs collapsed is
    [" ".join(" ".join(parts).split())].  So the text has at least one
    word, and no whitespace but the single spaces between its words. *)
Theorem split_segments_words (text interviewer_last_name : string) :
  (∀ parts, segment_text parts = join_space (split_ws (join_space parts))) ∧
  Forall (λ seg, ∃ ws, ws ≠ [] ∧ Forall word ws ∧
            Segmenter.text seg = string_of_list_ascii (join_space ws))
    (split_segments text interviewer_last_name).
Proof.
  split; [intros parts; apply sub_ws_strip|].
  eapply Forall_impl; [apply split_segments_emitted|].
  intros seg (label & parts & -> & Hlong). cbn [Segmenter.text].
  exists (split_ws (join_space parts)). unfold segment_text in *.
  rewrite sub_ws_strip in *. split; [|split; [apply split_ws_words|done]].
  intros Hnil. rewrite Hnil in Hlong. cbn in Hlong. lia.
Qed.

(** The lines before the first speaker line are dropped: a text without
    any speaker line has no segment, and such a text in front of a
    transcript does not change the transcript's segments. *)
Theorem split_segments_leading_lines
    (pre rest interviewer_last_name : string) :
  Forall (λ line, match_speaker line = None)
    (split_lines (list_ascii_of_string pre)) →
  split_segments pre interviewer_last_name = [] ∧
  split_segments (pre +:+ String "010" rest) interviewer_last_name
  = split_segments rest interviewer_last_name.
Proof.
  intros Hpre. unfold split_segments.
  set (name := list_ascii_of_string interviewer_last_name).
  destruct (fold_step_unlabelled name _ [] Hpre) as [parts Hfold].
  split.
  - by rewrite Hfold.
  - rewrite list_ascii_of_string_app. cbn [list_ascii_of_string].
    rewrite split_lines_app, fold_left_app, Hfold.
    apply (fold_step_parts name).
Qed.

Lemma split_segments_leading_lines_witness :
  split_segments
    ("Oral History Transcript" +:+ String "010" sample_transcript) "Wright"
  = split_segments sample_transcript "Wright".
Proof.
  apply (split_segments_leading_lines "Oral History Transcript").
  vm_compute. repeat constructor.
Defined.

End Words.

(** ** The row store, continued: keys, expeditions and queries *)

Module Store.

Import Aggregator Db.

(** *** Expeditions: [Expedition], [insert_expeditions],
    [map_date_to_expedition] *)

(** A [datetime.date]: its fields, compared in calendar order. *)
Record date : Type := Date { year : Z; month : Z; day : Z }.

(** [a <= b] on dates. *)
Definition date_le (a b : date) : bool :=
  (year a <? year b) ||
  (year a =? year b) &&
    ((month a <? month b) || (month a =? month b) && (day a <=? day b)).

(** [date.isoformat()]: [YYYY-MM-DD]. *)
Definition zero_pad (width : nat) (n : Z) : list ascii :=
  let digits := Json.dump_int n in
  repeat "0"%char (width - length digits) ++ digits.

Definition isoformat (d : date) : string :=
  string_of_list_ascii
    (zero_pad 4 (year d) ++ "-"%char :: zero_pad 2 (month d) ++
     "-"%char :: zero_pad 2 (day d)).

Module Expedition.
Record t : Type := Build {
  number : Z;
  name : string;
  start_date : date;
  end_date : date;
  crew : list string;
  patch_url : option string
}.
End Expedition.

(** [json.dumps(exp.crew)]: a list of strings on one line. *)
Fixpoint join_comma (items : list (list ascii)) : list ascii :=
  match items with
  | [] => []
  | [x] => x
  | x :: xs => x ++ ","%char :: " "%char :: join_comma xs
  end.

Definition dumps_crew (crew : list string) : string :=
  string_of_list_ascii
    ("["%char :: join_comma (map Json.dump_string crew) ++ ["]"%char]).

(** An expedition of that number is stored. *)
Definition has_number (n : Z) (r : row) : bool :=
  sql_true (sql_eq (col r "number") (VInt n)).

(** One [INSERT OR IGNORE INTO expeditions]: [number] is the primary key,
    a stored number makes the statement a no-op.  The table is only ever
    searched by number. *)
Definition insert_expedition (conn : connection) (exp : Expedition.t)
    : connection :=
  let d := db conn in
  if existsb (has_number (Expedition.number exp)) (expeditions d) then conn
  else
    let r : row :=
      [("number", VInt (Expedition.number exp));
       ("name", VText (Expedition.name exp));
       ("start_date", VText (isoformat (Expedition.start_date exp)));
       ("end_date", VText (isoformat (Expedition.end_date exp)));
       ("crew", VText (dumps_crew (Expedition.crew exp)));
       ("patch_url", opt_text (Expedition.patch_url exp))] in
    Connection
      (Database (expeditions d ++ [r]) (blog_posts d) (oral_histories d)
         (sentiment_results d) (emotion_results d) (linguistic_features d))
      (Expedition.number exp).

(** [insert_expeditions]: the loop counts every statement that did not
    raise, and none raises. *)
Definition insert_expeditions (conn : connection)
    (expeditions : list Expedition.t) : connection * Z :=
  fold_left (λ st exp, (insert_expedition st.1 exp, st.2 + 1))
    expeditions (conn, 0).

(** [e.start_date <= post_date <= e.end_date] *)
Definition during (post_date : date) (e : Expedition.t) : bool :=
  date_le (Expedition.start_date e) post_date &&
  date_le post_date (Expedition.end_date e).

(** [max(matches, key=lambda e: e.number)]: the first of the largest. *)
Definition max_by_number (e : Expedition.t) (es : list Expedition.t)
    : Expedition.t :=
  fold_left
    (λ best e', if Expedition.number best <? Expedition.number e'
                then e' else best)
    es e.

Definition map_date_to_expedition (post_date : date)
    (expeditions : list Expedition.t) : option Z :=
  let matches := List.filter (during post_date) expeditions in
  match matches with
  | [] => None
  | e :: es => Some (Expedition.number (max_by_number e es))
  end.

(** *** The keys of the schema *)

Definition ids (rows : list row) : list value :=
  map (λ r, col r "id") rows.

(** [UNIQUE(source_type, source_id, model_name)] *)
Definition result_key (a : row) : value * value * value :=
  (col a "source_type", col a "source_id", col a "model_name").

(** [UNIQUE(source_type, source_id)] *)
Definition source_key (a : row) : value * value :=
  (col a "source_type", col a "source_id").

(** No key of the schema is stored twice. *)
Definition unique_keys (d : database) : Prop :=
  NoDup (map (λ r, col r "url") (blog_posts d)) ∧
  NoDup (ids (blog_posts d)) ∧
  NoDup (ids (oral_histories d)) ∧
  NoDup (ids (sentiment_results d)) ∧
  NoDup (ids (emotion_results d)) ∧
  NoDup (ids (linguistic_features d)) ∧
  NoDup (map result_key (sentiment_results d)) ∧
  NoDup (map result_key (emotion_results d)) ∧
  NoDup (map source_key (linguistic_features d)).

(** A stored expedition has that number. *)
Definition has_expedition (d : database) (n : Z) : Prop :=
  ∃ e, e ∈ expeditions d ∧ has_number n e = true.

(** A stored post has that URL. *)
Definition has_url (d : database) (url : string) : Prop :=
  ∃ r, r ∈ blog_posts d ∧ sql_true (sql_eq (col r "url") (VText url)) = true.

(** A stored row of features for [(source_type, source_id)]. *)
Definition has_features (d : database) (source_type : string)
    (source_id : Z) : Prop :=
  ∃ a, a ∈ linguistic_features d ∧ same_source source_type source_id a = true.

(** *** Fresh row ids *)

Lemma row_id_le_max (rows : list row) (r : row) :
  r ∈ rows → row_id r ≤ fold_right Z.max 0 (map row_id rows).
Proof.
  induction 1 as [r rows|r r' rows _ IH]; cbn [map fold_right].
  - apply Z.le_max_l.
  - etrans; [exact IH|apply Z.le_max_r].
Qed.

Lemma next_id_pos (rows : list row) : 0 < next_id rows.
Proof.
  unfold next_id.
  assert (0 ≤ fold_right Z.max 0 (map row_id rows)); [|lia].
  induction rows as [|r rows IH]; cbn [map fold_right]; [done|].
  etrans; [exact IH|apply Z.le_max_r].
Qed.

Lemma next_id_fresh (rows : list row) : VInt (next_id rows) ∉ ids rows.
Proof.
  intros Hin. apply list_elem_of_fmap in Hin as (r & Hid & Hr).
  pose proof (row_id_le_max rows r Hr) as Hle.
  assert (row_id r = next_id rows) as Heq
    by (unfold row_id; by rewrite <- Hid).
  rewrite Heq in Hle. unfold next_id in Hle. lia.
Qed.

Lemma NoDup_snoc {A : Type} (l : list A) (x : A) :
  NoDup l → x ∉ l → NoDup (l ++ [x]).
Proof.
  intros Hl Hx. apply NoDup_app. split; [done|]. split.
  - intros y Hy Hy'. apply list_elem_of_singleton in Hy' as ->. done.
  - apply NoDup_singleton.
Qed.

Lemma ids_snoc (rows : list row) (r : row) :
  ids (rows ++ [r]) = ids rows ++ [col r "id"].
Proof. unfold ids. by rewrite map_app. Qed.

Lemma existsb_false_not_in {A B : Type} (f : A → bool) (g : A → B)
    (y : B) (l : list A) :
  (∀ a, g a = y → f a = true) →
  existsb f l = false → y ∉ map g l.
Proof.
  intros Hf Hex Hin. apply list_elem_of_fmap in Hin as (a & -> & Ha).
  assert (existsb f l = true); [|congruence].
  apply existsb_exists. exists a. split; [by apply list_elem_of_In|].
  by apply Hf.
Qed.

(** *** Every operation keeps the keys unique *)

Lemma insert_blog_post_unique (conn : connection) (post : BlogPost.t) :
  unique_keys (db conn) → unique_keys (db (insert_blog_post conn post).1).
Proof.
  intros (Hurl & Hb & Ho & Hs & He & Hl & Hks & Hke & Hkl).
  unfold insert_blog_post.
  destruct (existsb _ (blog_posts (db conn))) eqn:Hdup; [done|].
  cbn [orb]. destruct (match BlogPost.expedition_id post with
                       | Some n => _ | None => false end); [done|].
  cbn [fst db]. unfold unique_keys.
  cbn [blog_posts oral_histories sentiment_results emotion_results
       linguistic_features].
  split; [|split; [|done]].
  - rewrite map_app. apply NoDup_snoc; [done|]. cbn [map].
    eapply existsb_false_not_in; [|exact Hdup].
    intros r Hr. cbn beta. unfold col at 2 in Hr. cbn in Hr. rewrite Hr.
    cbn. apply String.eqb_refl.
  - rewrite ids_snoc. apply NoDup_snoc; [done|]. apply next_id_fresh.
Qed.

Lemma insert_oral_history_unique (conn : connection)
    (segment : OralHistorySegment.t) :
  unique_keys (db conn) → unique_keys (db (insert_oral_history conn segment).1).
Proof.
  intros (Hurl & Hb & Ho & Hs & He & Hl & Hks & Hke & Hkl).
  unfold insert_oral_history, unique_keys.
  cbn [fst db blog_posts oral_histories sentiment_results emotion_results
       linguistic_features].
  do 2 (split; [done|]). split; [|done].
  rewrite ids_snoc. apply NoDup_snoc; [done|]. apply next_id_fresh.
Qed.

Lemma same_key_of_key (source_type : string) (source_id : Z)
    (model_name : string) (a : row) :
  result_key a = (VText source_type, VInt source_id, VText model_name) →
  same_key source_type source_id model_name a = true.
Proof.
  intros [= H1 H2 H3]. by apply same_key_new.
Qed.

Lemma same_source_of_key (source_type : string) (source_id : Z) (a : row) :
  source_key a = (VText source_type, VInt source_id) →
  same_source source_type source_id a = true.
Proof.
  intros [= H1 H2]. unfold same_source. rewrite H1, H2. cbn.
  by rewrite String.eqb_refl, Z.eqb_refl.
Qed.

Lemma insert_sentiment_unique (conn : connection) (r : SentimentResult.t) :
  unique_keys (db conn) → unique_keys (db (insert_sentiment conn r).1).
Proof.
  intros (Hurl & Hb & Ho & Hs & He & Hl & Hks & Hke & Hkl).
  unfold insert_sentiment.
  destruct (negb _); [done|]. cbn [orb].
  destruct (existsb _ (sentiment_results (db conn))) eqn:Hdup; [done|].
  cbn [fst db]. unfold unique_keys.
  cbn [blog_posts oral_histories sentiment_results emotion_results
       linguistic_features].
  do 3 (split; [done|]). split; [|do 2 (split; [done|]); split; [|done]].
  - rewrite ids_snoc. apply NoDup_snoc; [done|]. apply next_id_fresh.
  - rewrite map_app. apply NoDup_snoc; [done|]. cbn [map].
    eapply existsb_false_not_in; [|exact Hdup].
    intros a Ha. by apply same_key_of_key.
Qed.

Lemma insert_emotion_unique (conn : connection) (r : EmotionResult.t) :
  unique_keys (db conn) → unique_keys (db (insert_emotion conn r).1).
Proof.
  intros (Hurl & Hb & Ho & Hs & He & Hl & Hks & Hke & Hkl).
  unfold insert_emotion.
  destruct (negb _); [done|]. cbn [orb].
  destruct (existsb _ (emotion_results (db conn))) eqn:Hdup; [done|].
  cbn [fst db]. unfold unique_keys.
  cbn [blog_posts oral_histories sentiment_results emotion_results
       linguistic_features].
  do 4 (split; [done|]). split; [|do 2 (split; [done|]); split; [|done]].
  - rewrite ids_snoc. apply NoDup_snoc; [done|]. apply next_id_fresh.
  - rewrite map_app. apply NoDup_snoc; [done|]. cbn [map].
    eapply existsb_false_not_in; [|exact Hdup].
    intros a Ha. by apply same_key_of_key.
Qed.

Lemma insert_linguistic_unique (conn : connection)
    (f : LinguisticFeatures.t) :
  unique_keys (db conn) → unique_keys (db (insert_linguistic conn f).1).
Proof.
  intros (Hurl & Hb & Ho & Hs & He & Hl & Hks & Hke & Hkl).
  unfold insert_linguistic.
  destruct (negb _); [done|]. cbn [orb].
  destruct (existsb _ (linguistic_features (db conn))) eqn:Hdup; [done|].
  cbn [fst db]. unfold unique_keys.
  cbn [blog_posts oral_histories sentiment_results emotion_results
       linguistic_features].
  do 5 (split; [done|]). split; [|do 2 (split; [done|])].
  - rewrite ids_snoc. apply NoDup_snoc; [done|]. apply next_id_fresh.
  - rewrite map_app. apply NoDup_snoc; [done|]. cbn [map].
    eapply existsb_false_not_in; [|exact Hdup].
    intros a Ha. by apply same_source_of_key.
Qed.

Lemma run_op_unique (conn : connection) (o : op) :
  unique_keys (db conn) → unique_keys (db (run_op conn o)).
Proof.
  destruct o; cbn [run_op].
  - apply insert_blog_post_unique.
  - apply insert_oral_history_unique.
  - apply insert_sentiment_unique.
  - apply insert_emotion_unique.
  - apply insert_linguistic_unique.
  - done.
Qed.

(** Whatever the program does to the store, no key of the schema comes to
    be stored twice: the URL of a post, the row id of every table, the
    [(source_type, source_id, model_name)] of a sentiment or emotion result
    and the [(source_type, source_id)] of a row of features. *)
Theorem unique_keys_kept (conn : connection) (ops : list op) :
  unique_keys (db conn) → unique_keys (db (run_ops conn ops)).
Proof.
  unfold run_ops. revert conn.
  induction ops as [|o ops IH]; intros conn Hconn; [done|].
  cbn [fold_left]. apply IH. by apply run_op_unique.
Qed.

Lemma unique_keys_empty : unique_keys empty_database.
Proof. repeat split; constructor. Qed.

Lemma unique_keys_kept_witness :
  unique_keys
    (db (run_ops (get_connection empty_database)
           [InsertBlogPost sample_post; InsertBlogPost sample_post;
            InsertSentiment sample_sentiment; Restart;
            InsertSentiment sample_sentiment])).
Proof.
  apply (unique_keys_kept (get_connection empty_database)).
  apply unique_keys_empty.
Defined.

(** *** [insert_blog_post] *)

Lemma insert_blog_post_refused (conn : connection) (post : BlogPost.t) :
  (insert_blog_post conn post).2 = -1 ↔
  has_url (db conn) (BlogPost.url post) ∨
  ∃ n, BlogPost.expedition_id post = Some n ∧ ¬ has_expedition (db conn) n.
Proof.
  unfold insert_blog_post.
  set (duplicate := existsb _ (blog_posts (db conn))).
  set (dangling := match BlogPost.expedition_id post with
                   | Some n => _ | None => false end).
  assert (duplicate = true ↔ has_url (db conn) (BlogPost.url post)) as Hdup.
  { unfold duplicate, has_url. rewrite existsb_exists.
    by setoid_rewrite list_elem_of_In. }
  assert (dangling = true ↔
          ∃ n, BlogPost.expedition_id post = Some n ∧
               ¬ has_expedition (db conn) n) as Hdang.
  { unfold dangling, has_expedition.
    destruct (BlogPost.expedition_id post) as [n|].
    - rewrite negb_true_iff, <- not_true_iff_false, existsb_exists.
      setoid_rewrite list_elem_of_In. split.
      + intros Hn. by exists n.
      + intros (n' & [= <-] & Hn). done.
    - split; [done|]. intros (n & Hn & _). done. }
  pose proof (next_id_pos (blog_posts (db conn))) as Hpos.
  rewrite <- Hdup, <- Hdang, <- orb_true_iff.
  destruct (duplicate || dangling); cbn [snd]; [done|].
  split; [lia|done].
Qed.

(** [insert_blog_post] returns [-1] and leaves the store as it is when
    the URL is stored already, and also when the post names an expedition
    that the [expeditions] table does not hold; otherwise it appends the
    post under a new, positive row id, which it returns.  Inserting the
    same post once more always returns [-1] and changes nothing. *)
Theorem insert_blog_post_again (conn : connection) (post : BlogPost.t) :
  let conn' := (insert_blog_post conn post).1 in
  let rowid := (insert_blog_post conn post).2 in
  insert_blog_post conn' post = (conn', -1) ∧
  (rowid = -1 ↔
     has_url (db conn) (BlogPost.url post) ∨
     ∃ n, BlogPost.expedition_id post = Some n ∧ ¬ has_expedition (db conn) n) ∧
  (rowid = -1 → conn' = conn) ∧
  (rowid ≠ -1 →
     0 < rowid ∧ (VInt rowid ∉ ids (blog_posts (db conn))) ∧
     last_insert_rowid conn' = rowid ∧
     ∃ r, blog_posts (db conn') = blog_posts (db conn) ++ [r] ∧
          col r "id" = VInt rowid ∧
          col r "url" = VText (BlogPost.url post) ∧
          col r "text" = VText (BlogPost.text post) ∧
          col r "word_count" = VInt (BlogPost.word_count post)).
Proof.
  intros conn' rowid. subst conn' rowid.
  pose proof (insert_blog_post_refused conn post) as Hrefused.
  destruct (insert_blog_post conn post) as [conn' rowid] eqn:Hins.
  cbn [fst snd] in *. unfold insert_blog_post in Hins.
  set (duplicate := existsb _ (blog_posts (db conn))) in Hins.
  set (dangling := match BlogPost.expedition_id post with
                   | Some n => _ | None => false end) in Hins.
  pose proof (next_id_pos (blog_posts (db conn))) as Hpos.
  pose proof (next_id_fresh (blog_posts (db conn))) as Hfresh.
  destruct (duplicate || dangling) eqn:Hfail.
  - injection Hins as <- <-.
    split; [|split; [done|split; done]].
    unfold insert_blog_post. fold duplicate dangling. by rewrite Hfail.
  - injection Hins as <- <-.
    split; [|split; [done|split]].
    + unfold insert_blog_post. cbn [db blog_posts].
      match goal with
      | |- (if ?b || _ then _ else _) = _ => assert (b = true) as ->
      end; [|reflexivity].
      rewrite existsb_app. apply orb_true_iff. right. cbn [existsb].
      change (col _ "url") with (VText (BlogPost.url post)).
      cbn. by rewrite String.eqb_refl.
    + lia.
    + intros _. split; [done|]. split; [done|]. split; [done|].
      eexists. split; [done|]. done.
Qed.

(** *** [get_unanalyzed], exactly *)

Lemma join_on_same_key (source_type : string) (source_id : Z)
    (model_name : string) (s a : row) :
  col s "id" = VInt source_id → model_name ≠ ""%string →
  join_on source_type (truthy (Some model_name)) s a
  = same_key source_type source_id model_name a.
Proof.
  intros Hid Hm. unfold join_on, same_key. rewrite Hid.
  destruct model_name; [done|]. done.
Qed.

(** For a model name that is not empty, [get_unanalyzed] returns exactly
    the rows of the source table that have no result row for
    [(source_type, id, model_name)], in the order of the table; on a store
    without results it returns the whole table. *)
Theorem get_unanalyzed_exact (conn : connection)
    (source_table analysis_table source_type model_name : string)
    (source analysis : list row) :
  source_table ∈ ["blog_posts"; "oral_histories"]%string →
  analysis_table ∈ ["sentiment_results"; "emotion_results"]%string →
  rows_of (db conn) source_table = Some source →
  rows_of (db conn) analysis_table = Some analysis →
  model_name ≠ ""%string →
  ∃ rows,
    get_unanalyzed conn source_table analysis_table source_type
      (Some model_name) = Ok rows ∧
    rows `sublist_of` source ∧
    (∀ s source_id, col s "id" = VInt source_id →
       (s ∈ rows ↔
        s ∈ source ∧
        ¬ has_result analysis source_type source_id model_name)) ∧
    (analysis = [] → rows = source).
Proof.
  intros Hs Ha Hsource Hanalysis Hm. unfold get_unanalyzed.
  rewrite Hsource, Hanalysis.
  assert (has_columns source_table ["id"]
          && has_columns analysis_table
               (["id"; "source_type"; "source_id"] ++
                match truthy (Some model_name) with
                | Some _ => ["model_name"]
                | None => []
                end) = true)%string as ->.
  { destruct model_name; [done|]. cbn [truthy app].
    repeat (apply elem_of_cons in Hs as [->|Hs]);
      [| |by apply elem_of_nil in Hs];
      (repeat (apply elem_of_cons in Ha as [->|Ha]);
         [| |by apply elem_of_nil in Ha]); done. }
  eexists. split; [done|]. unfold left_join_is_null. split; [|split].
  - apply sublist_filter.
  - intros s source_id Hid. rewrite list_elem_of_filter.
    rewrite <- existsb_has_result, not_true_iff_false.
    assert (existsb (join_on source_type (truthy (Some model_name)) s) analysis
            = existsb (same_key source_type source_id model_name) analysis)
      as ->; [|tauto].
    clear Hanalysis. induction analysis as [|a analysis IH]; [done|].
    cbn [existsb]. rewrite (join_on_same_key _ source_id) by done.
    by rewrite IH.
  - intros ->. cbn [existsb]. clear Hsource.
    induction source as [|s source IH]; [done|].
    rewrite filter_cons_True by done. by rewrite IH.
Qed.

Lemma get_unanalyzed_exact_witness :
  ∃ rows,
    get_unanalyzed sample_conn "blog_posts" "sentiment_results" "blog"
      (Some "other-model") = Ok rows ∧
    rows `sublist_of` blog_posts (db sample_conn).
Proof.
  destruct (get_unanalyzed_exact sample_conn "blog_posts" "sentiment_results"
              "blog" "other-model" _ _
              ltac:(constructor) ltac:(constructor) eq_refl eq_refl
              ltac:(discriminate)) as (rows & Hq & Hsub & _).
  by exists rows.
Defined.

(** *** [insert_linguistic] and the query without a model name *)

Lemma run_op_linguistic_features (conn : connection) (o : op) :
  linguistic_features (db conn)
    `prefix_of` linguistic_features (db (run_op conn o)).
Proof.
  destruct o as [post|segment|result|result|features|]; cbn [run_op].
  - unfold insert_blog_post. destruct (_ || _); done.
  - done.
  - unfold insert_sentiment. destruct (_ || _); done.
  - unfold insert_emotion. destruct (_ || _); done.
  - unfold insert_linguistic. destruct (_ || _); [done|].
    cbn. by apply prefix_app_r.
  - done.
Qed.

Lemma run_ops_linguistic_features (conn : connection) (ops : list op) :
  linguistic_features (db conn)
    `prefix_of` linguistic_features (db (run_ops conn ops)).
Proof.
  unfold run_ops. revert conn.
  induction ops as [|o ops IH]; intros conn; [done|].
  cbn [fold_left]. etrans; [apply run_op_linguistic_features|apply IH].
Qed.

Lemma existsb_has_features (d : database) (source_type : string)
    (source_id : Z) :
  existsb (same_source source_type source_id) (linguistic_features d) = true
  ↔ has_features d source_type source_id.
Proof.
  unfold has_features. rewrite existsb_exists.
  by setoid_rewrite list_elem_of_In.
Qed.

Lemma insert_linguistic_stores (conn : connection)
    (f : LinguisticFeatures.t) :
  check_source_type (LinguisticFeatures.source_type f) = true →
  has_features (db (insert_linguistic conn f).1)
    (LinguisticFeatures.source_type f) (LinguisticFeatures.source_id f).
Proof.
  intros Hcheck. unfold insert_linguistic. rewrite Hcheck. cbn [negb orb].
  destruct (existsb _ _) eqn:Hex.
  - by apply existsb_has_features.
  - cbn [fst db]. eexists. split.
    + cbn [linguistic_features]. apply elem_of_app. right.
      apply list_elem_of_singleton. done.
    + apply same_source_of_key. done.
Qed.

(** A row of features stored by [insert_linguistic] takes its source row
    out of the rows [get_unanalyzed] returns for [linguistic_features]
    with [model_name=None], whatever the program does afterwards, and the
    same insert made again changes nothing.  The table has no [model_name]
    column: asking with a model name raises [OperationalError]. *)
Theorem unanalyzed_excludes_features (conn : connection)
    (f : LinguisticFeatures.t) (ops : list op) (source_table : string) :
  LinguisticFeatures.valid f = true →
  source_table ∈ ["blog_posts"; "oral_histories"]%string →
  let conn_f := (insert_linguistic conn f).1 in
  (∃ rows,
     get_unanalyzed (run_ops conn_f ops) source_table "linguistic_features"
       (LinguisticFeatures.source_type f) None = Ok rows ∧
     Forall (λ s, col s "id" ≠ VInt (LinguisticFeatures.source_id f)) rows) ∧
  insert_linguistic conn_f f = (conn_f, last_insert_rowid conn_f) ∧
  (∀ model_name, model_name ≠ ""%string →
     get_unanalyzed (run_ops conn_f ops) source_table "linguistic_features"
       (LinguisticFeatures.source_type f) (Some model_name)
     = Raise OperationalError).
Proof.
  intros Hvalid Htable conn_f.
  assert (check_source_type (LinguisticFeatures.source_type f) = true)
    as Hcheck.
  { unfold LinguisticFeatures.valid in Hvalid.
    repeat (apply andb_true_iff in Hvalid as [Hvalid _]). done. }
  pose proof (insert_linguistic_stores conn f Hcheck) as Hstored.
  fold conn_f in Hstored.
  assert (∃ source, rows_of (db (run_ops conn_f ops)) source_table
                    = Some source) as [source Hsource].
  { repeat (apply elem_of_cons in Htable as [->|Htable]);
      [by eexists|by eexists|by apply elem_of_nil in Htable]. }
  assert (has_columns source_table ["id"] = true)%string as Hcols.
  { repeat (apply elem_of_cons in Htable as [->|Htable]);
      [done|done|by apply elem_of_nil in Htable]. }
  split; [|split].
  - unfold get_unanalyzed. rewrite Hsource. cbn [truthy rows_of String.eqb
      Ascii.eqb Bool.eqb app]. rewrite Hcols. cbn [andb].
    change (has_columns "linguistic_features"
              ["id"; "source_type"; "source_id"]%string) with true.
    cbn match. eexists. split; [done|].
    apply Forall_forall. intros s Hs Hid.
    apply left_join_is_null_excludes in Hs as [_ Hnone].
    destruct Hstored as (a & Ha & Hkey).
    assert (a ∈ linguistic_features (db (run_ops conn_f ops))) as Ha'.
    { destruct (run_ops_linguistic_features conn_f ops) as [k ->].
      apply elem_of_app. by left. }
    specialize (Hnone a Ha'). unfold join_on in Hnone. rewrite Hid in Hnone.
    unfold same_source in Hkey. rewrite andb_true_r in Hnone. congruence.
  - unfold insert_linguistic. rewrite Hcheck. cbn [negb orb].
    apply existsb_has_features in Hstored. by rewrite Hstored.
  - intros [|c m] Hm; [done|]. unfold get_unanalyzed. rewrite Hsource.
    cbn [truthy rows_of String.eqb Ascii.eqb Bool.eqb app].
    change (has_columns "linguistic_features"
              ["id"; "source_type"; "source_id"; "model_name"]%string)
      with false.
    by rewrite andb_false_r.
Qed.

Definition sample_features : LinguisticFeatures.t :=
  LinguisticFeatures.Build "blog" 1 (60#1) (14#1) (9#10) (2#10) 1 0 "t1".

Lemma unanalyzed_excludes_features_witness :
  ∃ rows,
    get_unanalyzed
      (run_ops (insert_linguistic sample_conn sample_features).1 [Restart])
      "blog_posts" "linguistic_features" "blog" None = Ok rows ∧
    Forall (λ s, col s "id" ≠ VInt 1) rows.
Proof.
  refine (proj1 (unanalyzed_excludes_features sample_conn sample_features
                   [Restart] "blog_posts" _ _)).
  - reflexivity.
  - constructor.
Defined.

(** *** Expeditions *)

Lemma max_by_number_spec (e : Expedition.t) (es : list Expedition.t) :
  max_by_number e es ∈ e :: es ∧
  ∀ e', e' ∈ e :: es →
    Expedition.number e' ≤ Expedition.number (max_by_number e es).
Proof.
  unfold max_by_number. revert e.
  induction es as [|e1 es IH]; intros e; cbn [fold_left].
  - split; [by left|]. intros e' He'.
    apply list_elem_of_singleton in He' as ->. done.
  - destruct (Z.ltb_spec (Expedition.number e) (Expedition.number e1))
      as [Hlt|Hge]; destruct (IH e1) as [Hin1 Hmax1];
      destruct (IH e) as [Hin Hmax].
    + split; [by right|]. intros e' He'.
      apply elem_of_cons in He' as [->|He']; [|by apply Hmax1].
      pose proof (Hmax1 e1 ltac:(by left)). lia.
    + split.
      * apply elem_of_cons in Hin as [->|Hin]; [by left|by do 2 right].
      * intros e' He'. apply elem_of_cons in He' as [->|He'].
        { apply Hmax. by left. }
        apply elem_of_cons in He' as [->|He'].
        { pose proof (Hmax e ltac:(by left)). lia. }
        apply Hmax. by right.
Qed.

(** [map_date_to_expedition] returns [None] exactly when no expedition
    covers the date, and otherwise the number of an expedition that covers
    it, the largest number among those that do: on a handover day, the
    later expedition. *)
Theorem map_date_to_expedition_latest (post_date : date)
    (expeditions : list Expedition.t) :
  match map_date_to_expedition post_date expeditions with
  | None => ∀ e, e ∈ expeditions → during post_date e = false
  | Some n =>
      (∃ e, e ∈ expeditions ∧ during post_date e = true ∧
            Expedition.number e = n) ∧
      ∀ e, e ∈ expeditions → during post_date e = true →
           Expedition.number e ≤ n
  end.
Proof.
  unfold map_date_to_expedition.
  destruct (List.filter (during post_date) expeditions) as [|e es] eqn:Hf.
  - intros e He. destruct (during post_date e) eqn:Hd; [|done].
    assert (In e (List.filter (during post_date) expeditions)) as Hin.
    { apply filter_In. split; [by apply list_elem_of_In|done]. }
    rewrite Hf in Hin. done.
  - destruct (max_by_number_spec e es) as [Hin Hmax]. split.
    + exists (max_by_number e es).
      apply list_elem_of_In in Hin. rewrite <- Hf in Hin.
      apply filter_In in Hin as [Hin Hd].
      split; [by apply list_elem_of_In|done].
    + intros e' He' Hd'. apply Hmax. apply list_elem_of_In. rewrite <- Hf.
      apply filter_In. split; [by apply list_elem_of_In|done].
Qed.

Lemma map_date_to_expedition_known (post_date : date)
    (expeditions : list Expedition.t) (n : Z) :
  map_date_to_expedition post_date expeditions = Some n →
  ∃ e, e ∈ expeditions ∧ Expedition.number e = n.
Proof.
  unfold map_date_to_expedition.
  destruct (List.filter (during post_date) expeditions) as [|e es] eqn:Hf;
    [done|]. intros [= <-].
  destruct (max_by_number_spec e es) as [Hin _].
  exists (max_by_number e es). split; [|done].
  apply list_elem_of_In in Hin. rewrite <- Hf in Hin.
  apply filter_In in Hin as [Hin _]. by apply list_elem_of_In.
Qed.

Lemma insert_expedition_stores (conn : connection) (exp : Expedition.t) :
  has_expedition (db (insert_expedition conn exp)) (Expedition.number exp) ∧
  (∀ n, has_expedition (db conn) n →
        has_expedition (db (insert_expedition conn exp)) n) ∧
  (has_expedition (db conn) (Expedition.number exp) →
   insert_expedition conn exp = conn) ∧
  blog_posts (db (insert_expedition conn exp)) = blog_posts (db conn).
Proof.
  unfold insert_expedition, has_expedition.
  destruct (existsb _ _) eqn:Hex.
  - split; [|done]. apply existsb_exists in Hex as (e & He & Hn).
    exists e. split; [by apply list_elem_of_In|done].
  - split; [|split; [|split; [|done]]].
    + eexists. split.
      * cbn [db expeditions]. apply elem_of_app. right.
        by apply list_elem_of_singleton.
      * unfold has_number. cbn. by rewrite Z.eqb_refl.
    + intros n (e & He & Hn). exists e. split; [|done].
      cbn [db expeditions]. apply elem_of_app. by left.
    + intros (e & He & Hn).
      assert (existsb (has_number (Expedition.number exp))
                (expeditions (db conn)) = true); [|congruence].
      apply existsb_exists. exists e. split; [by apply list_elem_of_In|done].
Qed.

Lemma insert_expeditions_snoc (conn : connection)
    (exps : list Expedition.t) (exp : Expedition.t) :
  insert_expeditions conn (exps ++ [exp])
  = (insert_expedition (insert_expeditions conn exps).1 exp,
     (insert_expeditions conn exps).2 + 1).
Proof. unfold insert_expeditions. by rewrite fold_left_app. Qed.

(** [insert_expeditions] returns the number of expeditions it was given,
    stored or not; afterwards every one of their numbers is in the table
    and the same call changes nothing; and a post with the expedition
    [map_date_to_expedition] finds among them is then refused by
    [insert_blog_post] only when its URL is stored already. *)
Theorem insert_expeditions_count (conn : connection)
    (exps : list Expedition.t) :
  let conn' := (insert_expeditions conn exps).1 in
  (insert_expeditions conn exps).2 = len exps ∧
  (∀ e, e ∈ exps → has_expedition (db conn') (Expedition.number e)) ∧
  insert_expeditions conn' exps = (conn', len exps) ∧
  blog_posts (db conn') = blog_posts (db conn) ∧
  ∀ (post : BlogPost.t) (post_date : date),
    BlogPost.expedition_id post = map_date_to_expedition post_date exps →
    ((insert_blog_post conn' post).2 = -1
     ↔ has_url (db conn) (BlogPost.url post)).
Proof.
  intros conn'.
  assert ((insert_expeditions conn exps).2 = len exps ∧
          (∀ n, has_expedition (db conn) n → has_expedition (db conn') n) ∧
          (∀ e, e ∈ exps → has_expedition (db conn') (Expedition.number e)) ∧
          blog_posts (db conn') = blog_posts (db conn))
    as (Hcount & Hkeep & Hall & Hposts).
  { subst conn'. induction exps as [|exp exps IH] using rev_ind.
    - split; [done|]. split; [done|]. split; [|done].
      intros e He. by apply elem_of_nil in He.
    - destruct IH as (Hcount & Hkeep & Hall & Hposts).
      rewrite insert_expeditions_snoc. cbn [fst snd].
      destruct (insert_expedition_stores (insert_expeditions conn exps).1 exp)
        as (Hnew & Hold & _ & Hbp).
      split; [unfold len in *; rewrite length_app; cbn [length]; lia|].
      split; [intros n Hn; by apply Hold, Hkeep|].
      split; [|by rewrite Hbp].
      intros e He. apply elem_of_app in He as [He|He].
      + by apply Hold, Hall.
      + by apply list_elem_of_singleton in He as ->. }
  split; [done|]. split; [done|]. split; [|split; [done|]].
  - assert (∀ c, (∀ e, e ∈ exps → has_expedition (db c) (Expedition.number e)) →
                 insert_expeditions c exps = (c, len exps)) as Hagain.
    { intros c Hc. clear -Hc. induction exps as [|exp exps IH] using rev_ind.
      - done.
      - rewrite insert_expeditions_snoc, IH.
        + cbn [fst snd].
          destruct (insert_expedition_stores c exp) as (_ & _ & -> & _).
          * f_equal. unfold len. rewrite length_app. cbn [length]. lia.
          * apply Hc. apply elem_of_app. right. by apply list_elem_of_singleton.
        + intros e He. apply Hc. apply elem_of_app. by left. }
    by apply Hagain.
  - intros post post_date Hexp.
    rewrite insert_blog_post_refused.
    assert (has_url (db conn') (BlogPost.url post)
            ↔ has_url (db conn) (BlogPost.url post)) as ->
      by (unfold has_url; by rewrite Hposts).
    split; [|by left]. intros [Hurl|(n & Hn & Hno)]; [done|].
    exfalso. apply Hno. rewrite Hexp in Hn.
    apply map_date_to_expedition_known in Hn as (e & He & <-).
    by apply Hall.
Qed.

End Store.

(** ** The analysis run as a whole *)

Module Pipeline.

Import Aggregator Db Runner.

(** A source row with the columns [_analyze_rows] reads, as
    [insert_blog_post] and [insert_oral_history] store them. *)
Definition source_row (r : row) : Prop :=
  (∃ v, dict_get r "id" = Some v) ∧
  (∃ v, dict_get r "text" = Some v) ∧
  (∃ n, dict_get r "word_count" = Some (VInt n)).

Definition segment_row (r : row) : Prop :=
  source_row r ∧ ∃ v, dict_get r "speaker" = Some v.

(** The rows of the source tables are as the inserts store them. *)
Definition well_formed (d : database) : Prop :=
  Forall source_row (blog_posts d) ∧ Forall segment_row (oral_histories d).

(** The source row a result row belongs to, by source type. *)
Definition source_of (d : database) (a s : row) : Prop :=
  (col a "source_type" = VText "blog" ∧ s ∈ blog_posts d ∨
   col a "source_type" = VText "oral_history" ∧ s ∈ oral_histories d) ∧
  col a "source_id" = col s "id".

(** A result row of a source row that has at least
    [MIN_WORDS_FOR_ANALYSIS] words. *)
Definition long_enough (d : database) (a : row) : Prop :=
  ∃ s, source_of d a s ∧ below_min_words (col s "word_count") = Ok false.

(** *** The queries of a run are defined *)

Lemma get_unanalyzed_rows (conn : connection)
    (source_table analysis_table source_type : string)
    (model_name : option string) (source : list row) :
  source_table ∈ ["blog_posts"; "oral_histories"]%string →
  analysis_table = "linguistic_features"%string ∧ model_name = None ∨
  analysis_table ∈ ["sentiment_results"; "emotion_results"]%string ∧
    is_Some model_name →
  rows_of (db conn) source_table = Some source →
  ∃ analysis,
    rows_of (db conn) analysis_table = Some analysis ∧
    get_unanalyzed conn source_table analysis_table source_type model_name
    = Ok (left_join_is_null source analysis
            (join_on source_type (truthy model_name))).
Proof.
  intros Hs Ha Hsource. unfold get_unanalyzed. rewrite Hsource.
  assert (has_columns source_table ["id"] = true)%string as ->.
  { repeat (apply elem_of_cons in Hs as [->|Hs]);
      [done|done|by apply elem_of_nil in Hs]. }
  destruct Ha as [[-> ->]|[Ha [m ->]]].
  - eexists. split; [done|]. done.
  - repeat (apply elem_of_cons in Ha as [->|Ha]);
      [| |by apply elem_of_nil in Ha];
      (eexists; split; [done|]); by destruct m.
Qed.

Lemma find_unanalyzed_rows (sa ea : option analyzer)
    (la : option linguistic_analyzer) (conn : connection)
    (source_table source_type : string) (source : list row) :
  source_table ∈ ["blog_posts"; "oral_histories"]%string →
  rows_of (db conn) source_table = Some source →
  ∃ rows, find_unanalyzed sa ea la conn source_table source_type = Ok rows ∧
          rows ⊆ source.
Proof.
  intros Hs Hsource.
  assert (∀ analysis_table model_name,
    analysis_table = "linguistic_features"%string ∧ model_name = None ∨
    analysis_table ∈ ["sentiment_results"; "emotion_results"]%string ∧
      is_Some model_name →
    ∃ rows, get_unanalyzed conn source_table analysis_table source_type
              model_name = Ok rows ∧ rows ⊆ source) as Hq.
  { intros analysis_table model_name Ha.
    destruct (get_unanalyzed_rows conn source_table analysis_table source_type
                model_name source Hs Ha Hsource) as (analysis & _ & Hq).
    eexists. split; [exact Hq|]. by eapply get_unanalyzed_subset. }
  unfold find_unanalyzed.
  destruct sa as [sa|];
    [apply Hq; right; split; [constructor|by eexists]|].
  destruct ea as [ea|];
    [apply Hq; right; split; [do 2 constructor|by eexists]|].
  destruct la as [la|]; [apply Hq; by left|].
  exists []. split; [done|]. intros r Hr. by apply elem_of_nil in Hr.
Qed.

(** *** No failure of an analyzer leaves the loop *)

Section contained.

Variable sentiment_analyzer : option analyzer.
Variable emotion_analyzer : option analyzer.
Variable linguistic : option linguistic_analyzer.
Variable utcnow : string.

Lemma analyze_row_defined (source_type : string) (conn : connection)
    (r : row) :
  source_row r →
  is_Ok (analyze_row sentiment_analyzer emotion_analyzer linguistic utcnow
           source_type conn r).
Proof.
  intros ((row_id & Hid) & (text & Htext) & (n & Hwc)).
  unfold analyze_row, row_item. rewrite Hid, Htext, Hwc.
  cbn [rbind below_min_words]. destruct (n <? _); by eexists.
Qed.

Lemma _analyze_rows_contained (rows : list row) (source_type : string)
    (conn : connection) :
  Forall source_row rows →
  (_analyze_rows sentiment_analyzer emotion_analyzer linguistic utcnow rows
     source_type conn).2 = None.
Proof.
  intros Hrows. revert conn.
  induction Hrows as [|r rows Hr _ IH]; intros conn; [done|].
  cbn [_analyze_rows].
  destruct (analyze_row_defined source_type conn r Hr) as [conn' ->].
  apply IH.
Qed.

Lemma astronaut_rows_defined (oh_rows : list row) :
  Forall segment_row oh_rows →
  ∃ rows, astronaut_rows oh_rows = Ok rows ∧ rows ⊆ oh_rows.
Proof.
  induction 1 as [|r oh_rows [_ [speaker Hsp]] _ (rest & IH & Hrest)].
  - exists []. split; [done|]. intros r Hr. by apply elem_of_nil in Hr.
  - cbn [astronaut_rows]. unfold is_astronaut, row_item.
    rewrite Hsp, IH. cbn [rbind]. eexists. split; [done|].
    destruct (match speaker with VText s => _ | _ => false end);
      intros r' Hr'.
    + apply elem_of_cons in Hr' as [->|Hr']; [by left|right; by apply Hrest].
    + right. by apply Hrest.
Qed.

Lemma Forall_subseteq {A : Type} (P : A → Prop) (l l' : list A) :
  l ⊆ l' → Forall P l' → Forall P l.
Proof.
  intros Hsub Hl'. apply Forall_forall. intros x Hx.
  rewrite Forall_forall in Hl'. by apply Hl', Hsub.
Qed.

Lemma _analyze_rows_sources (rows : list row) (source_type : string)
    (conn : connection) :
  blog_posts (db (_analyze_rows sentiment_analyzer emotion_analyzer
                    linguistic utcnow rows source_type conn).1)
  = blog_posts (db conn) ∧
  oral_histories (db (_analyze_rows sentiment_analyzer emotion_analyzer
                        linguistic utcnow rows source_type conn).1)
  = oral_histories (db conn).
Proof.
  pose proof (_analyze_rows_grows sentiment_analyzer emotion_analyzer
                linguistic utcnow (λ _, True) rows source_type conn)
    as (_ & Hb & Ho & _); [|done].
  apply Forall_forall. intros r _ id a _ _. done.
Qed.

(** Once the store is open and the analyzers are loaded, what follows in
    [run_analysis], its queries and its two loops over the rows, ends
    without an exception when the source rows are as the inserts store
    them, whatever the scoring pipelines and the linguistic measure return
    or raise: what an analyzer raises for a row is caught in the [try]
    block of that analyzer.  The tokenizers are functions here: they
    return. *)
Theorem run_analysis_contained (file : database) :
  well_formed file →
  (run_analysis sentiment_analyzer emotion_analyzer linguistic utcnow
     file).2 = None.
Proof.
  intros [Hblog Hoh]. unfold run_analysis. cbv zeta.
  set (conn := get_connection file).
  destruct (find_unanalyzed_rows sentiment_analyzer emotion_analyzer
              linguistic conn "blog_posts" "blog" (blog_posts file)
              ltac:(constructor) eq_refl) as (blog_rows & -> & Hsub).
  pose proof (_analyze_rows_contained blog_rows "blog" conn
                (Forall_subseteq _ _ _ Hsub Hblog)) as Hnone.
  pose proof (_analyze_rows_sources blog_rows "blog" conn) as [_ Hsame].
  assert ((match blog_rows with
           | [] => (conn, None)
           | _ :: _ => _analyze_rows sentiment_analyzer emotion_analyzer
                         linguistic utcnow blog_rows "blog" conn
           end)
          = _analyze_rows sentiment_analyzer emotion_analyzer linguistic
              utcnow blog_rows "blog" conn) as -> by (by destruct blog_rows).
  destruct (_analyze_rows _ _ _ _ blog_rows "blog" conn) as [conn1 e1].
  cbn [fst snd] in *. subst e1.
  destruct (find_unanalyzed_rows sentiment_analyzer emotion_analyzer
              linguistic conn1 "oral_histories" "oral_history"
              (oral_histories file) ltac:(do 2 constructor)
              ltac:(cbn; by rewrite Hsame))
    as (oh_rows & -> & Hsub'). cbn [rbind].
  destruct (astronaut_rows_defined oh_rows
              (Forall_subseteq _ _ _ Hsub' Hoh)) as (rows & -> & Hsub'').
  assert (Forall source_row rows) as Hrows.
  { eapply Forall_impl;
      [exact (Forall_subseteq _ _ _ Hsub''
                (Forall_subseteq _ _ _ Hsub' Hoh))|].
    by intros r [Hr _]. }
  pose proof (_analyze_rows_contained rows "oral_history" conn1 Hrows).
  destruct rows as [|r rows]; [done|].
  by destruct (_analyze_rows _ _ _ _ (r :: rows) "oral_history" conn1).
Qed.

End contained.

(** The rows the program stores are well formed. *)
Lemma run_op_well_formed (conn : connection) (o : op) :
  well_formed (db conn) → well_formed (db (run_op conn o)).
Proof.
  intros [Hb Ho]. destruct o as [post|segment|r|r|f|]; cbn [run_op].
  - unfold insert_blog_post. destruct (_ || _); [done|]. split; [|done].
    cbn [fst db blog_posts]. apply Forall_app. split; [done|].
    repeat constructor; by eexists.
  - unfold insert_oral_history. split; [done|].
    cbn [fst db oral_histories]. apply Forall_app. split; [done|].
    repeat constructor; by eexists.
  - unfold insert_sentiment. destruct (_ || _); done.
  - unfold insert_emotion. destruct (_ || _); done.
  - unfold insert_linguistic. destruct (_ || _); done.
  - done.
Qed.

Lemma run_ops_well_formed (ops : list op) :
  well_formed (db (run_ops (get_connection empty_database) ops)).
Proof.
  assert (well_formed (db (get_connection empty_database))) as H0
    by (split; constructor).
  revert H0. generalize (get_connection empty_database).
  unfold run_ops. induction ops as [|o ops IH]; intros conn Hconn; [done|].
  cbn [fold_left]. apply IH. by apply run_op_well_formed.
Qed.

Lemma run_analysis_contained_witness :
  (run_analysis None None
     (Some (LinguisticAnalyzer (λ _, Raise OracleError))) "t1"
     sample_file).2 = None.
Proof.
  apply run_analysis_contained.
  apply (run_ops_well_formed
           [InsertOralHistory sample_question;
            InsertOralHistory sample_answer]).
Defined.

(** *** Rows below the minimum word count are left alone *)

Section min_words.

Variable sentiment_analyzer : option analyzer.
Variable emotion_analyzer : option analyzer.
Variable linguistic : option linguistic_analyzer.
Variable utcnow : string.
Variable P : row → Prop.

Lemma analyze_row_grows_words (source_type : string)
    (conn conn' : connection) (r : row) :
  (below_min_words (col r "word_count") = Ok false →
   allowed P source_type (col r "id")) →
  analyze_row sentiment_analyzer emotion_analyzer linguistic utcnow
    source_type conn r = Ok conn' →
  grows_by P (db conn) (db conn').
Proof.
  intros Hallowed Hrow.
  destruct (below_min_words (col r "word_count")) as [[]|e] eqn:Hb.
  - revert Hrow. unfold analyze_row, row_item.
    destruct (dict_get r "id"); [|done].
    destruct (dict_get r "text"); [|done].
    unfold col in Hb. destruct (dict_get r "word_count"); [|done].
    cbn [rbind default] in *. unfold id in Hb. rewrite Hb. cbn [rbind].
    intros [= <-]. apply grows_by_refl.
  - eapply analyze_row_grows; [by apply Hallowed|exact Hrow].
  - revert Hrow. unfold analyze_row, row_item.
    destruct (dict_get r "id"); [|done].
    destruct (dict_get r "text"); [|done].
    unfold col in Hb. destruct (dict_get r "word_count"); [|done].
    cbn [rbind default] in *. unfold id in Hb. by rewrite Hb.
Qed.

Lemma _analyze_rows_grows_words (rows : list row) (source_type : string)
    (conn : connection) :
  Forall (λ r, below_min_words (col r "word_count") = Ok false →
               allowed P source_type (col r "id")) rows →
  grows_by P (db conn)
    (db (_analyze_rows sentiment_analyzer emotion_analyzer linguistic utcnow
           rows source_type conn).1).
Proof.
  intros Hrows. revert conn.
  induction Hrows as [|r rows Hr _ IH]; intros conn; cbn [_analyze_rows].
  - apply grows_by_refl.
  - destruct (analyze_row _ _ _ _ _ conn r) as [conn'|] eqn:Hrow.
    + eapply grows_by_trans; [by eapply analyze_row_grows_words|apply IH].
    + apply grows_by_refl.
Qed.

End min_words.

Section run_min_words.

Variable sentiment_analyzer : option analyzer.
Variable emotion_analyzer : option analyzer.
Variable linguistic : option linguistic_analyzer.
Variable utcnow : string.

Lemma run_analysis_grows_words (file : database) :
  grows_by (long_enough file) file
    (run_analysis sentiment_analyzer emotion_analyzer linguistic utcnow
       file).1.
Proof.
  unfold run_analysis. cbv zeta.
  set (conn := get_connection file).
  destruct (find_unanalyzed _ _ _ conn "blog_posts" "blog")
    as [blog_rows|] eqn:Hfind0; [|apply grows_by_refl].
  assert (grows_by (long_enough file) file
            (db (match blog_rows with
                 | [] => (conn, None)
                 | _ :: _ =>
                     _analyze_rows sentiment_analyzer emotion_analyzer
                       linguistic utcnow blog_rows "blog" conn
                 end).1)) as Hblog.
  { destruct blog_rows as [|r0 rows0]; [apply grows_by_refl|].
    apply (_analyze_rows_grows_words _ _ _ _ _ _ "blog" conn).
    apply Forall_forall. intros r Hr Hwc id a Hid [Hst Hsid].
    exists r. split; [|done]. split; [|congruence]. left. split; [done|].
    eapply find_unanalyzed_subset; [|exact Hfind0|exact Hr]. done. }
  destruct (match blog_rows with [] => _ | _ => _ end) as [conn1 [e|]];
    cbn [fst] in *; [done|].
  destruct (find_unanalyzed _ _ _ conn1 "oral_histories" "oral_history")
    as [oh_rows|] eqn:Hfind; cbn [rbind]; [|done].
  destruct (astronaut_rows oh_rows) as [rows|] eqn:Hastro; [|done].
  assert (grows_by (long_enough file) (db conn1)
            (db (match rows with
                 | [] => (conn1, None)
                 | _ :: _ =>
                     _analyze_rows sentiment_analyzer emotion_analyzer
                       linguistic utcnow rows "oral_history" conn1
                 end).1)) as Hoh.
  { destruct rows as [|r0 rows0] eqn:Hrows; [apply grows_by_refl|].
    rewrite <- Hrows in *. clear Hrows.
    apply _analyze_rows_grows_words.
    apply astronaut_rows_spec in Hastro.
    eapply Forall_impl; [exact Hastro|].
    intros r [Hin _] Hwc id a Hid [Hst Hsid].
    exists r. split; [|done]. split; [|congruence]. right. split; [done|].
    destruct Hblog as (_ & _ & <- & _).
    eapply find_unanalyzed_subset; [|exact Hfind|exact Hin]. done. }
  destruct (match rows with [] => _ | _ => _ end) as [conn2 e].
  cbn [fst] in *. by eapply grows_by_trans.
Qed.

(** [run_analysis] leaves the source tables as they are, and every
    result row it adds belongs to a stored source row of its source type
    that has at least [MIN_WORDS_FOR_ANALYSIS] words; row ids being
    unique, a post or segment of fewer than ten words gets no sentiment,
    emotion or linguistic result. *)
Theorem run_analysis_min_words (file : database) :
  NoDup (map (λ s, col s "id") (blog_posts file)) →
  NoDup (map (λ s, col s "id") (oral_histories file)) →
  let file' :=
    (run_analysis sentiment_analyzer emotion_analyzer linguistic utcnow
       file).1 in
  expeditions file' = expeditions file ∧
  blog_posts file' = blog_posts file ∧
  oral_histories file' = oral_histories file ∧
  Forall (long_enough file) (added file file') ∧
  ∀ s n, s ∈ blog_posts file ∨ s ∈ oral_histories file →
    col s "word_count" = VInt n → n < MIN_WORDS_FOR_ANALYSIS →
    Forall (λ a, ¬ source_of file a s) (added file file').
Proof.
  intros Hblog Hoh file'.
  pose proof (run_analysis_grows_words file) as Hgrows. fold file' in Hgrows.
  pose proof Hgrows as (He & Hb & Ho & _).
  do 3 (split; [done|]).
  apply grows_by_added in Hgrows. split; [done|].
  intros s n Hs Hwc Hn.
  eapply Forall_impl; [exact Hgrows|].
  intros a (s' & [Hsrc' Hid'] & Hlong) [Hsrc Hid].
  assert (s = s') as <-.
  { assert (∀ rows, NoDup (map (λ s, col s "id") rows) →
                    s ∈ rows → s' ∈ rows → s = s') as Hsame.
    { intros rows Hnd Hin Hin'.
      apply list_elem_of_lookup in Hin as [i Hi].
      apply list_elem_of_lookup in Hin' as [i' Hi'].
      assert (i = i') as <-; [|congruence].
      eapply NoDup_lookup; [exact Hnd| |].
      - rewrite list_lookup_fmap, Hi. done.
      - rewrite list_lookup_fmap, Hi'. cbn. congruence. }
    destruct Hsrc as [[Hst Hin]|[Hst Hin]],
             Hsrc' as [[Hst' Hin']|[Hst' Hin']]; try congruence.
    - by apply (Hsame (blog_posts file)).
    - by apply (Hsame (oral_histories file)). }
  rewrite Hwc in Hlong. cbn [below_min_words] in Hlong.
  injection Hlong as Hlong. apply Z.ltb_ge in Hlong. lia.
Qed.

End run_min_words.

Definition short_note : OralHistorySegment.t :=
  OralHistorySegment.Build "Peggy A. Whitson" "whitson.pdf" None 2
    "astronaut" "Yes, it was a very long day." 7 "t0".

Definition short_file : database :=
  db (insert_oral_history (get_connection sample_file) short_note).1.

Lemma run_analysis_min_words_witness :
  oral_histories
    (run_analysis None None
       (Some (LinguisticAnalyzer (λ _, Ok (60#1, 14#1, 9#10, 2#10, 0, 0))))
       "t1" short_file).1
  = oral_histories short_file.
Proof.
  refine (proj1 (proj2 (proj2
    (run_analysis_min_words None None _ "t1" short_file _ _)))).
  - vm_compute. repeat constructor; intros H;
      repeat (apply elem_of_cons in H as [H|H]; [discriminate H|]);
      by apply elem_of_nil in H.
  - vm_compute. repeat constructor; intros H;
      repeat (apply elem_of_cons in H as [H|H]; [discriminate H|]);
      by apply elem_of_nil in H.
Defined.

End Pipeline.

(** ** Running the analysis again *)

Module Rerun.

Import Aggregator Db Runner Store Pipeline.

(** A result with another reading of the clock in [analyzed_at]. *)
Definition sentiment_at (t : string) (r : SentimentResult.t)
    : SentimentResult.t :=
  SentimentResult.Build (SentimentResult.source_type r)
    (SentimentResult.source_id r) (SentimentResult.label r)
    (SentimentResult.positive_score r) (SentimentResult.negative_score r)
    (SentimentResult.neutral_score r) (SentimentResult.model_name r) t.

Definition emotion_at (t : string) (r : EmotionResult.t) : EmotionResult.t :=
  EmotionResult.Build (EmotionResult.source_type r)
    (EmotionResult.source_id r) (EmotionResult.anger_score r)
    (EmotionResult.disgust_score r) (EmotionResult.fear_score r)
    (EmotionResult.joy_score r) (EmotionResult.neutral_score r)
    (EmotionResult.sadness_score r) (EmotionResult.surprise_score r)
    (EmotionResult.dominant_emotion r) (EmotionResult.model_name r) t.

Definition features_at (t : string) (r : LinguisticFeatures.t)
    : LinguisticFeatures.t :=
  LinguisticFeatures.Build (LinguisticFeatures.source_type r)
    (LinguisticFeatures.source_id r) (LinguisticFeatures.flesch_reading_ease r)
    (LinguisticFeatures.avg_sentence_length r)
    (LinguisticFeatures.lexical_diversity r)
    (LinguisticFeatures.first_person_ratio r)
    (LinguisticFeatures.exclamation_count r)
    (LinguisticFeatures.question_count r) t.

Definition rmap {A B : Type} (f : A → B) (m : result A) : result B :=
  match m with
  | Ok a => Ok (f a)
  | Raise e => Raise e
  end.

(** What the [try] block of an analyzer computes for a row before it
    inserts: the result, or the exception that the block catches. *)
Definition sentiment_of (utcnow : string) (sa : analyzer)
    (text row_id : value) (source_type : string)
    : result SentimentResult.t :=
  text ←? as_text text;
  chunks ←? Chunker.chunk_text_default (tokenizer_encode sa)
              (tokenizer_decode sa) text;
  row_id ←? as_int row_id;
  chunk_results ←?
    rmapM (λ c, SentimentAnalyzer.analyze_text (pipe sa) (model_name sa)
                  c source_type row_id utcnow) chunks;
  sentiment_result chunk_results source_type row_id (model_name sa) utcnow.

Definition emotion_of (utcnow : string) (ea : analyzer)
    (text row_id : value) (source_type : string) : result EmotionResult.t :=
  text ←? as_text text;
  chunks ←? Chunker.chunk_text_default (tokenizer_encode ea)
              (tokenizer_decode ea) text;
  row_id ←? as_int row_id;
  chunk_results ←?
    rmapM (λ c, EmotionAnalyzer.analyze_text (pipe ea) (model_name ea)
                  c source_type row_id utcnow) chunks;
  emotion_result chunk_results source_type row_id (model_name ea) utcnow.

Definition features_of (utcnow : string) (la : linguistic_analyzer)
    (text row_id : value) (source_type : string)
    : result LinguisticFeatures.t :=
  text ←? as_text text;
  row_id ←? as_int row_id;
  linguistic_analyze la text source_type row_id utcnow.

(** Every row of [rs] has a row of [rs'] with its [source_type],
    [source_id] and [model_name]: the columns of a result row that the
    queries and the [UNIQUE] constraints read.  The row ids, which SQLite
    hands out, play no part. *)
Definition held_in (rs rs' : list row) : Prop :=
  ∀ a, a ∈ rs → ∃ a', a' ∈ rs' ∧ result_key a' = result_key a.

(** The results of [d] are held in [d']. *)
Definition results_within (d d' : database) : Prop :=
  held_in (sentiment_results d) (sentiment_results d') ∧
  held_in (emotion_results d) (emotion_results d') ∧
  held_in (linguistic_features d) (linguistic_features d').

(** *** The blocks, through what they compute *)

Lemma sentiment_block_of (utcnow : string) (conn : connection)
    (sa : analyzer) (text row_id : value) (source_type : string) :
  sentiment_block utcnow conn sa text row_id source_type
  = match sentiment_of utcnow sa text row_id source_type with
    | Ok r => (insert_sentiment conn r).1
    | Raise _ => conn
    end.
Proof.
  unfold sentiment_block, sentiment_of, try_block.
  destruct (as_text text); [|done]. cbn [rbind].
  destruct (Chunker.chunk_text_default _ _ _); [|done]. cbn [rbind].
  destruct (as_int row_id); [|done]. cbn [rbind].
  destruct (rmapM _ _); [|done]. cbn [rbind].
  by destruct (sentiment_result _ _ _ _ _).
Qed.

Lemma emotion_block_of (utcnow : string) (conn : connection)
    (ea : analyzer) (text row_id : value) (source_type : string) :
  emotion_block utcnow conn ea text row_id source_type
  = match emotion_of utcnow ea text row_id source_type with
    | Ok r => (insert_emotion conn r).1
    | Raise _ => conn
    end.
Proof.
  unfold emotion_block, emotion_of, try_block.
  destruct (as_text text); [|done]. cbn [rbind].
  destruct (Chunker.chunk_text_default _ _ _); [|done]. cbn [rbind].
  destruct (as_int row_id); [|done]. cbn [rbind].
  destruct (rmapM _ _); [|done]. cbn [rbind].
  by destruct (emotion_result _ _ _ _ _).
Qed.

Lemma linguistic_block_of (utcnow : string) (conn : connection)
    (la : linguistic_analyzer) (text row_id : value) (source_type : string) :
  linguistic_block utcnow conn la text row_id source_type
  = match features_of utcnow la text row_id source_type with
    | Ok r => (insert_linguistic conn r).1
    | Raise _ => conn
    end.
Proof.
  unfold linguistic_block, features_of, try_block.
  destruct (as_text text); [|done]. cbn [rbind].
  destruct (as_int row_id); [|done]. cbn [rbind].
  by destruct (linguistic_analyze _ _ _ _ _).
Qed.

(** *** The clock only shows in [analyzed_at] *)

Lemma rmapM_rmap {A B : Type} (f f' : A → result B) (g : B → B)
    (l : list A) :
  (∀ a, f' a = rmap g (f a)) →
  rmapM f' l = rmap (map g) (rmapM f l).
Proof.
  intros Hf. induction l as [|a l IH]; [done|].
  cbn [rmapM]. rewrite Hf, IH.
  destruct (f a); [|done]. cbn [rmap rbind]. by destruct (rmapM f l).
Qed.

Lemma sentiment_analyze_text_at
    (pipe : string → result (list (string * Q)))
    (m text source_type : string) (source_id : Z) (t t' : string) :
  SentimentAnalyzer.analyze_text pipe m text source_type source_id t'
  = rmap (sentiment_at t')
      (SentimentAnalyzer.analyze_text pipe m text source_type source_id t).
Proof.
  unfold SentimentAnalyzer.analyze_text.
  destruct (pipe text) as [results|]; [|done]. cbn [rbind].
  destruct (py_max_key _); [|done]. cbn [rbind].
  repeat (destruct (dict_item _ _); [|done]; cbn [rbind]).
  unfold SentimentResult.make, SentimentResult.valid.
  cbn [SentimentResult.source_type SentimentResult.label
       SentimentResult.positive_score SentimentResult.negative_score
       SentimentResult.neutral_score].
  by destruct (_ && _).
Qed.

Lemma emotion_analyze_text_at
    (pipe : string → result (list (string * Q)))
    (m text source_type : string) (source_id : Z) (t t' : string) :
  EmotionAnalyzer.analyze_text pipe m text source_type source_id t'
  = rmap (emotion_at t')
      (EmotionAnalyzer.analyze_text pipe m text source_type source_id t).
Proof.
  unfold EmotionAnalyzer.analyze_text.
  destruct (pipe text) as [results|]; [|done]. cbn [rbind].
  destruct (py_max_key _); [|done]. cbn [rbind].
  repeat (destruct (dict_item _ _); [|done]; cbn [rbind]).
  unfold EmotionResult.make, EmotionResult.valid.
  cbn [EmotionResult.source_type EmotionResult.anger_score
       EmotionResult.disgust_score EmotionResult.fear_score
       EmotionResult.joy_score EmotionResult.neutral_score
       EmotionResult.sadness_score EmotionResult.surprise_score].
  by destruct (_ && _).
Qed.

Lemma aggregate_sentiment_at (rs : list SentimentResult.t)
    (source_type : string) (source_id : Z) (m t t' : string) :
  aggregate_sentiment (map (sentiment_at t') rs) source_type source_id m t'
  = rmap (sentiment_at t')
      (aggregate_sentiment rs source_type source_id m t).
Proof.
  unfold aggregate_sentiment. cbv zeta. rewrite !map_map.
  cbn [sentiment_at SentimentResult.positive_score
       SentimentResult.negative_score SentimentResult.neutral_score].
  assert (len (map (sentiment_at t') rs) = len rs) as ->
    by (unfold len; by rewrite length_map).
  repeat (destruct (py_div _ _); [|done]; cbn [rbind]).
  destruct (py_max_key _); [|done]. cbn [rbind].
  unfold SentimentResult.make, SentimentResult.valid.
  cbn [SentimentResult.source_type SentimentResult.label
       SentimentResult.positive_score SentimentResult.negative_score
       SentimentResult.neutral_score].
  by destruct (_ && _).
Qed.

Lemma getattr_score_at (t' : string) (r : EmotionResult.t) (e : string) :
  EmotionResult.getattr_score (emotion_at t' r) e
  = EmotionResult.getattr_score r e.
Proof. done. Qed.

Lemma rmapM_ext {A B : Type} (f g : A → result B) (l : list A) :
  (∀ a, f a = g a) → rmapM f l = rmapM g l.
Proof.
  intros Hfg. induction l as [|a l IH]; [done|].
  cbn [rmapM]. by rewrite Hfg, IH.
Qed.

Lemma rmapM_map {A B C : Type} (f : B → result C) (g : A → B) (l : list A) :
  rmapM f (map g l) = rmapM (λ a, f (g a)) l.
Proof.
  induction l as [|a l IH]; [done|]. cbn [map rmapM]. by rewrite IH.
Qed.

Lemma aggregate_emotions_at (rs : list EmotionResult.t)
    (source_type : string) (source_id : Z) (m t t' : string) :
  aggregate_emotions (map (emotion_at t') rs) source_type source_id m t'
  = rmap (emotion_at t')
      (aggregate_emotions rs source_type source_id m t).
Proof.
  unfold aggregate_emotions. cbv zeta.
  assert (len (map (emotion_at t') rs) = len rs) as ->
    by (unfold len; by rewrite length_map).
  assert (rmapM (λ e,
            xs ←? rmapM (λ r, EmotionResult.getattr_score r e)
                    (map (emotion_at t') rs);
            mean ←? py_div (py_sum xs) (len rs);
            Ok (e, mean)) EMOTION_LABELS
          = rmapM (λ e,
            xs ←? rmapM (λ r, EmotionResult.getattr_score r e) rs;
            mean ←? py_div (py_sum xs) (len rs);
            Ok (e, mean)) EMOTION_LABELS) as ->.
  { apply rmapM_ext. intros e. by rewrite rmapM_map. }
  destruct (rmapM _ EMOTION_LABELS); [|done]. cbn [rbind].
  destruct (py_max_key _); [|done]. cbn [rbind].
  repeat (destruct (dict_item _ _); [|done]; cbn [rbind]).
  unfold EmotionResult.make, EmotionResult.valid.
  cbn [EmotionResult.source_type EmotionResult.anger_score
       EmotionResult.disgust_score EmotionResult.fear_score
       EmotionResult.joy_score EmotionResult.neutral_score
       EmotionResult.sadness_score EmotionResult.surprise_score].
  by destruct (_ && _).
Qed.

Lemma sentiment_of_at (t t' : string) (sa : analyzer) (text row_id : value)
    (source_type : string) :
  sentiment_of t' sa text row_id source_type
  = rmap (sentiment_at t') (sentiment_of t sa text row_id source_type).
Proof.
  unfold sentiment_of.
  destruct (as_text text) as [txt|]; [|done]. cbn [rbind].
  destruct (Chunker.chunk_text_default _ _ _) as [chunks|]; [|done].
  cbn [rbind]. destruct (as_int row_id) as [id|]; [|done]. cbn [rbind].
  rewrite (rmapM_rmap
    (λ c, SentimentAnalyzer.analyze_text (pipe sa) (model_name sa) c
            source_type id t) _ (sentiment_at t'))
    by (intros c; apply sentiment_analyze_text_at).
  destruct (rmapM _ chunks) as [rs|]; [|done]. cbn [rmap rbind].
  unfold sentiment_result.
  assert (len (map (sentiment_at t') rs) = len rs) as ->
    by (unfold len; by rewrite length_map).
  destruct (len rs =? 1); [by destruct rs|].
  apply aggregate_sentiment_at.
Qed.

Lemma emotion_of_at (t t' : string) (ea : analyzer) (text row_id : value)
    (source_type : string) :
  emotion_of t' ea text row_id source_type
  = rmap (emotion_at t') (emotion_of t ea text row_id source_type).
Proof.
  unfold emotion_of.
  destruct (as_text text) as [txt|]; [|done]. cbn [rbind].
  destruct (Chunker.chunk_text_default _ _ _) as [chunks|]; [|done].
  cbn [rbind]. destruct (as_int row_id) as [id|]; [|done]. cbn [rbind].
  rewrite (rmapM_rmap
    (λ c, EmotionAnalyzer.analyze_text (pipe ea) (model_name ea) c
            source_type id t) _ (emotion_at t'))
    by (intros c; apply emotion_analyze_text_at).
  destruct (rmapM _ chunks) as [rs|]; [|done]. cbn [rmap rbind].
  unfold emotion_result.
  assert (len (map (emotion_at t') rs) = len rs) as ->
    by (unfold len; by rewrite length_map).
  destruct (len rs =? 1); [by destruct rs|].
  apply aggregate_emotions_at.
Qed.

Lemma features_of_at (t t' : string) (la : linguistic_analyzer)
    (text row_id : value) (source_type : string) :
  features_of t' la text row_id source_type
  = rmap (features_at t') (features_of t la text row_id source_type).
Proof.
  unfold features_of, linguistic_analyze.
  destruct (as_text text) as [txt|]; [|done]. cbn [rbind].
  destruct (as_int row_id) as [id|]; [|done]. cbn [rbind].
  destruct (measure la txt) as [[[[[[f1 f2] f3] f4] f5] f6]|]; [|done].
  cbn [rbind]. unfold LinguisticFeatures.make, LinguisticFeatures.valid.
  cbn [LinguisticFeatures.source_type LinguisticFeatures.avg_sentence_length
       LinguisticFeatures.lexical_diversity
       LinguisticFeatures.first_person_ratio
       LinguisticFeatures.exclamation_count
       LinguisticFeatures.question_count].
  by destruct (_ && _).
Qed.

(** *** A block whose result is stored changes nothing *)

Lemma held_in_refl (rs : list row) : held_in rs rs.
Proof. intros a Ha. by exists a. Qed.

Lemma held_in_trans (rs1 rs2 rs3 : list row) :
  held_in rs1 rs2 → held_in rs2 rs3 → held_in rs1 rs3.
Proof.
  intros H12 H23 a Ha. destruct (H12 a Ha) as (a2 & Ha2 & Hk2).
  destruct (H23 a2 Ha2) as (a3 & Ha3 & Hk3). exists a3. split; [done|].
  congruence.
Qed.

Lemma held_in_prefix (rs rs' : list row) : rs `prefix_of` rs' → held_in rs rs'.
Proof.
  intros [k ->] a Ha. exists a. split; [|done]. apply elem_of_app. by left.
Qed.

(** A condition on the key columns that a row of [rs] meets is met by a
    row of [rs']. *)
Lemma held_in_existsb (f : row → bool) (rs rs' : list row) :
  (∀ a a', result_key a' = result_key a → f a' = f a) →
  held_in rs rs' → existsb f rs = true → existsb f rs' = true.
Proof.
  intros Hf Hheld Hex. apply existsb_exists in Hex as (a & Ha & Hfa).
  apply list_elem_of_In in Ha. destruct (Hheld a Ha) as (a' & Ha' & Hk).
  apply existsb_exists. exists a'. split; [by apply list_elem_of_In|].
  by rewrite (Hf a a' Hk).
Qed.

Lemma same_key_result_key (source_type : string) (source_id : Z)
    (model_name : string) (a a' : row) :
  result_key a' = result_key a →
  same_key source_type source_id model_name a'
  = same_key source_type source_id model_name a.
Proof. intros [= H1 H2 H3]. unfold same_key. by rewrite H1, H2, H3. Qed.

Lemma same_source_result_key (source_type : string) (source_id : Z)
    (a a' : row) :
  result_key a' = result_key a →
  same_source source_type source_id a' = same_source source_type source_id a.
Proof. intros [= H1 H2 H3]. unfold same_source. by rewrite H1, H2. Qed.

Lemma join_on_result_key (source_type : string) (model_name : option string)
    (s a a' : row) :
  result_key a' = result_key a →
  join_on source_type model_name s a' = join_on source_type model_name s a.
Proof. intros [= H1 H2 H3]. unfold join_on. by rewrite H1, H2, H3. Qed.

Lemma results_within_refl (d : database) : results_within d d.
Proof. split; [|split]; apply held_in_refl. Qed.

Lemma results_within_trans (d1 d2 d3 : database) :
  results_within d1 d2 → results_within d2 d3 → results_within d1 d3.
Proof.
  intros (H1 & H2 & H3) (H1' & H2' & H3').
  split; [|split]; by eapply held_in_trans.
Qed.

Lemma grows_by_within (P : row → Prop) (d d' : database) :
  grows_by P d d' → results_within d d'.
Proof.
  intros (_ & _ & _ & (s & Hs & _) & (e & He & _) & (l & Hl & _)).
  unfold results_within. rewrite Hs, He, Hl.
  split; [|split]; by apply held_in_prefix, prefix_app_r.
Qed.

Lemma allowed_True (source_type : string) (row_id : value) :
  allowed (λ _, True) source_type row_id.
Proof. by intros id a _ _. Qed.

Lemma sentiment_block_settled (t t' : string) (c c2 : connection)
    (sa : analyzer) (text row_id : value) (source_type : string) :
  held_in
    (sentiment_results (db (sentiment_block t c sa text row_id source_type)))
    (sentiment_results (db c2)) →
  sentiment_block t' c2 sa text row_id source_type = c2.
Proof.
  rewrite !sentiment_block_of, (sentiment_of_at t t').
  destruct (sentiment_of t sa text row_id source_type) as [r|]; [|done].
  cbn [rmap]. intros Hpre. unfold insert_sentiment.
  cbn [sentiment_at SentimentResult.source_type SentimentResult.source_id
       SentimentResult.model_name].
  destruct (check_source_type (SentimentResult.source_type r)) eqn:Hcheck;
    [|done].
  pose proof (insert_sentiment_stores c r Hcheck) as Hhas.
  apply existsb_has_result in Hhas.
  apply (held_in_existsb _ _ _ (same_key_result_key _ _ _) Hpre) in Hhas.
  by rewrite Hhas.
Qed.

Lemma emotion_block_settled (t t' : string) (c c2 : connection)
    (ea : analyzer) (text row_id : value) (source_type : string) :
  held_in
    (emotion_results (db (emotion_block t c ea text row_id source_type)))
    (emotion_results (db c2)) →
  emotion_block t' c2 ea text row_id source_type = c2.
Proof.
  rewrite !emotion_block_of, (emotion_of_at t t').
  destruct (emotion_of t ea text row_id source_type) as [r|]; [|done].
  cbn [rmap]. intros Hpre. unfold insert_emotion.
  cbn [emotion_at EmotionResult.source_type EmotionResult.source_id
       EmotionResult.model_name].
  destruct (check_source_type (EmotionResult.source_type r)) eqn:Hcheck;
    [|done].
  pose proof (insert_emotion_stores c r Hcheck) as Hhas.
  apply existsb_has_result in Hhas.
  apply (held_in_existsb _ _ _ (same_key_result_key _ _ _) Hpre) in Hhas.
  by rewrite Hhas.
Qed.

Lemma linguistic_block_settled (t t' : string) (c c2 : connection)
    (la : linguistic_analyzer) (text row_id : value) (source_type : string) :
  held_in
    (linguistic_features
       (db (linguistic_block t c la text row_id source_type)))
    (linguistic_features (db c2)) →
  linguistic_block t' c2 la text row_id source_type = c2.
Proof.
  rewrite !linguistic_block_of, (features_of_at t t').
  destruct (features_of t la text row_id source_type) as [r|]; [|done].
  cbn [rmap]. intros Hpre. unfold insert_linguistic at 1.
  cbn [features_at LinguisticFeatures.source_type
       LinguisticFeatures.source_id].
  destruct (check_source_type (LinguisticFeatures.source_type r)) eqn:Hcheck;
    [|done].
  pose proof (insert_linguistic_stores c r Hcheck) as Hhas.
  apply existsb_has_features in Hhas.
  apply (held_in_existsb _ _ _ (same_source_result_key _ _) Hpre) in Hhas.
  by rewrite Hhas.
Qed.

Section rerun.

Variable sentiment_analyzer : option analyzer.
Variable emotion_analyzer : option analyzer.
Variable linguistic : option linguistic_analyzer.
(** The readings of the clock in the first and in the second run. *)
Variables utcnow utcnow' : string.

(** In a store that holds the results of [d], the loop body leaves the
    row [r] as it finds it. *)
Definition settled (source_type : string) (d : database) (r : row) : Prop :=
  ∀ c2, results_within d (db c2) →
    analyze_row sentiment_analyzer emotion_analyzer linguistic utcnow'
      source_type c2 r = Ok c2.

Lemma settled_mono (source_type : string) (d d' : database) (r : row) :
  results_within d d' → settled source_type d r → settled source_type d' r.
Proof.
  intros Hd Hr c2 Hc2. apply Hr. by eapply results_within_trans.
Qed.

Lemma analyze_row_settled (source_type : string) (c c' : connection)
    (r : row) :
  analyze_row sentiment_analyzer emotion_analyzer linguistic utcnow
    source_type c r = Ok c' →
  settled source_type (db c') r.
Proof.
  unfold settled, analyze_row.
  destruct (row_item r "id") as [row_id|]; [|done]. cbn [rbind].
  destruct (row_item r "text") as [text|]; [|done]. cbn [rbind].
  destruct (row_item r "word_count") as [word_count|]; [|done]. cbn [rbind].
  destruct (below_min_words word_count) as [[]|]; [| |done]; cbn [rbind].
  { done. }
  cbv zeta. intros [= <-] c2 Hc2.
  set (c1 := match sentiment_analyzer with
             | Some sa => sentiment_block utcnow c sa text row_id source_type
             | None => c
             end) in *.
  set (c1' := match emotion_analyzer with
              | Some ea => emotion_block utcnow c1 ea text row_id source_type
              | None => c1
              end) in *.
  set (c1'' := match linguistic with
               | Some la =>
                   linguistic_block utcnow c1' la text row_id source_type
               | None => c1'
               end) in *.
  assert (results_within (db c1') (db c1'')) as H3.
  { subst c1''. destruct linguistic as [la|];
      [|apply results_within_refl].
    eapply grows_by_within, linguistic_block_grows, allowed_True. }
  assert (results_within (db c1) (db c1')) as H2.
  { subst c1'. destruct emotion_analyzer as [ea|];
      [|apply results_within_refl].
    eapply grows_by_within, emotion_block_grows, allowed_True. }
  assert (match sentiment_analyzer with
          | Some sa => sentiment_block utcnow' c2 sa text row_id source_type
          | None => c2
          end = c2) as ->.
  { destruct sentiment_analyzer as [sa|]; [|done].
    apply (sentiment_block_settled utcnow utcnow' c).
    pose proof (results_within_trans _ _ _ H2
                  (results_within_trans _ _ _ H3 Hc2)) as (H & _). done. }
  assert (match emotion_analyzer with
          | Some ea => emotion_block utcnow' c2 ea text row_id source_type
          | None => c2
          end = c2) as ->.
  { destruct emotion_analyzer as [ea|]; [|done].
    apply (emotion_block_settled utcnow utcnow' c1).
    pose proof (results_within_trans _ _ _ H3 Hc2) as (_ & H & _). done. }
  destruct linguistic as [la|]; [|done]. f_equal.
  apply (linguistic_block_settled utcnow utcnow' c1').
  by destruct Hc2 as (_ & _ & H).
Qed.

Lemma _analyze_rows_within (rows : list row) (source_type : string)
    (c : connection) :
  results_within (db c)
    (db (_analyze_rows sentiment_analyzer emotion_analyzer linguistic utcnow
           rows source_type c).1).
Proof.
  eapply grows_by_within, (_analyze_rows_grows _ _ _ _ (λ _, True)).
  apply Forall_forall. intros r _. apply allowed_True.
Qed.

Lemma _analyze_rows_settled (rows : list row) (source_type : string)
    (c c' : connection) :
  _analyze_rows sentiment_analyzer emotion_analyzer linguistic utcnow rows
    source_type c = (c', None) →
  Forall (settled source_type (db c')) rows.
Proof.
  revert c. induction rows as [|r rows IH]; intros c; [constructor|].
  cbn [_analyze_rows].
  destruct (analyze_row _ _ _ _ _ c r) as [c1|] eqn:Hrow; [|done].
  intros Hrest. constructor; [|by eapply IH].
  eapply settled_mono; [|by eapply analyze_row_settled].
  pose proof (_analyze_rows_within rows source_type c1) as H.
  by rewrite Hrest in H.
Qed.

Lemma _analyze_rows_noop (rows : list row) (source_type : string)
    (c2 : connection) :
  Forall (settled source_type (db c2)) rows →
  _analyze_rows sentiment_analyzer emotion_analyzer linguistic utcnow' rows
    source_type c2 = (c2, None).
Proof.
  induction 1 as [|r rows Hr _ IH]; [done|].
  cbn [_analyze_rows]. by rewrite (Hr c2 (results_within_refl _)).
Qed.

(** *** The unprocessed rows only become fewer *)

Lemma left_join_is_null_shrinks (source analysis analysis' : list row)
    (on : row → row → bool) :
  (∀ s a a', result_key a' = result_key a → on s a' = on s a) →
  held_in analysis analysis' →
  left_join_is_null source analysis' on
    ⊆ left_join_is_null source analysis on.
Proof.
  intros Hon Hheld s Hs. unfold left_join_is_null in *.
  apply list_elem_of_filter in Hs as [Hnone Hs].
  apply list_elem_of_filter. split; [|done].
  destruct (existsb (on s) analysis) eqn:Hex; [|done].
  apply (held_in_existsb _ _ _ (Hon s) Hheld) in Hex. congruence.
Qed.

Lemma find_unanalyzed_shrinks (c c' : connection)
    (source_table source_type : string) (rows : list row) :
  source_table ∈ ["blog_posts"; "oral_histories"]%string →
  rows_of (db c') source_table = rows_of (db c) source_table →
  results_within (db c) (db c') →
  find_unanalyzed sentiment_analyzer emotion_analyzer linguistic c
    source_table source_type = Ok rows →
  ∃ rows',
    find_unanalyzed sentiment_analyzer emotion_analyzer linguistic c'
      source_table source_type = Ok rows' ∧
    rows' ⊆ rows.
Proof.
  intros Htable Hsame (Hs & He & Hl).
  assert (∃ source, rows_of (db c) source_table = Some source)
    as [source Hsource].
  { repeat (apply elem_of_cons in Htable as [->|Htable]);
      [by eexists|by eexists|by apply elem_of_nil in Htable]. }
  assert (∀ analysis_table model_name analysis analysis',
    analysis_table = "linguistic_features"%string ∧ model_name = None ∨
    analysis_table ∈ ["sentiment_results"; "emotion_results"]%string ∧
      is_Some model_name →
    rows_of (db c) analysis_table = Some analysis →
    rows_of (db c') analysis_table = Some analysis' →
    held_in analysis analysis' →
    get_unanalyzed c source_table analysis_table source_type model_name
      = Ok rows →
    ∃ rows',
      get_unanalyzed c' source_table analysis_table source_type model_name
        = Ok rows' ∧ rows' ⊆ rows) as Hq.
  { intros analysis_table model_name analysis analysis' Ha Han Han' Hpre.
    destruct (get_unanalyzed_rows c source_table analysis_table source_type
                model_name source Htable Ha Hsource) as (an & Han1 & ->).
    destruct (get_unanalyzed_rows c' source_table analysis_table source_type
                model_name source Htable Ha ltac:(congruence))
      as (an' & Han1' & ->).
    intros [= <-]. eexists. split; [done|].
    assert (an = analysis) as -> by congruence.
    assert (an' = analysis') as -> by congruence.
    apply left_join_is_null_shrinks; [|exact Hpre].
    intros s a a'. apply join_on_result_key. }
  unfold find_unanalyzed.
  destruct sentiment_analyzer as [sa|].
  { eapply Hq; [right; split; [constructor|by eexists]|done|done|done]. }
  destruct emotion_analyzer as [ea|].
  { eapply Hq; [right; split; [do 2 constructor|by eexists]|done|done|done]. }
  destruct linguistic as [la|].
  { eapply Hq; [by left|done|done|done]. }
  intros [= <-]. by exists [].
Qed.

Lemma astronaut_rows_elem (oh_rows rows : list row) :
  astronaut_rows oh_rows = Ok rows →
  Forall (λ r, is_Ok (is_astronaut r)) oh_rows ∧
  ∀ r, r ∈ oh_rows → is_astronaut r = Ok true → r ∈ rows.
Proof.
  revert rows. induction oh_rows as [|r0 oh_rows IH]; intros rows.
  - intros _. split; [constructor|]. intros r Hr. by apply elem_of_nil in Hr.
  - cbn [astronaut_rows]. destruct (is_astronaut r0) as [keep|] eqn:Hk;
      [|done]. cbn [rbind].
    destruct (astronaut_rows oh_rows) as [rest|]; [|done]. cbn [rbind].
    destruct (IH rest eq_refl) as [Hok Hin]. intros [= <-].
    split; [constructor; [by eexists|done]|].
    intros r Hr Hastro. apply elem_of_cons in Hr as [->|Hr].
    + rewrite Hk in Hastro. injection Hastro as ->. by left.
    + specialize (Hin r Hr Hastro). destruct keep; [by right|done].
Qed.

Lemma astronaut_rows_shrinks (oh_rows oh_rows' rows : list row) :
  astronaut_rows oh_rows = Ok rows →
  oh_rows' ⊆ oh_rows →
  ∃ rows', astronaut_rows oh_rows' = Ok rows' ∧ rows' ⊆ rows.
Proof.
  intros Hrows Hsub. apply astronaut_rows_elem in Hrows as [Hok Hin].
  induction oh_rows' as [|r oh_rows' IH].
  - exists []. split; [done|]. intros r Hr. by apply elem_of_nil in Hr.
  - destruct IH as (rest & Hrest & Hsubrest).
    { intros r' Hr'. apply Hsub. by right. }
    cbn [astronaut_rows]. rewrite Hrest.
    assert (r ∈ oh_rows) as Hr by (apply Hsub; by left).
    rewrite Forall_forall in Hok. destruct (Hok r Hr) as [keep Hkeep].
    rewrite Hkeep. cbn [rbind]. eexists. split; [done|].
    destruct keep; [|done].
    intros r' Hr'. apply elem_of_cons in Hr' as [->|Hr'];
      [by apply Hin|by apply Hsubrest].
Qed.

(** When [run_analysis] has ended without an exception, running it again
    with the same analyzers, at any later time, ends without an exception
    and adds, changes and removes no row: every row it looks at again is
    skipped, fails as before, or meets the [UNIQUE] constraint of its
    result.  The second run may start from any store that has the source
    rows the first run left and holds a result for every key the first
    run left one for, whatever the ids of its result rows. *)
Theorem run_analysis_idempotent (file file' later : database) :
  run_analysis sentiment_analyzer emotion_analyzer linguistic utcnow file
    = (file', None) →
  blog_posts later = blog_posts file' →
  oral_histories later = oral_histories file' →
  results_within file' later →
  run_analysis sentiment_analyzer emotion_analyzer linguistic utcnow' later
    = (later, None).
Proof.
  intros Hrun Hblogs Hsegments Hlater. revert Hrun.
  unfold run_analysis. cbv zeta.
  set (conn := get_connection file). set (conn' := get_connection later).
  destruct (find_unanalyzed _ _ _ conn "blog_posts" "blog")
    as [blog_rows|] eqn:Hfind; [|done].
  assert ((match blog_rows with
           | [] => (conn, None)
           | _ :: _ => _analyze_rows sentiment_analyzer emotion_analyzer
                         linguistic utcnow blog_rows "blog" conn
           end)
          = _analyze_rows sentiment_analyzer emotion_analyzer linguistic
              utcnow blog_rows "blog" conn) as -> by (by destruct blog_rows).
  destruct (_analyze_rows _ _ _ _ blog_rows "blog" conn)
    as [conn1 [e|]] eqn:Hblog; [done|].
  destruct (find_unanalyzed _ _ _ conn1 "oral_histories" "oral_history")
    as [oh_rows|] eqn:Hfind1; [|done]. cbn [rbind].
  destruct (astronaut_rows oh_rows) as [rows|] eqn:Hastro; [|done].
  assert ((match rows with
           | [] => (conn1, None)
           | _ :: _ => _analyze_rows sentiment_analyzer emotion_analyzer
                         linguistic utcnow rows "oral_history" conn1
           end)
          = _analyze_rows sentiment_analyzer emotion_analyzer linguistic
              utcnow rows "oral_history" conn1) as -> by (by destruct rows).
  destruct (_analyze_rows _ _ _ _ rows "oral_history" conn1)
    as [conn2 e2] eqn:Hoh.
  intros [= Hfile ->].
  (* the first run: what it kept and what it settled *)
  pose proof (_analyze_rows_within blog_rows "blog" conn) as Hw1.
  pose proof (_analyze_rows_sources sentiment_analyzer emotion_analyzer
                linguistic utcnow blog_rows "blog" conn) as [Hb1 Ho1].
  rewrite Hblog in Hw1, Hb1, Ho1. cbn [fst] in Hw1, Hb1, Ho1.
  pose proof (_analyze_rows_within rows "oral_history" conn1) as Hw2.
  pose proof (_analyze_rows_sources sentiment_analyzer emotion_analyzer
                linguistic utcnow rows "oral_history" conn1) as [Hb2 Ho2].
  rewrite Hoh in Hw2, Hb2, Ho2. cbn [fst] in Hw2, Hb2, Ho2.
  rewrite Hfile in Hw2, Hb2, Ho2.
  pose proof (_analyze_rows_settled _ _ _ _ Hblog) as Hset1.
  pose proof (_analyze_rows_settled _ _ _ _ Hoh) as Hset2.
  rewrite Hfile in Hset2.
  pose proof (results_within_trans _ _ _ Hw2 Hlater) as Hw2'.
  (* the second run: the blog posts *)
  destruct (find_unanalyzed_shrinks conn conn' "blog_posts" "blog" blog_rows
              ltac:(constructor)
              ltac:(cbn; by rewrite Hblogs, Hb2, Hb1)
              (results_within_trans _ _ _ Hw1 Hw2') Hfind)
    as (blog_rows' & -> & Hsub).
  assert (_analyze_rows sentiment_analyzer emotion_analyzer linguistic
            utcnow' blog_rows' "blog" conn' = (conn', None)) as Hnoop.
  { apply _analyze_rows_noop.
    apply (Forall_subseteq _ _ _ Hsub).
    eapply Forall_impl; [exact Hset1|].
    intros r Hr. by eapply settled_mono. }
  assert ((match blog_rows' with
           | [] => (conn', None)
           | _ :: _ => _analyze_rows sentiment_analyzer emotion_analyzer
                         linguistic utcnow' blog_rows' "blog" conn'
           end) = (conn', None)) as -> by (by destruct blog_rows').
  (* the second run: the oral histories *)
  destruct (find_unanalyzed_shrinks conn1 conn' "oral_histories"
              "oral_history" oh_rows
              ltac:(do 2 constructor)
              ltac:(cbn; by rewrite Hsegments, Ho2)
              Hw2' Hfind1)
    as (oh_rows' & -> & Hsub'). cbn [rbind].
  destruct (astronaut_rows_shrinks _ _ _ Hastro Hsub')
    as (rows' & -> & Hsub'').
  assert (_analyze_rows sentiment_analyzer emotion_analyzer linguistic
            utcnow' rows' "oral_history" conn' = (conn', None)) as Hnoop'.
  { apply _analyze_rows_noop. apply (Forall_subseteq _ _ _ Hsub'').
    eapply Forall_impl; [exact Hset2|].
    intros r Hr. eapply settled_mono; [exact Hlater|exact Hr]. }
  assert ((match rows' with
           | [] => (conn', None)
           | _ :: _ => _analyze_rows sentiment_analyzer emotion_analyzer
                         linguistic utcnow' rows' "oral_history" conn'
           end) = (conn', None)) as -> by (by destruct rows').
  done.
Qed.

End rerun.

(** The store [d] with the ids of its result rows moved up by [k], as ids
    that SQLite skipped would leave them. *)
Definition renumber (k : Z) (d : database) : database :=
  let move := map (λ a : row, dict_set a "id" (VInt (row_id a + k))) in
  Database (expeditions d) (blog_posts d) (oral_histories d)
    (move (sentiment_results d)) (move (emotion_results d))
    (move (linguistic_features d)).

Lemma run_analysis_idempotent_witness :
  let later := renumber 2 sample_run.1 in
  map (λ a, col a "id") (sentiment_results sample_run.1) = [VInt 1] ∧
  map (λ a, col a "id") (sentiment_results later) = [VInt 3] ∧
  run_analysis
    (Some (sample_analyzer "sentiment-model"
             [("positive", 2#10); ("neutral", 65#100); ("negative", 15#100)]))
    (Some (sample_analyzer "emotion-model"
             [("joy", 7#10); ("neutral", 2#10); ("surprise", 1#10)]))
    (Some (LinguisticAnalyzer (λ _, Ok (60#1, 14#1, 9#10, 2#10, 0%Z, 0%Z))))
    "t2" later
  = (later, None).
Proof.
  cbv zeta. split; [vm_compute; reflexivity|].
  split; [vm_compute; reflexivity|].
  apply (run_analysis_idempotent _ _ _ "t1" "t2" sample_file sample_run.1).
  - vm_compute. reflexivity.
  - reflexivity.
  - reflexivity.
  - split; [|split]; intros a Ha; vm_compute in Ha;
      apply list_elem_of_singleton in Ha as ->;
      (eexists; split; [vm_compute; apply list_elem_of_singleton; reflexivity|
                        vm_compute; reflexivity]).
Defined.

End Rerun.

(** ** The linguistic features: [LinguisticAnalyzer.analyze] *)

Module Linguistic.

Import Aggregator Db Runner Segmenter Words.

Definition FIRST_PERSON_PRONOUNS : list string :=
  ["i"; "me"; "my"; "mine"; "myself"; "we"; "us"; "our"; "ours";
   "ourselves"]%string.

(** [text.lower().split()] *)
Definition words_of (text : string) : list string :=
  map string_of_list_ascii
    (split_ws (list_ascii_of_string (str_lower text))).

Definition is_terminal (c : ascii) : bool :=
  Ascii.eqb c "." || Ascii.eqb c "!" || Ascii.eqb c "?".

(** [re.split(r"[.!?]+", text)]: the pieces between the maximal runs of
    terminal punctuation, the empty ones included. [in_run] tells that
    the previous character was terminal punctuation. *)
Fixpoint split_terminal (in_run : bool) (s : list ascii)
    : list (list ascii) :=
  match s with
  | [] => [[]]
  | c :: s' =>
      if is_terminal c then
        if in_run then split_terminal true s'
        else [] :: split_terminal true s'
      else
        match split_terminal false s' with
        | p :: ps => (c :: p) :: ps
        | [] => [[c]]
        end
  end.

(** [[s.strip() for s in sentences if s.strip()]] *)
Definition sentences_of (text : string) : list (list ascii) :=
  List.filter (λ s, negb (is_blank s))
    (split_terminal false (list_ascii_of_string text)).

(** [text.count(c)] for a single character. *)
Definition count_char (c : ascii) (text : string) : Z :=
  len (List.filter (Ascii.eqb c) (list_ascii_of_string text)).

(** The six feature values of a text.  [flesch] is
    [textstat.flesch_reading_ease]; a text of fewer than five words does
    not reach it. *)
Definition measure_text (flesch : string → result Q) (text : string)
    : result (Q * Q * Q * Q * Z * Z) :=
  let words := words_of text in
  let total_words := len words in
  if total_words <? 5 then Ok (0%Q, 0%Q, 0%Q, 0%Q, 0, 0)
  else
    let unique_words := len (remove_dups words) in
    let num_sentences := Z.max (len (sentences_of text)) 1 in
    let fp_count :=
      len (List.filter
             (λ w, existsb (String.eqb w) FIRST_PERSON_PRONOUNS) words) in
    ease ←? flesch text;
    Ok (ease,
        (inject_Z total_words / inject_Z num_sentences)%Q,
        (inject_Z unique_words / inject_Z total_words)%Q,
        (inject_Z fp_count / inject_Z total_words)%Q,
        count_char "!" text, count_char "?" text).

(** [LinguisticAnalyzer().analyze(text, source_type, source_id)] *)
Definition analyze (flesch : string → result Q)
    (text source_type : string) (source_id : Z) (utcnow : string)
    : result LinguisticFeatures.t :=
  linguistic_analyze (LinguisticAnalyzer (measure_text flesch))
    text source_type source_id utcnow.

(** *** Counting *)

Lemma length_remove_dups {A : Type} `{EqDecision A} (l : list A) :
  (length (remove_dups l) ≤ length l)%nat ∧
  (length (remove_dups l) = length l ↔ NoDup l).
Proof.
  induction l as [|x l [IHle IHeq]]; [split; [done|split; [constructor|done]]|].
  cbn [remove_dups length]. destruct (decide_rel elem_of x l) as [Hin|Hnin].
  - split; [lia|]. split; [lia|].
    intros Hnd. apply NoDup_cons in Hnd as [Hx _]. done.
  - cbn [length]. split; [lia|]. split.
    + intros Hlen. constructor; [done|]. apply IHeq. lia.
    + intros Hnd. apply NoDup_cons in Hnd as [_ Hnd].
      f_equal. by apply IHeq.
Qed.

Lemma length_list_filter {A : Type} (f : A → bool) (l : list A) :
  (length (List.filter f l) ≤ length l)%nat.
Proof.
  induction l as [|x l IH]; [done|]. cbn [List.filter].
  destruct (f x); cbn [length]; lia.
Qed.

Lemma Qdiv_unit (a b : Z) :
  0 ≤ a ≤ b → 0 < b →
  (0 <= inject_Z a / inject_Z b)%Q ∧ (inject_Z a / inject_Z b <= 1)%Q.
Proof.
  intros Hab Hb.
  assert (0 < inject_Z b)%Q as Hb' by (unfold Qlt; cbn; lia).
  split.
  - apply Qle_shift_div_l; [done|]. rewrite Qmult_0_l.
    unfold Qle. cbn. lia.
  - apply Qle_shift_div_r; [done|]. rewrite Qmult_1_l, <- Zle_Qle. lia.
Qed.

Lemma Qdiv_nonneg (a b : Z) :
  0 ≤ a → 0 < b → (0 <= inject_Z a / inject_Z b)%Q.
Proof.
  intros Ha Hb.
  assert (0 < inject_Z b)%Q as Hb' by (unfold Qlt; cbn; lia).
  apply Qle_shift_div_l; [done|]. rewrite Qmult_0_l.
    unfold Qle. cbn. lia.
Qed.

Lemma Qdiv_pos (a b : Z) :
  0 < a → 0 < b → (0 < inject_Z a / inject_Z b)%Q.
Proof.
  intros Ha Hb.
  assert (0 < inject_Z b)%Q as Hb' by (unfold Qlt; cbn; lia).
  apply Qlt_shift_div_l; [done|]. rewrite Qmult_0_l.
  unfold Qlt. cbn. lia.
Qed.

Lemma Qdiv_eq_1 (a b : Z) :
  0 < b → (inject_Z a / inject_Z b == 1)%Q ↔ a = b.
Proof.
  intros Hb. destruct b as [|p|p]; [lia| |lia].
  unfold Qeq, Qdiv, Qmult, Qinv, inject_Z. cbn. lia.
Qed.

Lemma valid_score_unit (a b : Z) :
  0 ≤ a ≤ b → 0 < b → valid_score (inject_Z a / inject_Z b) = true.
Proof.
  intros Hab Hb. apply valid_score_spec. by apply Qdiv_unit.
Qed.

Lemma len_nonneg {A : Type} (l : list A) : 0 ≤ len l.
Proof. unfold len. lia. Qed.

(** [analyze] never fails on its own account.  A text of fewer than five
    words gets the all-zero features, without a call of the readability
    measure.  Otherwise the result carries the measure's value and passes
    the validation of the model: the lexical diversity lies in (0, 1] and
    is 1 exactly when no word occurs twice, up to letter case; the
    first-person ratio lies in [0, 1]; the average sentence length is
    positive; the two counts are those of the characters [!] and [?]. *)
Theorem analyze_features (flesch : string → result Q)
    (text source_type : string) (source_id : Z) (utcnow : string) :
  valid_source_type source_type = true →
  (len (words_of text) < 5 →
   analyze flesch text source_type source_id utcnow
   = Ok (LinguisticFeatures.Build source_type source_id 0 0 0 0 0 0 utcnow)) ∧
  (5 ≤ len (words_of text) →
   match flesch text with
   | Raise e => analyze flesch text source_type source_id utcnow = Raise e
   | Ok ease =>
       ∃ r,
         analyze flesch text source_type source_id utcnow = Ok r ∧
         LinguisticFeatures.valid r = true ∧
         LinguisticFeatures.flesch_reading_ease r = ease ∧
         (0 < LinguisticFeatures.lexical_diversity r)%Q ∧
         (LinguisticFeatures.lexical_diversity r <= 1)%Q ∧
         ((LinguisticFeatures.lexical_diversity r == 1)%Q
          ↔ NoDup (words_of text)) ∧
         (0 < LinguisticFeatures.avg_sentence_length r)%Q ∧
         LinguisticFeatures.exclamation_count r = count_char "!" text ∧
         LinguisticFeatures.question_count r = count_char "?" text
   end).
Proof.
  intros Hst. unfold analyze, linguistic_analyze, measure_text.
  cbn [measure]. split.
  - intros Hshort. destruct (Z.ltb_spec (len (words_of text)) 5); [|lia].
    cbn [rbind]. unfold LinguisticFeatures.make, LinguisticFeatures.valid.
    cbn [LinguisticFeatures.source_type
         LinguisticFeatures.avg_sentence_length
         LinguisticFeatures.lexical_diversity
         LinguisticFeatures.first_person_ratio
         LinguisticFeatures.exclamation_count
         LinguisticFeatures.question_count].
    by rewrite Hst.
  - intros Hlong. destruct (Z.ltb_spec (len (words_of text)) 5); [lia|].
    destruct (flesch text) as [ease|e]; [|done]. cbn [rbind].
    set (words := words_of text) in *.
    pose proof (length_remove_dups words) as [Hle Heq].
    assert (0 < len (remove_dups words)) as Hpos.
    { unfold len in *. destruct words as [|w ws]; [cbn in Hlong; lia|].
      cbn [remove_dups]. destruct (decide_rel elem_of w ws) as [Hin|];
        [|cbn [length]; lia].
      apply elem_of_remove_dups in Hin.
      destruct (remove_dups ws); [by apply elem_of_nil in Hin|].
      cbn [length]. lia. }
    set (fp := List.filter _ words).
    pose proof (length_list_filter
                  (λ w, existsb (String.eqb w) FIRST_PERSON_PRONOUNS) words)
      as Hfp. fold fp in Hfp.
    set (ns := Z.max (len (sentences_of text)) 1).
    assert (0 < ns) as Hns by (subst ns; lia).
    unfold LinguisticFeatures.make, LinguisticFeatures.valid.
    cbn [LinguisticFeatures.source_type
         LinguisticFeatures.avg_sentence_length
         LinguisticFeatures.lexical_diversity
         LinguisticFeatures.first_person_ratio
         LinguisticFeatures.exclamation_count
         LinguisticFeatures.question_count].
    rewrite Hst.
    assert (Qle_bool 0 (inject_Z (len words) / inject_Z ns) = true) as ->.
    { apply Qle_bool_iff, Qdiv_nonneg; lia. }
    rewrite !valid_score_unit by (unfold len in *; lia).
    assert ((0 <=? count_char "!" text) = true) as ->
      by (apply Z.leb_le, len_nonneg).
    assert ((0 <=? count_char "?" text) = true) as ->
      by (apply Z.leb_le, len_nonneg).
    cbn [andb]. eexists. split; [done|].
    cbn [LinguisticFeatures.flesch_reading_ease
         LinguisticFeatures.lexical_diversity
         LinguisticFeatures.avg_sentence_length
         LinguisticFeatures.exclamation_count
         LinguisticFeatures.question_count].
    split.
    { unfold LinguisticFeatures.valid.
      cbn [LinguisticFeatures.source_type
           LinguisticFeatures.avg_sentence_length
           LinguisticFeatures.lexical_diversity
           LinguisticFeatures.first_person_ratio
           LinguisticFeatures.exclamation_count
           LinguisticFeatures.question_count].
      rewrite Hst.
      assert (Qle_bool 0 (inject_Z (len words) / inject_Z ns) = true) as ->.
      { apply Qle_bool_iff, Qdiv_nonneg; lia. }
      rewrite !valid_score_unit by (unfold len in *; lia).
      assert ((0 <=? count_char "!" text) = true) as ->
        by (apply Z.leb_le, len_nonneg).
      assert ((0 <=? count_char "?" text) = true) as ->
        by (apply Z.leb_le, len_nonneg).
      done. }
    split; [done|]. split; [apply Qdiv_pos; lia|].
    split; [apply Qdiv_unit; unfold len in *; lia|].
    split.
    { rewrite Qdiv_eq_1 by lia. rewrite <- Heq. unfold len. lia. }
    split; [apply Qdiv_pos; lia|]. done.
Qed.

Lemma analyze_features_witness :
  analyze (λ _, Raise OracleError) "Hi there." "blog" 1 "t"
  = Ok (LinguisticFeatures.Build "blog" 1 0 0 0 0 0 0 "t").
Proof.
  apply (analyze_features (λ _, Raise OracleError) "Hi there." "blog" 1 "t").
  - reflexivity.
  - vm_compute. reflexivity.
Defined.

(** Six words, two of them [the]: a diversity of five sixths. *)
Example analyze_diversity :
  LinguisticFeatures.lexical_diversity
    <$> match analyze (λ _, Ok 0%Q)
                "The cat and the dog played." "blog" 1 "t" with
        | Ok r => Some r
        | Raise _ => None
        end
  = Some (inject_Z 5 / inject_Z 6)%Q.
Proof. vm_compute. reflexivity. Qed.

End Linguistic.

(** ** Storing a transcript: [process_transcript] and the scraper's [run] *)

Module Transcript.

Import Db Segmenter Words Store.

(** The validation of [OralHistorySegment]: [segment_index] and
    [word_count] are [ge=0], [speaker] matches
    [^(interviewer|astronaut)$]. *)
Definition valid_segment (s : OralHistorySegment.t) : bool :=
  (0 <=? OralHistorySegment.segment_index s) &&
  (String.eqb (OralHistorySegment.speaker s) "interviewer" ||
   String.eqb (OralHistorySegment.speaker s) "astronaut") &&
  (0 <=? OralHistorySegment.word_count s).

Definition make_segment (astronaut_name pdf_url : string)
    (interview_date : option string) (segment_index : Z)
    (speaker text : string) (word_count : Z) (scraped_at : string)
    : result OralHistorySegment.t :=
  let s := OralHistorySegment.Build astronaut_name pdf_url interview_date
             segment_index speaker text word_count scraped_at in
  if valid_segment s then Ok s else Raise ValidationError.

(** [len(text.split())] *)
Definition count_words (text : string) : Z :=
  len (split_ws (list_ascii_of_string text)).

(** [interviewer.split()[-1] if interviewer else "Wright"] *)
Definition interviewer_last_name (interviewer : string) : result string :=
  match interviewer with
  | EmptyString => Ok "Wright"%string
  | _ =>
      match last (split_ws (list_ascii_of_string interviewer)) with
      | Some w => Ok (string_of_list_ascii w)
      | None => Raise IndexError
      end
  end.

(** The loop [for idx, seg in enumerate(segments)] from index [idx] on.
    [utcnow idx] is the reading of the clock for the segment of that
    index. *)
Fixpoint insert_segments (conn : connection) (name pdf_url : string)
    (utcnow : Z → string) (idx count : Z) (segments : list segment)
    : result (connection * Z) :=
  match segments with
  | [] => Ok (conn, count)
  | seg :: rest =>
      s ←? make_segment name pdf_url None idx (speaker seg) (text seg)
             (count_words (text seg)) (utcnow idx);
      insert_segments (insert_oral_history conn s).1 name pdf_url utcnow
        (idx + 1) (count + 1) rest
  end.

(** [process_transcript], given the text [extract_text] returned for the
    PDF. *)
Definition process_transcript (conn : connection)
    (name pdf_url interviewer text : string) (utcnow : Z → string)
    : result (connection * Z) :=
  if len (list_ascii_of_string text) <? 100 then Ok (conn, 0)
  else
    last_name ←? interviewer_last_name interviewer;
    match split_segments text last_name with
    | [] => Ok (conn, 0)
    | segments => insert_segments conn name pdf_url utcnow 0 0 segments
    end.

(** An entry of the transcript index: [entry["name"]],
    [entry.get("pdf_url")] and [entry.get("interviewer")]. *)
Record entry : Type := Entry {
  entry_name : string;
  entry_pdf_url : option string;
  entry_interviewer : option string
}.

(** The number of rows of [oral_histories] with that [astronaut_name]
    is positive. *)
Definition has_segments (conn : connection) (name : string) : bool :=
  existsb (λ r, sql_true (sql_eq (col r "astronaut_name") (VText name)))
    (oral_histories (db conn)).

Section run.

(** What the outside gives for the entry of each position of the index.
    [download_pdf]: the path of the cached or downloaded file, [None] when
    the download failed. *)
Variable download_pdf : nat → string → string → option string.
(** [extract_text]: the cleaned text of the PDF at a path. *)
Variable extract_text : nat → string → result string.
(** The readings of the clock for the segments of the entry. *)
Variable utcnow : nat → Z → string.

(** The body of the loop of [run] for one entry.  An exception of
    [extract_text] or [process_transcript] leaves the loop. *)
Definition run_entry (position : nat) (conn : connection) (e : entry)
    : result connection :=
  match entry_pdf_url e with
  | None | Some EmptyString => Ok conn
  | Some pdf_url =>
      if has_segments conn (entry_name e) then Ok conn
      else
        match download_pdf position pdf_url (entry_name e) with
        | None => Ok conn
        | Some pdf_path =>
            text ←? extract_text position pdf_path;
            r ←? process_transcript conn (entry_name e) pdf_url
                   (default "Wright"%string (entry_interviewer e)) text
                   (utcnow position);
            Ok r.1
        end
  end.

(** The loop of [run] from the entry of that position on: the store it
    leaves and the exception that ended it, if any. *)
Fixpoint run_from (position : nat) (conn : connection)
    (transcripts : list entry) : connection * option exn :=
  match transcripts with
  | [] => (conn, None)
  | e :: rest =>
      match run_entry position conn e with
      | Ok conn' => run_from (S position) conn' rest
      | Raise exn => (conn, Some exn)
      end
  end.

(** [OralHistoryScraper.run] over the entries of the index. *)
Definition run (conn : connection) (transcripts : list entry)
    : connection * option exn :=
  run_from 0 conn transcripts.

End run.

(** The logical key of a segment: whose transcript, and where in it. *)
Definition segment_key (r : row) : value * value :=
  (col r "astronaut_name", col r "segment_index").

(** The row [insert_oral_history] stores for the segment of index [k]. *)
Definition stored_as (name pdf_url : string) (k : Z) (seg : segment)
    (r : row) : Prop :=
  col r "astronaut_name" = VText name ∧
  col r "pdf_url" = VText pdf_url ∧
  col r "segment_index" = VInt k ∧
  col r "speaker" = VText (speaker seg) ∧
  col r "text" = VText (text seg) ∧
  ∃ n, col r "word_count" = VInt n ∧ 1 ≤ n.

(** A segment that passes the validation of [OralHistorySegment]. *)
Definition storable (seg : segment) : Prop :=
  (speaker seg = "interviewer"%string ∨ speaker seg = "astronaut"%string) ∧
  1 ≤ count_words (text seg).

(** *** The segments of [split_segments] can be stored *)

Lemma split_ws_head (c : ascii) (s : list ascii) :
  is_space c = false → split_ws (c :: s) ≠ [].
Proof.
  intros Hc. cbn [split_ws]. rewrite Hc. unfold cons_word.
  destruct (split_ws s); [done|].
  by destruct (match s with c' :: _ => is_space c' | [] => true end).
Qed.

Lemma join_space_head (w : list ascii) (ws : list (list ascii)) :
  word w → ∃ c s, join_space (w :: ws) = c :: s ∧ is_space c = false.
Proof.
  intros [Hne Hw]. destruct w as [|c w]; [done|].
  apply Forall_cons in Hw as [Hc _].
  destruct ws; cbn [join_space app]; by eexists _, _.
Qed.

Lemma split_segments_storable (text interviewer_last_name : string) :
  Forall storable (split_segments text interviewer_last_name).
Proof.
  eapply Forall_impl; [apply split_segments_emitted|].
  intros seg (label & parts & -> & Hlong). split.
  - cbn [speaker]. unfold role. destruct (is_interviewer _ _); [by left|by right].
  - cbn [Segmenter.text]. unfold count_words, segment_text in *.
    rewrite list_ascii_of_string_of_list_ascii, sub_ws_strip in *.
    pose proof (split_ws_words (join_space parts)) as Hwords.
    destruct (split_ws (join_space parts)) as [|w ws]; [cbn in Hlong; lia|].
    apply Forall_cons in Hwords as [Hw _].
    destruct (join_space_head w ws Hw) as (c & s & -> & Hc).
    pose proof (split_ws_head c s Hc).
    unfold len. destruct (split_ws (c :: s)); [done|]. cbn [length]. lia.
Qed.

(** *** The rows of a transcript *)

Lemma insert_oral_history_tables (conn : connection)
    (s : OralHistorySegment.t) (table : string) :
  table ≠ "oral_histories"%string →
  rows_of (db (insert_oral_history conn s).1) table = rows_of (db conn) table.
Proof.
  intros Htable. unfold insert_oral_history, rows_of. cbn [fst db].
  destruct (String.eqb table "expeditions"); [done|].
  destruct (String.eqb table "blog_posts"); [done|].
  destruct (String.eqb_spec table "oral_histories"); done.
Qed.

Lemma insert_segments_rows (conn : connection) (name pdf_url : string)
    (utcnow : Z → string) (idx count : Z) (segments : list segment) :
  0 ≤ idx → Forall storable segments →
  ∃ conn' rows,
    insert_segments conn name pdf_url utcnow idx count segments
      = Ok (conn', count + len segments) ∧
    oral_histories (db conn') = oral_histories (db conn) ++ rows ∧
    (∀ table, table ≠ "oral_histories"%string →
       rows_of (db conn') table = rows_of (db conn) table) ∧
    length rows = length segments ∧
    ∀ (k : nat) seg, segments !! k = Some seg →
      ∃ r, rows !! k = Some r ∧
           stored_as name pdf_url (idx + Z.of_nat k) seg r.
Proof.
  intros Hidx Hsegs. revert conn idx count Hidx.
  induction Hsegs as [|seg segments [Hsp Hwc] _ IH]; intros conn idx count Hidx.
  - exists conn, []. cbn [insert_segments]. unfold len. cbn [length].
    rewrite Z.add_0_r, app_nil_r. split; [done|]. split; [done|].
    split; [done|]. split; [done|]. intros k seg Hk. done.
  - cbn [insert_segments]. unfold make_segment, valid_segment.
    cbn [OralHistorySegment.segment_index OralHistorySegment.speaker
         OralHistorySegment.word_count].
    assert ((0 <=? idx) = true) as -> by (apply Z.leb_le; lia).
    assert ((0 <=? count_words (text seg)) = true) as ->
      by (apply Z.leb_le; lia).
    assert ((speaker seg =? "interviewer")%string
            || (speaker seg =? "astronaut")%string = true) as ->.
    { destruct Hsp as [Hsp|Hsp]; by rewrite Hsp. }
    cbn [andb rbind].
    set (s := OralHistorySegment.Build _ _ _ _ _ _ _ _).
    destruct (IH (insert_oral_history conn s).1 (idx + 1) (count + 1)
                ltac:(lia)) as (conn' & rows & Hins & Hrows & Htables
                                  & Hlen & Hall).
    eexists conn', (_ :: rows). split; [|split; [|split; [|split]]].
    + rewrite Hins. do 2 f_equal. unfold len. cbn [length]. lia.
    + rewrite Hrows. unfold insert_oral_history. cbn [fst db oral_histories].
      by rewrite <- app_assoc.
    + intros table Htable. rewrite Htables by done.
      by apply insert_oral_history_tables.
    + cbn [length]. by rewrite Hlen.
    + intros [|k] seg' Hk.
      * injection Hk as <-. eexists. split; [done|].
        rewrite Z.add_0_r. repeat split.
        exists (count_words (text seg)). done.
      * destruct (Hall k seg' Hk) as (r & Hr & Hstored).
        exists r. split; [done|].
        by replace (idx + Z.of_nat (S k)) with (idx + 1 + Z.of_nat k) by lia.
Qed.

(** [process_transcript] never fails on a segment: for an interviewer
    name that is empty or has a word, it stores the segments of
    [split_segments] in their order, the segment of position [k] with
    [segment_index] [k], its role, its text and a word count of at least
    one, and returns their number; a text of fewer than 100 characters
    stores nothing.  No other table changes. *)
Theorem process_transcript_rows (conn : connection)
    (name pdf_url interviewer text : string) (utcnow : Z → string)
    (last_name : string) :
  interviewer_last_name interviewer = Ok last_name →
  let segments :=
    if len (list_ascii_of_string text) <? 100 then []
    else split_segments text last_name in
  ∃ conn' rows,
    process_transcript conn name pdf_url interviewer text utcnow
      = Ok (conn', len segments) ∧
    oral_histories (db conn') = oral_histories (db conn) ++ rows ∧
    (∀ table, table ≠ "oral_histories"%string →
       rows_of (db conn') table = rows_of (db conn) table) ∧
    length rows = length segments ∧
    ∀ (k : nat) seg, segments !! k = Some seg →
      ∃ r, rows !! k = Some r ∧ stored_as name pdf_url (Z.of_nat k) seg r.
Proof.
  intros Hname. unfold process_transcript. rewrite Hname. cbn [rbind].
  destruct (len (list_ascii_of_string text) <? 100).
  { exists conn, []. rewrite app_nil_r. repeat split. intros k seg Hk. done. }
  destruct (insert_segments_rows conn name pdf_url utcnow 0 0
              (split_segments text last_name) ltac:(lia)
              (split_segments_storable text last_name))
    as (conn' & rows & Hins & Hrows & Htables & Hlen & Hall).
  cbv zeta. destruct (split_segments text last_name) as [|seg segs] eqn:Hsegs.
  - exists conn, []. rewrite app_nil_r. repeat split. intros k seg Hk. done.
  - exists conn', rows. rewrite Hins. do 4 (split; [done|]). exact Hall.
Qed.

(** A transcript of two turns, a question and the answer of the speaker
    under that label. *)
Definition sample_pdf_text (label : string) : string :=
  "WRIGHT: Could you tell us how you first came to work with the station program?"
  +:+ String "010" "" +:+ label +:+
  ": I started as a project scientist and I loved every day of that work.".

Lemma process_transcript_rows_witness :
  ∃ conn' rows,
    process_transcript (get_connection empty_database) "Peggy A. Whitson"
      "whitson.pdf" "Rebecca Wright" (sample_pdf_text "WHITSON")
      (λ _, "t0"%string)
      = Ok (conn', 2) ∧
    oral_histories (db conn') = [] ++ rows ∧
    map (λ r, (col r "segment_index", col r "speaker", col r "word_count"))
      rows
    = [(VInt 0, VText "interviewer", VInt 14);
       (VInt 1, VText "astronaut", VInt 14)].
Proof.
  destruct (process_transcript_rows (get_connection empty_database)
              "Peggy A. Whitson" "whitson.pdf" "Rebecca Wright"
              (sample_pdf_text "WHITSON") (λ _, "t0"%string) "Wright" eq_refl)
    as (conn' & rows & Hp & Hrows & _).
  exists conn', rows. split; [exact Hp|]. split; [exact Hrows|].
  vm_compute in Hp. injection Hp as <-.
  vm_compute in Hrows. rewrite <- Hrows. vm_compute. reflexivity.
Defined.

(** *** The scraper's run keeps transcripts apart *)

Lemma has_segments_false (conn : connection) (name : string) (r : row) :
  has_segments conn name = false → r ∈ oral_histories (db conn) →
  col r "astronaut_name" ≠ VText name.
Proof.
  unfold has_segments. intros Hnone Hr Hname.
  assert (existsb (λ r, sql_true (sql_eq (col r "astronaut_name")
                                    (VText name)))
            (oral_histories (db conn)) = true); [|congruence].
  apply existsb_exists. exists r. split; [by apply list_elem_of_In|].
  rewrite Hname. cbn. apply String.eqb_refl.
Qed.

Lemma process_transcript_keys (conn conn' : connection)
    (name pdf_url interviewer text : string) (utcnow : Z → string)
    (count : Z) :
  process_transcript conn name pdf_url interviewer text utcnow
    = Ok (conn', count) →
  ∃ rows,
    oral_histories (db conn') = oral_histories (db conn) ++ rows ∧
    ∀ (k : nat) r, rows !! k = Some r →
      segment_key r = (VText name, VInt (Z.of_nat k)).
Proof.
  assert (∃ rows : list row,
            oral_histories (db conn) = oral_histories (db conn) ++ rows ∧
            ∀ (k : nat) r, rows !! k = Some r →
              segment_key r = (VText name, VInt (Z.of_nat k))) as Hnone.
  { exists []. rewrite app_nil_r. split; [done|]. intros k r Hr. done. }
  unfold process_transcript.
  destruct (_ <? 100); [by intros [= <- _]|].
  destruct (interviewer_last_name interviewer) as [last_name|]; [|done].
  cbn [rbind].
  destruct (insert_segments_rows conn name pdf_url utcnow 0 0
              (split_segments text last_name) ltac:(lia)
              (split_segments_storable text last_name))
    as (conn1 & rows & Hins & Hrows & _ & Hlen & Hall).
  destruct (split_segments text last_name) as [|seg segs] eqn:Hsegs;
    [by intros [= <- _]|].
  rewrite Hins. intros [= <- _]. exists rows. split; [done|].
  intros k r Hr.
  assert (k < length rows)%nat as Hk by (by eapply lookup_lt_Some).
  rewrite Hlen in Hk. apply lookup_lt_is_Some in Hk as [seg' Hseg].
  destruct (Hall k seg' Hseg) as (r' & Hr' & Hn & _ & Hi & _).
  rewrite Hr in Hr'. injection Hr' as <-.
  unfold segment_key. by rewrite Hn, Hi.
Qed.

(** What a run adds: rows under names that had no segment before. *)
Definition adds_new_names (conn conn' : connection) : Prop :=
  ∃ rows,
    oral_histories (db conn') = oral_histories (db conn) ++ rows ∧
    Forall (λ r, ∃ name, col r "astronaut_name" = VText name ∧
                         has_segments conn name = false) rows.

Section run_facts.

Variable download_pdf : nat → string → string → option string.
Variable extract_text : nat → string → result string.
Variable utcnow : nat → Z → string.

Lemma run_entry_keys (position : nat) (conn conn' : connection)
    (e : entry) :
  run_entry download_pdf extract_text utcnow position conn e = Ok conn' →
  adds_new_names conn conn' ∧
  (NoDup (map segment_key (oral_histories (db conn))) →
   NoDup (map segment_key (oral_histories (db conn')))).
Proof.
  assert (adds_new_names conn conn ∧
          (NoDup (map segment_key (oral_histories (db conn))) →
           NoDup (map segment_key (oral_histories (db conn))))) as Hsame.
  { split; [|done]. exists []. by rewrite app_nil_r. }
  unfold run_entry.
  destruct (entry_pdf_url e) as [[|c url]|]; [by intros [= <-]| |by intros [= <-]].
  destruct (has_segments conn (entry_name e)) eqn:Hnone; [by intros [= <-]|].
  destruct (download_pdf _ _ _) as [pdf_path|]; [|by intros [= <-]].
  destruct (extract_text _ pdf_path) as [text|]; [|done]. cbn [rbind].
  destruct (process_transcript _ _ _ _ _ _) as [[conn1 count]|] eqn:Hp; [|done].
  cbn [rbind fst]. intros [= <-].
  destruct (process_transcript_keys _ _ _ _ _ _ _ _ Hp)
    as (rows & Hrows & Hkeys).
  split.
  - exists rows. split; [done|]. apply Forall_forall. intros r Hr.
    apply list_elem_of_lookup in Hr as [k Hr].
    exists (entry_name e). split; [|done].
    apply Hkeys in Hr. by injection Hr.
  - intros Hnd. rewrite Hrows, map_app. apply NoDup_app. split; [done|]. split.
    + intros key Hold Hnew.
      apply list_elem_of_fmap in Hold as (r & -> & Hr).
      apply list_elem_of_fmap in Hnew as (r' & Hkey & Hr').
      apply list_elem_of_lookup in Hr' as [k Hr'].
      apply Hkeys in Hr'. rewrite Hr' in Hkey. injection Hkey as Hn _.
      by eapply has_segments_false.
    + apply NoDup_alt. intros i j key Hi Hj.
      rewrite list_lookup_fmap in Hi, Hj.
      destruct (rows !! i) as [ri|] eqn:Hri; [|done].
      destruct (rows !! j) as [rj|] eqn:Hrj; [|done].
      apply Hkeys in Hri, Hrj. cbn in Hi, Hj.
      injection Hi as Hi. injection Hj as Hj.
      rewrite Hri in Hi. rewrite Hrj, <- Hi in Hj.
      injection Hj as Hj. lia.
Qed.

End run_facts.

Section run_theorem.

Variable download_pdf : nat → string → string → option string.
Variable extract_text : nat → string → result string.
Variable utcnow : nat → Z → string.

Lemma has_segments_mono (conn conn' : connection) (name : string) :
  adds_new_names conn conn' →
  has_segments conn' name = false → has_segments conn name = false.
Proof.
  intros (rows & Hrows & _). unfold has_segments. rewrite Hrows, existsb_app.
  intros Hnone. by apply orb_false_iff in Hnone as [? _].
Qed.

(** The scraper's [run] only adds segments under astronaut names that had
    none before, whether it ends with an exception or not, and it keeps
    [(astronaut_name, segment_index)] unique: a transcript is stored once,
    in one piece. *)
Theorem run_keeps_transcripts_apart (conn : connection)
    (transcripts : list entry) :
  NoDup (map segment_key (oral_histories (db conn))) →
  let conn' := (run download_pdf extract_text utcnow conn transcripts).1 in
  adds_new_names conn conn' ∧
  NoDup (map segment_key (oral_histories (db conn'))).
Proof.
  unfold run. generalize 0%nat as position. revert conn.
  induction transcripts as [|e rest IH]; intros conn position Hnd.
  - split; [|done]. exists []. by rewrite app_nil_r.
  - cbn [run_from].
    destruct (run_entry download_pdf extract_text utcnow position conn e)
      as [conn1|] eqn:Hentry.
    + destruct (run_entry_keys _ _ _ _ _ _ _ Hentry) as [Hnew1 Hnd1].
      destruct (IH conn1 (S position) (Hnd1 Hnd)) as [Hnew Hnd'].
      split; [|done]. cbv zeta in *.
      destruct Hnew1 as (rows1 & Hrows1 & Hall1).
      destruct Hnew as (rows & Hrows & Hall).
      exists (rows1 ++ rows). split.
      * by rewrite Hrows, Hrows1, app_assoc.
      * apply Forall_app. split; [done|].
        eapply Forall_impl; [exact Hall|].
        intros r (name & Hname & Hnone). exists name. split; [done|].
        eapply has_segments_mono; [|exact Hnone]. by exists rows1.
    + cbn [fst]. split; [|done]. exists []. by rewrite app_nil_r.
Qed.

End run_theorem.

Lemma run_keeps_transcripts_apart_witness :
  let conn' :=
    (run (λ _ _ name, Some (name +:+ ".pdf")%string)
       (λ _ _, Ok (sample_pdf_text "WILLIAMS"))
       (λ _ _, "t0"%string)
       (get_connection Runner.sample_file)
       [Entry "Peggy A. Whitson" (Some "whitson.pdf") (Some "Wright");
        Entry "Sunita L. Williams" (Some "williams.pdf")
          (Some "Rebecca Wright")]).1 in
  NoDup (map segment_key (oral_histories (db conn'))) ∧
  map segment_key (oral_histories (db conn'))
  = [(VText "Peggy A. Whitson", VInt 0); (VText "Peggy A. Whitson", VInt 1);
     (VText "Sunita L. Williams", VInt 0);
     (VText "Sunita L. Williams", VInt 1)].
Proof.
  split; [|vm_compute; reflexivity].
  apply (run_keeps_transcripts_apart
           (λ _ _ name, Some (name +:+ ".pdf")%string)
           (λ _ _, Ok (sample_pdf_text "WILLIAMS")) (λ _ _, "t0"%string)
           (get_connection Runner.sample_file)).
  vm_compute. repeat constructor; intros H;
    repeat (apply elem_of_cons in H as [H|H]; [discriminate H|]);
    by apply elem_of_nil in H.
Defined.

End Transcript.

(** ** The blog scraper's traversal: [ISSBlogScraper.run] *)

Module BlogScraper.

Import Db Json Checkpoint Store Transcript.

(** What [scrape_full_post] reads off the page of a post, when it gets as
    far as building the post. *)
Record page : Type := Page {
  title : string;
  author : option string;
  published_date : date;
  text : string;
  scraped_at : string
}.

(** The state of the traversal: the store, the visited set, the
    checkpoint dictionary and file, and the calls made so far, the listing
    pages asked for and the post pages asked for. *)
Record state : Type := State {
  conn : connection;
  scraped_urls : gset string;
  checkpoint : dict json;
  checkpoint_file : file;
  listed : list Z;
  fetched : list string
}.

Section run.

(** [scrape_listing_page(page_num)]: the URLs of the page's posts. *)
Variable scrape_listing_page : Z → result (list string).
(** [self.expeditions], as [load_expeditions] read them from the file. *)
Variable self_expeditions : list Expedition.t.
(** The page of a post as the call of [scrape_full_post] of that number
    in the run finds it, from the cache or the network: its fields, [None]
    where [scrape_full_post] returns [None], or an exception. *)
Variable parse_post : nat → string → result (option page).
Variable detect_max_pages : result Z.
(** The reading of the clock when the checkpoint of a page is saved. *)
Variable utcnow : Z → string.

(** The [BlogPost(...)] at the end of [scrape_full_post]. *)
Definition build_post (url : string) (p : page) : BlogPost.t :=
  BlogPost.Build url (title p) (author p) (isoformat (published_date p))
    (text p) (count_words (text p))
    (map_date_to_expedition (published_date p) self_expeditions)
    (scraped_at p).

Definition scrape_full_post (call : nat) (url : string)
    : result (option BlogPost.t) :=
  p ←? parse_post call url;
  Ok (build_post url <$> p).

(** The body of [for meta in post_metas], with its [try]. *)
Definition visit_post (st : state) (url : string) : state :=
  if decide (url ∈ scraped_urls st) then st
  else
    match scrape_full_post (length (fetched st)) url with
    | Ok (Some post) =>
        State (insert_blog_post (conn st) post).1
          ({[url]} ∪ scraped_urls st) (checkpoint st) (checkpoint_file st)
          (listed st) (fetched st ++ [url])
    | Ok None | Raise _ =>
        State (conn st) (scraped_urls st) (checkpoint st)
          (checkpoint_file st) (listed st) (fetched st ++ [url])
    end.

(** The body of [for page_num in range(start_page, max_pages + 1)]: a
    listing page that cannot be scraped is passed over, without a save. *)
Definition visit_page (st : state) (page_num : Z) : state :=
  match scrape_listing_page page_num with
  | Raise _ =>
      State (conn st) (scraped_urls st) (checkpoint st) (checkpoint_file st)
        (listed st ++ [page_num]) (fetched st)
  | Ok urls =>
      let st := fold_left visit_post urls st in
      let saved :=
        _save_checkpoint (checkpoint_file st)
          (record_page (checkpoint st) page_num (scraped_urls st))
          (utcnow page_num) in
      State (conn st) (scraped_urls st) saved.2 saved.1
        (listed st ++ [page_num]) (fetched st)
  end.

(** [run(max_pages, mvp_mode)] on a store and a checkpoint file. *)
Definition run (c : connection) (f : file) (max_pages : option Z)
    (mvp_mode : bool) (started_at updated_at : string) : result state :=
  loaded ←? _load_checkpoint f started_at updated_at;
  start ←? resume loaded;
  max_pages ←? match max_pages with
               | Some n => Ok n
               | None => if mvp_mode then Ok 100 else detect_max_pages
               end;
  pages ←? py_range start.1 (max_pages + 1) 1;
  Ok (fold_left visit_page pages
        (State c start.2
           (match loaded with JDict d => d | _ => [] end) f [] [])).

(** The listing pages that could be scraped. *)
Definition listed_ok (pages : list Z) : list Z :=
  List.filter (λ p, match scrape_listing_page p with
                    | Ok _ => true
                    | Raise _ => false
                    end) pages.

(** *** What the traversal keeps *)

(** The call of that number asked for the page at [u] and got a post. *)
Definition post_at (st : state) (call : nat) (u : string) (p : page)
    : Prop :=
  fetched st !! call = Some u ∧ parse_post call u = Ok (Some p).

(** What holds all along a run that started on the store of [c] with the
    visited set [visited]. *)
Definition kept (c : connection) (visited : gset string) (st : state)
    : Prop :=
  visited ⊆ scraped_urls st ∧
  Db.expeditions (db (conn st)) = Db.expeditions (db c) ∧
  Forall (λ u, u ∉ visited) (fetched st) ∧
  (∀ call u p, post_at st call u p →
     u ∈ scraped_urls st ∧
     ∀ later, (call < later)%nat → fetched st !! later ≠ Some u) ∧
  (∀ u, u ∈ scraped_urls st →
        u ∈ visited ∨ ∃ call p, post_at st call u p) ∧
  ∃ added,
    blog_posts (db (conn st)) = blog_posts (db c) ++ added ∧
    Forall (λ r, ∃ call u p,
              col r "url" = VText u ∧ post_at st call u p ∧
              ∀ n, map_date_to_expedition (published_date p)
                     self_expeditions = Some n →
                   has_expedition (db c) n) added.

Lemma has_expedition_same (d d' : database) (n : Z) :
  Db.expeditions d' = Db.expeditions d →
  has_expedition d' n → has_expedition d n.
Proof. unfold has_expedition. by intros ->. Qed.

Lemma insert_blog_post_added (c : connection) (post : BlogPost.t) :
  Db.expeditions (db (insert_blog_post c post).1) = Db.expeditions (db c) ∧
  ∃ added,
    blog_posts (db (insert_blog_post c post).1) = blog_posts (db c) ++ added ∧
    Forall (λ r, col r "url" = VText (BlogPost.url post) ∧
                 ∀ n, BlogPost.expedition_id post = Some n →
                      has_expedition (db c) n) added.
Proof.
  unfold insert_blog_post.
  set (duplicate := existsb _ (blog_posts (db c))).
  destruct (BlogPost.expedition_id post) as [n|] eqn:Hid.
  - destruct (existsb _ (Db.expeditions (db c))) eqn:Hn;
      cbn [negb]; destruct duplicate; cbn [orb fst];
      try (split; [done|]; exists []; by rewrite app_nil_r).
    split; [done|]. eexists [_]. split; [done|]. constructor; [|done].
    split; [done|]. intros n' [= <-].
    apply existsb_exists in Hn as (e & He & Hn).
    exists e. split; [by apply list_elem_of_In|done].
  - destruct duplicate; cbn [orb fst].
    + split; [done|]. exists []. by rewrite app_nil_r.
    + split; [done|]. eexists [_]. split; [done|]. by constructor.
Qed.

(** A call that was made stays made. *)
Lemma post_at_snoc (st st' : state) (url : string) (call : nat)
    (u : string) (p : page) :
  fetched st' = fetched st ++ [url] →
  post_at st call u p → post_at st' call u p.
Proof.
  intros Hf [Hcall Hpost]. split; [|done]. rewrite Hf.
  by apply lookup_app_l_Some.
Qed.

Lemma post_at_snoc_inv (st st' : state) (url : string) (call : nat)
    (u : string) (p : page) :
  fetched st' = fetched st ++ [url] →
  post_at st' call u p →
  post_at st call u p ∨
  call = length (fetched st) ∧ u = url ∧
  parse_post (length (fetched st)) url = Ok (Some p).
Proof.
  intros Hf [Hcall Hpost]. rewrite Hf in Hcall.
  apply lookup_snoc_Some in Hcall as [[_ Hcall]|[-> <-]]; [by left|by right].
Qed.

(** The calls of a state that asks for one more page, which gives no post
    or whose URL becomes visited. *)
Lemma kept_calls (c : connection) (visited : gset string) (st st' : state)
    (url : string) :
  kept c visited st →
  url ∉ scraped_urls st →
  fetched st' = fetched st ++ [url] →
  scraped_urls st ⊆ scraped_urls st' →
  (∀ p, parse_post (length (fetched st)) url = Ok (Some p) →
        url ∈ scraped_urls st') →
  Forall (λ u, u ∉ visited) (fetched st') ∧
  ∀ call u p, post_at st' call u p →
    u ∈ scraped_urls st' ∧
    ∀ later, (call < later)%nat → fetched st' !! later ≠ Some u.
Proof.
  intros (Hsub & _ & Hfresh & Hcalls & _) Hnew Hf Hgrows Hpost. split.
  - rewrite Hf. apply Forall_app. split; [done|]. constructor; [|done].
    intros Hin. by apply Hnew, Hsub.
  - intros call u p Hat.
    destruct (post_at_snoc_inv st st' url call u p Hf Hat)
      as [Hold|(-> & -> & Hp)].
    + destruct (Hcalls call u p Hold) as [Hu Hlater].
      split; [by apply Hgrows|]. intros later Hlt. rewrite Hf.
      intros Hl. apply lookup_snoc_Some in Hl as [[_ Hl]|[_ <-]].
      * by apply (Hlater later).
      * done.
    + split; [by eapply Hpost|]. intros later Hlt. rewrite Hf.
      rewrite lookup_ge_None_2; [done|]. rewrite length_app. cbn. lia.
Qed.

Lemma visit_post_kept (c : connection) (visited : gset string)
    (st : state) (url : string) :
  kept c visited st → kept c visited (visit_post st url).
Proof.
  intros Hkept. unfold visit_post.
  destruct (decide (url ∈ scraped_urls st)) as [Hin|Hnin]; [done|].
  pose proof Hkept as (Hsub & Hexp & _ & _ & Hwhy & (added & Hadded & Hrows)).
  unfold scrape_full_post.
  destruct (parse_post (length (fetched st)) url) as [[p|]|] eqn:Hpost;
    cbn [rbind fmap option_fmap option_map].
  - set (st' := State _ _ _ _ _ _).
    assert (fetched st' = fetched st ++ [url]) as Hf by done.
    destruct (kept_calls c visited st st' url Hkept Hnin Hf) as [Hfresh Hcalls].
    { intros u Hu. apply elem_of_union. by right. }
    { intros _ _. apply elem_of_union. left. by apply elem_of_singleton. }
    destruct (insert_blog_post_added (conn st) (build_post url p))
      as (Hexp' & new & Hnew & Hurl).
    split; [intros u Hu; apply elem_of_union; right; by apply Hsub|].
    split; [cbn; by rewrite Hexp'|].
    split; [done|]. split; [done|]. split.
    + intros u Hu. cbn in Hu. apply elem_of_union in Hu as [Hu|Hu].
      * apply elem_of_singleton in Hu as ->. right.
        exists (length (fetched st)), p. split; [|done]. rewrite Hf.
        by apply list_lookup_middle.
      * destruct (Hwhy u Hu) as [Hv|(call & p' & Hat)]; [by left|right].
        exists call, p'. by eapply post_at_snoc.
    + exists (added ++ new). split.
      * cbn [conn st']. by rewrite Hnew, Hadded, app_assoc.
      * apply Forall_app. split.
        { eapply Forall_impl; [exact Hrows|].
          intros r (call & u & p' & Hcol & Hat & Hn).
          exists call, u, p'. split; [done|]. split; [|done].
          by eapply post_at_snoc. }
        eapply Forall_impl; [exact Hurl|]. intros r [Hcol Hn].
        exists (length (fetched st)), url, p. split; [done|]. split.
        { split; [|done]. rewrite Hf. by apply list_lookup_middle. }
        intros n Hmap. eapply has_expedition_same; [exact Hexp|].
        by apply Hn.
  - set (st' := State _ _ _ _ _ _).
    assert (fetched st' = fetched st ++ [url]) as Hf by done.
    destruct (kept_calls c visited st st' url Hkept Hnin Hf) as [Hfresh Hcalls].
    { done. }
    { intros p. by rewrite Hpost. }
    split; [done|]. split; [done|]. split; [done|]. split; [done|]. split.
    + intros u Hu. destruct (Hwhy u Hu) as [Hv|(call & p' & Hat)];
        [by left|right]. exists call, p'. by eapply post_at_snoc.
    + exists added. split; [done|]. eapply Forall_impl; [exact Hrows|].
      intros r (call & u & p' & Hcol & Hat & Hn).
      exists call, u, p'. split; [done|]. split; [|done].
      by eapply post_at_snoc.
  - set (st' := State _ _ _ _ _ _).
    assert (fetched st' = fetched st ++ [url]) as Hf by done.
    destruct (kept_calls c visited st st' url Hkept Hnin Hf) as [Hfresh Hcalls].
    { done. }
    { intros p. by rewrite Hpost. }
    split; [done|]. split; [done|]. split; [done|]. split; [done|]. split.
    + intros u Hu. destruct (Hwhy u Hu) as [Hv|(call & p' & Hat)];
        [by left|right]. exists call, p'. by eapply post_at_snoc.
    + exists added. split; [done|]. eapply Forall_impl; [exact Hrows|].
      intros r (call & u & p' & Hcol & Hat & Hn).
      exists call, u, p'. split; [done|]. split; [|done].
      by eapply post_at_snoc.
Qed.

Lemma visit_posts_kept (c : connection) (visited : gset string)
    (urls : list string) (st : state) :
  kept c visited st → kept c visited (fold_left visit_post urls st).
Proof.
  revert st. induction urls as [|url urls IH]; intros st Hst; [done|].
  cbn [fold_left]. by apply IH, visit_post_kept.
Qed.

(** A post leaves the checkpoint, its file and the pages asked for as
    they are. *)
Lemma visit_post_frame (st : state) (url : string) :
  checkpoint (visit_post st url) = checkpoint st ∧
  checkpoint_file (visit_post st url) = checkpoint_file st ∧
  listed (visit_post st url) = listed st.
Proof.
  unfold visit_post. destruct (decide _); [done|].
  by destruct (scrape_full_post _ url) as [[post|]|].
Qed.

Lemma visit_posts_frame (urls : list string) (st : state) :
  checkpoint (fold_left visit_post urls st) = checkpoint st ∧
  checkpoint_file (fold_left visit_post urls st) = checkpoint_file st ∧
  listed (fold_left visit_post urls st) = listed st.
Proof.
  revert st. induction urls as [|url urls IH]; intros st; [done|].
  cbn [fold_left].
  destruct (visit_post_frame st url) as (Hc1 & Hf1 & Hl1).
  destruct (IH (visit_post st url)) as (Hc2 & Hf2 & Hl2).
  by rewrite Hc2, Hf2, Hl2.
Qed.

Lemma visit_page_listed (st : state) (page_num : Z) :
  listed (visit_page st page_num) = listed st ++ [page_num].
Proof.
  unfold visit_page. destruct (scrape_listing_page page_num) as [urls|];
    [|done]. cbv zeta. cbn [listed].
  by rewrite (proj2 (proj2 (visit_posts_frame urls st))).
Qed.

Lemma visit_page_kept (c : connection) (visited : gset string)
    (st : state) (page_num : Z) :
  kept c visited st → kept c visited (visit_page st page_num).
Proof.
  intros Hkept. unfold visit_page.
  destruct (scrape_listing_page page_num) as [urls|]; [|exact Hkept].
  cbv zeta. exact (visit_posts_kept c visited urls st Hkept).
Qed.

Lemma visit_pages_kept (c : connection) (visited : gset string)
    (pages : list Z) (st : state) :
  kept c visited st →
  kept c visited (fold_left visit_page pages st) ∧
  listed (fold_left visit_page pages st) = listed st ++ pages.
Proof.
  revert st. induction pages as [|p pages IH]; intros st Hst.
  - split; [done|by rewrite app_nil_r].
  - cbn [fold_left].
    destruct (IH (visit_page st p) (visit_page_kept c visited st p Hst))
      as [Hkept Hlisted].
    split; [done|]. by rewrite Hlisted, visit_page_listed, <- app_assoc.
Qed.

Lemma kept_start (c : connection) (visited : gset string)
    (d : dict json) (f : file) :
  kept c visited (State c visited d f [] []).
Proof.
  split; [done|]. split; [done|]. split; [done|]. split.
  - intros call u p [Hcall _]. done.
  - split; [by left|]. exists []. by rewrite app_nil_r.
Qed.

(** The pages of [range(start_page, max_pages + 1)]. *)
Definition pages_from (start_page max_pages : Z) : list Z :=
  map (λ i : nat, start_page + Z.of_nat i * 1)
    (seq 0 (Z.to_nat (range_len start_page (max_pages + 1) 1))).

Lemma pages_from_bounds (start_page max_pages p : Z) :
  p ∈ pages_from start_page max_pages → start_page ≤ p ≤ max_pages.
Proof.
  intros Hp. apply list_elem_of_fmap in Hp as (i & -> & Hi).
  apply elem_of_seq in Hi. unfold range_len in Hi.
  change (0 <? 1) with true in Hi. cbv iota in Hi.
  rewrite Z.div_1_r in Hi. lia.
Qed.

(** A run that returns has loaded a checkpoint, resumed from it and
    folded the pages. *)
Lemma run_unfold (c : connection) (f : file) (max_pages : option Z)
    (mvp_mode : bool) (started_at updated_at : string) (st : state) :
  run c f max_pages mvp_mode started_at updated_at = Ok st →
  ∃ d start_page visited n,
    _load_checkpoint f started_at updated_at = Ok (JDict d) ∧
    resume (JDict d) = Ok (start_page, visited) ∧
    match max_pages with
    | Some n => Ok n
    | None => if mvp_mode then Ok 100 else detect_max_pages
    end = Ok n ∧
    st = fold_left visit_page (pages_from start_page n)
           (State c visited d f [] []).
Proof.
  unfold run.
  destruct (_load_checkpoint f started_at updated_at) as [loaded|];
    [|done]. cbn [rbind].
  destruct (resume loaded) as [[start_page visited]|] eqn:Hresume; [|done].
  cbn [rbind fst snd].
  destruct loaded as [| | | | |d]; try done.
  destruct (match max_pages with Some n => _ | None => _ end) as [n|];
    [|done]. cbn [rbind]. intros [= <-]. by exists d, start_page, visited, n.
Qed.

(** [run] resumes after the page of the checkpoint and never asks again
    for a post the checkpoint has as visited: every listing page it asks
    for lies after [last_listing_page] and up to [max_pages], no post page
    it asks for is in the visited set it started from, the visited set
    only grows, by URLs whose page gave a post, and every post it stores
    has its URL in the visited set it ends with. *)
Theorem run_resumes (c : connection) (f : file) (max_pages : Z)
    (mvp_mode : bool) (started_at updated_at : string)
    (loaded : json) (start_page : Z) (visited : gset string) (st : state) :
  _load_checkpoint f started_at updated_at = Ok loaded →
  resume loaded = Ok (start_page, visited) →
  run c f (Some max_pages) mvp_mode started_at updated_at = Ok st →
  Forall (λ p, start_page ≤ p ≤ max_pages) (listed st) ∧
  Forall (λ u, u ∉ visited) (fetched st) ∧
  visited ⊆ scraped_urls st ∧
  (∀ u, u ∈ scraped_urls st →
        u ∈ visited ∨ ∃ call p, post_at st call u p) ∧
  ∃ added,
    blog_posts (db (conn st)) = blog_posts (db c) ++ added ∧
    Forall (λ r, ∃ u, col r "url" = VText u ∧ u ∈ scraped_urls st) added.
Proof.
  intros Hload Hresume Hrun.
  apply run_unfold in Hrun as (d & start' & visited' & n & Hload' & Hresume'
                               & [= <-] & ->).
  rewrite Hload in Hload'. injection Hload' as ->.
  rewrite Hresume in Hresume'. injection Hresume' as <- <-.
  destruct (visit_pages_kept c visited (pages_from start_page max_pages)
              _ (kept_start c visited d f))
    as [(Hsub & _ & Hfresh & Hcalls & Hwhy & (added & Hadded & Hrows))
        Hlisted].
  split; [|split; [|split; [|split]]]; try done.
  - rewrite Hlisted. apply Forall_forall. intros p Hp.
    by apply pages_from_bounds.
  - exists added. split; [done|]. eapply Forall_impl; [exact Hrows|].
    intros r (call & u & p & Hcol & Hat & _). exists u. split; [done|].
    by apply (Hcalls call u p).
Qed.

(** A post of an expedition that the [expeditions] table does not hold is
    lost: [run] asks for its page, the store refuses the post, and its URL
    is recorded as visited all the same, so that no later run asks for it
    again. *)
Theorem run_loses_unknown_expedition (c : connection) (f : file)
    (max_pages : option Z) (mvp_mode : bool)
    (started_at updated_at : string) (st : state)
    (call : nat) (url : string) (p : page) (n : Z) :
  run c f max_pages mvp_mode started_at updated_at = Ok st →
  post_at st call url p →
  map_date_to_expedition (published_date p) self_expeditions = Some n →
  ¬ has_expedition (db c) n →
  ¬ has_url (db c) url →
  url ∈ scraped_urls st ∧ ¬ has_url (db (conn st)) url.
Proof.
  intros Hrun Hat Hmap Hexp Hurl.
  apply run_unfold in Hrun as (d & start_page & visited & m & _ & _ & _ & ->).
  destruct (visit_pages_kept c visited (pages_from start_page m)
              _ (kept_start c visited d f))
    as [(_ & _ & _ & Hcalls & _ & (added & Hadded & Hrows)) _].
  destruct (Hcalls call url p Hat) as [Hin Hlater]. split; [done|].
  intros (r & Hr & Hsame). rewrite Hadded in Hr.
  apply elem_of_app in Hr as [Hr|Hr]; [apply Hurl; by exists r|].
  rewrite Forall_forall in Hrows.
  destruct (Hrows r Hr) as (call' & u & p' & Hcol & Hat' & Hexp').
  rewrite Hcol in Hsame. cbn in Hsame. apply String.eqb_eq in Hsame as ->.
  destruct (Hcalls call' url p' Hat') as [_ Hlater'].
  assert (call' = call) as ->.
  { destruct (Nat.lt_trichotomy call call') as [Hlt|[Heq|Hgt]]; [|done|].
    - destruct (Hlater call' Hlt). apply Hat'.
    - destruct (Hlater' call Hgt). apply Hat. }
  destruct Hat as [_ Hp], Hat' as [_ Hp'].
  rewrite Hp in Hp'. injection Hp' as <-. by apply Hexp, Hexp'.
Qed.

(** *** The checkpoint the traversal leaves *)

(** A run on the checkpoint file [f] starts on [start_page] with the
    visited set [visited]. *)
Definition resumes_at (f : file) (start_page : Z) (visited : gset string)
    : Prop :=
  ∀ started_at updated_at, ∃ loaded,
    _load_checkpoint f started_at updated_at = Ok loaded ∧
    resume loaded = Ok (start_page, visited).

(** What the checkpoint file holds during a run that started from the
    file [f] with the visited set [visited]: nothing new while no listing
    page could be scraped, then the last page that could and the visited
    set. *)
Definition saved_state (f : file) (visited : gset string)
    (started_at : string) (st : state) : Prop :=
  (∃ last_listing_page urls updated_at,
     checkpoint st
     = checkpoint_dict last_listing_page urls started_at updated_at) ∧
  match last (listed_ok (listed st)) with
  | None => checkpoint_file st = f ∧ scraped_urls st = visited
  | Some page_num =>
      resumes_at (checkpoint_file st) (page_num + 1) (scraped_urls st)
  end.

Lemma load_save_checkpoint (f : file) (last_listing_page : Z)
    (urls : list string) (started_at updated_at : string)
    (page_num : Z) (visited : gset string) (now : string) :
  let saved :=
    _save_checkpoint f
      (record_page
         (checkpoint_dict last_listing_page urls started_at updated_at)
         page_num visited) now in
  saved.2 = checkpoint_dict page_num (elements visited) started_at now ∧
  resumes_at saved.1 (page_num + 1) visited.
Proof.
  cbv zeta. split; [done|]. intros t1 t2.
  exists (JDict (checkpoint_dict page_num (elements visited) started_at now)).
  unfold _save_checkpoint. cbn [fst].
  rewrite run_writes_save. cbn [_load_checkpoint].
  change (dict_set (record_page _ page_num visited) "updated_at" (JStr now))
    with (checkpoint_dict page_num (elements visited) started_at now).
  split; [apply loads_dumps_checkpoint|]. cbn [resume].
  unfold dict_get_default. cbn [checkpoint_dict dict_get].
  cbn [String.eqb Ascii.eqb Bool.eqb default]. unfold id.
  rewrite strings_of_fmap. cbn [rbind fst snd].
  by rewrite list_to_set_elements_L.
Qed.

Lemma listed_ok_snoc (pages : list Z) (page_num : Z) :
  listed_ok (pages ++ [page_num])
  = listed_ok pages ++ match scrape_listing_page page_num with
                       | Ok _ => [page_num]
                       | Raise _ => []
                       end.
Proof.
  unfold listed_ok. rewrite List.filter_app. cbn [List.filter].
  by destruct (scrape_listing_page page_num).
Qed.

Lemma visit_page_saved (f : file) (visited : gset string)
    (started_at : string) (st : state) (page_num : Z) :
  saved_state f visited started_at st →
  saved_state f visited started_at (visit_page st page_num).
Proof.
  intros [(last_listing_page & urls & updated_at & Hdict) Hfile].
  unfold saved_state. rewrite visit_page_listed.
  rewrite listed_ok_snoc. unfold visit_page.
  destruct (scrape_listing_page page_num) as [post_urls|].
  - cbv zeta.
    destruct (visit_posts_frame post_urls st) as (Hc & Hf & _).
    rewrite Hc, Hf, Hdict. cbn [checkpoint checkpoint_file scraped_urls].
    rewrite last_snoc.
    pose proof (load_save_checkpoint (checkpoint_file st) last_listing_page
                  urls started_at updated_at page_num
                  (scraped_urls (fold_left visit_post post_urls st))
                  (utcnow page_num)) as Hsave.
    cbv zeta in Hsave. split.
    + eexists _, _, _. exact (proj1 Hsave).
    + exact (proj2 Hsave).
  - rewrite app_nil_r. cbn [checkpoint checkpoint_file scraped_urls].
    split; [|done]. by exists last_listing_page, urls, updated_at.
Qed.

Lemma visit_pages_saved (f : file) (visited : gset string)
    (started_at : string) (pages : list Z) (st : state) :
  saved_state f visited started_at st →
  saved_state f visited started_at (fold_left visit_page pages st).
Proof.
  revert st. induction pages as [|p pages IH]; intros st Hst; [done|].
  cbn [fold_left]. by apply IH, visit_page_saved.
Qed.

(** After [run], on a checkpoint file that is absent or that an earlier
    run saved, the file holds the last listing page that could be scraped
    and the visited set of the end of the run: the next run starts on the
    page after that one, with that visited set.  When no listing page
    could be scraped, the file is as it was and nothing was visited. *)
Theorem run_saves_last_listed_page (c : connection) (f : file)
    (max_pages : option Z) (mvp_mode : bool)
    (started_at updated_at : string)
    (last_listing_page : Z) (urls : list string) (s u : string)
    (st : state) :
  _load_checkpoint f started_at updated_at
  = Ok (JDict (checkpoint_dict last_listing_page urls s u)) →
  run c f max_pages mvp_mode started_at updated_at = Ok st →
  match last (listed_ok (listed st)) with
  | None => checkpoint_file st = f ∧ scraped_urls st = list_to_set urls
  | Some page_num =>
      resumes_at (checkpoint_file st) (page_num + 1) (scraped_urls st)
  end.
Proof.
  intros Hload Hrun.
  apply run_unfold in Hrun as (d & start_page & visited & n & Hload'
                               & Hresume & _ & ->).
  rewrite Hload in Hload'. injection Hload' as <-.
  assert (visited = list_to_set urls) as ->.
  { revert Hresume. cbn [resume]. unfold dict_get_default.
    cbn [checkpoint_dict dict_get].
    cbn [String.eqb Ascii.eqb Bool.eqb default]. unfold id.
    rewrite strings_of_fmap. cbn [rbind]. by intros [= _ <-]. }
  set (st0 := State c (list_to_set urls) _ f [] []).
  assert (saved_state f (list_to_set urls) s st0) as Hst0.
  { split; [by exists last_listing_page, urls, u|done]. }
  destruct (visit_pages_saved f (list_to_set urls) s
              (pages_from start_page n) st0 Hst0) as [_ Hfile].
  exact Hfile.
Qed.

End run.

(** *** A run on a fresh checkpoint and an empty [expeditions] table *)

(** Two listing pages: the first lists two posts, the second fails. *)
Definition sample_listing (page_num : Z) : result (list string) :=
  if page_num =? 1 then Ok ["a"; "b"]%string else Raise OracleError.

Definition sample_expeditions : list Expedition.t :=
  [Expedition.Build 70 "Expedition 70" (Date 2023 9 27) (Date 2024 4 5)
     [] None].

(** The post at [a] falls in Expedition 70, the page at [b] has no post. *)
Definition sample_post_page (call : nat) (url : string)
    : result (option page) :=
  if String.eqb url "a" then
    Ok (Some (Page "Title" None (Date 2024 1 1) "Some text" "t"))
  else Ok None.

Definition sample_scrape : result state :=
  run sample_listing sample_expeditions sample_post_page (Ok 2)
    (λ _, "t2"%string) (Connection empty_database 0) None (Some 2) false
    "t0" "t1".

Lemma run_resumes_witness :
  ∃ st, sample_scrape = Ok st ∧ Forall (λ p, 1 ≤ p ≤ 2) (listed st).
Proof.
  eexists. split; [reflexivity|].
  exact (proj1 (run_resumes sample_listing sample_expeditions sample_post_page
                  (Ok 2) (λ _, "t2"%string) (Connection empty_database 0)
                  None 2 false "t0" "t1" _ 1 ∅ _ eq_refl eq_refl eq_refl)).
Defined.

Lemma run_loses_unknown_expedition_witness :
  ∃ st, sample_scrape = Ok st ∧
        "a"%string ∈ scraped_urls st ∧ ¬ has_url (db (conn st)) "a".
Proof.
  eexists. split; [reflexivity|].
  apply (run_loses_unknown_expedition sample_listing sample_expeditions
           sample_post_page (Ok 2) (λ _, "t2"%string)
           (Connection empty_database 0) None (Some 2) false "t0" "t1" _
           0%nat "a" (Page "Title" None (Date 2024 1 1) "Some text" "t") 70).
  - reflexivity.
  - split; [vm_compute|]; reflexivity.
  - reflexivity.
  - intros (e & He & _). by apply elem_of_nil in He.
  - intros (r & Hr & _). by apply elem_of_nil in Hr.
Defined.

Lemma run_saves_last_listed_page_witness :
  ∃ st, sample_scrape = Ok st ∧
        resumes_at (checkpoint_file st) 2 (scraped_urls st).
Proof.
  eexists. split; [reflexivity|].
  exact (run_saves_last_listed_page sample_listing sample_expeditions
           sample_post_page (Ok 2) (λ _, "t2"%string)
           (Connection empty_database 0) None (Some 2) false "t0" "t1"
           0 [] "t0" "t1" _ eq_refl eq_refl).
Defined.

End BlogScraper.
